(** * Verification of the convolution weight-gradient routine of cuda-convnet

    The development follows [src/src/cudaconv2/weight_acts.cu] (the three
    kernels [weight_acts_kernel2_color], [weight_acts_kernel2_manycolor],
    [weight_acts_kernel2_manycolor_manyfilter] and the host routine
    [convWeightActs]) and the layer protocol declared in
    [src/include/layer.cuh].

    Conventions of the embedding.
    - A C [int] is a [Z]; [/] and [%] are the truncating [Z.quot] and
      [Z.rem].  Signed overflow is undefined in C++, so no wrap-around is
      written: range assumptions appear where a proof depends on them.
    - A [float] is idealised to an exact number, here a [Z]: sums and
      products are the exact ones, which is the reading "equal up to
      floating tolerance" of the specification.
    - A [float*] is a map from offsets to values, [Z -> Z]; pointer
      arithmetic is addition on the offset.
    - A host call returns an [outcome]: the result, a failed [assert]
      (the process aborts), or an integer division by zero. *)

From Stdlib Require Import ZArith List Bool Lia Permutation.
Import ListNotations.
Open Scope Z_scope.

Ltac Zify.zify_post_hook ::= Z.to_euclidean_division_equations.

(** ** Outcomes of a host call *)

Inductive outcome (A : Type) : Type :=
| Done (a : A)
| AssertFail (line : Z)
| DivByZero (line : Z).
Arguments Done {A} a.
Arguments AssertFail {A} line.
Arguments DivByZero {A} line.

Definition bind {A B : Type} (x : outcome A) (k : A -> outcome B) : outcome B :=
  match x with
  | Done a => k a
  | AssertFail l => AssertFail l
  | DivByZero l => DivByZero l
  end.

Notation "x <- e ;; k" := (bind e (fun x => k))
  (at level 61, e at next level, right associativity).
Notation "e ;;; k" := (bind e (fun _ => k))
  (at level 61, right associativity).

(** [assert(b)] at source line [line]. *)
Definition assert (line : Z) (b : bool) : outcome unit :=
  if b then Done tt else AssertFail line.

(** [a / b] on [int] at source line [line]. *)
Definition idiv (line : Z) (a b : Z) : outcome Z :=
  if b =? 0 then DivByZero line else Done (a ÷ b).

Definition aborted {A : Type} (x : outcome A) : Prop :=
  match x with Done _ => False | _ => True end.

(** ** Dense tensors *)

(** Modelled from the spec: the class [NVMatrix] of the absent header
    [nvmatrix.cuh]; the specification's Tensor is
    [{rows, cols, stride, isTransposed, isContiguous, deviceBuffer}]. *)
Record NVMatrix : Type := mkNVMatrix {
  getNumRows : Z;
  getNumCols : Z;
  getStride : Z;
  isTrans : bool;
  isContiguous : bool;
  getDevData : Z -> Z
}.

(** Modelled from the spec: [NVMatrix::resize] of the absent header; device
    buffers are "sized by resize", the contents after it are whatever the
    buffer holds. *)
Definition resize (m : NVMatrix) (rows cols : Z) : NVMatrix :=
  mkNVMatrix rows cols cols (isTrans m) true (getDevData m).

Definition withDevData (m : NVMatrix) (d : Z -> Z) : NVMatrix :=
  mkNVMatrix (getNumRows m) (getNumCols m) (getStride m) (isTrans m)
             (isContiguous m) d.

(** Modelled from the spec: the macro [DIVUP] of the absent header, the
    number of tiles of width [y] that cover [x] positions. *)
Definition DIVUP (x y : Z) : Z := (x + y - 1) ÷ y.

(** ** Kernel instantiations and launch geometry *)

Record dim3 : Type := mkDim3 { dim_x : Z; dim_y : Z }.

(** A template instantiation of one of the three kernels. *)
Inductive kernel : Type :=
| k_color (B_Y B_X pixelsPerThread preloadCases numColors : Z)
          (scale checkCaseBounds : bool)
| k_manycolor (B_Y B_X pixelsPerThread colorsPerThread preloadCases : Z)
              (scale checkCaseBounds : bool)
| k_manycolor_manyfilter (B_Y B_X filtersPerThread colorsPerThread preloadCases : Z)
                         (scale checkCaseBounds : bool).

(** The run-time arguments shared by the three kernels. *)
Record kargs : Type := mkKargs {
  a_numImages : Z; a_numFilters : Z; a_numModulesX : Z; a_imgSize : Z;
  a_filterSize : Z; a_paddingStart : Z; a_moduleStride : Z; a_imgStride : Z;
  a_numImgColors : Z; a_modulesPerBlock : Z; a_numGroups : Z;
  a_scaleTargets : Z; a_scaleOutput : Z
}.

(** What [convWeightActs] has decided when it reaches the launch. *)
Record launch : Type := mkLaunch {
  l_targets : NVMatrix;
  l_kernel : option kernel;
  l_blocks : dim3;
  l_threads : dim3;
  l_args : kargs
}.

(** Lines 664-1025 of [convWeightActs]: the instantiation that is launched.
    [None] is the fall-through of the [if / else if] chain on
    [numFilterColors] in the few-colour branch. *)
Definition select_kernel (numFilterColors numFiltersPerGroup numFilters
                          scaleTargets scaleOutput : Z)
                         (checkCaseBounds : bool) : option kernel :=
  if numFilterColors >? 3 then
    if (scaleTargets =? 0) && (scaleOutput =? 1) then
      if Z.rem numFiltersPerGroup 32 =? 0 then
        if Z.rem numFiltersPerGroup 64 =? 0 then
          if Z.rem numFilterColors 8 =? 0 then
            if checkCaseBounds then
              Some (k_manycolor_manyfilter 4 32 2 8 32 false true)
            else
              Some (k_manycolor_manyfilter 4 32 2 8 32 false false)
          else
            if checkCaseBounds then
              Some (k_manycolor_manyfilter 4 32 2 4 32 false true)
            else
              Some (k_manycolor_manyfilter 4 32 2 4 32 false false)
        else
          if Z.rem numFilterColors 8 =? 0 then
            if checkCaseBounds then
              Some (k_manycolor_manyfilter 8 16 2 8 32 false true)
            else
              Some (k_manycolor_manyfilter 8 16 2 8 32 false false)
          else
            if checkCaseBounds then
              Some (k_manycolor_manyfilter 8 16 2 4 32 false true)
            else
              Some (k_manycolor_manyfilter 8 16 2 4 32 false false)
      else
        if Z.rem numFilterColors 8 =? 0 then
          if checkCaseBounds then
            if Z.rem numFiltersPerGroup 32 =? 0 then
              Some (k_manycolor 4 32 2 8 32 false true)
            else
              Some (k_manycolor 8 16 2 8 32 false true)
          else
            if Z.rem numFiltersPerGroup 32 =? 0 then
              Some (k_manycolor 4 32 2 8 32 false false)
            else
              Some (k_manycolor 8 16 2 8 32 false false)
        else
          if checkCaseBounds then
            if Z.rem numFiltersPerGroup 32 =? 0 then
              Some (k_manycolor 4 32 2 4 32 false true)
            else
              Some (k_manycolor 8 16 2 4 32 false true)
          else
            if Z.rem numFiltersPerGroup 32 =? 0 then
              Some (k_manycolor 4 32 2 4 32 false false)
            else
              Some (k_manycolor 8 16 2 4 32 false false)
    else
      if Z.rem numFiltersPerGroup 32 =? 0 then
        if Z.rem numFiltersPerGroup 64 =? 0 then
          if Z.rem numFilterColors 8 =? 0 then
            if checkCaseBounds then
              Some (k_manycolor_manyfilter 4 32 2 8 32 true true)
            else
              Some (k_manycolor_manyfilter 4 32 2 8 32 true false)
          else
            if checkCaseBounds then
              Some (k_manycolor_manyfilter 4 32 2 4 32 true true)
            else
              Some (k_manycolor_manyfilter 4 32 2 4 32 true false)
        else
          if Z.rem numFilterColors 8 =? 0 then
            if checkCaseBounds then
              Some (k_manycolor_manyfilter 8 16 2 8 32 true true)
            else
              Some (k_manycolor_manyfilter 8 16 2 8 32 true false)
          else
            if checkCaseBounds then
              Some (k_manycolor_manyfilter 8 16 2 4 32 true true)
            else
              Some (k_manycolor_manyfilter 8 16 2 4 32 true false)
      else
        if Z.rem numFilterColors 8 =? 0 then
          if checkCaseBounds then
            if Z.rem numFiltersPerGroup 32 =? 0 then
              Some (k_manycolor 4 32 2 8 32 true true)
            else
              Some (k_manycolor 8 16 2 8 32 true true)
          else
            if Z.rem numFiltersPerGroup 32 =? 0 then
              Some (k_manycolor 4 32 2 8 32 true false)
            else
              Some (k_manycolor 8 16 2 8 32 true false)
        else
          if checkCaseBounds then
            if Z.rem numFiltersPerGroup 32 =? 0 then
              Some (k_manycolor 4 32 2 4 32 true true)
            else
              Some (k_manycolor 8 16 2 4 32 true true)
          else
            if Z.rem numFiltersPerGroup 32 =? 0 then
              Some (k_manycolor 4 32 2 4 32 true false)
            else
              Some (k_manycolor 8 16 2 4 32 true false)
  else
    if (scaleTargets =? 0) && (scaleOutput =? 1) then
      if numFilterColors =? 1 then
        if checkCaseBounds then
          if Z.rem numFilters 32 =? 0 then
            Some (k_color 4 32 8 32 1 false true)
          else
            Some (k_color 8 16 5 32 1 false true)
        else
          if Z.rem numFilters 32 =? 0 then
            Some (k_color 4 32 8 32 1 false false)
          else
            Some (k_color 8 16 5 32 1 false false)
      else
        if numFilterColors =? 2 then
          if checkCaseBounds then
            if Z.rem numFilters 32 =? 0 then
              Some (k_color 4 32 5 32 2 false true)
            else
              Some (k_color 8 16 2 32 2 false true)
          else
            if Z.rem numFilters 32 =? 0 then
              Some (k_color 4 32 5 32 2 false false)
            else
              Some (k_color 8 16 2 32 2 false false)
        else
          if numFilterColors =? 3 then
            if checkCaseBounds then
              if Z.rem numFilters 32 =? 0 then
                Some (k_color 4 32 5 32 3 false true)
              else
                Some (k_color 8 16 2 32 3 false true)
            else
              if Z.rem numFilters 32 =? 0 then
                Some (k_color 4 32 5 32 3 false false)
              else
                Some (k_color 8 16 2 32 3 false false)
          else
            None
    else
      if numFilterColors =? 1 then
        if checkCaseBounds then
          if Z.rem numFilters 32 =? 0 then
            Some (k_color 4 32 8 32 1 true true)
          else
            Some (k_color 8 16 5 32 1 true true)
        else
          if Z.rem numFilters 32 =? 0 then
            Some (k_color 4 32 8 32 1 true false)
          else
            Some (k_color 8 16 5 32 1 true false)
      else
        if numFilterColors =? 2 then
          if checkCaseBounds then
            if Z.rem numFilters 32 =? 0 then
              Some (k_color 4 32 5 32 2 true true)
            else
              Some (k_color 8 16 2 32 2 true true)
          else
            if Z.rem numFilters 32 =? 0 then
              Some (k_color 4 32 5 32 2 true false)
            else
              Some (k_color 8 16 2 32 2 true false)
        else
          if numFilterColors =? 3 then
            if checkCaseBounds then
              if Z.rem numFilters 32 =? 0 then
                Some (k_color 4 32 5 32 3 true true)
              else
                Some (k_color 8 16 2 32 3 true true)
            else
              if Z.rem numFilters 32 =? 0 then
                Some (k_color 4 32 5 32 3 true false)
              else
                Some (k_color 8 16 2 32 3 true false)
          else
            None.

(** Lines 624-653: block shape and grid. *)
Definition launch_geometry (numFilterColors numFiltersPerGroup numFilters
                            numImgColors numGroups numModules moduleSum
                            filterPixels : Z) : outcome (dim3 * dim3) :=
  if numFilterColors >? 3 then
    if Z.rem numFiltersPerGroup 32 =? 0 then
      let filtersPerThread := 2 in
      let by_ := if Z.rem numFiltersPerGroup 64 =? 0 then 4 else 8 in
      let bx := if Z.rem numFiltersPerGroup 64 =? 0 then 32 else 16 in
      let colorsPerThread := if Z.rem numFilterColors 8 =? 0 then 8 else 4 in
      Done (mkDim3 ((numModules ÷ moduleSum) * (numFilters ÷ (bx * filtersPerThread)))
                   (DIVUP filterPixels by_ * (numFilterColors ÷ colorsPerThread)),
            mkDim3 bx by_)
    else
      let pixelsPerThread := 2 in
      let colorsPerThread := if Z.rem numFilterColors 8 =? 0 then 8 else 4 in
      let by_ := if Z.rem numFiltersPerGroup 32 =? 0 then 4 else 8 in
      let bx := if Z.rem numFiltersPerGroup 32 =? 0 then 32 else 16 in
      Done (mkDim3 ((numModules ÷ moduleSum) * (numFilters ÷ bx))
                   (DIVUP filterPixels (by_ * pixelsPerThread)
                    * (numFilterColors ÷ colorsPerThread)),
            mkDim3 bx by_)
  else
    assert 648 (numGroups =? 1) ;;;
    let pixelsPerThread :=
      if Z.rem numFilters 32 =? 0
      then (if numImgColors =? 1 then 8 else 5)
      else (if numImgColors =? 1 then 5 else 2) in
    let by_ := if Z.rem numFilters 32 =? 0 then 4 else 8 in
    let bx := if Z.rem numFilters 32 =? 0 then 32 else 16 in
    Done (mkDim3 ((numModules ÷ moduleSum) * (numFilters ÷ bx))
                 (DIVUP filterPixels (by_ * pixelsPerThread)),
          mkDim3 bx by_).

(** Lines 585-663 and the choice of lines 664-1025: everything
    [convWeightActs] does before the kernel runs. *)
Definition convWeightActs_host (images hidActs targets : NVMatrix)
    (numModulesX filterSize paddingStart moduleStride numImgColors
     numGroups scaleTargets scaleOutput moduleSum : Z) : outcome launch :=
  numFilterColors <- idiv 589 numImgColors numGroups ;;
  let imgStride := getStride images in
  let numImages := getNumCols images in
  imgPixels <- idiv 592 (getNumRows images) numImgColors ;;
  let imgSize := Z.sqrt imgPixels in
  let numModules := numModulesX * numModulesX in
  numFilters <- idiv 595 (getNumRows hidActs) numModules ;;
  numFiltersPerGroup <- idiv 596 numFilters numGroups ;;
  assert 598 (Z.rem numImgColors numGroups =? 0) ;;;
  assert 599 (Z.rem numFilters (16 * numGroups) =? 0) ;;;
  assert 600 ((numGroups >? 1)
              || ((numImgColors >? 0)
                  && ((numImgColors <=? 3) || (Z.rem numImgColors 4 =? 0)))) ;;;
  assert 601 ((numGroups =? 1) || (Z.rem numFilterColors 4 =? 0)) ;;;
  assert 602 (imgSize * imgSize =? imgPixels) ;;;
  assert 603 (getNumRows images =? imgPixels * numImgColors) ;;;
  let filterPixels := filterSize * filterSize in
  let moduleSum := if moduleSum =? 0 then numModules else moduleSum in
  assert 608 (Z.rem numModules moduleSum =? 0) ;;;
  assert 609 (getNumCols hidActs =? numImages) ;;;
  assert 612 ((paddingStart <=? 0)
              && (paddingStart + (numModules - 1) * moduleStride + filterSize
                  >=? imgSize)) ;;;
  assert 613 (moduleStride <=? filterSize) ;;;
  assert 615 (numModules * numFilters =? getNumRows hidActs) ;;;
  assert 617 (negb (isTrans images)) ;;;
  assert 618 (negb (isTrans hidActs)) ;;;
  assert 619 (isContiguous hidActs) ;;;
  assert 621 (negb (isTrans targets)) ;;;
  assert 622 (isContiguous targets) ;;;
  let preloadCases := 32 in
  geom <- launch_geometry numFilterColors numFiltersPerGroup numFilters
                          numImgColors numGroups numModules moduleSum
                          filterPixels ;;
  let blocks := fst geom in
  let threads := snd geom in
  assert 654 (Z.rem (dim_y threads * dim_x threads) preloadCases =? 0) ;;;
  let checkCaseBounds := negb (Z.rem numImages 32 =? 0) in
  targets' <-
    (if (scaleTargets =? 0) && (scaleOutput =? 1) then
       Done (resize targets ((numModules ÷ moduleSum) * numFilterColors * filterPixels)
                    numFilters)
     else
       assert 661 (getNumRows targets
                   =? (numModules ÷ moduleSum) * numFilterColors * filterPixels) ;;;
       assert 662 (getNumCols targets =? numFilters) ;;;
       Done targets) ;;
  Done (mkLaunch targets'
          (select_kernel numFilterColors numFiltersPerGroup numFilters
                         scaleTargets scaleOutput checkCaseBounds)
          blocks threads
          (mkKargs numImages numFilters numModulesX imgSize filterSize
                   paddingStart moduleStride imgStride numImgColors moduleSum
                   numGroups scaleTargets scaleOutput)).

(** ** Device memory, loops and the threads of a block *)

Definition upd (m : Z -> Z) (a v : Z) : Z -> Z :=
  fun x => if x =? a then v else m x.

(** A store instruction: offset and value. *)
Definition write : Type := (Z * Z)%type.

(** The stores [ws] performed in order on the memory [m]. *)
Definition store (ws : list write) (m : Z -> Z) : Z -> Z :=
  fold_left (fun m w => upd m (fst w) (snd w)) ws m.

(** The values taken by [i] in [for (i = lo; i < hi; i += step)], [step >= 1]. *)
Definition for_range (lo hi step : Z) : list Z :=
  map (fun k => lo + Z.of_nat k * step)
      (seq 0 (Z.to_nat ((hi - lo + step - 1) / step))).

(** The pairs [(x, y)] of a [dim3]: thread indices of a block, or block
    indices of a grid. *)
Definition indices (d : dim3) : list (Z * Z) :=
  flat_map (fun y => map (fun x => (x, y)) (for_range 0 (dim_x d) 1))
           (for_range 0 (dim_y d) 1).

(** A per-thread register array [prod[.][.]]. *)
Definition upd2 (f : Z -> Z -> Z) (c p v : Z) : Z -> Z -> Z :=
  fun c' p' => if (c' =? c) && (p' =? p) then v else f c' p'.

(** The [__shared__] arrays of a block, flattened row by row, and the
    register arrays of its threads (indexed by [threadIdx.x], [threadIdx.y]). *)
Record block_state : Type := mkBlockState {
  shImages : Z -> Z;
  shHidActs : Z -> Z;
  prod : Z -> Z -> Z -> Z -> Z
}.

(** What the [__shared__] arrays of a block hold before the kernel writes
    them: they are not initialised. *)
Record uninit : Type := mkUninit {
  u_shImages : Z -> Z;
  u_shHidActs : Z -> Z;
  u_pxDivs : Z -> Z;
  u_pxMods : Z -> Z
}.

Definition LO16 (x : Z) : Z := Z.land x 65535.
Definition HI16 (x : Z) : Z := Z.shiftr x 16.

(** ** [weight_acts_kernel2_color] *)

Module Color.
Section Kernel.
(* template parameters *)
Variables (B_Y B_X pixelsPerThread preloadCases numColors : Z)
          (scale checkCaseBounds : bool).
(* kernel arguments *)
Variables (images hidActs : Z -> Z).
Variables (numImages numFilters numModulesX imgSize filterSize paddingStart
           moduleStride imgStride modulesPerBlock scaleTargets scaleOutput : Z).
(* launch *)
Variables (blockDim : dim3) (blockIdx_x blockIdx_y : Z).

Definition tidx (tx ty : Z) : Z := B_X * ty + tx.
Definition loadY (tx ty : Z) : Z := tidx tx ty ÷ preloadCases.
Definition loadX (tx ty : Z) : Z := Z.rem (tidx tx ty) preloadCases.

Definition filterPixels : Z := filterSize * filterSize.
Definition imgPixels : Z := imgSize * imgSize.

Definition blocksPerModule : Z := numFilters ÷ B_X.
Definition outputModuleIdx : Z := blockIdx_x ÷ blocksPerModule.
Definition moduleIdx : Z := modulesPerBlock * outputModuleIdx.
Definition blockFilterIdx : Z := B_X * Z.rem blockIdx_x blocksPerModule.

Definition numModules : Z := numModulesX * numModulesX.

Definition blockPixelOffset : Z := blockIdx_y * B_Y * pixelsPerThread.

(** [images += loadX]. *)
Definition images_ptr (tx ty : Z) : Z := loadX tx ty.

(** [hidActs += ...] before the loop, and [hidActs += numImages] at the
    end of every module, so in module [m] the pointer has advanced
    [m - moduleIdx] times. *)
Definition hidActs_ptr (m tx ty : Z) : Z :=
  moduleIdx * numImages
  + blockFilterIdx * numImages * numModules
  + loadY tx ty * numImages * numModules
  + loadX tx ty
  + (m - moduleIdx) * numImages.

Definition targets_ptr (tx ty : Z) : Z :=
  (outputModuleIdx * numFilters) * filterPixels * numColors
  + blockPixelOffset * numFilters
  + blockFilterIdx
  + ty * numFilters + tx.

(** [&shImages[loadY][loadX]] and [&shHidActs[loadY][loadX]]. *)
Definition shImgLoad (tx ty : Z) : Z := loadY tx ty * preloadCases + loadX tx ty.
Definition shHidActLoad (tx ty : Z) : Z :=
  loadY tx ty * (preloadCases + 1) + loadX tx ty.

Definition imgLoadModPosY (m : Z) : Z := paddingStart + (m ÷ numModulesX) * moduleStride.
Definition imgLoadModPosX (m : Z) : Z := paddingStart + Z.rem m numModulesX * moduleStride.

(** What the load phase leaves in the tiles, for the image [j] of the batch:
    the entry of [shImages] for module [m], colour [c] and filter pixel [px],
    and the entry of [shHidActs] for module [m] and row [h]. *)
Definition tile_img (m c px j : Z) : Z :=
  if px <? filterPixels then
    let pxY := imgLoadModPosY m + px ÷ filterSize in
    let pxX := imgLoadModPosX m + Z.rem px filterSize in
    if (pxY >=? 0) && (pxY <? imgSize) && (pxX >=? 0) && (pxX <? imgSize) then
      images (j + (c * imgPixels * imgStride + (pxY * imgSize + pxX) * imgStride))
    else 0
  else 0.

Definition tile_hid (m h j : Z) : Z :=
  hidActs (((blockFilterIdx + h) * numModules + m) * numImages + j).

(** Lines 107-144: the stores of one thread into [shImages]. *)
Definition load_shImages (m caseIdx tx ty : Z) : list write :=
  if loadY tx ty <? B_Y * pixelsPerThread then
    flat_map (fun y =>
      if (Z.rem (B_Y * pixelsPerThread) (B_X * B_Y ÷ preloadCases) =? 0)
         || (y + loadY tx ty <? B_Y * pixelsPerThread) then
        let pxIdx := blockPixelOffset + loadY tx ty + y in
        if (pxIdx <? filterPixels)
           && (negb checkCaseBounds || (caseIdx + loadX tx ty <? numImages)) then
          let pxY := imgLoadModPosY m + pxIdx ÷ filterSize in
          let pxX := imgLoadModPosX m + Z.rem pxIdx filterSize in
          if (pxY >=? 0) && (pxY <? imgSize) && (pxX >=? 0) && (pxX <? imgSize) then
            let pixIdx := (pxY * imgSize + pxX) * imgStride in
            map (fun c =>
                   (shImgLoad tx ty + (y + c * pixelsPerThread * B_Y) * preloadCases,
                    images (images_ptr tx ty
                            + (caseIdx + c * imgPixels * imgStride + pixIdx))))
                (for_range 0 numColors 1)
          else
            map (fun c =>
                   (shImgLoad tx ty + (y + c * pixelsPerThread * B_Y) * preloadCases, 0))
                (for_range 0 numColors 1)
        else
          map (fun c =>
                 (shImgLoad tx ty + (y + c * pixelsPerThread * B_Y) * preloadCases, 0))
              (for_range 0 numColors 1)
      else [])
      (for_range 0 (B_Y * pixelsPerThread) ((B_X * B_Y) ÷ preloadCases))
  else [].

(** Lines 145-153: the stores of one thread into [shHidActs]. *)
Definition load_shHidActs (m caseIdx tx ty : Z) : list write :=
  if (loadY tx ty <? B_X)
     && (negb checkCaseBounds || (caseIdx + loadX tx ty <? numImages)) then
    flat_map (fun y =>
      if (Z.rem B_X (B_X * B_Y ÷ preloadCases) =? 0) || (y + loadY tx ty <? B_X) then
        [(shHidActLoad tx ty + y * (preloadCases + 1),
          hidActs (hidActs_ptr m tx ty + (caseIdx + y * numImages * numModules)))]
      else [])
      (for_range 0 B_X ((B_X * B_Y) ÷ preloadCases))
  else [].

(** Lines 156-165: the accumulation of one thread out of shared memory. *)
Definition accumulate (shI shH : Z -> Z) (tx ty : Z) (prod : Z -> Z -> Z)
  : Z -> Z -> Z :=
  fold_left (fun prod p =>
    fold_left (fun prod i =>
      fold_left (fun prod c =>
        upd2 prod c p
             (prod c p
              + shI ((ty + p * B_Y + c * pixelsPerThread * B_Y) * preloadCases + i)
                * shH (tx * (preloadCases + 1) + i)))
        (for_range 0 numColors 1) prod)
      (for_range 0 preloadCases 1) prod)
    (for_range 0 pixelsPerThread 1) prod.

(** One iteration of the loop on [caseIdx]: every thread loads, the block
    synchronises, every thread accumulates, the block synchronises. *)
Definition tile_step (m : Z) (st : block_state) (caseIdx : Z) : block_state :=
  let shI := store (flat_map (fun t => load_shImages m caseIdx (fst t) (snd t))
                             (indices blockDim)) (shImages st) in
  let shH := store (flat_map (fun t => load_shHidActs m caseIdx (fst t) (snd t))
                             (indices blockDim)) (shHidActs st) in
  mkBlockState shI shH
    (fun tx ty => accumulate shI shH tx ty (prod st tx ty)).

(** Lines 95-169. *)
Definition block_loop (u : uninit) : block_state :=
  fold_left (fun st m =>
               fold_left (tile_step m) (for_range 0 numImages preloadCases) st)
            (for_range moduleIdx (moduleIdx + modulesPerBlock) 1)
            (mkBlockState (u_shImages u) (u_shHidActs u) (fun _ _ _ _ => 0)).

(** Lines 171-191: the stores of one thread into [targets]. *)
Definition write_targets (tx ty : Z) (prod : Z -> Z -> Z) (targets : Z -> Z)
  : Z -> Z :=
  if scale then
    fold_left (fun targets p =>
      if blockPixelOffset + p * B_Y + ty <? filterPixels then
        fold_left (fun targets c =>
          let a := targets_ptr tx ty
                   + (p * B_Y * numFilters + c * filterPixels * numFilters) in
          upd targets a (scaleTargets * targets a + scaleOutput * prod c p))
          (for_range 0 numColors 1) targets
      else targets)
      (for_range 0 pixelsPerThread 1) targets
  else
    fold_left (fun targets p =>
      if blockPixelOffset + p * B_Y + ty <? filterPixels then
        fold_left (fun targets c =>
          let a := targets_ptr tx ty
                   + (p * B_Y * numFilters + c * filterPixels * numFilters) in
          upd targets a (prod c p))
          (for_range 0 numColors 1) targets
      else targets)
      (for_range 0 pixelsPerThread 1) targets.

(** The whole block: the threads of a block touch distinct cells of
    [targets], so they are run one after the other. *)
Definition run_block (u : uninit) (targets : Z -> Z) : Z -> Z :=
  let st := block_loop u in
  fold_left (fun targets t =>
               write_targets (fst t) (snd t) (prod st (fst t) (snd t)) targets)
            (indices blockDim) targets.
End Kernel.
End Color.

(** ** [weight_acts_kernel2_manycolor] *)

Module ManyColor.
Section Kernel.
(* template parameters *)
Variables (B_Y B_X pixelsPerThread colorsPerThread preloadCases : Z)
          (scale checkCaseBounds : bool).
(* kernel arguments *)
Variables (images hidActs : Z -> Z).
Variables (numImages numFilters numModulesX imgSize filterSize paddingStart
           moduleStride imgStride numImgColors modulesPerBlock numGroups
           scaleTargets scaleOutput : Z).
(* launch *)
Variables (blockDim : dim3) (blockIdx_x blockIdx_y : Z).

Definition tidx (tx ty : Z) : Z := B_X * ty + tx.
Definition loadY (tx ty : Z) : Z := tidx tx ty ÷ preloadCases.
Definition loadX (tx ty : Z) : Z := Z.rem (tidx tx ty) preloadCases.

Definition filterPixels : Z := filterSize * filterSize.
Definition imgPixels : Z := imgSize * imgSize.

Definition blocksPerModule : Z := numFilters ÷ B_X.
Definition outputModuleIdx : Z := blockIdx_x ÷ blocksPerModule.
Definition moduleIdx : Z := modulesPerBlock * outputModuleIdx.
Definition blockFilterIdx : Z := B_X * Z.rem blockIdx_x blocksPerModule.
Definition numModules : Z := numModulesX * numModulesX.

Definition numFiltersPerGroup : Z := numFilters ÷ numGroups.
Definition blockGroupIdx : Z := blockFilterIdx ÷ numFiltersPerGroup.
Definition numFilterColors : Z := numImgColors ÷ numGroups.
Definition groupColorIdx : Z := blockGroupIdx * numFilterColors.

Definition blockPixelOffset : Z :=
  (blockIdx_y ÷ (numFilterColors ÷ colorsPerThread)) * B_Y * pixelsPerThread.
Definition blockColorIdx : Z :=
  Z.rem blockIdx_y (numFilterColors ÷ colorsPerThread) * colorsPerThread.

Definition images_ptr (tx ty : Z) : Z :=
  (groupColorIdx + blockColorIdx) * imgPixels * imgStride + loadX tx ty.

Definition hidActs_ptr (m tx ty : Z) : Z :=
  moduleIdx * numImages
  + blockFilterIdx * numImages * numModules
  + loadY tx ty * numImages * numModules
  + loadX tx ty
  + (m - moduleIdx) * numImages.

Definition targets_ptr (tx ty : Z) : Z :=
  outputModuleIdx * numFilters * filterPixels * numFilterColors
  + blockColorIdx * filterPixels * numFilters
  + blockPixelOffset * numFilters
  + blockFilterIdx
  + ty * numFilters + tx.

Definition shHidActLoad (tx ty : Z) : Z :=
  loadY tx ty * (preloadCases + 1) + loadX tx ty.
Definition shImgLoad (tx ty : Z) : Z := loadY tx ty * preloadCases + loadX tx ty.

(** Lines 283-286: the table [pxDivs], one entry per thread with
    [tidx < B_Y * pixelsPerThread].  The source packs the entry in a 32-bit
    [int]; here it is a [Z] and the shift never wraps, which is what the
    source computes as long as the remainder is below 32768, that is for
    [filterSize <= 32768]. *)
Definition fill_pxDivs (tx ty : Z) : list write :=
  if tidx tx ty <? B_Y * pixelsPerThread then
    [(tidx tx ty,
      (blockPixelOffset + tidx tx ty) ÷ filterSize
      + Z.shiftl (Z.rem (blockPixelOffset + tidx tx ty) filterSize) 16)]
  else [].

Definition pxDivs (u : uninit) : Z -> Z :=
  store (flat_map (fun t => fill_pxDivs (fst t) (snd t)) (indices blockDim))
        (u_pxDivs u).

Definition imgLoadModPosY (m : Z) : Z := paddingStart + (m ÷ numModulesX) * moduleStride.
Definition imgLoadModPosX (m : Z) : Z := paddingStart + Z.rem m numModulesX * moduleStride.

(** What the load phase leaves in the tiles, for the image [j] of the batch:
    the entry of [shImages] for module [m], colour [c] of the block and
    filter pixel [px], and the entry of [shHidActs] for module [m] and row [h]. *)
Definition tile_img (m c px j : Z) : Z :=
  if px <? filterPixels then
    let pxY := imgLoadModPosY m + px ÷ filterSize in
    let pxX := imgLoadModPosX m + Z.rem px filterSize in
    if (pxY >=? 0) && (pxY <? imgSize) && (pxX >=? 0) && (pxX <? imgSize) then
      images ((groupColorIdx + blockColorIdx) * imgPixels * imgStride + j
              + (c * imgPixels * imgStride + (pxY * imgSize + pxX) * imgStride))
    else 0
  else 0.

Definition tile_hid (m h j : Z) : Z :=
  hidActs (((blockFilterIdx + h) * numModules + m) * numImages + j).

(** Lines 292-330: the stores of one thread into [shImages]. *)
Definition load_shImages (pxDivs : Z -> Z) (m caseIdx tx ty : Z) : list write :=
  if loadY tx ty <? B_Y * pixelsPerThread then
    flat_map (fun y =>
      if (Z.rem (B_Y * pixelsPerThread) (B_X * B_Y ÷ preloadCases) =? 0)
         || (y + loadY tx ty <? B_Y * pixelsPerThread) then
        let pxIdx := loadY tx ty + y in
        if (pxIdx + blockPixelOffset <? filterPixels)
           && (negb checkCaseBounds || (caseIdx + loadX tx ty <? numImages)) then
          let pxY := imgLoadModPosY m + LO16 (pxDivs pxIdx) in
          let pxX := imgLoadModPosX m + HI16 (pxDivs pxIdx) in
          if (pxY >=? 0) && (pxY <? imgSize) && (pxX >=? 0) && (pxX <? imgSize) then
            let pixIdx := (pxY * imgSize + pxX) * imgStride in
            map (fun c =>
                   (shImgLoad tx ty + (y + c * pixelsPerThread * B_Y) * preloadCases,
                    images (images_ptr tx ty
                            + (caseIdx + c * imgPixels * imgStride + pixIdx))))
                (for_range 0 colorsPerThread 1)
          else
            map (fun c =>
                   (shImgLoad tx ty + (y + c * pixelsPerThread * B_Y) * preloadCases, 0))
                (for_range 0 colorsPerThread 1)
        else
          map (fun c =>
                 (shImgLoad tx ty + (y + c * pixelsPerThread * B_Y) * preloadCases, 0))
              (for_range 0 colorsPerThread 1)
      else [])
      (for_range 0 (B_Y * pixelsPerThread) ((B_X * B_Y) ÷ preloadCases))
  else [].

(** Lines 331-339: the stores of one thread into [shHidActs]. *)
Definition load_shHidActs (m caseIdx tx ty : Z) : list write :=
  if (loadY tx ty <? B_X)
     && (negb checkCaseBounds || (caseIdx + loadX tx ty <? numImages)) then
    flat_map (fun y =>
      if (Z.rem B_X (B_X * B_Y ÷ preloadCases) =? 0) || (y + loadY tx ty <? B_X) then
        [(shHidActLoad tx ty + y * (preloadCases + 1),
          hidActs (hidActs_ptr m tx ty + (caseIdx + y * numImages * numModules)))]
      else [])
      (for_range 0 B_X ((B_X * B_Y) ÷ preloadCases))
  else [].

(** Lines 343-352: the accumulation of one thread out of shared memory. *)
Definition accumulate (shI shH : Z -> Z) (tx ty : Z) (prod : Z -> Z -> Z)
  : Z -> Z -> Z :=
  fold_left (fun prod c =>
    fold_left (fun prod i =>
      fold_left (fun prod p =>
        upd2 prod c p
             (prod c p
              + shI ((ty + p * B_Y + c * pixelsPerThread * B_Y) * preloadCases + i)
                * shH (tx * (preloadCases + 1) + i)))
        (for_range 0 pixelsPerThread 1) prod)
      (for_range 0 preloadCases 1) prod)
    (for_range 0 colorsPerThread 1) prod.

Definition tile_step (pxDivs : Z -> Z) (m : Z) (st : block_state) (caseIdx : Z)
  : block_state :=
  let shI := store (flat_map (fun t => load_shImages pxDivs m caseIdx (fst t) (snd t))
                             (indices blockDim)) (shImages st) in
  let shH := store (flat_map (fun t => load_shHidActs m caseIdx (fst t) (snd t))
                             (indices blockDim)) (shHidActs st) in
  mkBlockState shI shH
    (fun tx ty => accumulate shI shH tx ty (prod st tx ty)).

(** Lines 273-356. *)
Definition block_loop (u : uninit) : block_state :=
  let pxDivs := pxDivs u in
  fold_left (fun st m =>
               fold_left (tile_step pxDivs m) (for_range 0 numImages preloadCases) st)
            (for_range moduleIdx (moduleIdx + modulesPerBlock) 1)
            (mkBlockState (u_shImages u) (u_shHidActs u) (fun _ _ _ _ => 0)).

(** Lines 358-378: the stores of one thread into [targets]. *)
Definition write_targets (tx ty : Z) (prod : Z -> Z -> Z) (targets : Z -> Z)
  : Z -> Z :=
  if scale then
    fold_left (fun targets p =>
      if blockPixelOffset + p * B_Y + ty <? filterPixels then
        fold_left (fun targets c =>
          let a := targets_ptr tx ty
                   + (p * B_Y * numFilters + c * filterPixels * numFilters) in
          upd targets a (scaleTargets * targets a + scaleOutput * prod c p))
          (for_range 0 colorsPerThread 1) targets
      else targets)
      (for_range 0 pixelsPerThread 1) targets
  else
    fold_left (fun targets p =>
      if blockPixelOffset + p * B_Y + ty <? filterPixels then
        fold_left (fun targets c =>
          let a := targets_ptr tx ty
                   + (p * B_Y * numFilters + c * filterPixels * numFilters) in
          upd targets a (prod c p))
          (for_range 0 colorsPerThread 1) targets
      else targets)
      (for_range 0 pixelsPerThread 1) targets.

Definition run_block (u : uninit) (targets : Z -> Z) : Z -> Z :=
  let st := block_loop u in
  fold_left (fun targets t =>
               write_targets (fst t) (snd t) (prod st (fst t) (snd t)) targets)
            (indices blockDim) targets.
End Kernel.
End ManyColor.

(** ** [weight_acts_kernel2_manycolor_manyfilter] *)

Module ManyFilter.
Section Kernel.
(* template parameters *)
Variables (B_Y B_X filtersPerThread colorsPerThread preloadCases : Z)
          (scale checkCaseBounds : bool).
(* kernel arguments *)
Variables (images hidActs : Z -> Z).
Variables (numImages numFilters numModulesX imgSize filterSize paddingStart
           moduleStride imgStride numImgColors modulesPerBlock numGroups
           scaleTargets scaleOutput : Z).
(* launch *)
Variables (blockDim : dim3) (blockIdx_x blockIdx_y : Z).

Definition tidx (tx ty : Z) : Z := B_X * ty + tx.
Definition loadY (tx ty : Z) : Z := tidx tx ty ÷ preloadCases.
Definition loadX (tx ty : Z) : Z := Z.rem (tidx tx ty) preloadCases.

Definition filterPixels : Z := filterSize * filterSize.
Definition imgPixels : Z := imgSize * imgSize.

Definition numFilterBlocks : Z := numFilters ÷ (B_X * filtersPerThread).
Definition outputModuleIdx : Z := blockIdx_x ÷ numFilterBlocks.
Definition moduleIdx : Z := modulesPerBlock * outputModuleIdx.
Definition blockFilterIdx : Z :=
  filtersPerThread * B_X * Z.rem blockIdx_x numFilterBlocks.
Definition numModules : Z := numModulesX * numModulesX.

Definition numFiltersPerGroup : Z := numFilters ÷ numGroups.
Definition blockGroupIdx : Z := blockFilterIdx ÷ numFiltersPerGroup.
Definition numFilterColors : Z := numImgColors ÷ numGroups.

Definition blockPixelOffset : Z :=
  (blockIdx_y ÷ (numFilterColors ÷ colorsPerThread)) * B_Y.
Definition filterColorIdx : Z :=
  Z.rem blockIdx_y (numFilterColors ÷ colorsPerThread) * colorsPerThread.
Definition imgColorIdx : Z := filterColorIdx + blockGroupIdx * numFilterColors.

Definition images_ptr (tx ty : Z) : Z :=
  imgColorIdx * imgPixels * imgStride + loadX tx ty.

Definition hidActs_ptr (m tx ty : Z) : Z :=
  moduleIdx * numImages
  + blockFilterIdx * numImages * numModules
  + loadY tx ty * numImages * numModules
  + loadX tx ty
  + (m - moduleIdx) * numImages.

Definition targets_ptr (tx ty : Z) : Z :=
  outputModuleIdx * numFilters * filterPixels * numFilterColors
  + filterColorIdx * filterPixels * numFilters
  + blockPixelOffset * numFilters
  + blockFilterIdx
  + ty * numFilters + tx.

Definition shHidActLoad (tx ty : Z) : Z :=
  loadY tx ty * (preloadCases + 1) + loadX tx ty.
Definition shImgLoad (tx ty : Z) : Z := loadY tx ty * preloadCases + loadX tx ty.

(** Lines 467-472: the tables [pxDivs] and [pxMods], one entry per thread
    with [tidx < B_Y]. *)
Definition fill_pxDivs (tx ty : Z) : list write :=
  if tidx tx ty <? B_Y then
    [(tidx tx ty, (blockPixelOffset + tidx tx ty) ÷ filterSize)]
  else [].
Definition fill_pxMods (tx ty : Z) : list write :=
  if tidx tx ty <? B_Y then
    [(tidx tx ty, Z.rem (blockPixelOffset + tidx tx ty) filterSize)]
  else [].

Definition pxDivs (u : uninit) : Z -> Z :=
  store (flat_map (fun t => fill_pxDivs (fst t) (snd t)) (indices blockDim))
        (u_pxDivs u).
Definition pxMods (u : uninit) : Z -> Z :=
  store (flat_map (fun t => fill_pxMods (fst t) (snd t)) (indices blockDim))
        (u_pxMods u).

Definition imgLoadModPosY (m : Z) : Z := paddingStart + (m ÷ numModulesX) * moduleStride.
Definition imgLoadModPosX (m : Z) : Z := paddingStart + Z.rem m numModulesX * moduleStride.

(** What the load phase leaves in the tiles, for the image [j] of the batch:
    the entry of [shImages] for module [m], colour [c] of the block and
    filter pixel [px], and the entry of [shHidActs] for module [m] and row [h]. *)
Definition tile_img (m c px j : Z) : Z :=
  if px <? filterPixels then
    let pxY := imgLoadModPosY m + px ÷ filterSize in
    let pxX := imgLoadModPosX m + Z.rem px filterSize in
    if (pxY >=? 0) && (pxY <? imgSize) && (pxX >=? 0) && (pxX <? imgSize) then
      images (imgColorIdx * imgPixels * imgStride + j
              + (c * imgPixels * imgStride + (pxY * imgSize + pxX) * imgStride))
    else 0
  else 0.

Definition tile_hid (m h j : Z) : Z :=
  hidActs (((blockFilterIdx + h) * numModules + m) * numImages + j).

(** Lines 478-515: the stores of one thread into [shImages]. *)
Definition load_shImages (pxDivs pxMods : Z -> Z) (m caseIdx tx ty : Z)
  : list write :=
  if loadY tx ty <? B_Y then
    flat_map (fun y =>
      if (Z.rem B_Y (B_X * B_Y ÷ preloadCases) =? 0) || (y + loadY tx ty <? B_Y) then
        let pxIdx := loadY tx ty + y in
        if (pxIdx + blockPixelOffset <? filterPixels)
           && (negb checkCaseBounds || (caseIdx + loadX tx ty <? numImages)) then
          let pxY := imgLoadModPosY m + pxDivs pxIdx in
          let pxX := imgLoadModPosX m + pxMods pxIdx in
          if (pxY >=? 0) && (pxY <? imgSize) && (pxX >=? 0) && (pxX <? imgSize) then
            let pixIdx := (pxY * imgSize + pxX) * imgStride in
            map (fun c =>
                   (shImgLoad tx ty + (y + c * B_Y) * preloadCases,
                    images (images_ptr tx ty
                            + (caseIdx + c * imgPixels * imgStride + pixIdx))))
                (for_range 0 colorsPerThread 1)
          else
            map (fun c => (shImgLoad tx ty + (y + c * B_Y) * preloadCases, 0))
                (for_range 0 colorsPerThread 1)
        else
          map (fun c => (shImgLoad tx ty + (y + c * B_Y) * preloadCases, 0))
              (for_range 0 colorsPerThread 1)
      else [])
      (for_range 0 B_Y ((B_X * B_Y) ÷ preloadCases))
  else [].

(** Lines 516-524: the stores of one thread into [shHidActs]. *)
Definition load_shHidActs (m caseIdx tx ty : Z) : list write :=
  if (loadY tx ty <? B_X * filtersPerThread)
     && (negb checkCaseBounds || (caseIdx + loadX tx ty <? numImages)) then
    flat_map (fun y =>
      if (Z.rem (B_X * filtersPerThread) (B_X * B_Y ÷ preloadCases) =? 0)
         || (y + loadY tx ty <? B_X * filtersPerThread) then
        [(shHidActLoad tx ty + y * (preloadCases + 1),
          hidActs (hidActs_ptr m tx ty + (caseIdx + y * numImages * numModules)))]
      else [])
      (for_range 0 (B_X * filtersPerThread) ((B_X * B_Y) ÷ preloadCases))
  else [].

(** Lines 528-537: the accumulation of one thread out of shared memory. *)
Definition accumulate (shI shH : Z -> Z) (tx ty : Z) (prod : Z -> Z -> Z)
  : Z -> Z -> Z :=
  fold_left (fun prod c =>
    fold_left (fun prod i =>
      fold_left (fun prod f =>
        upd2 prod c f
             (prod c f
              + shI ((ty + c * B_Y) * preloadCases + i)
                * shH ((tx + f * B_X) * (preloadCases + 1) + i)))
        (for_range 0 filtersPerThread 1) prod)
      (for_range 0 preloadCases 1) prod)
    (for_range 0 colorsPerThread 1) prod.

Definition tile_step (pxDivs pxMods : Z -> Z) (m : Z) (st : block_state)
                     (caseIdx : Z) : block_state :=
  let shI := store (flat_map (fun t => load_shImages pxDivs pxMods m caseIdx
                                                     (fst t) (snd t))
                             (indices blockDim)) (shImages st) in
  let shH := store (flat_map (fun t => load_shHidActs m caseIdx (fst t) (snd t))
                             (indices blockDim)) (shHidActs st) in
  mkBlockState shI shH
    (fun tx ty => accumulate shI shH tx ty (prod st tx ty)).

(** Lines 458-541. *)
Definition block_loop (u : uninit) : block_state :=
  let pxDivs := pxDivs u in
  let pxMods := pxMods u in
  fold_left (fun st m =>
               fold_left (tile_step pxDivs pxMods m)
                         (for_range 0 numImages preloadCases) st)
            (for_range moduleIdx (moduleIdx + modulesPerBlock) 1)
            (mkBlockState (u_shImages u) (u_shHidActs u) (fun _ _ _ _ => 0)).

(** Lines 542-560: the stores of one thread into [targets]. *)
Definition write_targets (tx ty : Z) (prod : Z -> Z -> Z) (targets : Z -> Z)
  : Z -> Z :=
  if blockPixelOffset + ty <? filterPixels then
    if scale then
      fold_left (fun targets f =>
        fold_left (fun targets c =>
          let a := targets_ptr tx ty + (c * filterPixels * numFilters + f * B_X) in
          upd targets a (scaleTargets * targets a + scaleOutput * prod c f))
          (for_range 0 colorsPerThread 1) targets)
        (for_range 0 filtersPerThread 1) targets
    else
      fold_left (fun targets f =>
        fold_left (fun targets c =>
          let a := targets_ptr tx ty + (c * filterPixels * numFilters + f * B_X) in
          upd targets a (prod c f))
          (for_range 0 colorsPerThread 1) targets)
        (for_range 0 filtersPerThread 1) targets
  else targets.

Definition run_block (u : uninit) (targets : Z -> Z) : Z -> Z :=
  let st := block_loop u in
  fold_left (fun targets t =>
               write_targets (fst t) (snd t) (prod st (fst t) (snd t)) targets)
            (indices blockDim) targets.
End Kernel.
End ManyFilter.

(** ** Launching a kernel and the host routine *)

(** [kernel<<<blocks, threads>>>(...)]: the blocks of the grid touch distinct
    cells of [targets] and share nothing else, so they are run one after the
    other.  [u] gives the uninitialised shared memory each block starts from. *)
Definition launch_kernel (k : kernel) (blocks threads : dim3)
    (images hidActs targets : Z -> Z) (a : kargs) (u : Z -> Z -> uninit)
  : Z -> Z :=
  fold_left (fun targets b =>
    match k with
    | k_color B_Y B_X pixelsPerThread preloadCases numColors scale checkCaseBounds =>
        Color.run_block B_Y B_X pixelsPerThread preloadCases numColors scale
          checkCaseBounds images hidActs
          (a_numImages a) (a_numFilters a) (a_numModulesX a) (a_imgSize a)
          (a_filterSize a) (a_paddingStart a) (a_moduleStride a) (a_imgStride a)
          (a_modulesPerBlock a) (a_scaleTargets a) (a_scaleOutput a)
          threads (fst b) (snd b) (u (fst b) (snd b)) targets
    | k_manycolor B_Y B_X pixelsPerThread colorsPerThread preloadCases scale
                  checkCaseBounds =>
        ManyColor.run_block B_Y B_X pixelsPerThread colorsPerThread preloadCases
          scale checkCaseBounds images hidActs
          (a_numImages a) (a_numFilters a) (a_numModulesX a) (a_imgSize a)
          (a_filterSize a) (a_paddingStart a) (a_moduleStride a) (a_imgStride a)
          (a_numImgColors a) (a_modulesPerBlock a) (a_numGroups a)
          (a_scaleTargets a) (a_scaleOutput a)
          threads (fst b) (snd b) (u (fst b) (snd b)) targets
    | k_manycolor_manyfilter B_Y B_X filtersPerThread colorsPerThread preloadCases
                             scale checkCaseBounds =>
        ManyFilter.run_block B_Y B_X filtersPerThread colorsPerThread preloadCases
          scale checkCaseBounds images hidActs
          (a_numImages a) (a_numFilters a) (a_numModulesX a) (a_imgSize a)
          (a_filterSize a) (a_paddingStart a) (a_moduleStride a) (a_imgStride a)
          (a_numImgColors a) (a_modulesPerBlock a) (a_numGroups a)
          (a_scaleTargets a) (a_scaleOutput a)
          threads (fst b) (snd b) (u (fst b) (snd b)) targets
    end)
    (indices blocks) targets.

(** [convWeightActs], the twelve-argument version (lines 585-1026). *)
Definition convWeightActs (u : Z -> Z -> uninit)
    (images hidActs targets : NVMatrix)
    (numModulesX filterSize paddingStart moduleStride numImgColors
     numGroups scaleTargets scaleOutput moduleSum : Z) : outcome NVMatrix :=
  l <- convWeightActs_host images hidActs targets numModulesX filterSize
         paddingStart moduleStride numImgColors numGroups scaleTargets
         scaleOutput moduleSum ;;
  match l_kernel l with
  | Some k =>
      Done (withDevData (l_targets l)
              (launch_kernel k (l_blocks l) (l_threads l)
                 (getDevData images) (getDevData hidActs)
                 (getDevData (l_targets l)) (l_args l) u))
  | None => Done (l_targets l)
  end.

(** [convWeightActs], the nine-argument version (lines 580-583). *)
Definition convWeightActs9 (u : Z -> Z -> uninit)
    (images hidActs targets : NVMatrix)
    (numModulesX filterSize paddingStart moduleStride numImgColors
     numGroups : Z) : outcome NVMatrix :=
  convWeightActs u images hidActs targets numModulesX filterSize paddingStart
                 moduleStride numImgColors numGroups 0 1 0.

(** ** The reference reduction *)

(** [sum_{x in l} f x]. *)
Definition zsum {A : Type} (l : list A) (f : A -> Z) : Z :=
  fold_right (fun x s => f x + s) 0 l.

(** The geometry [convWeightActs] derives is the record [kargs] it hands to
    the kernel.  The quantities below are derived from it as the kernels do. *)
Definition k_numModules (a : kargs) : Z := a_numModulesX a * a_numModulesX a.
Definition k_filterPixels (a : kargs) : Z := a_filterSize a * a_filterSize a.
Definition k_imgPixels (a : kargs) : Z := a_imgSize a * a_imgSize a.
Definition k_numFilterColors (a : kargs) : Z := a_numImgColors a ÷ a_numGroups a.
Definition k_numFiltersPerGroup (a : kargs) : Z := a_numFilters a ÷ a_numGroups a.
(** The rows of modules of [targets]: [numModules / moduleSum]. *)
Definition k_outputModules (a : kargs) : Z := k_numModules a ÷ a_modulesPerBlock a.

(** The image pixel that filter pixel [px] of module [m] looks at. *)
Definition pixel_y (a : kargs) (m px : Z) : Z :=
  a_paddingStart a + (m ÷ a_numModulesX a) * a_moduleStride a + px ÷ a_filterSize a.
Definition pixel_x (a : kargs) (m px : Z) : Z :=
  a_paddingStart a + Z.rem m (a_numModulesX a) * a_moduleStride a
  + Z.rem px (a_filterSize a).

Definition in_image (a : kargs) (pxY pxX : Z) : bool :=
  (pxY >=? 0) && (pxY <? a_imgSize a) && (pxX >=? 0) && (pxX <? a_imgSize a).

(** [images[color, (pxY, pxX), i]] in the layout
    [(numImgColors, imgPixels, numImages)] with stride [imgStride]; zero
    outside the image. *)
Definition image_at (a : kargs) (images : Z -> Z) (color pxY pxX i : Z) : Z :=
  if in_image a pxY pxX then
    images ((color * k_imgPixels a + (pxY * a_imgSize a + pxX)) * a_imgStride a + i)
  else 0.

(** [hidActs[filter, module, i]] in the layout
    [(numFilters, numModules, numImages)]. *)
Definition hidAct_at (a : kargs) (hidActs : Z -> Z) (filter module i : Z) : Z :=
  hidActs ((filter * k_numModules a + module) * a_numImages a + i).

(** The image colour that filter colour [c] of filter [f] looks at: the
    filters are split into [numGroups] groups, each on its own colours. *)
Definition image_color (a : kargs) (f c : Z) : Z :=
  (f ÷ k_numFiltersPerGroup a) * k_numFilterColors a + c.

(** The contribution of module [m] to the gradient of weight [(c, px)] of
    filter [f]: the sum over the images of the batch. *)
Definition module_gradient (a : kargs) (images hidActs : Z -> Z)
                           (m c px f : Z) : Z :=
  zsum (for_range 0 (a_numImages a) 1) (fun i =>
    image_at a images (image_color a f c) (pixel_y a m px) (pixel_x a m px) i
    * hidAct_at a hidActs f m i).

(** The direct reduction: for output module [om], filter colour [c], filter
    pixel [px] and filter [f], the sum over the folded modules and over the
    images. *)
Definition reference (a : kargs) (images hidActs : Z -> Z) (om c px f : Z) : Z :=
  zsum (for_range (om * a_modulesPerBlock a)
                  (om * a_modulesPerBlock a + a_modulesPerBlock a) 1)
       (fun m => module_gradient a images hidActs m c px f).

(** The offset of [targets[om, c, px, f]] in the contiguous layout
    [(numModules / moduleSum, numFilterColors, filterPixels, numFilters)]. *)
Definition target_index (a : kargs) (om c px f : Z) : Z :=
  ((om * k_numFilterColors a + c) * k_filterPixels a + px) * a_numFilters a + f.

(** The entries of [targets]. *)
Definition valid_entry (a : kargs) (om c px f : Z) : Prop :=
  0 <= om < k_outputModules a /\ 0 <= c < k_numFilterColors a
  /\ 0 <= px < k_filterPixels a /\ 0 <= f < a_numFilters a.

(** A store of a thread into [targets]: the block, the thread and the two
    loop indices of the final loops. *)
Record job : Type := mkJob {
  j_bx : Z; j_by : Z; j_tx : Z; j_ty : Z; j_p : Z; j_c : Z
}.

(** The same on an entry [(om, c, px, f)] given as a tuple. *)
Definition entry_index (a : kargs) (e : Z * Z * Z * Z) : Z :=
  let '(om, c, px, f) := e in target_index a om c px f.
Definition entry_valid (a : kargs) (e : Z * Z * Z * Z) : Prop :=
  let '(om, c, px, f) := e in valid_entry a om c px f.
Definition entry_reference (a : kargs) (images hidActs : Z -> Z)
                           (e : Z * Z * Z * Z) : Z :=
  let '(om, c, px, f) := e in reference a images hidActs om c px f.

(** Read-modify-write of cells: [(offset, new value from old value)]. *)
Definition apply_rmw (jobs : list (Z * (Z -> Z))) (m : Z -> Z) : Z -> Z :=
  fold_left (fun m j => upd m (fst j) (snd j (m (fst j)))) jobs m.

(** [scaleTargets * old + scaleOutput * v], or [v] in the instantiations
    that do not scale. *)
Definition blend (scale : bool) (a : kargs) (v old : Z) : Z :=
  if scale then a_scaleTargets a * old + a_scaleOutput a * v else v.

(** The store a job performs: the entry of [targets] it rewrites and the
    new value from the old one. *)
Definition job_store (scale : bool) (a : kargs) (images hidActs : Z -> Z)
                     (entry : job -> Z * Z * Z * Z) (t : job) : Z * (Z -> Z) :=
  (entry_index a (entry t),
   blend scale a (entry_reference a images hidActs (entry t))).

(** The jobs of a launch of [weight_acts_kernel2_color] and of
    [weight_acts_kernel2_manycolor], in the order of the model, and the entry
    of [targets] each one rewrites. *)
Definition pixel_jobs (B_Y pixelsPerThread colorsPerThread colorBlocks : Z)
                      (filterPixels : Z) (blocks threads : dim3) : list job :=
  flat_map (fun b =>
    flat_map (fun t =>
      flat_map (fun p =>
        if (snd b ÷ colorBlocks) * B_Y * pixelsPerThread + p * B_Y + snd t
           <? filterPixels
        then flat_map (fun c => [mkJob (fst b) (snd b) (fst t) (snd t) p c])
                      (for_range 0 colorsPerThread 1)
        else [])
        (for_range 0 pixelsPerThread 1))
      (indices threads))
    (indices blocks).

Definition pixel_entry (B_Y B_X pixelsPerThread colorsPerThread colorBlocks : Z)
                       (numFilters : Z) (t : job) : Z * Z * Z * Z :=
  (j_bx t ÷ (numFilters ÷ B_X),
   Z.rem (j_by t) colorBlocks * colorsPerThread + j_c t,
   (j_by t ÷ colorBlocks) * B_Y * pixelsPerThread + j_p t * B_Y + j_ty t,
   B_X * Z.rem (j_bx t) (numFilters ÷ B_X) + j_tx t).

(** The jobs of a launch of [weight_acts_kernel2_manycolor_manyfilter]; the
    field [j_p] is the index [f] of the filter loop. *)
Definition filter_jobs (B_Y filtersPerThread colorsPerThread colorBlocks : Z)
                       (filterPixels : Z) (blocks threads : dim3) : list job :=
  flat_map (fun b =>
    flat_map (fun t =>
      if (snd b ÷ colorBlocks) * B_Y + snd t <? filterPixels
      then flat_map (fun f =>
             flat_map (fun c => [mkJob (fst b) (snd b) (fst t) (snd t) f c])
                      (for_range 0 colorsPerThread 1))
             (for_range 0 filtersPerThread 1)
      else [])
      (indices threads))
    (indices blocks).

Definition filter_entry (B_Y B_X filtersPerThread colorsPerThread colorBlocks : Z)
                        (numFilters : Z) (t : job) : Z * Z * Z * Z :=
  (j_bx t ÷ (numFilters ÷ (B_X * filtersPerThread)),
   Z.rem (j_by t) colorBlocks * colorsPerThread + j_c t,
   (j_by t ÷ colorBlocks) * B_Y + j_ty t,
   filtersPerThread * B_X * Z.rem (j_bx t) (numFilters ÷ (B_X * filtersPerThread))
   + j_tx t + j_p t * B_X).

(** What a launch must do to [targets]: every entry receives the blend of its
    old value with the reference reduction, and no other cell changes. *)
Definition launch_spec (scale : bool) (a : kargs) (images hidActs : Z -> Z)
                       (old new : Z -> Z) : Prop :=
  (forall om c px f,
     valid_entry a om c px f ->
     new (target_index a om c px f)
     = blend scale a (reference a images hidActs om c px f)
             (old (target_index a om c px f)))
  /\ (forall ad,
        (forall om c px f, valid_entry a om c px f -> target_index a om c px f <> ad) ->
        new ad = old ad).

(** ** The family of instantiations *)

Definition kernel_scale (k : kernel) : bool :=
  match k with
  | k_color _ _ _ _ _ scale _ => scale
  | k_manycolor _ _ _ _ _ scale _ => scale
  | k_manycolor_manyfilter _ _ _ _ _ scale _ => scale
  end.

(** The block of an instantiation: [B_X] by [B_Y] threads. *)
Definition kernel_block (k : kernel) : dim3 :=
  match k with
  | k_color B_Y B_X _ _ _ _ _ => mkDim3 B_X B_Y
  | k_manycolor B_Y B_X _ _ _ _ _ => mkDim3 B_X B_Y
  | k_manycolor_manyfilter B_Y B_X _ _ _ _ _ => mkDim3 B_X B_Y
  end.

(** The grid of an instantiation, as the comments of the kernels give it
    and as lines 637, 645 and 652 compute it: [blockIdx.x] runs over the
    output modules and the batches of filters, [blockIdx.y] over the batches
    of pixels and of colours. *)
Definition kernel_grid (k : kernel) (a : kargs) : dim3 :=
  match k with
  | k_color B_Y B_X pixelsPerThread _ _ _ _ =>
      mkDim3 (k_outputModules a * (a_numFilters a ÷ B_X))
             (DIVUP (k_filterPixels a) (B_Y * pixelsPerThread))
  | k_manycolor B_Y B_X pixelsPerThread colorsPerThread _ _ _ =>
      mkDim3 (k_outputModules a * (a_numFilters a ÷ B_X))
             (DIVUP (k_filterPixels a) (B_Y * pixelsPerThread)
              * (k_numFilterColors a ÷ colorsPerThread))
  | k_manycolor_manyfilter B_Y B_X filtersPerThread colorsPerThread _ _ _ =>
      mkDim3 (k_outputModules a * (a_numFilters a ÷ (B_X * filtersPerThread)))
             (DIVUP (k_filterPixels a) B_Y
              * (k_numFilterColors a ÷ colorsPerThread))
  end.

(** The constraints the comments of the kernels put on an instantiation
    (lines 37-49, 208-219 and 393-404): the divisibility of the filters, of
    the colours and of the block by the tile sizes, and of the batch by
    [preloadCases] when the bounds of the batch are not checked.  For
    [weight_acts_kernel2_manycolor] the table of pixel coordinates is filled
    by the first [B_Y * pixelsPerThread] threads of the block and packs a
    coordinate in 16 bits, hence [pixelsPerThread <= B_X] and
    [filterSize <= 65536]. *)
Definition applicable (k : kernel) (a : kargs) : Prop :=
  match k with
  | k_color B_Y B_X pixelsPerThread preloadCases numColors _ checkCaseBounds =>
      0 < B_X /\ 0 < B_Y /\ 0 < pixelsPerThread /\ 0 < preloadCases
      /\ Z.rem (B_Y * B_X) preloadCases = 0
      /\ (checkCaseBounds = false -> Z.rem (a_numImages a) preloadCases = 0)
      /\ a_numImgColors a = numColors /\ 0 < numColors /\ a_numGroups a = 1
      /\ Z.rem (a_numFilters a) B_X = 0
  | k_manycolor B_Y B_X pixelsPerThread colorsPerThread preloadCases _
                checkCaseBounds =>
      0 < B_X /\ 0 < B_Y /\ 0 < pixelsPerThread /\ pixelsPerThread <= B_X
      /\ 0 < colorsPerThread /\ 0 < preloadCases
      /\ Z.rem (B_Y * B_X) preloadCases = 0
      /\ (checkCaseBounds = false -> Z.rem (a_numImages a) preloadCases = 0)
      /\ 0 < k_numFilterColors a
      /\ Z.rem (k_numFilterColors a) colorsPerThread = 0
      /\ Z.rem (a_numFilters a) B_X = 0
      /\ 0 < k_numFiltersPerGroup a
      /\ Z.rem (k_numFiltersPerGroup a) B_X = 0
      /\ 0 < a_filterSize a <= 65536
  | k_manycolor_manyfilter B_Y B_X filtersPerThread colorsPerThread preloadCases _
                           checkCaseBounds =>
      0 < B_X /\ 0 < B_Y /\ 0 < filtersPerThread
      /\ 0 < colorsPerThread /\ 0 < preloadCases
      /\ Z.rem (B_Y * B_X) preloadCases = 0
      /\ (checkCaseBounds = false -> Z.rem (a_numImages a) preloadCases = 0)
      /\ 0 < k_numFilterColors a
      /\ Z.rem (k_numFilterColors a) colorsPerThread = 0
      /\ Z.rem (a_numFilters a) (B_X * filtersPerThread) = 0
      /\ 0 < k_numFiltersPerGroup a
      /\ Z.rem (k_numFiltersPerGroup a) (B_X * filtersPerThread) = 0
      /\ 0 < a_filterSize a
  end.

(** Sizes are not negative. *)
Definition geometry_ok (a : kargs) : Prop :=
  0 <= a_numImages a /\ 0 <= a_numFilters a /\ 0 <= k_outputModules a.

(** The arguments of a call, bundled. *)
Record call : Type := mkCall {
  c_numModulesX : Z; c_filterSize : Z; c_paddingStart : Z; c_moduleStride : Z;
  c_numImgColors : Z; c_numGroups : Z;
  c_scaleTargets : Z; c_scaleOutput : Z; c_moduleSum : Z
}.

Definition conv (u : Z -> Z -> uninit) (images hidActs targets : NVMatrix)
                (c : call) : outcome NVMatrix :=
  convWeightActs u images hidActs targets (c_numModulesX c) (c_filterSize c)
    (c_paddingStart c) (c_moduleStride c) (c_numImgColors c) (c_numGroups c)
    (c_scaleTargets c) (c_scaleOutput c) (c_moduleSum c).

Definition conv_host (images hidActs targets : NVMatrix) (c : call)
  : outcome launch :=
  convWeightActs_host images hidActs targets (c_numModulesX c) (c_filterSize c)
    (c_paddingStart c) (c_moduleStride c) (c_numImgColors c) (c_numGroups c)
    (c_scaleTargets c) (c_scaleOutput c) (c_moduleSum c).

(** The geometry [convWeightActs] derives from the arguments of a call. *)
Definition call_args (images hidActs : NVMatrix) (c : call) : kargs :=
  let numModules := c_numModulesX c * c_numModulesX c in
  mkKargs (getNumCols images)
          (getNumRows hidActs ÷ numModules)
          (c_numModulesX c)
          (Z.sqrt (getNumRows images ÷ c_numImgColors c))
          (c_filterSize c) (c_paddingStart c) (c_moduleStride c)
          (getStride images) (c_numImgColors c)
          (if c_moduleSum c =? 0 then numModules else c_moduleSum c)
          (c_numGroups c) (c_scaleTargets c) (c_scaleOutput c).

(** The call neither reads nor scales the old contents of [targets]. *)
Definition call_noScale (c : call) : bool :=
  (c_scaleTargets c =? 0) && (c_scaleOutput c =? 1).

(** The shape [convWeightActs] gives to, or requires of, [targets]. *)
Definition targets_rows (a : kargs) : Z :=
  k_outputModules a * k_numFilterColors a * k_filterPixels a.

(** The conditions [convWeightActs] checks before it launches a kernel: the
    divisors of lines 589-596 are not zero and every [assert] holds. *)
Record host_checks (images hidActs targets : NVMatrix) (c : call) : Prop :=
  mkHostChecks {
  hc_groups : c_numGroups c <> 0;
  hc_colors : c_numImgColors c <> 0;
  hc_modules : c_numModulesX c * c_numModulesX c <> 0;
  hc_598 : Z.rem (c_numImgColors c) (c_numGroups c) = 0;
  hc_599 : Z.rem (a_numFilters (call_args images hidActs c)) (16 * c_numGroups c) = 0;
  hc_600 : c_numGroups c > 1
           \/ (c_numImgColors c > 0
               /\ (c_numImgColors c <= 3 \/ Z.rem (c_numImgColors c) 4 = 0));
  hc_601 : c_numGroups c = 1
           \/ Z.rem (k_numFilterColors (call_args images hidActs c)) 4 = 0;
  hc_602 : a_imgSize (call_args images hidActs c) * a_imgSize (call_args images hidActs c)
           = getNumRows images ÷ c_numImgColors c;
  hc_603 : getNumRows images = (getNumRows images ÷ c_numImgColors c) * c_numImgColors c;
  hc_608 : Z.rem (k_numModules (call_args images hidActs c))
                 (a_modulesPerBlock (call_args images hidActs c)) = 0;
  hc_609 : getNumCols hidActs = getNumCols images;
  hc_612 : c_paddingStart c <= 0
           /\ c_paddingStart c
              + (k_numModules (call_args images hidActs c) - 1) * c_moduleStride c
              + c_filterSize c
              >= a_imgSize (call_args images hidActs c);
  hc_613 : c_moduleStride c <= c_filterSize c;
  hc_615 : k_numModules (call_args images hidActs c)
           * a_numFilters (call_args images hidActs c) = getNumRows hidActs;
  hc_617 : isTrans images = false;
  hc_618 : isTrans hidActs = false;
  hc_619 : isContiguous hidActs = true;
  hc_621 : isTrans targets = false;
  hc_622 : isContiguous targets = true;
  hc_648 : k_numFilterColors (call_args images hidActs c) <= 3 -> c_numGroups c = 1;
  hc_661 : call_noScale c = false ->
           getNumRows targets = targets_rows (call_args images hidActs c)
           /\ getNumCols targets = a_numFilters (call_args images hidActs c)
}.

(** Tensors have non-negative sizes, the fold count is not negative, and the
    filter is small enough for [filterSize * filterSize] to be an [int]. *)
Definition well_formed (images hidActs : NVMatrix) (c : call) : Prop :=
  0 <= getNumCols images /\ 0 <= getNumRows hidActs
  /\ 0 <= c_moduleSum c /\ c_filterSize c <= 65536.

(** What a call must produce: [targets] in the shape
    [(numModules / moduleSum * numFilterColors * filterPixels, numFilters)],
    every entry holding [scaleTargets * old + scaleOutput * reference], and
    no other cell of the buffer changed. *)
Definition conv_result (images hidActs targets : NVMatrix) (c : call)
                       (t' : NVMatrix) : Prop :=
  let a := call_args images hidActs c in
  getNumRows t' = targets_rows a
  /\ getNumCols t' = a_numFilters a
  /\ isTrans t' = false /\ isContiguous t' = true
  /\ (forall om cc px f,
        valid_entry a om cc px f ->
        getDevData t' (target_index a om cc px f)
        = c_scaleTargets c * getDevData targets (target_index a om cc px f)
          + c_scaleOutput c
            * reference a (getDevData images) (getDevData hidActs) om cc px f)
  /\ (forall ad,
        (forall om cc px f,
           valid_entry a om cc px f -> target_index a om cc px f <> ad) ->
        getDevData t' ad = getDevData targets ad).

(** ** The call-time invariants as the specification lists them *)

(** The full-coverage invariant of the specification, on the number of
    modules per side. *)
Definition full_coverage (images hidActs : NVMatrix) (c : call) : bool :=
  c_paddingStart c + (c_numModulesX c - 1) * c_moduleStride c + c_filterSize c
  >=? a_imgSize (call_args images hidActs c).

(** The invariants of the data model of the specification: a convolution
    geometry with its derived invariants, consistent shapes, and the
    transposition and contiguity of the three tensors. *)
Definition spec_invariants (images hidActs targets : NVMatrix) (c : call) : Prop :=
  let a := call_args images hidActs c in
  (1 <= c_numModulesX c /\ 1 <= c_numImgColors c /\ 1 <= c_numGroups c
   /\ 0 <= c_moduleStride c /\ c_paddingStart c <= 0)
  /\ (a_imgSize a * a_imgSize a = getNumRows images ÷ c_numImgColors c
      /\ full_coverage images hidActs c = true
      /\ c_moduleStride c <= c_filterSize c
      /\ Z.rem (a_numFilters a) (c_numGroups c) = 0
      /\ Z.rem (c_numImgColors c) (c_numGroups c) = 0)
  /\ (getNumRows images = (getNumRows images ÷ c_numImgColors c) * c_numImgColors c
      /\ k_numModules a * a_numFilters a = getNumRows hidActs
      /\ getNumCols hidActs = getNumCols images
      /\ Z.rem (k_numModules a) (a_modulesPerBlock a) = 0
      /\ (call_noScale c = false ->
          getNumRows targets = targets_rows a
          /\ getNumCols targets = a_numFilters a))
  /\ (isTrans images = false /\ isTrans hidActs = false /\ isTrans targets = false
      /\ isContiguous hidActs = true /\ isContiguous targets = true).

(** The filter and colour counts [convWeightActs] accepts (lines 598-601):
    [numFilters] a multiple of [16 * numGroups]; one, two, three or a
    multiple of four colours when there is one group; a multiple of four
    colours per group when there are several. *)
Definition accepted_filters (images hidActs : NVMatrix) (c : call) : bool :=
  Z.rem (a_numFilters (call_args images hidActs c)) (16 * c_numGroups c) =? 0.

Definition accepted_colors (c : call) : bool :=
  if c_numGroups c =? 1 then
    (c_numImgColors c =? 1) || (c_numImgColors c =? 2) || (c_numImgColors c =? 3)
    || (Z.rem (c_numImgColors c) 4 =? 0)
  else if c_numGroups c >? 1 then
    Z.rem (c_numImgColors c ÷ c_numGroups c) 4 =? 0
  else true.

(** The same call with other scales, or another fold count. *)
Definition with_scales (c : call) (scaleTargets scaleOutput : Z) : call :=
  mkCall (c_numModulesX c) (c_filterSize c) (c_paddingStart c) (c_moduleStride c)
         (c_numImgColors c) (c_numGroups c) scaleTargets scaleOutput (c_moduleSum c).

Definition with_moduleSum (c : call) (moduleSum : Z) : call :=
  mkCall (c_numModulesX c) (c_filterSize c) (c_paddingStart c) (c_moduleStride c)
         (c_numImgColors c) (c_numGroups c) (c_scaleTargets c) (c_scaleOutput c)
         moduleSum.

(** ** Concrete calls *)

(** Two images of 2 x 2 pixels in one colour, 16 filters of one pixel on
    2 x 2 modules. *)
Definition ex_images : NVMatrix :=
  mkNVMatrix 4 2 2 false true (fun _ => 2).
Definition ex_hidActs : NVMatrix :=
  mkNVMatrix 64 2 2 false true (fun _ => 3).
Definition ex_targets : NVMatrix :=
  mkNVMatrix 0 0 0 false true (fun _ => 100).
(** [numModulesX = 2], [filterSize = 1], no padding, stride 1, one colour,
    one group; overwrite; fold all modules. *)
Definition ex_call : call := mkCall 2 1 0 1 1 1 0 1 0.
Definition ex_uninit : Z -> Z -> uninit :=
  fun _ _ => mkUninit (fun _ => 5) (fun _ => 6) (fun _ => 7) (fun _ => 9).
(** Two images of one pixel in one colour, 16 filters of 3 x 3 pixels on one
    module placed at [paddingStart = -1]: only the centre of the filter
    (pixel 4) is over the image.  In [pad_dirty] the buffer holds 77
    everywhere but in the two cells of the tensor. *)
Definition pad_images : NVMatrix :=
  mkNVMatrix 1 2 2 false true (fun _ => 2).
Definition pad_dirty : NVMatrix :=
  mkNVMatrix 1 2 2 false true (fun ad => if (0 <=? ad) && (ad <? 2) then 2 else 77).
Definition pad_hidActs : NVMatrix :=
  mkNVMatrix 16 2 2 false true (fun _ => 3).
Definition pad_call : call := mkCall 1 3 (-1) 1 1 1 0 1 0.
(** A zeroed target of the shape of the example. *)
Definition ex_zero (rows : Z) : NVMatrix :=
  mkNVMatrix rows 16 16 false true (fun _ => 0).

(** What a host call decided, for a call that passed the checks. *)
Definition decided (x : outcome launch) : launch :=
  match x with
  | Done l => l
  | _ => mkLaunch ex_targets None (mkDim3 0 0) (mkDim3 0 0)
                  (mkKargs 0 0 0 0 0 0 0 0 0 0 0 0 0)
  end.
Definition returned (x : outcome NVMatrix) : NVMatrix :=
  match x with Done t => t | _ => ex_targets end.

(** One image of 5 x 5 pixels; filters of 3 x 3 pixels on 2 x 2 modules of
    stride 1 without padding see the pixels 0 to 3 of each side only. *)
Definition partial_images : NVMatrix :=
  mkNVMatrix 25 1 1 false true (fun _ => 1).
Definition partial_hidActs : NVMatrix :=
  mkNVMatrix 64 1 1 false true (fun ad => 1).
Definition partial_call : call := mkCall 2 3 0 1 1 1 0 1 0.

(** Four images of 5 x 5 pixels in one colour, two filters of 3 x 3 pixels
    on 5 x 5 modules of stride 1 with one pixel of padding. *)
Definition two_images : NVMatrix :=
  mkNVMatrix 25 4 4 false true (fun _ => 1).
Definition two_hidActs : NVMatrix :=
  mkNVMatrix 50 4 4 false true (fun ad => 1).
Definition two_call : call := mkCall 5 3 (-1) 1 1 1 0 1 0.

(** * The layer graph: propagation by counters

    [layer.cuh] declares the class [Layer] with its fields [_prev], [_next],
    [_rcvdFInputs], [_rcvdBInputs], [_gradConsumer], [_gradProducer] and
    [_numGradProducersNext] and the methods [fprop], [fpropNext], [bprop],
    [reset], [addNext] and [addPrev]; their bodies are in files that are not
    part of the sources at hand. *)

Close Scope Z_scope.
Open Scope nat_scope.

(** Modelled from the spec: the subclasses of [Layer] the protocol tells
    apart, "Data layer: zero predecessors" and "Cost layer: terminal node(s)";
    every other subclass is a hidden layer. *)
Inductive layer_kind : Type := DataLayer | CostLayer | HiddenLayer.

(** Modelled from the spec: the class [Layer] of [layer.cuh], whose
    constructor and [addNext] / [addPrev] are in the absent [layer.cu]; the
    specification's Layer is [{kind, predecessors, successors,
    isGradientConsumer, isGradientProducer, ...}], kept in "an arena of Layer
    records addressed by index, each holding index-lists of
    predecessors/successors". *)
Record Layer : Type := mkLayer {
  kind : layer_kind;
  prev : list nat;
  next : list nat;
  gradConsumer : bool;
  gradProducer : bool
}.

(** Modelled from the spec: the network graph, "an arena of Layer records
    addressed by index". *)
Definition net : Type := list Layer.

(** The layer of index [l]. *)
Definition layer (g : net) (l : nat) : Layer :=
  nth l g (mkLayer HiddenLayer [] [] false false).

(** The indices of the layers. *)
Definition layers (g : net) : list nat := seq 0 (length g).

Definition is_data (k : layer_kind) : bool :=
  match k with DataLayer => true | _ => false end.
Definition is_cost (k : layer_kind) : bool :=
  match k with CostLayer => true | _ => false end.

(** Modelled from the spec: the field [_numGradProducersNext] that the absent
    [Layer::addNext] maintains, the specification's
    [numGradientProducingSuccessors]. *)
Definition numGradProducersNext (g : net) (l : nat) : nat :=
  length (filter (fun s => gradProducer (layer g s)) (next (layer g l))).

(** Modelled from the spec: the counters of one direction of a pass,
    [_rcvdFInputs] or [_rcvdBInputs] of every layer
    ([numForwardInputsReceived], [numBackwardInputsReceived]), with the log
    of the layers whose function has run, most recent first. *)
Record counters : Type := mkCounters {
  rcvd : nat -> nat;
  ran : list nat
}.

(** Modelled from the spec: [Layer::reset] of the absent [layer.cu], "both
    counters reset to zero at the start of every new forward/backward
    pass". *)
Definition reset : counters := mkCounters (fun _ => 0) [].

(** Modelled from the spec: one delivery, the counter of [s] "strictly
    increases by one". *)
Definition receive (s : nat) (st : counters) : counters :=
  mkCounters (fun x => if x =? s then S (rcvd st x) else rcvd st x) (ran st).

(** The function of [l] runs: it is logged. *)
Definition executed (l : nat) (st : counters) : counters :=
  mkCounters (rcvd st) (l :: ran st).

(** Modelled from the spec: the delivery to one neighbour, the absent
    [Layer::fprop()] and [Layer::bprop()]: the counter of the neighbour
    "strictly increases by one per predecessor delivery", and the transition
    "fires exactly when the received-forward-input counter reaches the
    predecessor count". *)
Definition deliver (run_layer : nat -> counters -> option counters)
                   (need : nat -> nat)
                   (acc : option counters) (s : nat) : option counters :=
  match acc with
  | None => None
  | Some st =>
      let st1 := receive s st in
      if rcvd st1 s =? need s then run_layer s st1 else Some st1
  end.

(** Modelled from the spec: the absent [Layer::fprop(NVMatrixV&)] with
    [fpropNext], and [Layer::bprop(NVMatrix&)]: "the layer's own forward
    function runs ..., and the layer then notifies every successor,
    incrementing that successor's counter.  Symmetric rule governs backward
    propagation".  [out l] are the layers [l] notifies, [need s] the count
    that [s] waits for; the calls nest, [fuel] bounds the depth of the nesting. *)
Fixpoint run (out : nat -> list nat) (need : nat -> nat) (fuel : nat)
             (l : nat) (st : counters) : option counters :=
  match fuel with
  | O => None
  | S fuel' =>
      fold_left (deliver (run out need fuel') need) (out l) (Some (executed l st))
  end.

(** Modelled from the spec: a pass of the absent [ConvNet]: "both counters
    reset to zero", then the graph calls the layers that start the pass, one
    after the other. *)
Definition pass (out : nat -> list nat) (need : nat -> nat) (fuel : nat)
                (seeds : list nat) : option counters :=
  fold_left (fun acc l =>
               match acc with
               | None => None
               | Some st => run out need fuel l st
               end)
            seeds (Some reset).

(** Modelled from the spec: forward propagation, "the layer then notifies
    every successor". *)
Definition fprop_out (g : net) (l : nat) : list nat := next (layer g l).
(** Modelled from the spec: the count a layer waits for in forward propagation, "the
    predecessor count" [_prev.size()]. *)
Definition fprop_need (g : net) (l : nat) : nat := length (prev (layer g l)).
Definition data_layers (g : net) : list nat :=
  filter (fun l => is_data (kind (layer g l))) (layers g).
(** Modelled from the spec: the forward pass, "Network Graph calls [fprop]
    on data layers"; no call nests deeper than the number of layers. *)
Definition forward_pass (g : net) : option counters :=
  pass (fprop_out g) (fprop_need g) (S (length g)) (data_layers g).

(** Modelled from the spec: backward propagation; "a successor that is not
    a gradient producer never signals back" and "a layer with
    [isGradientConsumer == false] never receives or needs incoming
    activation-gradients": a gradient producer notifies its predecessors
    that are gradient consumers. *)
Definition bprop_out (g : net) (l : nat) : list nat :=
  if gradProducer (layer g l)
  then filter (fun p => gradConsumer (layer g p)) (prev (layer g l))
  else [].
(** Modelled from the spec: the count a layer waits for in backward
    propagation, "[numBackwardInputsReceived] must equal
    [numGradientProducingSuccessors] before [bpropActs]/[bpropWeights]
    execute". *)
Definition bprop_need (g : net) (l : nat) : nat := numGradProducersNext g l.
Definition cost_layers (g : net) : list nat :=
  filter (fun l => is_cost (kind (layer g l))) (layers g).
(** Modelled from the spec: the backward pass; the cost layers "seed the
    backward pass". *)
Definition backward_pass (g : net) : option counters :=
  pass (bprop_out g) (bprop_need g) (S (length g)) (cost_layers g).

(** Modelled from the spec: the graphs [addNext] and [addPrev] of the absent
    [layer.cu] build: an edge is in [_next] of its source as often as in
    [_prev] of its target; data layers are the layers with "zero
    predecessors"; cost layers are "terminal node(s)". *)
Definition well_formed_net (g : net) : Prop :=
  (forall l s, l < length g -> In s (next (layer g l)) -> s < length g)
  /\ (forall l p, l < length g -> In p (prev (layer g l)) -> p < length g)
  /\ (forall l s, l < length g -> s < length g ->
        count_occ Nat.eq_dec (next (layer g l)) s
        = count_occ Nat.eq_dec (prev (layer g s)) l)
  /\ (forall l, l < length g ->
        (is_data (kind (layer g l)) = true <-> prev (layer g l) = []))
  /\ (forall l, l < length g ->
        is_cost (kind (layer g l)) = true -> next (layer g l) = []).

(** The graph is acyclic: [rank] numbers the layers along the edges. *)
Definition acyclic (g : net) (rank : nat -> nat) : Prop :=
  forall l, l < length g ->
    rank l < length g
    /\ forall s, In s (next (layer g l)) -> rank l < rank s.

(** [l] ran before [s] in a log that has the most recent first. *)
Definition ran_before (log : list nat) (l s : nat) : Prop :=
  exists later earlier, log = later ++ s :: earlier /\ In l earlier.

(** The deliveries to [s] made by the layers [ls], when [sent l] are the
    layers [l] has notified. *)
Definition count_sent (sent : nat -> list nat) (ls : list nat) (s : nat) : nat :=
  list_sum (map (fun l => count_occ Nat.eq_dec (sent l) s) ls).

Definition set_sent (sent : nat -> list nat) (l : nat) (v : list nat)
  : nat -> list nat :=
  fun x => if x =? l then v else sent x.

(** The invariant of a pass: [sent l] is what [l] has notified so far, all
    of [out l] unless [l] is still in its loop ([l] in [open]); [pending] is
    the layer whose counter has just reached its count and that runs next. *)
Definition pass_inv (out : nat -> list nat) (need : nat -> nat)
                    (nodes seeds : list nat)
                    (sent : nat -> list nat) (open pending : list nat)
                    (st : counters) : Prop :=
  NoDup (ran st)
  /\ incl (ran st) nodes
  /\ incl open (ran st)
  /\ (forall s, rcvd st s = count_sent sent (ran st) s)
  /\ (forall l, In l (ran st) -> exists rest, out l = sent l ++ rest)
  /\ (forall l, In l (ran st) -> ~ In l open -> sent l = out l)
  /\ (forall s, In s (ran st) -> ~ In s seeds -> 1 <= rcvd st s /\ need s <= rcvd st s)
  /\ (forall s, 0 < need s -> need s <= rcvd st s -> In s (ran st) \/ In s pending)
  /\ (forall l s, In l nodes -> In s (out l) -> In s (ran st) ->
                  ran_before (ran st) l s).

(** What running a layer of depth below [d] does, in the invariant: the
    layer leaves its loop, the layers still in their loops have notified
    nobody else, and the layers that ran meanwhile were not seeds. *)
Definition run_ok (out : nat -> list nat) (need : nat -> nat)
                  (nodes seeds : list nat) (depth : nat -> nat)
                  (run_layer : nat -> counters -> option counters) (d : nat)
  : Prop :=
  forall s st sent open,
    depth s < d -> In s nodes ->
    pass_inv out need nodes seeds sent (s :: open) [] (executed s st) ->
    sent s = [] ->
    exists st' sent',
      run_layer s st = Some st'
      /\ pass_inv out need nodes seeds sent' open [] st'
      /\ (forall x, In x open -> x <> s -> sent' x = sent x)
      /\ incl (s :: ran st) (ran st')
      /\ (forall x, In x (ran st') -> In x (s :: ran st) \/ ~ In x seeds).

(** The layers a pass reaches: the layers that start it, and the layers
    whose count is the number of deliveries of layers that are reached. *)
Inductive reached (out : nat -> list nat) (need : nat -> nat)
                  (nodes seeds : list nat) : nat -> Prop :=
| reached_seed (s : nat) : In s seeds -> reached out need nodes seeds s
| reached_count (s : nat) :
    In s nodes -> 0 < need s -> need s = count_sent out nodes s ->
    (forall l, In l nodes -> In s (out l) -> reached out need nodes seeds l) ->
    reached out need nodes seeds s.

(** The layers whose backward functions run: the cost layers, and the
    gradient consumers that have a gradient-producing successor, all of
    which run theirs. *)
Inductive bprop_reached (g : net) : nat -> Prop :=
| bprop_cost (l : nat) :
    l < length g -> is_cost (kind (layer g l)) = true -> bprop_reached g l
| bprop_consumer (p : nat) :
    p < length g -> gradConsumer (layer g p) = true ->
    0 < numGradProducersNext g p ->
    (forall s, In s (next (layer g p)) -> gradProducer (layer g s) = true ->
               bprop_reached g s) ->
    bprop_reached g p.

(** A data layer feeding a cost layer. *)
Definition two_layer_net : net :=
  [mkLayer DataLayer [] [1] false false; mkLayer CostLayer [0] [] true true].

Close Scope nat_scope.
Open Scope Z_scope.

(** ** Batches *)

(** The geometry of a call on another batch: [numImages] images under the
    stride [imgStride], everything else as in [a]. *)
Definition with_batch (a : kargs) (numImages imgStride : Z) : kargs :=
  mkKargs numImages (a_numFilters a) (a_numModulesX a) (a_imgSize a)
          (a_filterSize a) (a_paddingStart a) (a_moduleStride a) imgStride
          (a_numImgColors a) (a_modulesPerBlock a) (a_numGroups a)
          (a_scaleTargets a) (a_scaleOutput a).

(** [H] holds the columns of [H1] followed by those of [H2]; [rowOf],
    [rowOf1] and [rowOf2] give the offset of a row in each buffer. *)
Definition columns_of (H H1 H2 : Z -> Z) (rowOf rowOf1 rowOf2 : Z -> Z)
                      (n1 n2 : Z) : Prop :=
  (forall q i, 0 <= i < n1 -> H1 (rowOf1 q + i) = H (rowOf q + i))
  /\ (forall q i, 0 <= i < n2 -> H2 (rowOf2 q + i) = H (rowOf q + (n1 + i))).

(** ** The stores of a launch, block by block *)

(** The jobs of one block of a launch of [weight_acts_kernel2_color] or of
    [weight_acts_kernel2_manycolor]. *)
Definition pixel_block_jobs (B_Y pixelsPerThread colorsPerThread colorBlocks : Z)
                            (filterPixels : Z) (threads : dim3) (b : Z * Z)
  : list job :=
  flat_map (fun t =>
    flat_map (fun p =>
      if (snd b ÷ colorBlocks) * B_Y * pixelsPerThread + p * B_Y + snd t
         <? filterPixels
      then flat_map (fun c => [mkJob (fst b) (snd b) (fst t) (snd t) p c])
                    (for_range 0 colorsPerThread 1)
      else [])
      (for_range 0 pixelsPerThread 1))
    (indices threads).

(** The jobs of one block of a launch of
    [weight_acts_kernel2_manycolor_manyfilter]. *)
Definition filter_block_jobs (B_Y filtersPerThread colorsPerThread colorBlocks : Z)
                             (filterPixels : Z) (threads : dim3) (b : Z * Z)
  : list job :=
  flat_map (fun t =>
    if (snd b ÷ colorBlocks) * B_Y + snd t <? filterPixels
    then flat_map (fun f =>
           flat_map (fun c => [mkJob (fst b) (snd b) (fst t) (snd t) f c])
                    (for_range 0 colorsPerThread 1))
           (for_range 0 filtersPerThread 1)
    else [])
    (indices threads).

(** The jobs of a block of the launch of an instantiation on its grid, and
    the entry each job rewrites. *)
Definition kernel_block_jobs (k : kernel) (a : kargs) (b : Z * Z) : list job :=
  match k with
  | k_color B_Y B_X pixelsPerThread _ numColors _ _ =>
      pixel_block_jobs B_Y pixelsPerThread numColors 1 (k_filterPixels a)
                       (kernel_block k) b
  | k_manycolor B_Y B_X pixelsPerThread colorsPerThread _ _ _ =>
      pixel_block_jobs B_Y pixelsPerThread colorsPerThread
                       (k_numFilterColors a ÷ colorsPerThread) (k_filterPixels a)
                       (kernel_block k) b
  | k_manycolor_manyfilter B_Y B_X filtersPerThread colorsPerThread _ _ _ =>
      filter_block_jobs B_Y filtersPerThread colorsPerThread
                        (k_numFilterColors a ÷ colorsPerThread) (k_filterPixels a)
                        (kernel_block k) b
  end.

Definition kernel_jobs (k : kernel) (a : kargs) : list job :=
  flat_map (kernel_block_jobs k a) (indices (kernel_grid k a)).

Definition kernel_entry (k : kernel) (a : kargs) (t : job) : Z * Z * Z * Z :=
  match k with
  | k_color B_Y B_X pixelsPerThread _ numColors _ _ =>
      pixel_entry B_Y B_X pixelsPerThread numColors 1 (a_numFilters a) t
  | k_manycolor B_Y B_X pixelsPerThread colorsPerThread _ _ _ =>
      pixel_entry B_Y B_X pixelsPerThread colorsPerThread
                  (k_numFilterColors a ÷ colorsPerThread) (a_numFilters a) t
  | k_manycolor_manyfilter B_Y B_X filtersPerThread colorsPerThread _ _ _ =>
      filter_entry B_Y B_X filtersPerThread colorsPerThread
                   (k_numFilterColors a ÷ colorsPerThread) (a_numFilters a) t
  end.

(** The cell a job writes. *)
Definition job_cell (k : kernel) (a : kargs) (t : job) : Z :=
  entry_index a (kernel_entry k a t).

(** The blocks [bs] of a launch run one after the other in the order of the
    list; [launch_kernel] runs the blocks of the grid in the order of
    [indices]. *)
Definition launch_blocks (k : kernel) (bs : list (Z * Z)) (threads : dim3)
    (images hidActs targets : Z -> Z) (a : kargs) (u : Z -> Z -> uninit)
  : Z -> Z :=
  fold_left (fun targets b =>
    match k with
    | k_color B_Y B_X pixelsPerThread preloadCases numColors scale checkCaseBounds =>
        Color.run_block B_Y B_X pixelsPerThread preloadCases numColors scale
          checkCaseBounds images hidActs
          (a_numImages a) (a_numFilters a) (a_numModulesX a) (a_imgSize a)
          (a_filterSize a) (a_paddingStart a) (a_moduleStride a) (a_imgStride a)
          (a_modulesPerBlock a) (a_scaleTargets a) (a_scaleOutput a)
          threads (fst b) (snd b) (u (fst b) (snd b)) targets
    | k_manycolor B_Y B_X pixelsPerThread colorsPerThread preloadCases scale
                  checkCaseBounds =>
        ManyColor.run_block B_Y B_X pixelsPerThread colorsPerThread preloadCases
          scale checkCaseBounds images hidActs
          (a_numImages a) (a_numFilters a) (a_numModulesX a) (a_imgSize a)
          (a_filterSize a) (a_paddingStart a) (a_moduleStride a) (a_imgStride a)
          (a_numImgColors a) (a_modulesPerBlock a) (a_numGroups a)
          (a_scaleTargets a) (a_scaleOutput a)
          threads (fst b) (snd b) (u (fst b) (snd b)) targets
    | k_manycolor_manyfilter B_Y B_X filtersPerThread colorsPerThread preloadCases
                             scale checkCaseBounds =>
        ManyFilter.run_block B_Y B_X filtersPerThread colorsPerThread preloadCases
          scale checkCaseBounds images hidActs
          (a_numImages a) (a_numFilters a) (a_numModulesX a) (a_imgSize a)
          (a_filterSize a) (a_paddingStart a) (a_moduleStride a) (a_imgStride a)
          (a_numImgColors a) (a_modulesPerBlock a) (a_numGroups a)
          (a_scaleTargets a) (a_scaleOutput a)
          threads (fst b) (snd b) (u (fst b) (snd b)) targets
    end)
    bs targets.


(** * Loops, stores and sums *)

Lemma in_for_range (lo hi step x : Z) :
  0 < step ->
  In x (for_range lo hi step) <->
  exists k, 0 <= k /\ x = lo + k * step /\ x < hi.
Proof.
  intros Hs. unfold for_range. rewrite in_map_iff. split.
  - intros [n [Hx Hn]]. apply in_seq in Hn. exists (Z.of_nat n).
    subst x. split; [lia|]. split; [reflexivity|].
    assert (Z.of_nat n < (hi - lo + step - 1) / step) by lia.
    nia.
  - intros [k [Hk [Hx Hlt]]]. exists (Z.to_nat k). split; [lia|].
    apply in_seq. split; [lia|].
    assert (k < (hi - lo + step - 1) / step) by nia.
    lia.
Qed.

Lemma in_for_range1 (lo hi x : Z) :
  In x (for_range lo hi 1) <-> lo <= x < hi.
Proof.
  rewrite in_for_range by lia. split.
  - intros [k ?]. lia.
  - intros ?. exists (x - lo). lia.
Qed.

Lemma NoDup_for_range (lo hi step : Z) :
  0 < step -> NoDup (for_range lo hi step).
Proof.
  intros Hs. unfold for_range.
  apply Finite.Injective_map_NoDup_in; [|apply seq_NoDup].
  intros a b _ _ H. nia.
Qed.

Lemma for_range_empty (lo hi step : Z) :
  0 < step -> hi <= lo -> for_range lo hi step = [].
Proof.
  intros Hs Hle. unfold for_range.
  replace (Z.to_nat ((hi - lo + step - 1) / step)) with 0%nat; [reflexivity|].
  assert ((hi - lo + step - 1) / step <= 0) by nia. lia.
Qed.

Lemma for_range_cons (lo hi step : Z) :
  0 < step -> lo < hi ->
  for_range lo hi step = lo :: for_range (lo + step) hi step.
Proof.
  intros Hs Hlt. unfold for_range.
  assert (E : (hi - lo + step - 1) / step = (hi - (lo + step) + step - 1) / step + 1).
  { replace (hi - lo + step - 1) with ((hi - (lo + step) + step - 1) + 1 * step) by ring.
    rewrite Z.div_add by lia. reflexivity. }
  assert (0 <= (hi - (lo + step) + step - 1) / step) by nia.
  rewrite E, Z2Nat.inj_add by lia.
  rewrite Nat.add_comm. simpl seq. simpl map. f_equal; [lia|].
  rewrite <- seq_shift, map_map. apply map_ext. intros. lia.
Qed.

Lemma for_range_app (lo mid hi : Z) :
  lo <= mid <= hi ->
  for_range lo hi 1 = for_range lo mid 1 ++ for_range mid hi 1.
Proof.
  intros H. unfold for_range.
  rewrite !Z.div_1_r.
  replace (Z.to_nat (hi - lo + 1 - 1)) with (Z.to_nat (mid - lo) + Z.to_nat (hi - mid))%nat by lia.
  replace (mid - lo + 1 - 1) with (mid - lo) by ring.
  replace (hi - mid + 1 - 1) with (hi - mid) by ring.
  rewrite seq_app, map_app. f_equal.
  rewrite Nat.add_0_l.
  rewrite <- (Nat.add_0_r (Z.to_nat (mid - lo))) at 1.
  rewrite Nat.add_comm.
  generalize (Z.to_nat (hi - mid)) as n. generalize 0%nat as s.
  intros s n. revert s. induction n; intros s; simpl; [reflexivity|].
  f_equal; [lia|]. rewrite <- IHn. reflexivity.
Qed.

Lemma in_indices (d : dim3) (x y : Z) :
  In (x, y) (indices d) <-> (0 <= x < dim_x d /\ 0 <= y < dim_y d).
Proof.
  unfold indices. rewrite in_flat_map. split.
  - intros [y' [Hy Hin]]. apply in_map_iff in Hin. destruct Hin as [x' [E Hx]].
    inversion E; subst. apply in_for_range1 in Hy, Hx. lia.
  - intros [Hx Hy]. exists y. split; [apply in_for_range1; lia|].
    apply in_map_iff. exists x. split; [reflexivity|apply in_for_range1; lia].
Qed.

Lemma NoDup_flat_map_key {A B : Type} (f : A -> list B) (key : B -> A) (l : list A) :
  NoDup l ->
  (forall x, In x l -> NoDup (f x)) ->
  (forall x z, In x l -> In z (f x) -> key z = x) ->
  NoDup (flat_map f l).
Proof.
  induction l as [|a l IH]; intros Hnd Hf Hkey; simpl; [constructor|].
  inversion Hnd; subst.
  apply NoDup_app.
  - apply Hf. now left.
  - apply IH; auto.
    + intros; apply Hf; now right.
    + intros x z Hx; apply Hkey; now right.
  - intros z Hz Hz'. apply in_flat_map in Hz'. destruct Hz' as [x [Hx Hzx]].
    assert (key z = a) by (apply Hkey; [now left|assumption]).
    assert (key z = x) by (apply Hkey; [now right|assumption]).
    congruence.
Qed.

Lemma NoDup_indices (d : dim3) : NoDup (indices d).
Proof.
  unfold indices. apply NoDup_flat_map_key with (key := snd).
  - apply NoDup_for_range; lia.
  - intros y _. apply Finite.Injective_map_NoDup.
    + intros a b H; inversion H; reflexivity.
    + apply NoDup_for_range; lia.
  - intros y z _ Hz. apply in_map_iff in Hz. destruct Hz as [x [E _]].
    subst z; reflexivity.
Qed.

(** ** Stores *)

Lemma upd_same (m : Z -> Z) (a v : Z) : upd m a v a = v.
Proof. unfold upd. now rewrite Z.eqb_refl. Qed.

Lemma upd_other (m : Z -> Z) (a v x : Z) : x <> a -> upd m a v x = m x.
Proof. unfold upd. intros H. apply Z.eqb_neq in H. now rewrite H. Qed.

Lemma store_app (ws1 ws2 : list write) (m : Z -> Z) :
  store (ws1 ++ ws2) m = store ws2 (store ws1 m).
Proof. unfold store. apply fold_left_app. Qed.

Lemma store_untouched (ws : list write) (m : Z -> Z) (a : Z) :
  (forall v, ~ In (a, v) ws) -> store ws m a = m a.
Proof.
  revert m. induction ws as [|[a' v'] ws IH]; intros m H; [reflexivity|].
  simpl. change (store ws (upd m a' v') a = m a).
  rewrite IH.
  - apply upd_other. intros ->. apply (H v'). now left.
  - intros v Hv. apply (H v). now right.
Qed.

Lemma written_dec (ws : list write) (a : Z) :
  (exists v, In (a, v) ws) \/ (forall v, ~ In (a, v) ws).
Proof.
  induction ws as [|[a' v'] ws IH].
  - right. intros v [].
  - destruct (Z.eq_dec a' a) as [->|Hne].
    + left. exists v'. now left.
    + destruct IH as [[v Hv]|Hno].
      * left. exists v. now right.
      * right. intros v [E|Hv]; [inversion E; congruence|]. apply (Hno v Hv).
Qed.

(** When every store to [a] carries the same value, that value is what
    [a] holds afterwards, whatever the order of the stores. *)
Lemma store_agree (ws : list write) (m : Z -> Z) (a v : Z) :
  (exists v', In (a, v') ws) ->
  (forall v', In (a, v') ws -> v' = v) ->
  store ws m a = v.
Proof.
  revert m. induction ws as [|[a' v'] ws IH]; intros m [v0 Hin] Hall.
  - destruct Hin.
  - simpl. change (store ws (upd m a' v') a = v).
    destruct (written_dec ws a) as [Hex|Hno].
    + apply IH; [assumption|]. intros v1 H1. apply Hall. now right.
    + rewrite store_untouched by assumption.
      destruct Hin as [E|Hin].
      * inversion E; subst. rewrite upd_same. apply Hall. now left.
      * exfalso. apply (Hno v0). assumption.
Qed.

(** ** Sums *)

Lemma zsum_ext {A : Type} (l : list A) (f g : A -> Z) :
  (forall x, In x l -> f x = g x) -> zsum l f = zsum l g.
Proof.
  induction l as [|a l IH]; intros H; simpl; [reflexivity|].
  rewrite (H a) by now left. rewrite IH; [reflexivity|].
  intros x Hx. apply H. now right.
Qed.

Lemma zsum_app {A : Type} (l1 l2 : list A) (f : A -> Z) :
  zsum (l1 ++ l2) f = zsum l1 f + zsum l2 f.
Proof. induction l1 as [|a l1 IH]; simpl; [reflexivity|]. rewrite IH. ring. Qed.

Lemma zsum_zero {A : Type} (l : list A) (f : A -> Z) :
  (forall x, In x l -> f x = 0) -> zsum l f = 0.
Proof.
  induction l as [|a l IH]; intros H; simpl; [reflexivity|].
  rewrite (H a) by now left. rewrite IH; [reflexivity|].
  intros x Hx. apply H. now right.
Qed.

Lemma zsum_plus {A : Type} (l : list A) (f g : A -> Z) :
  zsum l (fun x => f x + g x) = zsum l f + zsum l g.
Proof. induction l as [|a l IH]; simpl; [reflexivity|]. rewrite IH. ring. Qed.

Lemma zsum_scale {A : Type} (l : list A) (k : Z) (f : A -> Z) :
  zsum l (fun x => k * f x) = k * zsum l f.
Proof. induction l as [|a l IH]; simpl; [ring|]. rewrite IH. ring. Qed.

Lemma zsum_if {A : Type} (l : list A) (b : bool) (f : A -> Z) :
  zsum l (fun x => if b then f x else 0) = if b then zsum l f else 0.
Proof. destruct b; [reflexivity|]. apply zsum_zero. reflexivity. Qed.

Lemma zsum_pick_none (l : list Z) (x0 : Z) (g : Z -> Z) :
  ~ In x0 l -> zsum l (fun x => if x0 =? x then g x else 0) = 0.
Proof.
  intros H. apply zsum_zero. intros x Hx.
  destruct (Z.eqb_spec x0 x); [subst; contradiction|reflexivity].
Qed.

Lemma zsum_pick (l : list Z) (x0 : Z) (g : Z -> Z) :
  NoDup l -> In x0 l -> zsum l (fun x => if x0 =? x then g x else 0) = g x0.
Proof.
  induction l as [|a l IH]; intros Hnd Hin; [destruct Hin|].
  inversion Hnd; subst. simpl.
  destruct (Z.eqb_spec x0 a) as [->|Hne].
  - rewrite zsum_pick_none by assumption. ring.
  - destruct Hin as [E|Hin]; [congruence|]. rewrite IH by assumption. ring.
Qed.

Lemma zsum_flat_map {A B : Type} (f : A -> list B) (l : list A) (g : B -> Z) :
  zsum (flat_map f l) g = zsum l (fun x => zsum (f x) g).
Proof.
  induction l as [|a l IH]; simpl; [reflexivity|].
  rewrite zsum_app, IH. reflexivity.
Qed.

Lemma zsum_map {A B : Type} (h : A -> B) (l : list A) (g : B -> Z) :
  zsum (map h l) g = zsum l (fun x => g (h x)).
Proof. induction l as [|a l IH]; simpl; [reflexivity|]. now rewrite IH. Qed.

(** A batch read tile by tile, positions past the end counting for zero, is
    the batch read image by image. *)
Lemma zsum_tiles (n pc : Z) (g : Z -> Z) :
  0 < pc ->
  forall lo, 0 <= lo ->
  zsum (for_range lo n pc)
       (fun caseIdx => zsum (for_range 0 pc 1)
                            (fun i => if caseIdx + i <? n then g (caseIdx + i) else 0))
  = zsum (for_range lo n 1) g.
Proof.
  intros Hpc lo Hlo.
  remember (Z.to_nat (n - lo)) as k eqn:Hk.
  revert lo Hlo Hk. induction k as [k IH] using lt_wf_ind. intros lo Hlo Hk.
  destruct (Z_lt_ge_dec lo n) as [Hlt|Hge].
  - rewrite for_range_cons by lia. simpl.
    rewrite (IH (Z.to_nat (n - (lo + pc)))) by lia.
    rewrite (for_range_app lo (Z.min (lo + pc) n) n) by lia.
    rewrite zsum_app.
    assert (E : zsum (for_range (Z.min (lo + pc) n) n 1) g
                = zsum (for_range (lo + pc) n 1) g).
    { destruct (Z_le_gt_dec (lo + pc) n).
      - now rewrite Z.min_l by lia.
      - rewrite Z.min_r by lia. now rewrite !for_range_empty by lia. }
    rewrite E. f_equal.
    rewrite (for_range_app 0 (Z.min pc (n - lo)) pc) by lia.
    rewrite zsum_app.
    rewrite (zsum_zero (for_range (Z.min pc (n - lo)) pc 1)).
    2:{ intros x Hx. apply in_for_range1 in Hx.
        destruct (Z.ltb_spec (lo + x) n); [lia|reflexivity]. }
    rewrite Z.add_0_r.
    rewrite (zsum_ext _ _ (fun i => g (lo + i))).
    2:{ intros x Hx. apply in_for_range1 in Hx.
        destruct (Z.ltb_spec (lo + x) n); [reflexivity|lia]. }
    replace (Z.min (lo + pc) n) with (lo + Z.min pc (n - lo)) by lia.
    generalize (Z.min pc (n - lo)) as w. intros w.
    unfold for_range. rewrite !Z.div_1_r.
    replace (lo + w - lo + 1 - 1) with (w - 0 + 1 - 1) by ring.
    rewrite !zsum_map. apply zsum_ext. intros x _. f_equal; ring.
  - rewrite (for_range_empty lo n pc), (for_range_empty lo n 1) by lia.
    reflexivity.
Qed.

(** ** Register accumulation *)

Lemma upd2_add (pr : Z -> Z -> Z) (c p v c' p' : Z) :
  upd2 pr c p (pr c p + v) c' p'
  = pr c' p' + (if (c' =? c) && (p' =? p) then v else 0).
Proof.
  unfold upd2.
  destruct (Z.eqb_spec c' c), (Z.eqb_spec p' p); simpl; subst; ring.
Qed.

Lemma fold_additive {A : Type}
      (step : (Z -> Z -> Z) -> A -> Z -> Z -> Z) (D : A -> Z -> Z -> Z) :
  (forall pr x c p, step pr x c p = pr c p + D x c p) ->
  forall (l : list A) pr c p,
    fold_left step l pr c p = pr c p + zsum l (fun x => D x c p).
Proof.
  intros Hstep l. induction l as [|a l IH]; intros pr c p; simpl; [ring|].
  rewrite IH, Hstep. ring.
Qed.

(** Three nested loops that add into [prod[kc][kp]]. *)
Lemma fold3_additive (l1 l2 l3 : list Z) (kc kp val : Z -> Z -> Z -> Z)
      (pr : Z -> Z -> Z) (c' p' : Z) :
  fold_left (fun pr a =>
    fold_left (fun pr b =>
      fold_left (fun pr c =>
        upd2 pr (kc a b c) (kp a b c) (pr (kc a b c) (kp a b c) + val a b c))
        l3 pr) l2 pr) l1 pr c' p'
  = pr c' p'
    + zsum l1 (fun a => zsum l2 (fun b => zsum l3 (fun c =>
        if (c' =? kc a b c) && (p' =? kp a b c) then val a b c else 0))).
Proof.
  apply (fold_additive
           (fun pr a => fold_left (fun pr b => fold_left (fun pr c =>
              upd2 pr (kc a b c) (kp a b c) (pr (kc a b c) (kp a b c) + val a b c))
              l3 pr) l2 pr)
           (fun a c' p' => zsum l2 (fun b => zsum l3 (fun c =>
              if (c' =? kc a b c) && (p' =? kp a b c) then val a b c else 0)))).
  intros pr0 a c0 p0.
  apply (fold_additive
           (fun pr b => fold_left (fun pr c =>
              upd2 pr (kc a b c) (kp a b c) (pr (kc a b c) (kp a b c) + val a b c))
              l3 pr)
           (fun b c' p' => zsum l3 (fun c =>
              if (c' =? kc a b c) && (p' =? kp a b c) then val a b c else 0))).
  intros pr1 b c1 p1.
  apply (fold_additive
           (fun pr c =>
              upd2 pr (kc a b c) (kp a b c) (pr (kc a b c) (kp a b c) + val a b c))
           (fun c c' p' =>
              if (c' =? kc a b c) && (p' =? kp a b c) then val a b c else 0)).
  intros pr2 c c2 p2. apply upd2_add.
Qed.

(** The terms a register receives when the outer loop runs over its second
    index and the inner loop over its first. *)
Lemma zsum_pick_outer_inner (lo li lm : list Z) (t : Z -> Z -> Z -> Z) (o' i' : Z) :
  NoDup lo -> NoDup li -> In o' lo -> In i' li ->
  zsum lo (fun o => zsum lm (fun m => zsum li (fun i =>
    if (i' =? i) && (o' =? o) then t o m i else 0)))
  = zsum lm (fun m => t o' m i').
Proof.
  intros Hno Hni Ho Hi.
  rewrite (zsum_ext lo _ (fun o => if o' =? o then zsum lm (fun m => t o m i') else 0)).
  - apply (zsum_pick lo o' (fun o => zsum lm (fun m => t o m i'))); assumption.
  - intros o _. rewrite <- zsum_if. apply zsum_ext. intros m _.
    rewrite (zsum_ext li _ (fun i => if i' =? i then (if o' =? o then t o m i else 0) else 0)).
    + apply (zsum_pick li i' (fun i => if o' =? o then t o m i else 0)); assumption.
    + intros i _. destruct (i' =? i), (o' =? o); reflexivity.
Qed.

(** The same when the outer loop runs over the first index. *)
Lemma zsum_pick_inner_outer (lo li lm : list Z) (t : Z -> Z -> Z -> Z) (o' i' : Z) :
  NoDup lo -> NoDup li -> In o' lo -> In i' li ->
  zsum lo (fun o => zsum lm (fun m => zsum li (fun i =>
    if (o' =? o) && (i' =? i) then t o m i else 0)))
  = zsum lm (fun m => t o' m i').
Proof.
  intros Hno Hni Ho Hi.
  rewrite <- (zsum_pick_outer_inner lo li lm t o' i') by assumption.
  apply zsum_ext; intros o _. apply zsum_ext; intros m _. apply zsum_ext; intros i _.
  now rewrite andb_comm.
Qed.

(** A loop of the block whose every iteration adds to a register. *)
Lemma fold_state_additive {A : Type} (step : block_state -> A -> block_state)
      (l : list A) (D : A -> Z) (tx ty c p : Z) :
  (forall st x, In x l -> prod (step st x) tx ty c p = prod st tx ty c p + D x) ->
  forall st, prod (fold_left step l st) tx ty c p = prod st tx ty c p + zsum l D.
Proof.
  induction l as [|a l IH]; intros H st; simpl; [ring|].
  rewrite IH.
  - rewrite H by now left. ring.
  - intros st' x Hx. apply H. now right.
Qed.

(** * Cooperative loads of a block *)

Section TileLoad.
Variables B_Y B_X preloadCases : Z.
Hypothesis HBX : 0 < B_X.
Hypothesis HBY : 0 < B_Y.
Hypothesis Hpc : 0 < preloadCases.
Hypothesis Hdiv : Z.rem (B_Y * B_X) preloadCases = 0.

Let T := (B_X * B_Y) ÷ preloadCases.

Lemma tile_threads : T * preloadCases = B_X * B_Y /\ 0 < T.
Proof.
  subst T. replace (B_Y * B_X) with (B_X * B_Y) in Hdiv by ring.
  assert (0 < B_X * B_Y) by nia.
  split; nia.
Qed.

(** The pair [(loadY, loadX)] of a thread of the block. *)
Lemma load_coords_range (tx ty : Z) :
  0 <= tx < B_X -> 0 <= ty < B_Y ->
  0 <= (B_X * ty + tx) ÷ preloadCases < T
  /\ 0 <= Z.rem (B_X * ty + tx) preloadCases < preloadCases.
Proof.
  intros Hx Hy. destruct tile_threads as [HT HT0].
  assert (0 <= B_X * ty + tx < B_X * B_Y) by nia.
  split; [|lia].
  split; [apply Z.quot_pos; lia|].
  apply Z.quot_lt_upper_bound; nia.
Qed.

(** Every pair [(loadY, loadX)] belongs to one thread of the block. *)
Lemma load_coords_thread (ly lx : Z) :
  0 <= ly < T -> 0 <= lx < preloadCases ->
  exists tx ty, 0 <= tx < B_X /\ 0 <= ty < B_Y
                /\ (B_X * ty + tx) ÷ preloadCases = ly
                /\ Z.rem (B_X * ty + tx) preloadCases = lx.
Proof.
  intros Hly Hlx. destruct tile_threads as [HT HT0].
  set (t := ly * preloadCases + lx).
  assert (Ht : 0 <= t < B_X * B_Y) by (subst t; nia).
  exists (t mod B_X), (t / B_X).
  assert (E : B_X * (t / B_X) + t mod B_X = t) by (symmetry; apply Z.div_mod; lia).
  rewrite E.
  split; [apply Z.mod_pos_bound; lia|].
  split; [split; [apply Z.div_pos; lia|apply Z.div_lt_upper_bound; lia]|].
  rewrite Z.quot_div_nonneg, Z.rem_mod_nonneg by lia.
  subst t. split.
  - rewrite Z.div_add_l by lia. rewrite Z.div_small by lia. ring.
  - rewrite Z.add_comm, Z.mod_add by lia. apply Z.mod_small; lia.
Qed.

(** The stores of a cooperative load of [R] rows: thread [(loadY, loadX)]
    serves the rows [loadY + k * T] at column [loadX]. *)
Lemma in_tile_load (R : Z) (outer : Z -> Z -> bool) (E : Z -> Prop)
      (body : Z -> Z -> Z -> list write) (z : write) :
  0 <= R ->
  (forall ly lx, outer ly lx = true <-> (ly < R /\ E lx)) ->
  In z (flat_map
          (fun t =>
             if outer ((B_X * snd t + fst t) ÷ preloadCases)
                      (Z.rem (B_X * snd t + fst t) preloadCases)
             then
               flat_map
                 (fun y =>
                    if (Z.rem R (B_X * B_Y ÷ preloadCases) =? 0)
                       || (y + (B_X * snd t + fst t) ÷ preloadCases <? R)
                    then body ((B_X * snd t + fst t) ÷ preloadCases)
                              (Z.rem (B_X * snd t + fst t) preloadCases) y
                    else [])
                 (for_range 0 R ((B_X * B_Y) ÷ preloadCases))
             else [])
          (indices (mkDim3 B_X B_Y)))
  <-> exists r lx, 0 <= r < R /\ 0 <= lx < preloadCases /\ E lx
                   /\ In z (body (r mod T) lx (r - r mod T)).
Proof.
  intros HR Houter. destruct tile_threads as [HT HT0].
  fold T. rewrite in_flat_map. split.
  - intros [[tx ty] [Hin Hz]]. simpl fst in Hz; simpl snd in Hz.
    apply in_indices in Hin. simpl in Hin. destruct Hin as [Hx Hy].
    destruct (load_coords_range tx ty Hx Hy) as [Hly Hlx].
    set (ly := (B_X * ty + tx) ÷ preloadCases) in *.
    set (lx := Z.rem (B_X * ty + tx) preloadCases) in *.
    destruct (outer ly lx) eqn:Ho; [|destruct Hz].
    apply Houter in Ho. destruct Ho as [HlyR HE].
    apply in_flat_map in Hz. destruct Hz as [y [Hy' Hz]].
    apply in_for_range in Hy'; [|assumption].
    destruct Hy' as [k [Hk [Ey HyR]]].
    destruct ((Z.rem R T =? 0) || (y + ly <? R)) eqn:Hg; [|destruct Hz].
    assert (Hr : y + ly < R).
    { apply orb_true_iff in Hg. destruct Hg as [Hg|Hg].
      - apply Z.eqb_eq in Hg.
        pose proof (Z.quot_rem' R T) as Eq. rewrite Hg, Z.add_0_r in Eq.
        assert (k < R ÷ T) by nia.
        assert ((k + 1) * T <= T * (R ÷ T)) by nia.
        lia.
      - apply Z.ltb_lt in Hg. assumption. }
    assert (Em : (y + ly) mod T = ly).
    { subst y. rewrite Z.add_0_l, Z.add_comm, Z.mod_add by lia.
      apply Z.mod_small. lia. }
    exists (y + ly), lx. rewrite Em.
    replace (y + ly - ly) with y by ring.
    repeat split; try assumption; lia.
  - intros [r [lx [Hr [Hlx [HE Hz]]]]].
    assert (Hly : 0 <= r mod T < T) by (apply Z.mod_pos_bound; lia).
    destruct (load_coords_thread (r mod T) lx Hly Hlx)
      as [tx [ty [Hx [Hy [E1 E2]]]]].
    exists (tx, ty). split; [apply in_indices; simpl; lia|].
    simpl fst; simpl snd. rewrite E1, E2.
    assert (Hle : r mod T <= r) by (apply Z.mod_le; lia).
    assert (Ho : outer (r mod T) lx = true)
      by (apply Houter; split; [lia|assumption]).
    rewrite Ho. apply in_flat_map. exists (r - r mod T). split.
    + apply in_for_range; [assumption|]. exists (r / T).
      split; [apply Z.div_pos; lia|]. split; [|lia].
      pose proof (Z.div_mod r T ltac:(lia)). lia.
    + replace (r - r mod T + r mod T) with r by ring.
      assert (Hlt : (r <? R) = true) by (apply Z.ltb_lt; lia).
      rewrite Hlt, orb_true_r. assumption.
Qed.

End TileLoad.

(** A table filled by the first [R] threads of the block. *)
Lemma in_table_fill (B_Y B_X R : Z) (val : Z -> Z) (z : write) :
  0 < B_X -> R <= B_X * B_Y ->
  In z (flat_map
          (fun t => if B_X * snd t + fst t <? R
                    then [(B_X * snd t + fst t, val (B_X * snd t + fst t))]
                    else [])
          (indices (mkDim3 B_X B_Y)))
  <-> exists k, 0 <= k < R /\ z = (k, val k).
Proof.
  intros HBX HR. rewrite in_flat_map. split.
  - intros [[tx ty] [Hin Hz]]. simpl fst in Hz; simpl snd in Hz.
    apply in_indices in Hin. simpl in Hin.
    destruct (Z.ltb_spec (B_X * ty + tx) R); [|destruct Hz].
    destruct Hz as [Hz|[]]. exists (B_X * ty + tx). split; [nia|now symmetry].
  - intros [k [Hk ->]]. exists (k mod B_X, k / B_X).
    assert (E : B_X * (k / B_X) + k mod B_X = k) by (symmetry; apply Z.div_mod; lia).
    split.
    + apply in_indices. simpl. split; [apply Z.mod_pos_bound; lia|].
      split; [apply Z.div_pos; lia|apply Z.div_lt_upper_bound; lia].
    + simpl fst; simpl snd. rewrite E.
      assert (Hlt : (k <? R) = true) by (apply Z.ltb_lt; lia).
      rewrite Hlt. now left.
Qed.


Lemma radix_inj (n a b a' b' : Z) :
  0 <= b < n -> 0 <= b' < n -> a * n + b = a' * n + b' -> a = a' /\ b = b'.
Proof. intros. assert (a = a') by nia. subst. lia. Qed.

Lemma in_map_const_pair {A : Type} (f g : Z -> A) (l : list Z) (z : A) (b : bool) :
  In z (if b then map f l else map g l)
  <-> exists c, In c l /\ z = (if b then f c else g c).
Proof.
  destruct b; rewrite in_map_iff; split; intros [c [H1 H2]]; exists c; auto.
Qed.

(** * The block of [weight_acts_kernel2_color] *)

Section ColorBlock.
Variables (B_Y B_X pixelsPerThread preloadCases numColors : Z)
          (scale checkCaseBounds : bool).
Variables (images hidActs : Z -> Z).
Variables (numImages numFilters numModulesX imgSize filterSize paddingStart
           moduleStride imgStride modulesPerBlock scaleTargets scaleOutput : Z).
Variables (blockIdx_x blockIdx_y : Z).

Hypothesis HBX : 0 < B_X.
Hypothesis HBY : 0 < B_Y.
Hypothesis Hppt : 0 < pixelsPerThread.
Hypothesis Hpc : 0 < preloadCases.
Hypothesis Hdiv : Z.rem (B_Y * B_X) preloadCases = 0.
Hypothesis Hn : 0 <= numImages.
Hypothesis Hcheck : checkCaseBounds = false -> Z.rem numImages preloadCases = 0.

Let blockDim := mkDim3 B_X B_Y.
Let R := B_Y * pixelsPerThread.
Let T := (B_X * B_Y) ÷ preloadCases.
Let bpo := Color.blockPixelOffset B_Y pixelsPerThread blockIdx_y.
Let fP := Color.filterPixels filterSize.

Let load_I := Color.load_shImages B_Y B_X pixelsPerThread preloadCases numColors
                checkCaseBounds images numImages numModulesX imgSize filterSize
                paddingStart moduleStride imgStride blockIdx_y.
Let load_H := Color.load_shHidActs B_Y B_X preloadCases checkCaseBounds hidActs
                numImages numFilters numModulesX modulesPerBlock blockIdx_x.

Let tile_img := Color.tile_img images numModulesX imgSize filterSize paddingStart
                moduleStride imgStride.
Let tile_hid := Color.tile_hid B_X hidActs numImages numFilters numModulesX
                blockIdx_x.

Lemma color_in_load_I (m caseIdx : Z) (z : write) :
  In z (flat_map (fun t => load_I m caseIdx (fst t) (snd t)) (indices blockDim))
  <-> exists r c x,
      0 <= r < R /\ 0 <= c < numColors /\ 0 <= x < preloadCases
      /\ z = ((r + c * R) * preloadCases + x,
              if negb checkCaseBounds || (caseIdx + x <? numImages)
              then tile_img m c (bpo + r) (caseIdx + x) else 0).
Proof.
  subst load_I. unfold Color.load_shImages, Color.loadY, Color.loadX, Color.tidx.
  refine (iff_trans
    (in_tile_load B_Y B_X preloadCases HBX HBY Hpc Hdiv R
             (fun ly lx => ly <? R) (fun _ => True)
             (fun ly lx y =>
                let pxIdx := bpo + ly + y in
                if (pxIdx <? fP)
                   && (negb checkCaseBounds || (caseIdx + lx <? numImages)) then
                  let pxY := Color.imgLoadModPosY numModulesX paddingStart
                               moduleStride m + pxIdx ÷ filterSize in
                  let pxX := Color.imgLoadModPosX numModulesX paddingStart
                               moduleStride m + Z.rem pxIdx filterSize in
                  if (pxY >=? 0) && (pxY <? imgSize) && (pxX >=? 0) && (pxX <? imgSize)
                  then
                    let pixIdx := (pxY * imgSize + pxX) * imgStride in
                    map (fun c =>
                           (ly * preloadCases + lx
                            + (y + c * pixelsPerThread * B_Y) * preloadCases,
                            images (lx
                                    + (caseIdx + c * Color.imgPixels imgSize * imgStride
                                       + pixIdx))))
                        (for_range 0 numColors 1)
                  else
                    map (fun c =>
                           (ly * preloadCases + lx
                            + (y + c * pixelsPerThread * B_Y) * preloadCases, 0))
                        (for_range 0 numColors 1)
                else
                  map (fun c =>
                         (ly * preloadCases + lx
                          + (y + c * pixelsPerThread * B_Y) * preloadCases, 0))
                      (for_range 0 numColors 1)) z _ _) _).
  - subst R. nia.
  - intros ly lx. rewrite Z.ltb_lt. tauto.
  - cbv beta zeta. split.
    + intros [r [lx [Hr [Hlx [_ Hz]]]]].
      set (ly := r mod _) in Hz.
      replace (bpo + ly + (r - ly)) with (bpo + r) in Hz by ring.
      subst tile_img; unfold Color.tile_img; fold fP.
      destruct (bpo + r <? fP) eqn:E1;
        destruct (negb checkCaseBounds || (caseIdx + lx <? numImages)) eqn:E2;
        cbn [andb] in Hz.
      1: match type of Hz with
         | In _ (if ?b then _ else _) => destruct b eqn:E3
         end.
      all: apply in_map_iff in Hz; destruct Hz as [c [Ez Hc]];
        apply in_for_range1 in Hc; exists r, c, lx;
        (split; [assumption|]); (split; [assumption|]); (split; [assumption|]);
        subst z; apply pair_equal_spec; (split; [subst R; ring|]).
      all: rewrite ?E2, ?E1; try rewrite E3; try reflexivity.
      f_equal. ring.
    + intros [r [c [x [Hr [Hc [Hx Ez]]]]]].
      exists r, x. split; [assumption|]. split; [assumption|]. split; [exact I|].
      set (ly := r mod _).
      replace (bpo + ly + (r - ly)) with (bpo + r) by ring.
      assert (Hin : In c (for_range 0 numColors 1)) by (apply in_for_range1; lia).
      subst z. subst tile_img; unfold Color.tile_img; fold fP.
      destruct (bpo + r <? fP) eqn:E1;
        destruct (negb checkCaseBounds || (caseIdx + x <? numImages)) eqn:E2;
        cbn [andb].
      1: match goal with
         | |- In _ (if ?b then _ else _) => destruct b eqn:E3
         end.
      all: apply in_map_iff; exists c; (split; [|assumption]);
        apply pair_equal_spec; (split; [subst R; ring|]).
      all: try reflexivity.
      f_equal. ring.
Qed.

Lemma color_in_load_H (m caseIdx : Z) (z : write) :
  In z (flat_map (fun t => load_H m caseIdx (fst t) (snd t)) (indices blockDim))
  <-> exists h x,
      0 <= h < B_X /\ 0 <= x < preloadCases
      /\ negb checkCaseBounds || (caseIdx + x <? numImages) = true
      /\ z = (h * (preloadCases + 1) + x, tile_hid m h (caseIdx + x)).
Proof.
  subst load_H. unfold Color.load_shHidActs, Color.loadY, Color.loadX, Color.tidx.
  refine (iff_trans
    (in_tile_load B_Y B_X preloadCases HBX HBY Hpc Hdiv B_X
       (fun ly lx => (ly <? B_X)
                     && (negb checkCaseBounds || (caseIdx + lx <? numImages)))
       (fun lx => negb checkCaseBounds || (caseIdx + lx <? numImages) = true)
       (fun ly lx y =>
          [(ly * (preloadCases + 1) + lx + y * (preloadCases + 1),
            hidActs (Color.moduleIdx B_X numFilters modulesPerBlock blockIdx_x
                     * numImages
                     + Color.blockFilterIdx B_X numFilters blockIdx_x * numImages
                       * Color.numModules numModulesX
                     + ly * numImages * Color.numModules numModulesX
                     + lx
                     + (m - Color.moduleIdx B_X numFilters modulesPerBlock blockIdx_x)
                       * numImages
                     + (caseIdx + y * numImages * Color.numModules numModulesX)))])
       z _ _) _).
  - lia.
  - intros ly lx. rewrite andb_true_iff, Z.ltb_lt. tauto.
  - cbv beta. subst tile_hid; unfold Color.tile_hid. split.
    + intros [r [lx [Hr [Hlx [HE [Hz|[]]]]]]].
      exists r, lx. repeat (split; [assumption|]).
      subst z. apply pair_equal_spec. split; [ring|]. f_equal. ring.
    + intros [h [x [Hh [Hx [HE Ez]]]]].
      exists h, x. repeat (split; [assumption|]).
      left. subst z. apply pair_equal_spec. split; [ring|]. f_equal. ring.
Qed.

(** The image tile after the load phase. *)
Lemma color_shI (m caseIdx : Z) (sh : Z -> Z) (r c x : Z) :
  0 <= r < R -> 0 <= c < numColors -> 0 <= x < preloadCases ->
  store (flat_map (fun t => load_I m caseIdx (fst t) (snd t)) (indices blockDim))
        sh ((r + c * R) * preloadCases + x)
  = if negb checkCaseBounds || (caseIdx + x <? numImages)
    then tile_img m c (bpo + r) (caseIdx + x) else 0.
Proof.
  intros Hr Hc Hx. apply store_agree.
  - eexists. apply color_in_load_I. exists r, c, x. repeat (split; [assumption|]).
    reflexivity.
  - intros v Hv. apply color_in_load_I in Hv.
    destruct Hv as [r' [c' [x' [Hr' [Hc' [Hx' E]]]]]].
    apply pair_equal_spec in E. destruct E as [Ea Ev].
    apply radix_inj in Ea; [|assumption|assumption]. destruct Ea as [Ea <-].
    rewrite (Z.add_comm r), (Z.add_comm r') in Ea.
    apply radix_inj in Ea; [|assumption|assumption]. destruct Ea as [<- <-].
    assumption.
Qed.

(** The activation tile after the load phase, on the images of the batch. *)
Lemma color_shH (m caseIdx : Z) (sh : Z -> Z) (h x : Z) :
  0 <= h < B_X -> 0 <= x < preloadCases ->
  negb checkCaseBounds || (caseIdx + x <? numImages) = true ->
  store (flat_map (fun t => load_H m caseIdx (fst t) (snd t)) (indices blockDim))
        sh (h * (preloadCases + 1) + x)
  = tile_hid m h (caseIdx + x).
Proof.
  intros Hh Hx HE. apply store_agree.
  - eexists. apply color_in_load_H. exists h, x. repeat (split; [assumption|]).
    reflexivity.
  - intros v Hv. apply color_in_load_H in Hv.
    destruct Hv as [h' [x' [Hh' [Hx' [HE' E]]]]].
    apply pair_equal_spec in E. destruct E as [Ea Ev].
    apply radix_inj in Ea; [|lia|lia]. destruct Ea as [<- <-].
    assumption.
Qed.

(** The accumulation of one thread (lines 156-165). *)
Lemma color_accumulate (shI shH : Z -> Z) (tx ty : Z) (pr : Z -> Z -> Z) (c p : Z) :
  0 <= c < numColors -> 0 <= p < pixelsPerThread ->
  Color.accumulate B_Y pixelsPerThread preloadCases numColors shI shH tx ty pr c p
  = pr c p
    + zsum (for_range 0 preloadCases 1) (fun i =>
        shI ((ty + p * B_Y + c * pixelsPerThread * B_Y) * preloadCases + i)
        * shH (tx * (preloadCases + 1) + i)).
Proof.
  intros Hc Hp. unfold Color.accumulate.
  refine (eq_trans
    (fold3_additive (for_range 0 pixelsPerThread 1) (for_range 0 preloadCases 1)
       (for_range 0 numColors 1)
       (fun p i c => c) (fun p i c => p)
       (fun p i c =>
          shI ((ty + p * B_Y + c * pixelsPerThread * B_Y) * preloadCases + i)
          * shH (tx * (preloadCases + 1) + i))
       pr c p) _).
  f_equal.
  apply (zsum_pick_outer_inner
           (for_range 0 pixelsPerThread 1) (for_range 0 numColors 1)
           (for_range 0 preloadCases 1)
           (fun p i c =>
              shI ((ty + p * B_Y + c * pixelsPerThread * B_Y) * preloadCases + i)
              * shH (tx * (preloadCases + 1) + i)) p c).
  - apply NoDup_for_range; lia.
  - apply NoDup_for_range; lia.
  - apply in_for_range1; lia.
  - apply in_for_range1; lia.
Qed.

Let tile_step := Color.tile_step B_Y B_X pixelsPerThread preloadCases numColors
                   checkCaseBounds images hidActs numImages numFilters numModulesX
                   imgSize filterSize paddingStart moduleStride imgStride
                   modulesPerBlock blockDim blockIdx_x blockIdx_y.

(** One tile adds to a register the products of the images of the tile. *)
Lemma color_tile_step (m caseIdx : Z) (st : block_state) (tx ty c p : Z) :
  0 <= tx < B_X -> 0 <= ty < B_Y ->
  0 <= c < numColors -> 0 <= p < pixelsPerThread ->
  (checkCaseBounds = false -> caseIdx + preloadCases <= numImages) ->
  prod (tile_step m st caseIdx) tx ty c p
  = prod st tx ty c p
    + zsum (for_range 0 preloadCases 1) (fun i =>
        if caseIdx + i <? numImages
        then tile_img m c (bpo + p * B_Y + ty) (caseIdx + i)
             * tile_hid m tx (caseIdx + i)
        else 0).
Proof.
  intros Hx Hy Hc Hp Hfull.
  subst tile_step. unfold Color.tile_step. cbn [prod].
  rewrite color_accumulate by assumption. f_equal.
  apply zsum_ext. intros i Hi. apply in_for_range1 in Hi.
  replace ((ty + p * B_Y + c * pixelsPerThread * B_Y) * preloadCases + i)
    with (((ty + p * B_Y) + c * R) * preloadCases + i) by (subst R; ring).
  fold load_I. fold load_H. fold blockDim.
  rewrite color_shI; [|subst R; nia|assumption|assumption].
  replace (bpo + (ty + p * B_Y)) with (bpo + p * B_Y + ty) by ring.
  destruct (Z.ltb_spec (caseIdx + i) numImages) as [Hlt|Hge].
  - rewrite orb_true_r. rewrite color_shH; [reflexivity|assumption|assumption|].
    apply orb_true_iff. right. apply Z.ltb_lt. assumption.
  - destruct checkCaseBounds; [cbn; ring|].
    specialize (Hfull eq_refl). lia.
Qed.

(** All the tiles of a module add the products of the whole batch. *)
Lemma color_module_step (m : Z) (st : block_state) (tx ty c p : Z) :
  0 <= tx < B_X -> 0 <= ty < B_Y ->
  0 <= c < numColors -> 0 <= p < pixelsPerThread ->
  prod (fold_left (tile_step m) (for_range 0 numImages preloadCases) st) tx ty c p
  = prod st tx ty c p
    + zsum (for_range 0 numImages 1) (fun j =>
        tile_img m c (bpo + p * B_Y + ty) j * tile_hid m tx j).
Proof.
  intros Hx Hy Hc Hp.
  rewrite (fold_state_additive (tile_step m) (for_range 0 numImages preloadCases)
             (fun caseIdx =>
                zsum (for_range 0 preloadCases 1) (fun i =>
                  if caseIdx + i <? numImages
                  then tile_img m c (bpo + p * B_Y + ty) (caseIdx + i)
                       * tile_hid m tx (caseIdx + i)
                  else 0))).
  - f_equal.
    apply (zsum_tiles numImages preloadCases
             (fun j => tile_img m c (bpo + p * B_Y + ty) j * tile_hid m tx j));
      [assumption|lia].
  - intros st' caseIdx Hin. apply color_tile_step; try assumption.
    intros Hcb. apply in_for_range in Hin; [|assumption].
    destruct Hin as [k [Hk [Ek Hlt]]].
    apply Hcheck in Hcb.
    pose proof (Z.quot_rem' numImages preloadCases) as Eq.
    rewrite Hcb, Z.add_0_r in Eq.
    assert (k < numImages ÷ preloadCases) by nia.
    nia.
Qed.

(** The registers of a thread when the loops of the block are over. *)
Lemma color_block_loop (u : uninit) (tx ty c p : Z) :
  0 <= tx < B_X -> 0 <= ty < B_Y ->
  0 <= c < numColors -> 0 <= p < pixelsPerThread ->
  prod (Color.block_loop B_Y B_X pixelsPerThread preloadCases numColors
          checkCaseBounds images hidActs numImages numFilters numModulesX
          imgSize filterSize paddingStart moduleStride imgStride modulesPerBlock
          blockDim blockIdx_x blockIdx_y u) tx ty c p
  = zsum (for_range (Color.moduleIdx B_X numFilters modulesPerBlock blockIdx_x)
                    (Color.moduleIdx B_X numFilters modulesPerBlock blockIdx_x
                     + modulesPerBlock) 1)
         (fun m => zsum (for_range 0 numImages 1) (fun j =>
            tile_img m c (bpo + p * B_Y + ty) j * tile_hid m tx j)).
Proof.
  intros Hx Hy Hc Hp. unfold Color.block_loop. fold tile_step.
  rewrite (fold_state_additive
             (fun st m => fold_left (tile_step m)
                                    (for_range 0 numImages preloadCases) st)
             _ (fun m => zsum (for_range 0 numImages 1) (fun j =>
                  tile_img m c (bpo + p * B_Y + ty) j * tile_hid m tx j))).
  - cbn [prod]. ring.
  - intros st m _. apply color_module_step; assumption.
Qed.
End ColorBlock.

(** * The stores of a grid into [targets] *)

Lemma apply_rmw_app (l1 l2 : list (Z * (Z -> Z))) (m : Z -> Z) :
  apply_rmw (l1 ++ l2) m = apply_rmw l2 (apply_rmw l1 m).
Proof. unfold apply_rmw. apply fold_left_app. Qed.

(** A loop whose every iteration performs the stores of some jobs. *)
Lemma fold_apply_rmw {A T : Type} (J : T -> Z * (Z -> Z)) (F : A -> list T)
      (step : (Z -> Z) -> A -> Z -> Z) (l : list A) :
  (forall x m, In x l -> step m x = apply_rmw (map J (F x)) m) ->
  forall m, fold_left step l m = apply_rmw (map J (flat_map F l)) m.
Proof.
  induction l as [|a l IH]; intros H m; simpl; [reflexivity|].
  rewrite map_app, apply_rmw_app, IH.
  - rewrite H by now left. reflexivity.
  - intros x m' Hx. apply H. now right.
Qed.

Lemma fold_apply_rmw_in {A T : Type} (J : T -> Z * (Z -> Z)) (F : A -> list T)
      (step : (Z -> Z) -> A -> Z -> Z) (l : list A) :
  (forall x, In x l -> forall m, step m x = apply_rmw (map J (F x)) m) ->
  forall m, fold_left step l m = apply_rmw (map J (flat_map F l)) m.
Proof. intros H. apply fold_apply_rmw. intros x m Hx. apply H. assumption. Qed.

Lemma apply_rmw_untouched (jobs : list (Z * (Z -> Z))) (m : Z -> Z) (a : Z) :
  ~ In a (map fst jobs) -> apply_rmw jobs m a = m a.
Proof.
  revert m. induction jobs as [|[a' g] jobs IH]; intros m H; [reflexivity|].
  simpl. change (apply_rmw jobs (upd m a' (g (m a'))) a = m a).
  rewrite IH.
  - apply upd_other. intros ->. apply H. now left.
  - intros Hin. apply H. now right.
Qed.

Lemma apply_rmw_once (jobs : list (Z * (Z -> Z))) (m : Z -> Z) (a : Z) (g : Z -> Z) :
  NoDup (map fst jobs) -> In (a, g) jobs -> apply_rmw jobs m a = g (m a).
Proof.
  revert m. induction jobs as [|[a' g'] jobs IH]; intros m Hnd Hin; [destruct Hin|].
  simpl in Hnd. inversion Hnd as [|? ? Hnotin Hnd']; subst.
  simpl. change (apply_rmw jobs (upd m a' (g' (m a'))) a = g (m a)).
  destruct Hin as [E|Hin].
  - inversion E; subst. rewrite apply_rmw_untouched by assumption.
    apply upd_same.
  - rewrite IH by assumption.
    rewrite upd_other; [reflexivity|].
    intros ->. apply Hnotin. apply in_map_iff. exists (a', g). split; [reflexivity|assumption].
Qed.

Lemma NoDup_map_inj_on {A B : Type} (f : A -> B) (l : list A) :
  NoDup l ->
  (forall x y, In x l -> In y l -> f x = f y -> x = y) ->
  NoDup (map f l).
Proof.
  induction l as [|a l IH]; intros Hnd Hinj; simpl; [constructor|].
  inversion Hnd; subst. constructor.
  - intros Hin. apply in_map_iff in Hin. destruct Hin as [x [E Hx]].
    assert (x = a) by (apply Hinj; [now right|now left|assumption]).
    subst. contradiction.
  - apply IH; [assumption|]. intros x y Hx Hy. apply Hinj; now right.
Qed.

(** A grid whose jobs are in one-to-one correspondence with the entries of
    [targets] rewrites every entry once and nothing else. *)
Section Grid.
Variable T : Type.
Variable jobs : list T.
Variable entry : T -> Z * Z * Z * Z.
Variable valid : Z * Z * Z * Z -> Prop.
Variable index : Z * Z * Z * Z -> Z.
Variable G : Z * Z * Z * Z -> Z -> Z.

Hypothesis jobs_NoDup : NoDup jobs.
Hypothesis entry_valid : forall t, In t jobs -> valid (entry t).
Hypothesis entry_inj :
  forall t t', In t jobs -> In t' jobs -> entry t = entry t' -> t = t'.
Hypothesis entry_onto : forall e, valid e -> exists t, In t jobs /\ entry t = e.
Hypothesis index_inj : forall e e', valid e -> valid e' -> index e = index e' -> e = e'.

Let J (t : T) : Z * (Z -> Z) := (index (entry t), G (entry t)).

Lemma grid_NoDup : NoDup (map fst (map J jobs)).
Proof.
  rewrite map_map. apply NoDup_map_inj_on; [assumption|].
  intros x y Hx Hy E. cbn in E.
  apply entry_inj; try assumption. apply index_inj; auto.
Qed.

Lemma grid_entry (m : Z -> Z) (e : Z * Z * Z * Z) :
  valid e -> apply_rmw (map J jobs) m (index e) = G e (m (index e)).
Proof.
  intros He. destruct (entry_onto e He) as [t [Ht Et]].
  apply apply_rmw_once; [apply grid_NoDup|].
  apply in_map_iff. exists t. split; [|assumption].
  subst J. cbn. now rewrite Et.
Qed.

Lemma grid_elsewhere (m : Z -> Z) (a : Z) :
  (forall e, valid e -> index e <> a) -> apply_rmw (map J jobs) m a = m a.
Proof.
  intros H. apply apply_rmw_untouched. rewrite map_map. intros Hin.
  apply in_map_iff in Hin. destruct Hin as [t [E Ht]]. cbn in E.
  apply (H (entry t)); [apply entry_valid; assumption|assumption].
Qed.
End Grid.

Lemma target_index_inj (a : kargs) (om c px f om' c' px' f' : Z) :
  valid_entry a om c px f -> valid_entry a om' c' px' f' ->
  target_index a om c px f = target_index a om' c' px' f' ->
  (om, c, px, f) = (om', c', px', f').
Proof.
  unfold valid_entry, target_index. intros [H1 [H2 [H3 H4]]] [H1' [H2' [H3' H4']]] E.
  apply radix_inj in E; [|assumption|assumption]. destruct E as [E ->].
  apply radix_inj in E; [|assumption|assumption]. destruct E as [E ->].
  apply radix_inj in E; [|assumption|assumption]. destruct E as [-> ->].
  reflexivity.
Qed.

Lemma quot_mul_add (n q r : Z) :
  0 < n -> 0 <= q -> 0 <= r < n -> (n * q + r) ÷ n = q /\ Z.rem (n * q + r) n = r.
Proof.
  intros Hn Hq Hr.
  rewrite Z.quot_div_nonneg, Z.rem_mod_nonneg by nia.
  rewrite (Z.mul_comm n q). split.
  - rewrite Z.div_add_l, Z.div_small by lia. lia.
  - rewrite Z.add_comm, Z.mod_add, Z.mod_small by lia. lia.
Qed.

Lemma quot_rem_range (x n m : Z) :
  0 < n -> 0 <= x < m * n -> 0 <= x ÷ n < m /\ 0 <= Z.rem x n < n.
Proof.
  intros Hn Hx. rewrite Z.quot_div_nonneg, Z.rem_mod_nonneg by lia.
  split; [|apply Z.mod_pos_bound; lia].
  split; [apply Z.div_pos; lia|apply Z.div_lt_upper_bound; nia].
Qed.

Lemma exact_quot (x d : Z) :
  0 < x -> 0 < d -> Z.rem x d = 0 -> x = (x ÷ d) * d /\ 0 < x ÷ d.
Proof.
  intros Hx Hd Hr. pose proof (Z.quot_rem' x d) as E.
  rewrite Hr, Z.add_0_r in E. set (q := x ÷ d) in *. clearbody q.
  split; nia.
Qed.

Lemma radix_bound (p t w n : Z) :
  0 <= p < n -> 0 <= t < w -> 0 <= p * w + t < w * n.
Proof. intros. nia. Qed.

Lemma DIVUP_covers (x d : Z) : 0 <= x -> 0 < d -> x <= DIVUP x d * d /\ 0 <= DIVUP x d.
Proof.
  intros Hx Hd. unfold DIVUP. rewrite Z.quot_div_nonneg by lia.
  pose proof (Z.div_mod (x + d - 1) d ltac:(lia)).
  pose proof (Z.mod_pos_bound (x + d - 1) d Hd).
  assert (0 <= (x + d - 1) / d) by (apply Z.div_pos; lia).
  nia.
Qed.

(** Quotients and remainders become opaque variables. *)
Ltac hide_div :=
  repeat match goal with
         | H : context [Z.quot ?x ?y] |- _ =>
             let q := fresh "q" in set (q := Z.quot x y) in *; clearbody q
         | |- context [Z.quot ?x ?y] =>
             let q := fresh "q" in set (q := Z.quot x y) in *; clearbody q
         | H : context [Z.rem ?x ?y] |- _ =>
             let r := fresh "r" in set (r := Z.rem x y) in *; clearbody r
         | |- context [Z.rem ?x ?y] =>
             let r := fresh "r" in set (r := Z.rem x y) in *; clearbody r
         end.

(** * The jobs of the kernels that give each thread several pixels *)

Section PixelGrid.
Variables (B_Y B_X pixelsPerThread colorsPerThread colorBlocks : Z).
Variables (a : kargs) (blocks threads : dim3).

Hypothesis HBX : 0 < B_X.
Hypothesis HBY : 0 < B_Y.
Hypothesis Hppt : 0 < pixelsPerThread.
Hypothesis Hcpt : 0 < colorsPerThread.
Hypothesis Hcb : 0 < colorBlocks.
Hypothesis Hcolors : k_numFilterColors a = colorBlocks * colorsPerThread.
Hypothesis Hfilters : 0 <= a_numFilters a.
Hypothesis HfiltersB : Z.rem (a_numFilters a) B_X = 0.
Hypothesis HfP : 0 <= k_filterPixels a.
Hypothesis Hout : 0 <= k_outputModules a.
Hypothesis Hthreads : threads = mkDim3 B_X B_Y.
Hypothesis Hblocks :
  blocks = mkDim3 (k_outputModules a * (a_numFilters a ÷ B_X))
                  (DIVUP (k_filterPixels a) (B_Y * pixelsPerThread) * colorBlocks).

Let bpm := a_numFilters a ÷ B_X.
Let jobs := pixel_jobs B_Y pixelsPerThread colorsPerThread colorBlocks
                       (k_filterPixels a) blocks threads.
Let entry := pixel_entry B_Y B_X pixelsPerThread colorsPerThread colorBlocks
                         (a_numFilters a).

Lemma pixel_bpm : a_numFilters a = B_X * bpm /\ 0 <= bpm.
Proof.
  subst bpm. pose proof (Z.quot_rem' (a_numFilters a) B_X) as E.
  rewrite HfiltersB, Z.add_0_r in E. split; [assumption|].
  apply Z.quot_pos; lia.
Qed.

Lemma in_pixel_jobs (t : job) :
  In t jobs <->
  (0 <= j_bx t < k_outputModules a * bpm
   /\ 0 <= j_by t < DIVUP (k_filterPixels a) (B_Y * pixelsPerThread) * colorBlocks
   /\ 0 <= j_tx t < B_X /\ 0 <= j_ty t < B_Y
   /\ 0 <= j_p t < pixelsPerThread /\ 0 <= j_c t < colorsPerThread
   /\ (j_by t ÷ colorBlocks) * B_Y * pixelsPerThread + j_p t * B_Y + j_ty t
      < k_filterPixels a).
Proof.
  subst jobs. unfold pixel_jobs. rewrite Hblocks, Hthreads. split.
  - intros H.
    apply in_flat_map in H. destruct H as [[bx by_] [Hb H]].
    apply in_indices in Hb. cbn in Hb.
    apply in_flat_map in H. destruct H as [[tx ty] [Ht H]].
    apply in_indices in Ht. cbn in Ht.
    apply in_flat_map in H. destruct H as [p [Hp H]].
    apply in_for_range1 in Hp. cbn [fst snd] in H.
    destruct (Z.ltb_spec ((by_ ÷ colorBlocks) * B_Y * pixelsPerThread + p * B_Y + ty)
                         (k_filterPixels a)) as [Hlt|]; [|destruct H].
    apply in_flat_map in H. destruct H as [c [Hc [H|[]]]].
    apply in_for_range1 in Hc. subst t. cbn. fold bpm in Hb. intuition lia.
  - destruct t as [bx by_ tx ty p c]. cbn.
    intros [Hbx [Hby [Htx [Hty [Hp [Hc Hlt]]]]]].
    apply in_flat_map. exists (bx, by_). split; [apply in_indices; cbn; fold bpm; lia|].
    apply in_flat_map. exists (tx, ty). split; [apply in_indices; cbn; lia|].
    apply in_flat_map. exists p. split; [apply in_for_range1; lia|].
    cbn [fst snd]. apply Z.ltb_lt in Hlt. rewrite Hlt.
    apply in_flat_map. exists c. split; [apply in_for_range1; lia|now left].
Qed.

Lemma pixel_jobs_NoDup : NoDup jobs.
Proof.
  subst jobs. unfold pixel_jobs.
  apply NoDup_flat_map_key with (key := fun t => (j_bx t, j_by t)).
  - apply NoDup_indices.
  - intros [bx by_] _.
    apply NoDup_flat_map_key with (key := fun t => (j_tx t, j_ty t)).
    + apply NoDup_indices.
    + intros [tx ty] _.
      apply NoDup_flat_map_key with (key := j_p).
      * apply NoDup_for_range; lia.
      * intros p _. cbn [fst snd].
        destruct (_ <? _); [|constructor].
        apply NoDup_flat_map_key with (key := j_c).
        -- apply NoDup_for_range; lia.
        -- intros c _. repeat constructor. intros [].
        -- intros c z _ [<-|[]]. reflexivity.
      * intros p z _ H. cbn [fst snd] in H.
        destruct (_ <? _); [|destruct H].
        apply in_flat_map in H. destruct H as [c [_ [<-|[]]]]. reflexivity.
    + intros [tx ty] z _ H.
      apply in_flat_map in H. destruct H as [p [_ H]]. cbn [fst snd] in H.
      destruct (_ <? _); [|destruct H].
      apply in_flat_map in H. destruct H as [c [_ [<-|[]]]]. reflexivity.
  - intros [bx by_] z _ H.
    apply in_flat_map in H. destruct H as [[tx ty] [_ H]].
    apply in_flat_map in H. destruct H as [p [_ H]]. cbn [fst snd] in H.
    destruct (_ <? _); [|destruct H].
    apply in_flat_map in H. destruct H as [c [_ [<-|[]]]]. reflexivity.
Qed.

Lemma pixel_entry_valid (t : job) : In t jobs -> entry_valid a (entry t).
Proof.
  intros H. apply in_pixel_jobs in H.
  destruct H as [Hbx [Hby [Htx [Hty [Hp [Hc Hlt]]]]]].
  destruct pixel_bpm as [Ebpm Hbpm].
  assert (Hbpm0 : 0 < bpm) by nia.
  destruct (quot_rem_range (j_bx t) bpm (k_outputModules a) Hbpm0 Hbx) as [Hq Hr].
  destruct (quot_rem_range (j_by t) colorBlocks _ Hcb Hby) as [Hq' Hr'].
  subst entry. unfold pixel_entry, entry_valid, valid_entry. fold bpm.
  rewrite Hcolors.
  split; [assumption|]. split; [nia|]. split; [nia|]. nia.
Qed.

Lemma pixel_entry_inj (t t' : job) :
  In t jobs -> In t' jobs -> entry t = entry t' -> t = t'.
Proof.
  intros H H' E. apply in_pixel_jobs in H, H'.
  destruct H as [Hbx [Hby [Htx [Hty [Hp [Hc Hlt]]]]]].
  destruct H' as [Hbx' [Hby' [Htx' [Hty' [Hp' [Hc' Hlt']]]]]].
  destruct pixel_bpm as [Ebpm Hbpm].
  assert (Hbpm0 : 0 < bpm) by nia.
  destruct (quot_rem_range (j_bx t) bpm (k_outputModules a) Hbpm0 Hbx) as [Hq Hr].
  destruct (quot_rem_range (j_bx t') bpm (k_outputModules a) Hbpm0 Hbx') as [Hq2 Hr2].
  destruct (quot_rem_range (j_by t) colorBlocks _ Hcb Hby) as [Hq' Hr'].
  destruct (quot_rem_range (j_by t') colorBlocks _ Hcb Hby') as [Hq2' Hr2'].
  subst entry. unfold pixel_entry in E. fold bpm in E.
  inversion E as [[E1 E2 E3 E4]]. clear E.
  rewrite (Z.mul_comm B_X), (Z.mul_comm B_X (Z.rem (j_bx t') bpm)) in E4.
  apply radix_inj in E4; [|assumption|assumption]. destruct E4 as [E4 Etx].
  apply radix_inj in E2; [|assumption|assumption]. destruct E2 as [E2 Ec].
  replace (j_by t ÷ colorBlocks * B_Y * pixelsPerThread + j_p t * B_Y + j_ty t)
    with ((j_by t ÷ colorBlocks * pixelsPerThread + j_p t) * B_Y + j_ty t) in E3 by ring.
  replace (j_by t' ÷ colorBlocks * B_Y * pixelsPerThread + j_p t' * B_Y + j_ty t')
    with ((j_by t' ÷ colorBlocks * pixelsPerThread + j_p t') * B_Y + j_ty t') in E3 by ring.
  apply radix_inj in E3; [|assumption|assumption]. destruct E3 as [E3 Ety].
  apply radix_inj in E3; [|assumption|assumption]. destruct E3 as [E3 Ep].
  assert (Ebx : j_bx t = j_bx t').
  { pose proof (Z.quot_rem' (j_bx t) bpm). pose proof (Z.quot_rem' (j_bx t') bpm).
    congruence. }
  assert (Eby : j_by t = j_by t').
  { pose proof (Z.quot_rem' (j_by t) colorBlocks).
    pose proof (Z.quot_rem' (j_by t') colorBlocks). congruence. }
  destruct t, t'. cbn in *. congruence.
Qed.

Lemma pixel_entry_onto (e : Z * Z * Z * Z) :
  entry_valid a e -> exists t, In t jobs /\ entry t = e.
Proof.
  destruct e as [[[om c] px] f]. unfold entry_valid, valid_entry.
  rewrite Hcolors. intros [Hom [Hc [Hpx Hf]]].
  destruct pixel_bpm as [Ebpm Hbpm].
  assert (Hbpm0 : 0 < bpm) by nia.
  set (d := B_Y * pixelsPerThread).
  assert (Hd : 0 < d) by (subst d; nia).
  destruct (DIVUP_covers (k_filterPixels a) d HfP Hd) as [Hcov Hdu].
  assert (Hf' : 0 <= f < bpm * B_X) by lia.
  destruct (quot_rem_range f B_X bpm HBX Hf') as [Hfq Hfr].
  assert (Hc' : 0 <= c < colorBlocks * colorsPerThread) by lia.
  destruct (quot_rem_range c colorsPerThread colorBlocks Hcpt Hc') as [Hcq Hcr].
  assert (Hpx' : 0 <= px < DIVUP (k_filterPixels a) d * d) by lia.
  destruct (quot_rem_range px d _ Hd Hpx') as [Hpq Hpr].
  assert (Hpr' : 0 <= Z.rem px d < pixelsPerThread * B_Y) by (subst d; lia).
  destruct (quot_rem_range (Z.rem px d) B_Y pixelsPerThread HBY Hpr') as [Hpp Hpt].
  pose proof (Z.quot_rem' f B_X) as Ef.
  pose proof (Z.quot_rem' c colorsPerThread) as Ec.
  pose proof (Z.quot_rem' px d) as Epx.
  pose proof (Z.quot_rem' (Z.rem px d) B_Y) as Epr.
  destruct (quot_mul_add bpm om (f ÷ B_X) Hbpm0 ltac:(lia) Hfq) as [Q1 R1].
  destruct (quot_mul_add colorBlocks (px ÷ d) (c ÷ colorsPerThread) Hcb ltac:(lia) Hcq)
    as [Q2 R2].
  exists (mkJob (bpm * om + f ÷ B_X) (colorBlocks * (px ÷ d) + c ÷ colorsPerThread)
                (Z.rem f B_X) (Z.rem (Z.rem px d) B_Y)
                (Z.rem px d ÷ B_Y) (Z.rem c colorsPerThread)).
  split.
  - apply in_pixel_jobs. cbn. rewrite Q2. fold d.
    clear Q1 R1 Q2 R2. subst d. hide_div.
    split; [nia|]. split; [nia|]. split; [lia|]. split; [lia|]. split; [lia|].
    split; [lia|]. nia.
  - subst entry. unfold pixel_entry. cbn. fold bpm. rewrite Q1, R1, Q2, R2.
    clear Q1 R1 Q2 R2. subst d. hide_div.
    f_equal; [f_equal; [f_equal|]|]; nia.
Qed.
End PixelGrid.

(** * A launch of [weight_acts_kernel2_color] *)

Section ColorLaunch.
Variables (B_Y B_X pixelsPerThread preloadCases numColors : Z)
          (scale checkCaseBounds : bool).
Variables (images hidActs : Z -> Z) (a : kargs) (u : Z -> Z -> uninit).
Variables (blocks threads : dim3).

Hypothesis HBX : 0 < B_X.
Hypothesis HBY : 0 < B_Y.
Hypothesis Hppt : 0 < pixelsPerThread.
Hypothesis Hpc : 0 < preloadCases.
Hypothesis Hdiv : Z.rem (B_Y * B_X) preloadCases = 0.
Hypothesis Hn : 0 <= a_numImages a.
Hypothesis Hcheck : checkCaseBounds = false -> Z.rem (a_numImages a) preloadCases = 0.
Hypothesis Hcolors : a_numImgColors a = numColors.
Hypothesis Hcolors0 : 0 < numColors.
Hypothesis Hgroups : a_numGroups a = 1.
Hypothesis Hfilters : 0 <= a_numFilters a.
Hypothesis HfiltersB : Z.rem (a_numFilters a) B_X = 0.
Hypothesis Hout : 0 <= k_outputModules a.
Hypothesis Hthreads : threads = mkDim3 B_X B_Y.
Hypothesis Hblocks :
  blocks = mkDim3 (k_outputModules a * (a_numFilters a ÷ B_X))
                  (DIVUP (k_filterPixels a) (B_Y * pixelsPerThread)).

Let jobs := pixel_jobs B_Y pixelsPerThread numColors 1 (k_filterPixels a)
                       blocks threads.
Let entry := pixel_entry B_Y B_X pixelsPerThread numColors 1 (a_numFilters a).

Lemma color_nFC : k_numFilterColors a = 1 * numColors.
Proof. unfold k_numFilterColors. rewrite Hcolors, Hgroups, Z.quot_1_r. ring. Qed.

Lemma color_blocks :
  blocks = mkDim3 (k_outputModules a * (a_numFilters a ÷ B_X))
                  (DIVUP (k_filterPixels a) (B_Y * pixelsPerThread) * 1).
Proof. rewrite Z.mul_1_r. exact Hblocks. Qed.

Lemma color_fP : 0 <= k_filterPixels a.
Proof. unfold k_filterPixels. nia. Qed.

(** The registers of a thread hold the reference reduction of its entries. *)
Lemma color_prod_reference (t : job) :
  In t jobs ->
  prod (Color.block_loop B_Y B_X pixelsPerThread preloadCases numColors
          checkCaseBounds images hidActs
          (a_numImages a) (a_numFilters a) (a_numModulesX a) (a_imgSize a)
          (a_filterSize a) (a_paddingStart a) (a_moduleStride a) (a_imgStride a)
          (a_modulesPerBlock a) threads (j_bx t) (j_by t) (u (j_bx t) (j_by t)))
       (j_tx t) (j_ty t) (j_c t) (j_p t)
  = entry_reference a images hidActs (entry t).
Proof.
  intros Hin.
  assert (Hvalid : entry_valid a (entry t)).
  { apply (pixel_entry_valid B_Y B_X pixelsPerThread numColors 1 a blocks threads);
      first [assumption | lia | exact color_nFC | exact color_blocks]. }
  apply (in_pixel_jobs B_Y B_X pixelsPerThread numColors 1 a blocks threads) in Hin;
    try first [assumption | lia | exact color_nFC | exact color_blocks].
  destruct Hin as [Hbx [Hby [Htx [Hty [Hp [Hc Hlt]]]]]].
  rewrite Hthreads.
  rewrite color_block_loop by assumption.
  subst entry. unfold pixel_entry in *. unfold entry_valid, valid_entry in Hvalid.
  destruct Hvalid as [Hvom [Hvc [Hvpx Hvf]]].
  rewrite Z.quot_1_r in *. rewrite Z.rem_1_r in *.
  unfold entry_reference, reference.
  unfold Color.moduleIdx, Color.outputModuleIdx, Color.blocksPerModule.
  rewrite (Z.mul_comm (a_modulesPerBlock a)).
  apply zsum_ext. intros m _. unfold module_gradient.
  apply zsum_ext. intros j _.
  assert (Ehid : Color.tile_hid B_X hidActs (a_numImages a) (a_numFilters a)
                   (a_numModulesX a) (j_bx t) m (j_tx t) j
                 = hidAct_at a hidActs
                     (B_X * Z.rem (j_bx t) (a_numFilters a ÷ B_X) + j_tx t) m j)
    by reflexivity.
  rewrite Ehid. f_equal.
  unfold Color.tile_img, image_at, in_image, Color.blockPixelOffset,
    Color.filterPixels, Color.imgLoadModPosY, Color.imgLoadModPosX,
    pixel_y, pixel_x, Color.imgPixels, k_imgPixels.
  fold (k_filterPixels a).
  apply Z.ltb_lt in Hlt. rewrite Hlt.
  assert (Ecol : image_color a (B_X * Z.rem (j_bx t) (a_numFilters a ÷ B_X) + j_tx t)
                             (0 * numColors + j_c t) = j_c t).
  { unfold image_color, k_numFiltersPerGroup. rewrite Hgroups, Z.quot_1_r.
    rewrite Z.quot_small by assumption. ring. }
  rewrite Ecol.
  match goal with |- (if ?b then _ else _) = _ => destruct b end; [|reflexivity].
  f_equal. ring.
Qed.

(** The launch performs the stores of its jobs. *)
Lemma color_launch_jobs (targets : Z -> Z) :
  launch_kernel (k_color B_Y B_X pixelsPerThread preloadCases numColors scale
                         checkCaseBounds)
                blocks threads images hidActs targets a u
  = apply_rmw (map (job_store scale a images hidActs entry) jobs) targets.
Proof.
  unfold launch_kernel. unfold jobs. unfold pixel_jobs.
  assert (Hjobs : forall t, In t (pixel_jobs B_Y pixelsPerThread numColors 1
                                   (k_filterPixels a) blocks threads) ->
                  In t (pixel_jobs B_Y pixelsPerThread numColors 1
                                   (k_filterPixels a) blocks threads)) by auto.
  unfold pixel_jobs at 1 in Hjobs.
  revert targets.
  apply fold_apply_rmw_in. intros [bx by_] Hb tg. cbn [fst snd].
  unfold Color.run_block.
  revert tg. apply fold_apply_rmw_in. intros [tx ty] Ht tg. cbn [fst snd].
  assert (Hstep : forall (p : Z) (m : Z -> Z),
    In p (for_range 0 pixelsPerThread 1) ->
    (if Color.blockPixelOffset B_Y pixelsPerThread by_ + p * B_Y + ty
        <? Color.filterPixels (a_filterSize a)
     then
       fold_left (fun targets c =>
         let ad := Color.targets_ptr B_Y B_X pixelsPerThread numColors
                     (a_numFilters a) (a_filterSize a) bx by_ tx ty
                   + (p * B_Y * a_numFilters a
                      + c * Color.filterPixels (a_filterSize a) * a_numFilters a) in
         upd targets ad
             (blend scale a
                (prod (Color.block_loop B_Y B_X pixelsPerThread preloadCases numColors
                         checkCaseBounds images hidActs
                         (a_numImages a) (a_numFilters a) (a_numModulesX a)
                         (a_imgSize a) (a_filterSize a) (a_paddingStart a)
                         (a_moduleStride a) (a_imgStride a) (a_modulesPerBlock a)
                         threads bx by_ (u bx by_)) tx ty c p)
                (targets ad)))
         (for_range 0 numColors 1) m
     else m)
    = apply_rmw
        (map (job_store scale a images hidActs entry)
             (if by_ ÷ 1 * B_Y * pixelsPerThread + p * B_Y + ty <? k_filterPixels a
              then flat_map (fun c => [mkJob bx by_ tx ty p c]) (for_range 0 numColors 1)
              else [])) m).
  { intros p m Hp. unfold Color.blockPixelOffset, Color.filterPixels.
    rewrite Z.quot_1_r. fold (k_filterPixels a).
    destruct (by_ * B_Y * pixelsPerThread + p * B_Y + ty <? k_filterPixels a) eqn:Hg;
      [|reflexivity].
    revert m. apply fold_apply_rmw_in. intros c Hc m.
    assert (Hin : In (mkJob bx by_ tx ty p c) jobs).
    { apply Hjobs.
      apply in_flat_map. exists (bx, by_). split; [assumption|].
      apply in_flat_map. exists (tx, ty). split; [assumption|].
      apply in_flat_map. exists p. split; [assumption|].
      cbn [fst snd]. rewrite Z.quot_1_r, Hg.
      apply in_flat_map. exists c. split; [assumption|now left]. }
    pose proof (color_prod_reference _ Hin) as Hprod. cbn [j_bx j_by j_tx j_ty j_c j_p] in Hprod.
    cbv zeta. rewrite Hprod.
    unfold apply_rmw, job_store. cbn [map fold_left fst snd].
    assert (Ead : Color.targets_ptr B_Y B_X pixelsPerThread numColors
                    (a_numFilters a) (a_filterSize a) bx by_ tx ty
                  + (p * B_Y * a_numFilters a
                     + c * k_filterPixels a * a_numFilters a)
                  = entry_index a (entry (mkJob bx by_ tx ty p c))).
    { subst entry. unfold pixel_entry, entry_index, target_index. cbn.
      unfold Color.targets_ptr, Color.outputModuleIdx, Color.blocksPerModule,
        Color.blockPixelOffset, Color.blockFilterIdx, Color.filterPixels.
      rewrite color_nFC. unfold k_filterPixels.
      unfold Color.blocksPerModule. rewrite Z.quot_1_r, Z.rem_1_r. ring. }
    rewrite Ead. reflexivity. }
  unfold Color.write_targets.
  destruct scale; unfold blend in Hstep; revert tg; apply fold_apply_rmw_in;
    intros p Hp m; apply Hstep; assumption.
Qed.

(** [weight_acts_kernel2_color]: every entry of [targets] receives the
    blend of its old value with the reference reduction, and no other cell
    is written. *)
Lemma color_kernel_correct (targets : Z -> Z) :
  (forall om c px f,
     valid_entry a om c px f ->
     launch_kernel (k_color B_Y B_X pixelsPerThread preloadCases numColors scale
                            checkCaseBounds)
                   blocks threads images hidActs targets a u
                   (target_index a om c px f)
     = blend scale a (reference a images hidActs om c px f)
             (targets (target_index a om c px f)))
  /\ (forall ad,
        (forall om c px f, valid_entry a om c px f -> target_index a om c px f <> ad) ->
        launch_kernel (k_color B_Y B_X pixelsPerThread preloadCases numColors scale
                               checkCaseBounds)
                      blocks threads images hidActs targets a u ad
        = targets ad).
Proof.
  rewrite color_launch_jobs. unfold job_store.
  assert (HND : NoDup jobs).
  { unfold jobs. apply (pixel_jobs_NoDup B_Y B_X); first [assumption | lia]. }
  assert (HV : forall t, In t jobs -> entry_valid a (entry t)).
  { apply (pixel_entry_valid B_Y B_X pixelsPerThread numColors 1 a blocks threads);
      first [assumption | lia | exact color_nFC | exact color_blocks]. }
  assert (HI : forall t t', In t jobs -> In t' jobs -> entry t = entry t' -> t = t').
  { apply (pixel_entry_inj B_Y B_X pixelsPerThread numColors 1 a blocks threads);
      first [assumption | lia | exact color_nFC | exact color_blocks]. }
  assert (HO : forall e, entry_valid a e -> exists t, In t jobs /\ entry t = e).
  { apply (pixel_entry_onto B_Y B_X pixelsPerThread numColors 1 a blocks threads);
      first [assumption | lia | exact color_nFC | exact color_blocks | exact color_fP]. }
  assert (HX : forall e e', entry_valid a e -> entry_valid a e' ->
                            entry_index a e = entry_index a e' -> e = e').
  { intros [[[om c] px] f] [[[om' c'] px'] f']. apply target_index_inj. }
  split.
  - intros om c px f Hv.
    apply (grid_entry job jobs entry (entry_valid a) (entry_index a)
             (fun e => blend scale a (entry_reference a images hidActs e)))
      with (e := (om, c, px, f)); assumption.
  - intros ad Had.
    apply (grid_elsewhere job jobs entry (entry_valid a) (entry_index a)
             (fun e => blend scale a (entry_reference a images hidActs e)));
      [assumption|].
    intros [[[om c] px] f] Hv. apply Had. exact Hv.
Qed.
(** The stores of one block are those of its jobs. *)
Lemma color_block_jobs (b : Z * Z) :
  In b (indices blocks) ->
  forall tg,
    Color.run_block B_Y B_X pixelsPerThread preloadCases numColors scale
      checkCaseBounds images hidActs
      (a_numImages a) (a_numFilters a) (a_numModulesX a) (a_imgSize a)
      (a_filterSize a) (a_paddingStart a) (a_moduleStride a) (a_imgStride a)
      (a_modulesPerBlock a) (a_scaleTargets a) (a_scaleOutput a)
      threads (fst b) (snd b) (u (fst b) (snd b)) tg
    = apply_rmw (map (job_store scale a images hidActs entry)
                     (pixel_block_jobs B_Y pixelsPerThread numColors 1
                                       (k_filterPixels a) threads b)) tg.
Proof.
  intros Hb tg. destruct b as [bx by_]. unfold pixel_block_jobs. cbn [fst snd].
  assert (Hjobs : forall t, In t (pixel_jobs B_Y pixelsPerThread numColors 1
                                   (k_filterPixels a) blocks threads) ->
                  In t (pixel_jobs B_Y pixelsPerThread numColors 1
                                   (k_filterPixels a) blocks threads)) by auto.
  unfold pixel_jobs at 1 in Hjobs.
  unfold Color.run_block.
  revert tg. apply fold_apply_rmw_in. intros [tx ty] Ht tg. cbn [fst snd].
  assert (Hstep : forall (p : Z) (m : Z -> Z),
    In p (for_range 0 pixelsPerThread 1) ->
    (if Color.blockPixelOffset B_Y pixelsPerThread by_ + p * B_Y + ty
        <? Color.filterPixels (a_filterSize a)
     then
       fold_left (fun targets c =>
         let ad := Color.targets_ptr B_Y B_X pixelsPerThread numColors
                     (a_numFilters a) (a_filterSize a) bx by_ tx ty
                   + (p * B_Y * a_numFilters a
                      + c * Color.filterPixels (a_filterSize a) * a_numFilters a) in
         upd targets ad
             (blend scale a
                (prod (Color.block_loop B_Y B_X pixelsPerThread preloadCases numColors
                         checkCaseBounds images hidActs
                         (a_numImages a) (a_numFilters a) (a_numModulesX a)
                         (a_imgSize a) (a_filterSize a) (a_paddingStart a)
                         (a_moduleStride a) (a_imgStride a) (a_modulesPerBlock a)
                         threads bx by_ (u bx by_)) tx ty c p)
                (targets ad)))
         (for_range 0 numColors 1) m
     else m)
    = apply_rmw
        (map (job_store scale a images hidActs entry)
             (if by_ ÷ 1 * B_Y * pixelsPerThread + p * B_Y + ty <? k_filterPixels a
              then flat_map (fun c => [mkJob bx by_ tx ty p c]) (for_range 0 numColors 1)
              else [])) m).
  { intros p m Hp. unfold Color.blockPixelOffset, Color.filterPixels.
    rewrite Z.quot_1_r. fold (k_filterPixels a).
    destruct (by_ * B_Y * pixelsPerThread + p * B_Y + ty <? k_filterPixels a) eqn:Hg;
      [|reflexivity].
    revert m. apply fold_apply_rmw_in. intros c Hc m.
    assert (Hin : In (mkJob bx by_ tx ty p c) jobs).
    { apply Hjobs.
      apply in_flat_map. exists (bx, by_). split; [assumption|].
      apply in_flat_map. exists (tx, ty). split; [assumption|].
      apply in_flat_map. exists p. split; [assumption|].
      cbn [fst snd]. rewrite Z.quot_1_r, Hg.
      apply in_flat_map. exists c. split; [assumption|now left]. }
    pose proof (color_prod_reference _ Hin) as Hprod. cbn [j_bx j_by j_tx j_ty j_c j_p] in Hprod.
    cbv zeta. rewrite Hprod.
    unfold apply_rmw, job_store. cbn [map fold_left fst snd].
    assert (Ead : Color.targets_ptr B_Y B_X pixelsPerThread numColors
                    (a_numFilters a) (a_filterSize a) bx by_ tx ty
                  + (p * B_Y * a_numFilters a
                     + c * k_filterPixels a * a_numFilters a)
                  = entry_index a (entry (mkJob bx by_ tx ty p c))).
    { subst entry. unfold pixel_entry, entry_index, target_index. cbn.
      unfold Color.targets_ptr, Color.outputModuleIdx, Color.blocksPerModule,
        Color.blockPixelOffset, Color.blockFilterIdx, Color.filterPixels.
      rewrite color_nFC. unfold k_filterPixels.
      unfold Color.blocksPerModule. rewrite Z.quot_1_r, Z.rem_1_r. ring. }
    rewrite Ead. reflexivity. }
  unfold Color.write_targets.
  destruct scale; unfold blend in Hstep; revert tg; apply fold_apply_rmw_in;
    intros p Hp m; apply Hstep; assumption.
Qed.

(** The jobs of a launch write pairwise distinct cells, the entries. *)
Lemma color_stores_distinct :
  NoDup (map (fun t => entry_index a (entry t)) jobs)
  /\ (forall t, In t jobs -> entry_valid a (entry t))
  /\ (forall e, entry_valid a e -> exists t, In t jobs /\ entry t = e).
Proof.
  assert (HND : NoDup jobs).
  { unfold jobs. apply (pixel_jobs_NoDup B_Y B_X); first [assumption | lia]. }
  assert (HV : forall t, In t jobs -> entry_valid a (entry t)).
  { apply (pixel_entry_valid B_Y B_X pixelsPerThread numColors 1 a blocks threads);
      first [assumption | lia | exact color_nFC | exact color_blocks]. }
  assert (HI : forall t t', In t jobs -> In t' jobs -> entry t = entry t' -> t = t').
  { apply (pixel_entry_inj B_Y B_X pixelsPerThread numColors 1 a blocks threads);
      first [assumption | lia | exact color_nFC | exact color_blocks]. }
  assert (HO : forall e, entry_valid a e -> exists t, In t jobs /\ entry t = e).
  { apply (pixel_entry_onto B_Y B_X pixelsPerThread numColors 1 a blocks threads);
      first [assumption | lia | exact color_nFC | exact color_blocks | exact color_fP]. }
  split; [|split; assumption].
  apply NoDup_map_inj_on; [exact HND|].
  intros t t' Ht Ht' E. apply HI; [assumption|assumption|].
  pose proof (HV t Ht) as V. pose proof (HV t' Ht') as V'.
  destruct (entry t) as [[[om c] px] f], (entry t') as [[[om' c'] px'] f'].
  apply (target_index_inj a); assumption.
Qed.

End ColorLaunch.

(** * The block of [weight_acts_kernel2_manycolor] *)

(** The two halves packed in an entry of [pxDivs]. *)
Lemma LO16_HI16 (d r : Z) :
  0 <= d < 65536 -> 0 <= r ->
  LO16 (d + Z.shiftl r 16) = d /\ HI16 (d + Z.shiftl r 16) = r.
Proof.
  intros Hd Hr. unfold LO16, HI16.
  change 65535 with (Z.ones 16).
  rewrite Z.land_ones, Z.shiftr_div_pow2, Z.shiftl_mul_pow2 by lia.
  change (2 ^ 16) with 65536. split.
  - rewrite Z.mod_add by lia. apply Z.mod_small. assumption.
  - rewrite Z.div_add by lia. rewrite Z.div_small by assumption. ring.
Qed.

Section ManyColorBlock.
Variables (B_Y B_X pixelsPerThread colorsPerThread preloadCases : Z)
          (scale checkCaseBounds : bool).
Variables (images hidActs : Z -> Z).
Variables (numImages numFilters numModulesX imgSize filterSize paddingStart
           moduleStride imgStride numImgColors modulesPerBlock numGroups
           scaleTargets scaleOutput : Z).
Variables (blockIdx_x blockIdx_y : Z).

Hypothesis HBX : 0 < B_X.
Hypothesis HBY : 0 < B_Y.
Hypothesis Hppt : 0 < pixelsPerThread.
Hypothesis HpptB : pixelsPerThread <= B_X.
Hypothesis Hpc : 0 < preloadCases.
Hypothesis Hdiv : Z.rem (B_Y * B_X) preloadCases = 0.
Hypothesis Hn : 0 <= numImages.
Hypothesis Hcheck : checkCaseBounds = false -> Z.rem numImages preloadCases = 0.
Hypothesis Hfs : 0 < filterSize <= 65536.

Let blockDim := mkDim3 B_X B_Y.
Let R := B_Y * pixelsPerThread.
Let bpo := ManyColor.blockPixelOffset B_Y pixelsPerThread colorsPerThread
             numImgColors numGroups blockIdx_y.
Let fP := ManyColor.filterPixels filterSize.

Hypothesis Hbpo : 0 <= bpo.

Let tile_img := ManyColor.tile_img B_X colorsPerThread images numFilters numModulesX
                  imgSize filterSize paddingStart moduleStride imgStride numImgColors
                  numGroups blockIdx_x blockIdx_y.
Let tile_hid := ManyColor.tile_hid B_X hidActs numImages numFilters numModulesX
                  blockIdx_x.

Variable pxD : Z -> Z.
Hypothesis HpxD :
  forall k, 0 <= k < R ->
            pxD k = (bpo + k) ÷ filterSize + Z.shiftl (Z.rem (bpo + k) filterSize) 16.

Let load_I := ManyColor.load_shImages B_Y B_X pixelsPerThread colorsPerThread
                preloadCases checkCaseBounds images numImages numFilters numModulesX
                imgSize filterSize paddingStart moduleStride imgStride numImgColors
                numGroups blockIdx_x blockIdx_y pxD.
Let load_H := ManyColor.load_shHidActs B_Y B_X preloadCases checkCaseBounds hidActs
                numImages numFilters numModulesX modulesPerBlock blockIdx_x.

(** Inside the filter the table gives the coordinates of the pixel. *)
Lemma mc_pxD_coords (r : Z) :
  0 <= r < R -> bpo + r < fP ->
  LO16 (pxD r) = (bpo + r) ÷ filterSize
  /\ HI16 (pxD r) = Z.rem (bpo + r) filterSize.
Proof.
  intros Hr Hlt. rewrite HpxD by assumption.
  apply LO16_HI16.
  - subst fP. unfold ManyColor.filterPixels in Hlt.
    split; [apply Z.quot_pos; lia|].
    assert ((bpo + r) ÷ filterSize < filterSize); [|lia].
    apply Z.quot_lt_upper_bound; lia.
  - apply Z.rem_nonneg; lia.
Qed.

Lemma mc_in_load_I (m caseIdx : Z) (z : write) :
  In z (flat_map (fun t => load_I m caseIdx (fst t) (snd t)) (indices blockDim))
  <-> exists r c x,
      0 <= r < R /\ 0 <= c < colorsPerThread /\ 0 <= x < preloadCases
      /\ z = ((r + c * R) * preloadCases + x,
              if negb checkCaseBounds || (caseIdx + x <? numImages)
              then tile_img m c (bpo + r) (caseIdx + x) else 0).
Proof.
  unfold load_I. unfold ManyColor.load_shImages, ManyColor.loadY, ManyColor.loadX,
    ManyColor.tidx.
  refine (iff_trans
    (in_tile_load B_Y B_X preloadCases HBX HBY Hpc Hdiv R
       (fun ly lx => ly <? R) (fun _ => True)
       (fun ly lx y =>
          let pxIdx := ly + y in
          if (pxIdx + bpo <? fP)
             && (negb checkCaseBounds || (caseIdx + lx <? numImages)) then
            let pxY := ManyColor.imgLoadModPosY numModulesX paddingStart
                         moduleStride m + LO16 (pxD pxIdx) in
            let pxX := ManyColor.imgLoadModPosX numModulesX paddingStart
                         moduleStride m + HI16 (pxD pxIdx) in
            if (pxY >=? 0) && (pxY <? imgSize) && (pxX >=? 0) && (pxX <? imgSize)
            then
              let pixIdx := (pxY * imgSize + pxX) * imgStride in
              map (fun c =>
                     (ly * preloadCases + lx
                      + (y + c * pixelsPerThread * B_Y) * preloadCases,
                      images ((ManyColor.groupColorIdx B_X numFilters numImgColors
                                 numGroups blockIdx_x
                               + ManyColor.blockColorIdx colorsPerThread numImgColors
                                   numGroups blockIdx_y)
                              * ManyColor.imgPixels imgSize * imgStride + lx
                              + (caseIdx + c * ManyColor.imgPixels imgSize * imgStride
                                 + pixIdx))))
                  (for_range 0 colorsPerThread 1)
            else
              map (fun c =>
                     (ly * preloadCases + lx
                      + (y + c * pixelsPerThread * B_Y) * preloadCases, 0))
                  (for_range 0 colorsPerThread 1)
          else
            map (fun c =>
                   (ly * preloadCases + lx
                    + (y + c * pixelsPerThread * B_Y) * preloadCases, 0))
                (for_range 0 colorsPerThread 1)) z _ _) _).
  - subst R. nia.
  - intros ly lx. rewrite Z.ltb_lt. tauto.
  - cbv beta zeta. split.
    + intros [r [lx [Hr [Hlx [_ Hz]]]]].
      set (ly := r mod _) in Hz.
      replace (ly + (r - ly)) with r in Hz by ring.
      rewrite (Z.add_comm r bpo) in Hz.
      unfold tile_img; unfold ManyColor.tile_img. fold fP. fold bpo.
      destruct (bpo + r <? fP) eqn:E1;
        destruct (negb checkCaseBounds || (caseIdx + lx <? numImages)) eqn:E2;
        cbn [andb] in Hz.
      1: destruct (mc_pxD_coords r Hr ltac:(apply Z.ltb_lt; exact E1)) as [El Eh];
         rewrite El, Eh in Hz;
         match type of Hz with
         | In _ (if ?b then _ else _) => destruct b eqn:E3
         end.
      all: apply in_map_iff in Hz; destruct Hz as [c [Ez Hc]];
        apply in_for_range1 in Hc; exists r, c, lx;
        (split; [assumption|]); (split; [assumption|]); (split; [assumption|]);
        subst z; apply pair_equal_spec; (split; [subst R; ring|]).
      all: rewrite ?E2, ?E1; try rewrite E3; try reflexivity.
      f_equal. ring.
    + intros [r [c [x [Hr [Hc [Hx Ez]]]]]].
      exists r, x. split; [assumption|]. split; [assumption|]. split; [exact I|].
      set (ly := r mod _).
      replace (ly + (r - ly)) with r by ring.
      rewrite (Z.add_comm r bpo).
      assert (Hin : In c (for_range 0 colorsPerThread 1)) by (apply in_for_range1; lia).
      subst z. unfold tile_img; unfold ManyColor.tile_img. fold fP. fold bpo.
      destruct (bpo + r <? fP) eqn:E1;
        destruct (negb checkCaseBounds || (caseIdx + x <? numImages)) eqn:E2;
        cbn [andb].
      1: destruct (mc_pxD_coords r Hr ltac:(apply Z.ltb_lt; exact E1)) as [El Eh];
         rewrite El, Eh;
         match goal with
         | |- In _ (if ?b then _ else _) => destruct b eqn:E3
         end.
      all: apply in_map_iff; exists c; (split; [|assumption]);
        apply pair_equal_spec; (split; [subst R; ring|]).
      all: try reflexivity.
      f_equal. ring.
Qed.

Lemma mc_in_load_H (m caseIdx : Z) (z : write) :
  In z (flat_map (fun t => load_H m caseIdx (fst t) (snd t)) (indices blockDim))
  <-> exists h x,
      0 <= h < B_X /\ 0 <= x < preloadCases
      /\ negb checkCaseBounds || (caseIdx + x <? numImages) = true
      /\ z = (h * (preloadCases + 1) + x, tile_hid m h (caseIdx + x)).
Proof.
  unfold load_H. unfold ManyColor.load_shHidActs, ManyColor.loadY, ManyColor.loadX,
    ManyColor.tidx.
  refine (iff_trans
    (in_tile_load B_Y B_X preloadCases HBX HBY Hpc Hdiv B_X
       (fun ly lx => (ly <? B_X)
                     && (negb checkCaseBounds || (caseIdx + lx <? numImages)))
       (fun lx => negb checkCaseBounds || (caseIdx + lx <? numImages) = true)
       (fun ly lx y =>
          [(ly * (preloadCases + 1) + lx + y * (preloadCases + 1),
            hidActs (ManyColor.moduleIdx B_X numFilters modulesPerBlock blockIdx_x
                     * numImages
                     + ManyColor.blockFilterIdx B_X numFilters blockIdx_x * numImages
                       * ManyColor.numModules numModulesX
                     + ly * numImages * ManyColor.numModules numModulesX
                     + lx
                     + (m - ManyColor.moduleIdx B_X numFilters modulesPerBlock blockIdx_x)
                       * numImages
                     + (caseIdx + y * numImages * ManyColor.numModules numModulesX)))])
       z _ _) _).
  - lia.
  - intros ly lx. rewrite andb_true_iff, Z.ltb_lt. tauto.
  - cbv beta. unfold tile_hid; unfold ManyColor.tile_hid. split.
    + intros [r [lx [Hr [Hlx [HE [Hz|[]]]]]]].
      exists r, lx. repeat (split; [assumption|]).
      subst z. apply pair_equal_spec. split; [ring|]. f_equal. ring.
    + intros [h [x [Hh [Hx [HE Ez]]]]].
      exists h, x. repeat (split; [assumption|]).
      left. subst z. apply pair_equal_spec. split; [ring|]. f_equal. ring.
Qed.

Lemma mc_shI (m caseIdx : Z) (sh : Z -> Z) (r c x : Z) :
  0 <= r < R -> 0 <= c < colorsPerThread -> 0 <= x < preloadCases ->
  store (flat_map (fun t => load_I m caseIdx (fst t) (snd t)) (indices blockDim))
        sh ((r + c * R) * preloadCases + x)
  = if negb checkCaseBounds || (caseIdx + x <? numImages)
    then tile_img m c (bpo + r) (caseIdx + x) else 0.
Proof.
  intros Hr Hc Hx. apply store_agree.
  - eexists. apply mc_in_load_I. exists r, c, x. repeat (split; [assumption|]).
    reflexivity.
  - intros v Hv. apply mc_in_load_I in Hv.
    destruct Hv as [r' [c' [x' [Hr' [Hc' [Hx' E]]]]]].
    apply pair_equal_spec in E. destruct E as [Ea Ev].
    apply radix_inj in Ea; [|assumption|assumption]. destruct Ea as [Ea <-].
    rewrite (Z.add_comm r), (Z.add_comm r') in Ea.
    apply radix_inj in Ea; [|assumption|assumption]. destruct Ea as [<- <-].
    assumption.
Qed.

Lemma mc_shH (m caseIdx : Z) (sh : Z -> Z) (h x : Z) :
  0 <= h < B_X -> 0 <= x < preloadCases ->
  negb checkCaseBounds || (caseIdx + x <? numImages) = true ->
  store (flat_map (fun t => load_H m caseIdx (fst t) (snd t)) (indices blockDim))
        sh (h * (preloadCases + 1) + x)
  = tile_hid m h (caseIdx + x).
Proof.
  intros Hh Hx HE. apply store_agree.
  - eexists. apply mc_in_load_H. exists h, x. repeat (split; [assumption|]).
    reflexivity.
  - intros v Hv. apply mc_in_load_H in Hv.
    destruct Hv as [h' [x' [Hh' [Hx' [HE' E]]]]].
    apply pair_equal_spec in E. destruct E as [Ea Ev].
    apply radix_inj in Ea; [|lia|lia]. destruct Ea as [<- <-].
    assumption.
Qed.

(** The accumulation of one thread (lines 343-352). *)
Lemma mc_accumulate (shI shH : Z -> Z) (tx ty : Z) (pr : Z -> Z -> Z) (c p : Z) :
  0 <= c < colorsPerThread -> 0 <= p < pixelsPerThread ->
  ManyColor.accumulate B_Y pixelsPerThread colorsPerThread preloadCases
                       shI shH tx ty pr c p
  = pr c p
    + zsum (for_range 0 preloadCases 1) (fun i =>
        shI ((ty + p * B_Y + c * pixelsPerThread * B_Y) * preloadCases + i)
        * shH (tx * (preloadCases + 1) + i)).
Proof.
  intros Hc Hp. unfold ManyColor.accumulate.
  refine (eq_trans
    (fold3_additive (for_range 0 colorsPerThread 1) (for_range 0 preloadCases 1)
       (for_range 0 pixelsPerThread 1)
       (fun c i p => c) (fun c i p => p)
       (fun c i p =>
          shI ((ty + p * B_Y + c * pixelsPerThread * B_Y) * preloadCases + i)
          * shH (tx * (preloadCases + 1) + i))
       pr c p) _).
  f_equal.
  apply (zsum_pick_inner_outer
           (for_range 0 colorsPerThread 1) (for_range 0 pixelsPerThread 1)
           (for_range 0 preloadCases 1)
           (fun c i p =>
              shI ((ty + p * B_Y + c * pixelsPerThread * B_Y) * preloadCases + i)
              * shH (tx * (preloadCases + 1) + i)) c p).
  - apply NoDup_for_range; lia.
  - apply NoDup_for_range; lia.
  - apply in_for_range1; lia.
  - apply in_for_range1; lia.
Qed.

Let tile_step := ManyColor.tile_step B_Y B_X pixelsPerThread colorsPerThread
                   preloadCases checkCaseBounds images hidActs numImages numFilters
                   numModulesX imgSize filterSize paddingStart moduleStride imgStride
                   numImgColors modulesPerBlock numGroups blockDim blockIdx_x
                   blockIdx_y pxD.

Lemma mc_tile_step (m caseIdx : Z) (st : block_state) (tx ty c p : Z) :
  0 <= tx < B_X -> 0 <= ty < B_Y ->
  0 <= c < colorsPerThread -> 0 <= p < pixelsPerThread ->
  (checkCaseBounds = false -> caseIdx + preloadCases <= numImages) ->
  prod (tile_step m st caseIdx) tx ty c p
  = prod st tx ty c p
    + zsum (for_range 0 preloadCases 1) (fun i =>
        if caseIdx + i <? numImages
        then tile_img m c (bpo + p * B_Y + ty) (caseIdx + i)
             * tile_hid m tx (caseIdx + i)
        else 0).
Proof.
  intros Hx Hy Hc Hp Hfull.
  unfold tile_step. unfold ManyColor.tile_step. cbn [prod].
  rewrite mc_accumulate by assumption. f_equal.
  apply zsum_ext. intros i Hi. apply in_for_range1 in Hi.
  replace ((ty + p * B_Y + c * pixelsPerThread * B_Y) * preloadCases + i)
    with (((ty + p * B_Y) + c * R) * preloadCases + i) by (subst R; ring).
  fold load_I. fold load_H. fold blockDim.
  rewrite mc_shI; [|subst R; nia|assumption|assumption].
  replace (bpo + (ty + p * B_Y)) with (bpo + p * B_Y + ty) by ring.
  destruct (Z.ltb_spec (caseIdx + i) numImages) as [Hlt|Hge].
  - rewrite orb_true_r. rewrite mc_shH; [reflexivity|assumption|assumption|].
    apply orb_true_iff. right. apply Z.ltb_lt. assumption.
  - destruct checkCaseBounds; [cbn; ring|].
    specialize (Hfull eq_refl). lia.
Qed.

Lemma mc_module_step (m : Z) (st : block_state) (tx ty c p : Z) :
  0 <= tx < B_X -> 0 <= ty < B_Y ->
  0 <= c < colorsPerThread -> 0 <= p < pixelsPerThread ->
  prod (fold_left (tile_step m) (for_range 0 numImages preloadCases) st) tx ty c p
  = prod st tx ty c p
    + zsum (for_range 0 numImages 1) (fun j =>
        tile_img m c (bpo + p * B_Y + ty) j * tile_hid m tx j).
Proof.
  intros Hx Hy Hc Hp.
  rewrite (fold_state_additive (tile_step m) (for_range 0 numImages preloadCases)
             (fun caseIdx =>
                zsum (for_range 0 preloadCases 1) (fun i =>
                  if caseIdx + i <? numImages
                  then tile_img m c (bpo + p * B_Y + ty) (caseIdx + i)
                       * tile_hid m tx (caseIdx + i)
                  else 0))).
  - f_equal.
    apply (zsum_tiles numImages preloadCases
             (fun j => tile_img m c (bpo + p * B_Y + ty) j * tile_hid m tx j));
      [assumption|lia].
  - intros st' caseIdx Hin. apply mc_tile_step; try assumption.
    intros Hcb. apply in_for_range in Hin; [|assumption].
    destruct Hin as [k [Hk [Ek Hlt]]].
    apply Hcheck in Hcb.
    pose proof (Z.quot_rem' numImages preloadCases) as Eq.
    rewrite Hcb, Z.add_0_r in Eq.
    assert (k < numImages ÷ preloadCases) by nia.
    nia.
Qed.

Lemma mc_modules (st : block_state) (tx ty c p : Z) :
  0 <= tx < B_X -> 0 <= ty < B_Y ->
  0 <= c < colorsPerThread -> 0 <= p < pixelsPerThread ->
  prod (fold_left (fun st m =>
                     fold_left (tile_step m) (for_range 0 numImages preloadCases) st)
                  (for_range (ManyColor.moduleIdx B_X numFilters modulesPerBlock blockIdx_x)
                             (ManyColor.moduleIdx B_X numFilters modulesPerBlock blockIdx_x
                              + modulesPerBlock) 1)
                  st) tx ty c p
  = prod st tx ty c p
    + zsum (for_range (ManyColor.moduleIdx B_X numFilters modulesPerBlock blockIdx_x)
                      (ManyColor.moduleIdx B_X numFilters modulesPerBlock blockIdx_x
                       + modulesPerBlock) 1)
           (fun m => zsum (for_range 0 numImages 1) (fun j =>
              tile_img m c (bpo + p * B_Y + ty) j * tile_hid m tx j)).
Proof.
  intros Hx Hy Hc Hp.
  apply (fold_state_additive
           (fun st m => fold_left (tile_step m)
                                  (for_range 0 numImages preloadCases) st)
           _ (fun m => zsum (for_range 0 numImages 1) (fun j =>
                tile_img m c (bpo + p * B_Y + ty) j * tile_hid m tx j))).
  intros st' m _. apply mc_module_step; assumption.
Qed.
End ManyColorBlock.

(** The table [pxDivs] after its fill. *)
Lemma mc_table (B_Y B_X pixelsPerThread colorsPerThread : Z)
      (filterSize numImgColors numGroups blockIdx_y : Z) (u : uninit) (k : Z) :
  0 < B_X -> 0 < B_Y -> pixelsPerThread <= B_X ->
  0 <= k < B_Y * pixelsPerThread ->
  ManyColor.pxDivs B_Y B_X pixelsPerThread colorsPerThread filterSize numImgColors
                   numGroups (mkDim3 B_X B_Y) blockIdx_y u k
  = (ManyColor.blockPixelOffset B_Y pixelsPerThread colorsPerThread numImgColors
       numGroups blockIdx_y + k) ÷ filterSize
    + Z.shiftl (Z.rem (ManyColor.blockPixelOffset B_Y pixelsPerThread colorsPerThread
                         numImgColors numGroups blockIdx_y + k) filterSize) 16.
Proof.
  intros HBX HBY Hppt Hk. unfold ManyColor.pxDivs.
  set (val := fun t =>
         (ManyColor.blockPixelOffset B_Y pixelsPerThread colorsPerThread numImgColors
            numGroups blockIdx_y + t) ÷ filterSize
         + Z.shiftl (Z.rem (ManyColor.blockPixelOffset B_Y pixelsPerThread
                              colorsPerThread numImgColors numGroups blockIdx_y + t)
                           filterSize) 16).
  assert (Hfill : forall z,
    In z (flat_map (fun t => ManyColor.fill_pxDivs B_Y B_X pixelsPerThread
                               colorsPerThread filterSize numImgColors numGroups
                               blockIdx_y (fst t) (snd t))
                   (indices (mkDim3 B_X B_Y)))
    <-> exists k, 0 <= k < B_Y * pixelsPerThread /\ z = (k, val k)).
  { intros z. apply (in_table_fill B_Y B_X (B_Y * pixelsPerThread) val z); [assumption|nia]. }
  apply store_agree.
  - exists (val k). apply Hfill. exists k. split; [assumption|reflexivity].
  - intros v Hv. apply Hfill in Hv. destruct Hv as [k' [Hk' E]].
    inversion E; subst. reflexivity.
Qed.

(** The filters of a block of [w] filters, [w] dividing the size [g] of a
    group, belong to one group. *)
Lemma block_group (w g k t : Z) :
  0 < w -> 0 < g -> Z.rem g w = 0 -> 0 <= k -> 0 <= t < w ->
  (w * k + t) ÷ g = (w * k) ÷ g.
Proof.
  intros Hw Hg Hrem Hk Ht.
  pose proof (Z.quot_rem' g w) as Eg. rewrite Hrem, Z.add_0_r in Eg.
  set (q := g ÷ w) in *. clearbody q.
  assert (Hq : 0 < q) by nia.
  rewrite !Z.quot_div_nonneg by nia.
  subst g. rewrite <- !Z.div_div by lia.
  f_equal. rewrite (Z.mul_comm w k), Z.div_add_l, Z.div_mul by lia.
  rewrite (Z.div_small t w) by lia. ring.
Qed.

(** * A launch of [weight_acts_kernel2_manycolor] *)

Section ManyColorLaunch.
Variables (B_Y B_X pixelsPerThread colorsPerThread preloadCases : Z)
          (scale checkCaseBounds : bool).
Variables (images hidActs : Z -> Z) (a : kargs) (u : Z -> Z -> uninit).
Variables (blocks threads : dim3).

Hypothesis HBX : 0 < B_X.
Hypothesis HBY : 0 < B_Y.
Hypothesis Hppt : 0 < pixelsPerThread.
Hypothesis HpptB : pixelsPerThread <= B_X.
Hypothesis Hcpt : 0 < colorsPerThread.
Hypothesis Hpc : 0 < preloadCases.
Hypothesis Hdiv : Z.rem (B_Y * B_X) preloadCases = 0.
Hypothesis Hn : 0 <= a_numImages a.
Hypothesis Hcheck : checkCaseBounds = false -> Z.rem (a_numImages a) preloadCases = 0.
Hypothesis Hcolors0 : 0 < k_numFilterColors a.
Hypothesis Hcolors : Z.rem (k_numFilterColors a) colorsPerThread = 0.
Hypothesis Hfilters : 0 <= a_numFilters a.
Hypothesis HfiltersB : Z.rem (a_numFilters a) B_X = 0.
Hypothesis Hgroup0 : 0 < k_numFiltersPerGroup a.
Hypothesis HgroupB : Z.rem (k_numFiltersPerGroup a) B_X = 0.
Hypothesis Hfs : 0 < a_filterSize a <= 65536.
Hypothesis Hout : 0 <= k_outputModules a.
Hypothesis Hthreads : threads = mkDim3 B_X B_Y.
Hypothesis Hblocks :
  blocks = mkDim3 (k_outputModules a * (a_numFilters a ÷ B_X))
                  (DIVUP (k_filterPixels a) (B_Y * pixelsPerThread)
                   * (k_numFilterColors a ÷ colorsPerThread)).

Let cb := k_numFilterColors a ÷ colorsPerThread.
Let jobs := pixel_jobs B_Y pixelsPerThread colorsPerThread cb (k_filterPixels a)
                       blocks threads.
Let entry := pixel_entry B_Y B_X pixelsPerThread colorsPerThread cb (a_numFilters a).

Lemma mc_nFC : k_numFilterColors a = cb * colorsPerThread /\ 0 < cb.
Proof. unfold cb. apply exact_quot; assumption. Qed.

Lemma mc_fP : 0 <= k_filterPixels a.
Proof. unfold k_filterPixels. nia. Qed.

Ltac mc_side :=
  first [assumption | lia | exact (proj1 mc_nFC) | exact (proj2 mc_nFC) | exact mc_fP].

(** The registers of a thread hold the reference reduction of its entries. *)
Lemma mc_prod_reference (t : job) :
  In t jobs ->
  prod (ManyColor.block_loop B_Y B_X pixelsPerThread colorsPerThread preloadCases
          checkCaseBounds images hidActs
          (a_numImages a) (a_numFilters a) (a_numModulesX a) (a_imgSize a)
          (a_filterSize a) (a_paddingStart a) (a_moduleStride a) (a_imgStride a)
          (a_numImgColors a) (a_modulesPerBlock a) (a_numGroups a)
          threads (j_bx t) (j_by t) (u (j_bx t) (j_by t)))
       (j_tx t) (j_ty t) (j_c t) (j_p t)
  = entry_reference a images hidActs (entry t).
Proof.
  intros Hin.
  assert (Hvalid : entry_valid a (entry t)).
  { apply (pixel_entry_valid B_Y B_X pixelsPerThread colorsPerThread cb a blocks threads);
      mc_side. }
  apply (in_pixel_jobs B_Y B_X pixelsPerThread colorsPerThread cb a blocks threads) in Hin;
    try mc_side.
  destruct Hin as [Hbx [Hby [Htx [Hty [Hp [Hc Hlt]]]]]].
  destruct mc_nFC as [EnFC Hcb].
  assert (Hbq : 0 <= j_by t ÷ cb) by (apply Z.quot_pos; lia).
  rewrite Hthreads. unfold ManyColor.block_loop. cbv zeta.
  rewrite mc_modules; try assumption.
  2:{ unfold ManyColor.blockPixelOffset, ManyColor.numFilterColors.
      fold (k_numFilterColors a). fold cb. nia. }
  2:{ intros k Hk. apply mc_table; assumption. }
  cbn [prod]. rewrite Z.add_0_l.
  unfold entry, pixel_entry in *. unfold entry_valid, valid_entry in Hvalid.
  destruct Hvalid as [Hvom [Hvc [Hvpx Hvf]]].
  unfold entry_reference, reference.
  unfold ManyColor.moduleIdx, ManyColor.outputModuleIdx, ManyColor.blocksPerModule.
  rewrite (Z.mul_comm (a_modulesPerBlock a)).
  apply zsum_ext. intros m _. unfold module_gradient.
  apply zsum_ext. intros j _.
  assert (Ehid : ManyColor.tile_hid B_X hidActs (a_numImages a) (a_numFilters a)
                   (a_numModulesX a) (j_bx t) m (j_tx t) j
                 = hidAct_at a hidActs
                     (B_X * Z.rem (j_bx t) (a_numFilters a ÷ B_X) + j_tx t) m j)
    by reflexivity.
  rewrite Ehid. f_equal.
  unfold ManyColor.tile_img, image_at, in_image, ManyColor.blockPixelOffset,
    ManyColor.filterPixels, ManyColor.imgLoadModPosY, ManyColor.imgLoadModPosX,
    pixel_y, pixel_x, ManyColor.imgPixels, k_imgPixels, ManyColor.numFilterColors.
  fold (k_filterPixels a). fold (k_numFilterColors a). fold cb.
  apply Z.ltb_lt in Hlt. rewrite Hlt.
  assert (Ecol : image_color a (B_X * Z.rem (j_bx t) (a_numFilters a ÷ B_X) + j_tx t)
                             (Z.rem (j_by t) cb * colorsPerThread + j_c t)
                 = ManyColor.groupColorIdx B_X (a_numFilters a) (a_numImgColors a)
                     (a_numGroups a) (j_bx t)
                   + ManyColor.blockColorIdx colorsPerThread (a_numImgColors a)
                       (a_numGroups a) (j_by t)
                   + j_c t).
  { unfold image_color, ManyColor.groupColorIdx, ManyColor.blockGroupIdx,
      ManyColor.blockColorIdx, ManyColor.blockFilterIdx, ManyColor.blocksPerModule,
      ManyColor.numFiltersPerGroup, ManyColor.numFilterColors.
    fold (k_numFiltersPerGroup a). fold (k_numFilterColors a). fold cb.
    rewrite block_group; [ring|assumption|assumption|assumption| |assumption].
    apply Z.rem_nonneg; [|lia].
    intros E0. rewrite E0 in Hbx. lia. }
  rewrite Ecol.
  match goal with |- (if ?b then _ else _) = _ => destruct b end; [|reflexivity].
  f_equal. ring.
Qed.

(** The launch performs the stores of its jobs. *)
Lemma mc_launch_jobs (targets : Z -> Z) :
  launch_kernel (k_manycolor B_Y B_X pixelsPerThread colorsPerThread preloadCases
                             scale checkCaseBounds)
                blocks threads images hidActs targets a u
  = apply_rmw (map (job_store scale a images hidActs entry) jobs) targets.
Proof.
  unfold launch_kernel. unfold jobs. unfold pixel_jobs.
  assert (Hjobs : forall t, In t (pixel_jobs B_Y pixelsPerThread colorsPerThread cb
                                   (k_filterPixels a) blocks threads) ->
                  In t (pixel_jobs B_Y pixelsPerThread colorsPerThread cb
                                   (k_filterPixels a) blocks threads)) by auto.
  unfold pixel_jobs at 1 in Hjobs.
  revert targets.
  apply fold_apply_rmw_in. intros [bx by_] Hb tg. cbn [fst snd].
  unfold ManyColor.run_block.
  revert tg. apply fold_apply_rmw_in. intros [tx ty] Ht tg. cbn [fst snd].
  assert (Hstep : forall (p : Z) (m : Z -> Z),
    In p (for_range 0 pixelsPerThread 1) ->
    (if ManyColor.blockPixelOffset B_Y pixelsPerThread colorsPerThread
          (a_numImgColors a) (a_numGroups a) by_ + p * B_Y + ty
        <? ManyColor.filterPixels (a_filterSize a)
     then
       fold_left (fun targets c =>
         let ad := ManyColor.targets_ptr B_Y B_X pixelsPerThread colorsPerThread
                     (a_numFilters a) (a_filterSize a) (a_numImgColors a)
                     (a_numGroups a) bx by_ tx ty
                   + (p * B_Y * a_numFilters a
                      + c * ManyColor.filterPixels (a_filterSize a) * a_numFilters a) in
         upd targets ad
             (blend scale a
                (prod (ManyColor.block_loop B_Y B_X pixelsPerThread colorsPerThread
                         preloadCases checkCaseBounds images hidActs
                         (a_numImages a) (a_numFilters a) (a_numModulesX a)
                         (a_imgSize a) (a_filterSize a) (a_paddingStart a)
                         (a_moduleStride a) (a_imgStride a) (a_numImgColors a)
                         (a_modulesPerBlock a) (a_numGroups a)
                         threads bx by_ (u bx by_)) tx ty c p)
                (targets ad)))
         (for_range 0 colorsPerThread 1) m
     else m)
    = apply_rmw
        (map (job_store scale a images hidActs entry)
             (if by_ ÷ cb * B_Y * pixelsPerThread + p * B_Y + ty <? k_filterPixels a
              then flat_map (fun c => [mkJob bx by_ tx ty p c])
                            (for_range 0 colorsPerThread 1)
              else [])) m).
  { intros p m Hp.
    unfold ManyColor.blockPixelOffset, ManyColor.filterPixels, ManyColor.numFilterColors.
    fold (k_filterPixels a). fold (k_numFilterColors a). fold cb.
    destruct (by_ ÷ cb * B_Y * pixelsPerThread + p * B_Y + ty <? k_filterPixels a) eqn:Hg;
      [|reflexivity].
    revert m. apply fold_apply_rmw_in. intros c Hc m.
    assert (Hin : In (mkJob bx by_ tx ty p c) jobs).
    { apply Hjobs.
      apply in_flat_map. exists (bx, by_). split; [assumption|].
      apply in_flat_map. exists (tx, ty). split; [assumption|].
      apply in_flat_map. exists p. split; [assumption|].
      cbn [fst snd]. rewrite Hg.
      apply in_flat_map. exists c. split; [assumption|now left]. }
    pose proof (mc_prod_reference _ Hin) as Hprod.
    cbn [j_bx j_by j_tx j_ty j_c j_p] in Hprod.
    cbv zeta. rewrite Hprod.
    unfold apply_rmw, job_store. cbn [map fold_left fst snd].
    assert (Ead : ManyColor.targets_ptr B_Y B_X pixelsPerThread colorsPerThread
                    (a_numFilters a) (a_filterSize a) (a_numImgColors a)
                    (a_numGroups a) bx by_ tx ty
                  + (p * B_Y * a_numFilters a
                     + c * k_filterPixels a * a_numFilters a)
                  = entry_index a (entry (mkJob bx by_ tx ty p c))).
    { unfold entry, pixel_entry, entry_index, target_index. cbn.
      unfold ManyColor.targets_ptr, ManyColor.outputModuleIdx,
        ManyColor.blockPixelOffset, ManyColor.blockFilterIdx, ManyColor.filterPixels,
        ManyColor.blockColorIdx, ManyColor.numFilterColors, ManyColor.blocksPerModule.
      fold (k_filterPixels a). fold (k_numFilterColors a). fold cb.
      ring. }
    rewrite Ead. reflexivity. }
  unfold ManyColor.write_targets.
  destruct scale; unfold blend in Hstep; revert tg; apply fold_apply_rmw_in;
    intros p Hp m; apply Hstep; assumption.
Qed.

(** [weight_acts_kernel2_manycolor]: every entry of [targets] receives the
    blend of its old value with the reference reduction, and no other cell
    is written. *)
Lemma manycolor_kernel_correct (targets : Z -> Z) :
  (forall om c px f,
     valid_entry a om c px f ->
     launch_kernel (k_manycolor B_Y B_X pixelsPerThread colorsPerThread preloadCases
                                scale checkCaseBounds)
                   blocks threads images hidActs targets a u
                   (target_index a om c px f)
     = blend scale a (reference a images hidActs om c px f)
             (targets (target_index a om c px f)))
  /\ (forall ad,
        (forall om c px f, valid_entry a om c px f -> target_index a om c px f <> ad) ->
        launch_kernel (k_manycolor B_Y B_X pixelsPerThread colorsPerThread preloadCases
                                   scale checkCaseBounds)
                      blocks threads images hidActs targets a u ad
        = targets ad).
Proof.
  rewrite mc_launch_jobs. unfold job_store.
  assert (HND : NoDup jobs).
  { unfold jobs. apply (pixel_jobs_NoDup B_Y B_X); mc_side. }
  assert (HV : forall t, In t jobs -> entry_valid a (entry t)).
  { apply (pixel_entry_valid B_Y B_X pixelsPerThread colorsPerThread cb a blocks threads);
      mc_side. }
  assert (HI : forall t t', In t jobs -> In t' jobs -> entry t = entry t' -> t = t').
  { apply (pixel_entry_inj B_Y B_X pixelsPerThread colorsPerThread cb a blocks threads);
      mc_side. }
  assert (HO : forall e, entry_valid a e -> exists t, In t jobs /\ entry t = e).
  { apply (pixel_entry_onto B_Y B_X pixelsPerThread colorsPerThread cb a blocks threads);
      mc_side. }
  assert (HX : forall e e', entry_valid a e -> entry_valid a e' ->
                            entry_index a e = entry_index a e' -> e = e').
  { intros [[[om c] px] f] [[[om' c'] px'] f']. apply target_index_inj. }
  split.
  - intros om c px f Hv.
    apply (grid_entry job jobs entry (entry_valid a) (entry_index a)
             (fun e => blend scale a (entry_reference a images hidActs e)))
      with (e := (om, c, px, f)); assumption.
  - intros ad Had.
    apply (grid_elsewhere job jobs entry (entry_valid a) (entry_index a)
             (fun e => blend scale a (entry_reference a images hidActs e)));
      [assumption|].
    intros [[[om c] px] f] Hv. apply Had. exact Hv.
Qed.
(** The stores of one block are those of its jobs. *)
Lemma mc_block_jobs (b : Z * Z) :
  In b (indices blocks) ->
  forall tg,
    ManyColor.run_block B_Y B_X pixelsPerThread colorsPerThread preloadCases
      scale checkCaseBounds images hidActs
      (a_numImages a) (a_numFilters a) (a_numModulesX a) (a_imgSize a)
      (a_filterSize a) (a_paddingStart a) (a_moduleStride a) (a_imgStride a)
      (a_numImgColors a) (a_modulesPerBlock a) (a_numGroups a)
      (a_scaleTargets a) (a_scaleOutput a)
      threads (fst b) (snd b) (u (fst b) (snd b)) tg
    = apply_rmw (map (job_store scale a images hidActs entry)
                     (pixel_block_jobs B_Y pixelsPerThread colorsPerThread cb
                                       (k_filterPixels a) threads b)) tg.
Proof.
  intros Hb tg. destruct b as [bx by_]. unfold pixel_block_jobs. cbn [fst snd].
  assert (Hjobs : forall t, In t (pixel_jobs B_Y pixelsPerThread colorsPerThread cb
                                   (k_filterPixels a) blocks threads) ->
                  In t (pixel_jobs B_Y pixelsPerThread colorsPerThread cb
                                   (k_filterPixels a) blocks threads)) by auto.
  unfold pixel_jobs at 1 in Hjobs.
  unfold ManyColor.run_block.
  revert tg. apply fold_apply_rmw_in. intros [tx ty] Ht tg. cbn [fst snd].
  assert (Hstep : forall (p : Z) (m : Z -> Z),
    In p (for_range 0 pixelsPerThread 1) ->
    (if ManyColor.blockPixelOffset B_Y pixelsPerThread colorsPerThread
          (a_numImgColors a) (a_numGroups a) by_ + p * B_Y + ty
        <? ManyColor.filterPixels (a_filterSize a)
     then
       fold_left (fun targets c =>
         let ad := ManyColor.targets_ptr B_Y B_X pixelsPerThread colorsPerThread
                     (a_numFilters a) (a_filterSize a) (a_numImgColors a)
                     (a_numGroups a) bx by_ tx ty
                   + (p * B_Y * a_numFilters a
                      + c * ManyColor.filterPixels (a_filterSize a) * a_numFilters a) in
         upd targets ad
             (blend scale a
                (prod (ManyColor.block_loop B_Y B_X pixelsPerThread colorsPerThread
                         preloadCases checkCaseBounds images hidActs
                         (a_numImages a) (a_numFilters a) (a_numModulesX a)
                         (a_imgSize a) (a_filterSize a) (a_paddingStart a)
                         (a_moduleStride a) (a_imgStride a) (a_numImgColors a)
                         (a_modulesPerBlock a) (a_numGroups a)
                         threads bx by_ (u bx by_)) tx ty c p)
                (targets ad)))
         (for_range 0 colorsPerThread 1) m
     else m)
    = apply_rmw
        (map (job_store scale a images hidActs entry)
             (if by_ ÷ cb * B_Y * pixelsPerThread + p * B_Y + ty <? k_filterPixels a
              then flat_map (fun c => [mkJob bx by_ tx ty p c])
                            (for_range 0 colorsPerThread 1)
              else [])) m).
  { intros p m Hp.
    unfold ManyColor.blockPixelOffset, ManyColor.filterPixels, ManyColor.numFilterColors.
    fold (k_filterPixels a). fold (k_numFilterColors a). fold cb.
    destruct (by_ ÷ cb * B_Y * pixelsPerThread + p * B_Y + ty <? k_filterPixels a) eqn:Hg;
      [|reflexivity].
    revert m. apply fold_apply_rmw_in. intros c Hc m.
    assert (Hin : In (mkJob bx by_ tx ty p c) jobs).
    { apply Hjobs.
      apply in_flat_map. exists (bx, by_). split; [assumption|].
      apply in_flat_map. exists (tx, ty). split; [assumption|].
      apply in_flat_map. exists p. split; [assumption|].
      cbn [fst snd]. rewrite Hg.
      apply in_flat_map. exists c. split; [assumption|now left]. }
    pose proof (mc_prod_reference _ Hin) as Hprod.
    cbn [j_bx j_by j_tx j_ty j_c j_p] in Hprod.
    cbv zeta. rewrite Hprod.
    unfold apply_rmw, job_store. cbn [map fold_left fst snd].
    assert (Ead : ManyColor.targets_ptr B_Y B_X pixelsPerThread colorsPerThread
                    (a_numFilters a) (a_filterSize a) (a_numImgColors a)
                    (a_numGroups a) bx by_ tx ty
                  + (p * B_Y * a_numFilters a
                     + c * k_filterPixels a * a_numFilters a)
                  = entry_index a (entry (mkJob bx by_ tx ty p c))).
    { unfold entry, pixel_entry, entry_index, target_index. cbn.
      unfold ManyColor.targets_ptr, ManyColor.outputModuleIdx,
        ManyColor.blockPixelOffset, ManyColor.blockFilterIdx, ManyColor.filterPixels,
        ManyColor.blockColorIdx, ManyColor.numFilterColors, ManyColor.blocksPerModule.
      fold (k_filterPixels a). fold (k_numFilterColors a). fold cb.
      ring. }
    rewrite Ead. reflexivity. }
  unfold ManyColor.write_targets.
  destruct scale; unfold blend in Hstep; revert tg; apply fold_apply_rmw_in;
    intros p Hp m; apply Hstep; assumption.
Qed.

(** The jobs of a launch write pairwise distinct cells, the entries. *)
Lemma mc_stores_distinct :
  NoDup (map (fun t => entry_index a (entry t)) jobs)
  /\ (forall t, In t jobs -> entry_valid a (entry t))
  /\ (forall e, entry_valid a e -> exists t, In t jobs /\ entry t = e).
Proof.
  assert (HND : NoDup jobs).
  { unfold jobs. apply (pixel_jobs_NoDup B_Y B_X); mc_side. }
  assert (HV : forall t, In t jobs -> entry_valid a (entry t)).
  { apply (pixel_entry_valid B_Y B_X pixelsPerThread colorsPerThread cb a blocks threads);
      mc_side. }
  assert (HI : forall t t', In t jobs -> In t' jobs -> entry t = entry t' -> t = t').
  { apply (pixel_entry_inj B_Y B_X pixelsPerThread colorsPerThread cb a blocks threads);
      mc_side. }
  assert (HO : forall e, entry_valid a e -> exists t, In t jobs /\ entry t = e).
  { apply (pixel_entry_onto B_Y B_X pixelsPerThread colorsPerThread cb a blocks threads);
      mc_side. }
  split; [|split; assumption].
  apply NoDup_map_inj_on; [exact HND|].
  intros t t' Ht Ht' E. apply HI; [assumption|assumption|].
  pose proof (HV t Ht) as V. pose proof (HV t' Ht') as V'.
  destruct (entry t) as [[[om c] px] f], (entry t') as [[[om' c'] px'] f'].
  apply (target_index_inj a); assumption.
Qed.

End ManyColorLaunch.

(** * The block of [weight_acts_kernel2_manycolor_manyfilter] *)

Section ManyFilterBlock.
Variables (B_Y B_X filtersPerThread colorsPerThread preloadCases : Z)
          (scale checkCaseBounds : bool).
Variables (images hidActs : Z -> Z).
Variables (numImages numFilters numModulesX imgSize filterSize paddingStart
           moduleStride imgStride numImgColors modulesPerBlock numGroups
           scaleTargets scaleOutput : Z).
Variables (blockIdx_x blockIdx_y : Z).

Hypothesis HBX : 0 < B_X.
Hypothesis HBY : 0 < B_Y.
Hypothesis Hfpt : 0 < filtersPerThread.
Hypothesis Hpc : 0 < preloadCases.
Hypothesis Hdiv : Z.rem (B_Y * B_X) preloadCases = 0.
Hypothesis Hn : 0 <= numImages.
Hypothesis Hcheck : checkCaseBounds = false -> Z.rem numImages preloadCases = 0.

Let blockDim := mkDim3 B_X B_Y.
Let bpo := ManyFilter.blockPixelOffset B_Y colorsPerThread numImgColors numGroups
             blockIdx_y.
Let fP := ManyFilter.filterPixels filterSize.

Let tile_img := ManyFilter.tile_img B_X filtersPerThread colorsPerThread images
                  numFilters numModulesX imgSize filterSize paddingStart moduleStride
                  imgStride numImgColors numGroups blockIdx_x blockIdx_y.
Let tile_hid := ManyFilter.tile_hid B_X filtersPerThread hidActs numImages numFilters
                  numModulesX blockIdx_x.

Variables pxD pxM : Z -> Z.
Hypothesis HpxD : forall k, 0 <= k < B_Y -> pxD k = (bpo + k) ÷ filterSize.
Hypothesis HpxM : forall k, 0 <= k < B_Y -> pxM k = Z.rem (bpo + k) filterSize.

Let load_I := ManyFilter.load_shImages B_Y B_X filtersPerThread colorsPerThread
                preloadCases checkCaseBounds images numImages numFilters numModulesX
                imgSize filterSize paddingStart moduleStride imgStride numImgColors
                numGroups blockIdx_x blockIdx_y pxD pxM.
Let load_H := ManyFilter.load_shHidActs B_Y B_X filtersPerThread preloadCases
                checkCaseBounds hidActs numImages numFilters numModulesX
                modulesPerBlock blockIdx_x.

Lemma mf_in_load_I (m caseIdx : Z) (z : write) :
  In z (flat_map (fun t => load_I m caseIdx (fst t) (snd t)) (indices blockDim))
  <-> exists r c x,
      0 <= r < B_Y /\ 0 <= c < colorsPerThread /\ 0 <= x < preloadCases
      /\ z = ((r + c * B_Y) * preloadCases + x,
              if negb checkCaseBounds || (caseIdx + x <? numImages)
              then tile_img m c (bpo + r) (caseIdx + x) else 0).
Proof.
  unfold load_I. unfold ManyFilter.load_shImages, ManyFilter.loadY, ManyFilter.loadX,
    ManyFilter.tidx.
  refine (iff_trans
    (in_tile_load B_Y B_X preloadCases HBX HBY Hpc Hdiv B_Y
       (fun ly lx => ly <? B_Y) (fun _ => True)
       (fun ly lx y =>
          let pxIdx := ly + y in
          if (pxIdx + bpo <? fP)
             && (negb checkCaseBounds || (caseIdx + lx <? numImages)) then
            let pxY := ManyFilter.imgLoadModPosY numModulesX paddingStart
                         moduleStride m + pxD pxIdx in
            let pxX := ManyFilter.imgLoadModPosX numModulesX paddingStart
                         moduleStride m + pxM pxIdx in
            if (pxY >=? 0) && (pxY <? imgSize) && (pxX >=? 0) && (pxX <? imgSize)
            then
              let pixIdx := (pxY * imgSize + pxX) * imgStride in
              map (fun c =>
                     (ly * preloadCases + lx + (y + c * B_Y) * preloadCases,
                      images (ManyFilter.imgColorIdx B_X filtersPerThread
                                colorsPerThread numFilters numImgColors numGroups
                                blockIdx_x blockIdx_y
                              * ManyFilter.imgPixels imgSize * imgStride + lx
                              + (caseIdx + c * ManyFilter.imgPixels imgSize * imgStride
                                 + pixIdx))))
                  (for_range 0 colorsPerThread 1)
            else
              map (fun c =>
                     (ly * preloadCases + lx + (y + c * B_Y) * preloadCases, 0))
                  (for_range 0 colorsPerThread 1)
          else
            map (fun c =>
                   (ly * preloadCases + lx + (y + c * B_Y) * preloadCases, 0))
                (for_range 0 colorsPerThread 1)) z _ _) _).
  - lia.
  - intros ly lx. rewrite Z.ltb_lt. tauto.
  - cbv beta zeta. split.
    + intros [r [lx [Hr [Hlx [_ Hz]]]]].
      set (ly := r mod _) in Hz.
      replace (ly + (r - ly)) with r in Hz by ring.
      rewrite (Z.add_comm r bpo) in Hz.
      rewrite (HpxD r Hr), (HpxM r Hr) in Hz.
      unfold tile_img; unfold ManyFilter.tile_img. fold fP. fold bpo.
      destruct (bpo + r <? fP) eqn:E1;
        destruct (negb checkCaseBounds || (caseIdx + lx <? numImages)) eqn:E2;
        cbn [andb] in Hz.
      1: match type of Hz with
         | In _ (if ?b then _ else _) => destruct b eqn:E3
         end.
      all: apply in_map_iff in Hz; destruct Hz as [c [Ez Hc]];
        apply in_for_range1 in Hc; exists r, c, lx;
        (split; [assumption|]); (split; [assumption|]); (split; [assumption|]);
        subst z; apply pair_equal_spec; (split; [ring|]).
      all: rewrite ?E2, ?E1; try rewrite E3; try reflexivity.
      f_equal. ring.
    + intros [r [c [x [Hr [Hc [Hx Ez]]]]]].
      exists r, x. split; [assumption|]. split; [assumption|]. split; [exact I|].
      set (ly := r mod _).
      replace (ly + (r - ly)) with r by ring.
      rewrite (Z.add_comm r bpo).
      rewrite (HpxD r Hr), (HpxM r Hr).
      assert (Hin : In c (for_range 0 colorsPerThread 1)) by (apply in_for_range1; lia).
      subst z. unfold tile_img; unfold ManyFilter.tile_img. fold fP. fold bpo.
      destruct (bpo + r <? fP) eqn:E1;
        destruct (negb checkCaseBounds || (caseIdx + x <? numImages)) eqn:E2;
        cbn [andb].
      1: match goal with
         | |- In _ (if ?b then _ else _) => destruct b eqn:E3
         end.
      all: apply in_map_iff; exists c; (split; [|assumption]);
        apply pair_equal_spec; (split; [ring|]).
      all: try reflexivity.
      f_equal. ring.
Qed.

Lemma mf_in_load_H (m caseIdx : Z) (z : write) :
  In z (flat_map (fun t => load_H m caseIdx (fst t) (snd t)) (indices blockDim))
  <-> exists h x,
      0 <= h < B_X * filtersPerThread /\ 0 <= x < preloadCases
      /\ negb checkCaseBounds || (caseIdx + x <? numImages) = true
      /\ z = (h * (preloadCases + 1) + x, tile_hid m h (caseIdx + x)).
Proof.
  unfold load_H. unfold ManyFilter.load_shHidActs, ManyFilter.loadY, ManyFilter.loadX,
    ManyFilter.tidx.
  refine (iff_trans
    (in_tile_load B_Y B_X preloadCases HBX HBY Hpc Hdiv (B_X * filtersPerThread)
       (fun ly lx => (ly <? B_X * filtersPerThread)
                     && (negb checkCaseBounds || (caseIdx + lx <? numImages)))
       (fun lx => negb checkCaseBounds || (caseIdx + lx <? numImages) = true)
       (fun ly lx y =>
          [(ly * (preloadCases + 1) + lx + y * (preloadCases + 1),
            hidActs (ManyFilter.moduleIdx B_X filtersPerThread numFilters
                       modulesPerBlock blockIdx_x * numImages
                     + ManyFilter.blockFilterIdx B_X filtersPerThread numFilters
                         blockIdx_x * numImages * ManyFilter.numModules numModulesX
                     + ly * numImages * ManyFilter.numModules numModulesX
                     + lx
                     + (m - ManyFilter.moduleIdx B_X filtersPerThread numFilters
                              modulesPerBlock blockIdx_x) * numImages
                     + (caseIdx + y * numImages * ManyFilter.numModules numModulesX)))])
       z _ _) _).
  - nia.
  - intros ly lx. rewrite andb_true_iff, Z.ltb_lt. tauto.
  - cbv beta. unfold tile_hid; unfold ManyFilter.tile_hid. split.
    + intros [r [lx [Hr [Hlx [HE [Hz|[]]]]]]].
      exists r, lx. repeat (split; [assumption|]).
      subst z. apply pair_equal_spec. split; [ring|]. f_equal. ring.
    + intros [h [x [Hh [Hx [HE Ez]]]]].
      exists h, x. repeat (split; [assumption|]).
      left. subst z. apply pair_equal_spec. split; [ring|]. f_equal. ring.
Qed.

Lemma mf_shI (m caseIdx : Z) (sh : Z -> Z) (r c x : Z) :
  0 <= r < B_Y -> 0 <= c < colorsPerThread -> 0 <= x < preloadCases ->
  store (flat_map (fun t => load_I m caseIdx (fst t) (snd t)) (indices blockDim))
        sh ((r + c * B_Y) * preloadCases + x)
  = if negb checkCaseBounds || (caseIdx + x <? numImages)
    then tile_img m c (bpo + r) (caseIdx + x) else 0.
Proof.
  intros Hr Hc Hx. apply store_agree.
  - eexists. apply mf_in_load_I. exists r, c, x. repeat (split; [assumption|]).
    reflexivity.
  - intros v Hv. apply mf_in_load_I in Hv.
    destruct Hv as [r' [c' [x' [Hr' [Hc' [Hx' E]]]]]].
    apply pair_equal_spec in E. destruct E as [Ea Ev].
    apply radix_inj in Ea; [|assumption|assumption]. destruct Ea as [Ea <-].
    rewrite (Z.add_comm r), (Z.add_comm r') in Ea.
    apply radix_inj in Ea; [|assumption|assumption]. destruct Ea as [<- <-].
    assumption.
Qed.

Lemma mf_shH (m caseIdx : Z) (sh : Z -> Z) (h x : Z) :
  0 <= h < B_X * filtersPerThread -> 0 <= x < preloadCases ->
  negb checkCaseBounds || (caseIdx + x <? numImages) = true ->
  store (flat_map (fun t => load_H m caseIdx (fst t) (snd t)) (indices blockDim))
        sh (h * (preloadCases + 1) + x)
  = tile_hid m h (caseIdx + x).
Proof.
  intros Hh Hx HE. apply store_agree.
  - eexists. apply mf_in_load_H. exists h, x. repeat (split; [assumption|]).
    reflexivity.
  - intros v Hv. apply mf_in_load_H in Hv.
    destruct Hv as [h' [x' [Hh' [Hx' [HE' E]]]]].
    apply pair_equal_spec in E. destruct E as [Ea Ev].
    apply radix_inj in Ea; [|lia|lia]. destruct Ea as [<- <-].
    assumption.
Qed.

(** The accumulation of one thread (lines 528-537). *)
Lemma mf_accumulate (shI shH : Z -> Z) (tx ty : Z) (pr : Z -> Z -> Z) (c f : Z) :
  0 <= c < colorsPerThread -> 0 <= f < filtersPerThread ->
  ManyFilter.accumulate B_Y B_X filtersPerThread colorsPerThread preloadCases
                        shI shH tx ty pr c f
  = pr c f
    + zsum (for_range 0 preloadCases 1) (fun i =>
        shI ((ty + c * B_Y) * preloadCases + i)
        * shH ((tx + f * B_X) * (preloadCases + 1) + i)).
Proof.
  intros Hc Hf. unfold ManyFilter.accumulate.
  refine (eq_trans
    (fold3_additive (for_range 0 colorsPerThread 1) (for_range 0 preloadCases 1)
       (for_range 0 filtersPerThread 1)
       (fun c i f => c) (fun c i f => f)
       (fun c i f =>
          shI ((ty + c * B_Y) * preloadCases + i)
          * shH ((tx + f * B_X) * (preloadCases + 1) + i))
       pr c f) _).
  f_equal.
  apply (zsum_pick_inner_outer
           (for_range 0 colorsPerThread 1) (for_range 0 filtersPerThread 1)
           (for_range 0 preloadCases 1)
           (fun c i f =>
              shI ((ty + c * B_Y) * preloadCases + i)
              * shH ((tx + f * B_X) * (preloadCases + 1) + i)) c f).
  - apply NoDup_for_range; lia.
  - apply NoDup_for_range; lia.
  - apply in_for_range1; lia.
  - apply in_for_range1; lia.
Qed.

Let tile_step := ManyFilter.tile_step B_Y B_X filtersPerThread colorsPerThread
                   preloadCases checkCaseBounds images hidActs numImages numFilters
                   numModulesX imgSize filterSize paddingStart moduleStride imgStride
                   numImgColors modulesPerBlock numGroups blockDim blockIdx_x
                   blockIdx_y pxD pxM.

Lemma mf_tile_step (m caseIdx : Z) (st : block_state) (tx ty c f : Z) :
  0 <= tx < B_X -> 0 <= ty < B_Y ->
  0 <= c < colorsPerThread -> 0 <= f < filtersPerThread ->
  (checkCaseBounds = false -> caseIdx + preloadCases <= numImages) ->
  prod (tile_step m st caseIdx) tx ty c f
  = prod st tx ty c f
    + zsum (for_range 0 preloadCases 1) (fun i =>
        if caseIdx + i <? numImages
        then tile_img m c (bpo + ty) (caseIdx + i)
             * tile_hid m (tx + f * B_X) (caseIdx + i)
        else 0).
Proof.
  intros Hx Hy Hc Hf Hfull.
  unfold tile_step. unfold ManyFilter.tile_step. cbn [prod].
  rewrite mf_accumulate by assumption. f_equal.
  apply zsum_ext. intros i Hi. apply in_for_range1 in Hi.
  fold load_I. fold load_H. fold blockDim.
  rewrite mf_shI by assumption.
  destruct (Z.ltb_spec (caseIdx + i) numImages) as [Hlt|Hge].
  - rewrite orb_true_r. rewrite mf_shH; [reflexivity|nia|assumption|].
    apply orb_true_iff. right. apply Z.ltb_lt. assumption.
  - destruct checkCaseBounds; [cbn; ring|].
    specialize (Hfull eq_refl). lia.
Qed.

Lemma mf_module_step (m : Z) (st : block_state) (tx ty c f : Z) :
  0 <= tx < B_X -> 0 <= ty < B_Y ->
  0 <= c < colorsPerThread -> 0 <= f < filtersPerThread ->
  prod (fold_left (tile_step m) (for_range 0 numImages preloadCases) st) tx ty c f
  = prod st tx ty c f
    + zsum (for_range 0 numImages 1) (fun j =>
        tile_img m c (bpo + ty) j * tile_hid m (tx + f * B_X) j).
Proof.
  intros Hx Hy Hc Hf.
  rewrite (fold_state_additive (tile_step m) (for_range 0 numImages preloadCases)
             (fun caseIdx =>
                zsum (for_range 0 preloadCases 1) (fun i =>
                  if caseIdx + i <? numImages
                  then tile_img m c (bpo + ty) (caseIdx + i)
                       * tile_hid m (tx + f * B_X) (caseIdx + i)
                  else 0))).
  - f_equal.
    apply (zsum_tiles numImages preloadCases
             (fun j => tile_img m c (bpo + ty) j * tile_hid m (tx + f * B_X) j));
      [assumption|lia].
  - intros st' caseIdx Hin. apply mf_tile_step; try assumption.
    intros Hcb. apply in_for_range in Hin; [|assumption].
    destruct Hin as [k [Hk [Ek Hlt]]].
    apply Hcheck in Hcb.
    pose proof (Z.quot_rem' numImages preloadCases) as Eq.
    rewrite Hcb, Z.add_0_r in Eq.
    assert (k < numImages ÷ preloadCases) by nia.
    nia.
Qed.

Lemma mf_modules (st : block_state) (tx ty c f : Z) :
  0 <= tx < B_X -> 0 <= ty < B_Y ->
  0 <= c < colorsPerThread -> 0 <= f < filtersPerThread ->
  prod (fold_left (fun st m =>
                     fold_left (tile_step m) (for_range 0 numImages preloadCases) st)
                  (for_range (ManyFilter.moduleIdx B_X filtersPerThread numFilters
                                modulesPerBlock blockIdx_x)
                             (ManyFilter.moduleIdx B_X filtersPerThread numFilters
                                modulesPerBlock blockIdx_x + modulesPerBlock) 1)
                  st) tx ty c f
  = prod st tx ty c f
    + zsum (for_range (ManyFilter.moduleIdx B_X filtersPerThread numFilters
                         modulesPerBlock blockIdx_x)
                      (ManyFilter.moduleIdx B_X filtersPerThread numFilters
                         modulesPerBlock blockIdx_x + modulesPerBlock) 1)
           (fun m => zsum (for_range 0 numImages 1) (fun j =>
              tile_img m c (bpo + ty) j * tile_hid m (tx + f * B_X) j)).
Proof.
  intros Hx Hy Hc Hf.
  apply (fold_state_additive
           (fun st m => fold_left (tile_step m)
                                  (for_range 0 numImages preloadCases) st)
           _ (fun m => zsum (for_range 0 numImages 1) (fun j =>
                tile_img m c (bpo + ty) j * tile_hid m (tx + f * B_X) j))).
  intros st' m _. apply mf_module_step; assumption.
Qed.
End ManyFilterBlock.

(** The tables [pxDivs] and [pxMods] after their fill. *)
Lemma mf_tables (B_Y B_X colorsPerThread : Z)
      (filterSize numImgColors numGroups blockIdx_y : Z) (u : uninit) (k : Z) :
  0 < B_X -> 0 < B_Y -> 0 <= k < B_Y ->
  ManyFilter.pxDivs B_Y B_X colorsPerThread filterSize numImgColors numGroups
                    (mkDim3 B_X B_Y) blockIdx_y u k
  = (ManyFilter.blockPixelOffset B_Y colorsPerThread numImgColors numGroups
       blockIdx_y + k) ÷ filterSize
  /\ ManyFilter.pxMods B_Y B_X colorsPerThread filterSize numImgColors numGroups
                       (mkDim3 B_X B_Y) blockIdx_y u k
     = Z.rem (ManyFilter.blockPixelOffset B_Y colorsPerThread numImgColors numGroups
                blockIdx_y + k) filterSize.
Proof.
  intros HBX HBY Hk. unfold ManyFilter.pxDivs, ManyFilter.pxMods.
  set (bpo := ManyFilter.blockPixelOffset B_Y colorsPerThread numImgColors numGroups
                blockIdx_y).
  split.
  - assert (Hfill : forall z,
      In z (flat_map (fun t => ManyFilter.fill_pxDivs B_Y B_X colorsPerThread
                                 filterSize numImgColors numGroups
                                 blockIdx_y (fst t) (snd t))
                     (indices (mkDim3 B_X B_Y)))
      <-> exists k, 0 <= k < B_Y /\ z = (k, (bpo + k) ÷ filterSize)).
    { intros z.
      apply (in_table_fill B_Y B_X B_Y (fun k => (bpo + k) ÷ filterSize) z);
        [assumption|nia]. }
    apply store_agree.
    + eexists. apply Hfill. exists k. split; [assumption|reflexivity].
    + intros v Hv. apply Hfill in Hv. destruct Hv as [k' [Hk' E]].
      inversion E; subst. reflexivity.
  - assert (Hfill : forall z,
      In z (flat_map (fun t => ManyFilter.fill_pxMods B_Y B_X colorsPerThread
                                 filterSize numImgColors numGroups
                                 blockIdx_y (fst t) (snd t))
                     (indices (mkDim3 B_X B_Y)))
      <-> exists k, 0 <= k < B_Y /\ z = (k, Z.rem (bpo + k) filterSize)).
    { intros z.
      apply (in_table_fill B_Y B_X B_Y (fun k => Z.rem (bpo + k) filterSize) z);
        [assumption|nia]. }
    apply store_agree.
    + eexists. apply Hfill. exists k. split; [assumption|reflexivity].
    + intros v Hv. apply Hfill in Hv. destruct Hv as [k' [Hk' E]].
      inversion E; subst. reflexivity.
Qed.

(** * The jobs of the kernel that gives each thread several filters *)

Section FilterGrid.
Variables (B_Y B_X filtersPerThread colorsPerThread colorBlocks : Z).
Variables (a : kargs) (blocks threads : dim3).

Hypothesis HBX : 0 < B_X.
Hypothesis HBY : 0 < B_Y.
Hypothesis Hfpt : 0 < filtersPerThread.
Hypothesis Hcpt : 0 < colorsPerThread.
Hypothesis Hcb : 0 < colorBlocks.
Hypothesis Hcolors : k_numFilterColors a = colorBlocks * colorsPerThread.
Hypothesis Hfilters : 0 <= a_numFilters a.
Hypothesis HfiltersB : Z.rem (a_numFilters a) (B_X * filtersPerThread) = 0.
Hypothesis HfP : 0 <= k_filterPixels a.
Hypothesis Hout : 0 <= k_outputModules a.
Hypothesis Hthreads : threads = mkDim3 B_X B_Y.
Hypothesis Hblocks :
  blocks = mkDim3 (k_outputModules a * (a_numFilters a ÷ (B_X * filtersPerThread)))
                  (DIVUP (k_filterPixels a) B_Y * colorBlocks).

Let nfb := a_numFilters a ÷ (B_X * filtersPerThread).
Let jobs := filter_jobs B_Y filtersPerThread colorsPerThread colorBlocks
                        (k_filterPixels a) blocks threads.
Let entry := filter_entry B_Y B_X filtersPerThread colorsPerThread colorBlocks
                          (a_numFilters a).

Lemma filter_nfb : a_numFilters a = B_X * filtersPerThread * nfb /\ 0 <= nfb.
Proof.
  subst nfb. pose proof (Z.quot_rem' (a_numFilters a) (B_X * filtersPerThread)) as E.
  rewrite HfiltersB, Z.add_0_r in E. split; [assumption|].
  apply Z.quot_pos; nia.
Qed.

Lemma in_filter_jobs (t : job) :
  In t jobs <->
  (0 <= j_bx t < k_outputModules a * nfb
   /\ 0 <= j_by t < DIVUP (k_filterPixels a) B_Y * colorBlocks
   /\ 0 <= j_tx t < B_X /\ 0 <= j_ty t < B_Y
   /\ 0 <= j_p t < filtersPerThread /\ 0 <= j_c t < colorsPerThread
   /\ (j_by t ÷ colorBlocks) * B_Y + j_ty t < k_filterPixels a).
Proof.
  unfold jobs. unfold filter_jobs. rewrite Hblocks, Hthreads. split.
  - intros H.
    apply in_flat_map in H. destruct H as [[bx by_] [Hb H]].
    apply in_indices in Hb. cbn in Hb.
    apply in_flat_map in H. destruct H as [[tx ty] [Ht H]].
    apply in_indices in Ht. cbn in Ht. cbn [fst snd] in H.
    destruct (Z.ltb_spec ((by_ ÷ colorBlocks) * B_Y + ty) (k_filterPixels a))
      as [Hlt|]; [|destruct H].
    apply in_flat_map in H. destruct H as [f [Hf H]].
    apply in_for_range1 in Hf.
    apply in_flat_map in H. destruct H as [c [Hc [H|[]]]].
    apply in_for_range1 in Hc. subst t. cbn. fold nfb in Hb. intuition lia.
  - destruct t as [bx by_ tx ty f c]. cbn.
    intros [Hbx [Hby [Htx [Hty [Hf [Hc Hlt]]]]]].
    apply in_flat_map. exists (bx, by_). split; [apply in_indices; cbn; fold nfb; lia|].
    apply in_flat_map. exists (tx, ty). split; [apply in_indices; cbn; lia|].
    cbn [fst snd]. apply Z.ltb_lt in Hlt. rewrite Hlt.
    apply in_flat_map. exists f. split; [apply in_for_range1; lia|].
    apply in_flat_map. exists c. split; [apply in_for_range1; lia|now left].
Qed.

Lemma filter_jobs_NoDup : NoDup jobs.
Proof.
  unfold jobs. unfold filter_jobs.
  apply NoDup_flat_map_key with (key := fun t => (j_bx t, j_by t)).
  - apply NoDup_indices.
  - intros [bx by_] _.
    apply NoDup_flat_map_key with (key := fun t => (j_tx t, j_ty t)).
    + apply NoDup_indices.
    + intros [tx ty] _. cbn [fst snd].
      destruct (_ <? _); [|constructor].
      apply NoDup_flat_map_key with (key := j_p).
      * apply NoDup_for_range. exact Z.lt_0_1.
      * intros f _.
        apply NoDup_flat_map_key with (key := j_c).
        -- apply NoDup_for_range. exact Z.lt_0_1.
        -- intros c _. repeat constructor. intros [].
        -- intros c z _ [<-|[]]. reflexivity.
      * intros f z _ H.
        apply in_flat_map in H. destruct H as [c [_ [<-|[]]]]. reflexivity.
    + intros [tx ty] z _ H. cbn [fst snd] in H.
      destruct (_ <? _); [|destruct H].
      apply in_flat_map in H. destruct H as [f [_ H]].
      apply in_flat_map in H. destruct H as [c [_ [<-|[]]]]. reflexivity.
  - intros [bx by_] z _ H.
    apply in_flat_map in H. destruct H as [[tx ty] [_ H]]. cbn [fst snd] in H.
    destruct (_ <? _); [|destruct H].
    apply in_flat_map in H. destruct H as [f [_ H]].
    apply in_flat_map in H. destruct H as [c [_ [<-|[]]]]. reflexivity.
Qed.

Lemma filter_entry_valid (t : job) : In t jobs -> entry_valid a (entry t).
Proof.
  intros H. apply in_filter_jobs in H.
  destruct H as [Hbx [Hby [Htx [Hty [Hf [Hc Hlt]]]]]].
  destruct filter_nfb as [Enfb Hnfb].
  assert (Hnfb0 : 0 < nfb) by nia.
  destruct (quot_rem_range (j_bx t) nfb (k_outputModules a) Hnfb0 Hbx) as [Hq Hr].
  destruct (quot_rem_range (j_by t) colorBlocks _ Hcb Hby) as [Hq' Hr'].
  unfold entry. unfold filter_entry, entry_valid, valid_entry. fold nfb.
  rewrite Hcolors.
  set (rb := Z.rem (j_bx t) nfb) in *. clearbody rb. hide_div.
  split; [assumption|]. split; [nia|]. split; [nia|].
  assert (HW : 0 < filtersPerThread * B_X) by nia.
  assert (j_p t * B_X + j_tx t < filtersPerThread * B_X) by nia.
  assert (filtersPerThread * B_X * (rb + 1) <= filtersPerThread * B_X * nfb)
    by (apply Z.mul_le_mono_nonneg_l; lia).
  nia.
Qed.

Lemma filter_entry_inj (t t' : job) :
  In t jobs -> In t' jobs -> entry t = entry t' -> t = t'.
Proof.
  intros H H' E. apply in_filter_jobs in H, H'.
  destruct H as [Hbx [Hby [Htx [Hty [Hf [Hc Hlt]]]]]].
  destruct H' as [Hbx' [Hby' [Htx' [Hty' [Hf' [Hc' Hlt']]]]]].
  destruct filter_nfb as [Enfb Hnfb].
  assert (Hnfb0 : 0 < nfb) by nia.
  destruct (quot_rem_range (j_bx t) nfb (k_outputModules a) Hnfb0 Hbx) as [Hq Hr].
  destruct (quot_rem_range (j_bx t') nfb (k_outputModules a) Hnfb0 Hbx') as [Hq2 Hr2].
  destruct (quot_rem_range (j_by t) colorBlocks _ Hcb Hby) as [Hq' Hr'].
  destruct (quot_rem_range (j_by t') colorBlocks _ Hcb Hby') as [Hq2' Hr2'].
  unfold entry in E. unfold filter_entry in E. fold nfb in E.
  inversion E as [[E1 E2 E3 E4]]. clear E.
  pose proof (Z.quot_rem' (j_bx t) nfb) as Qx.
  pose proof (Z.quot_rem' (j_bx t') nfb) as Qx'.
  pose proof (Z.quot_rem' (j_by t) colorBlocks) as Qy.
  pose proof (Z.quot_rem' (j_by t') colorBlocks) as Qy'.
  set (rx := Z.rem (j_bx t) nfb) in *. set (rx' := Z.rem (j_bx t') nfb) in *.
  clearbody rx rx'. hide_div.
  replace (filtersPerThread * B_X * rx + j_tx t + j_p t * B_X)
    with ((rx * filtersPerThread + j_p t) * B_X + j_tx t) in E4 by ring.
  replace (filtersPerThread * B_X * rx' + j_tx t' + j_p t' * B_X)
    with ((rx' * filtersPerThread + j_p t') * B_X + j_tx t') in E4 by ring.
  apply radix_inj in E4; [|assumption|assumption]. destruct E4 as [E4 Etx].
  apply radix_inj in E4; [|assumption|assumption]. destruct E4 as [E4 Ep].
  apply radix_inj in E2; [|assumption|assumption]. destruct E2 as [E2 Ec].
  apply radix_inj in E3; [|assumption|assumption]. destruct E3 as [E3 Ety].
  assert (Ebx : j_bx t = j_bx t') by congruence.
  assert (Eby : j_by t = j_by t') by congruence.
  destruct t, t'. cbn in *. congruence.
Qed.

Lemma filter_entry_onto (e : Z * Z * Z * Z) :
  entry_valid a e -> exists t, In t jobs /\ entry t = e.
Proof.
  destruct e as [[[om c] px] f]. unfold entry_valid, valid_entry.
  rewrite Hcolors. intros [Hom [Hc [Hpx Hf]]].
  destruct filter_nfb as [Enfb Hnfb].
  assert (Hnfb0 : 0 < nfb) by nia.
  set (W := B_X * filtersPerThread) in *.
  assert (HW : 0 < W) by (subst W; nia).
  destruct (DIVUP_covers (k_filterPixels a) B_Y HfP HBY) as [Hcov Hdu].
  assert (Hf' : 0 <= f < nfb * W) by lia.
  destruct (quot_rem_range f W nfb HW Hf') as [Hfq Hfr].
  assert (Hfr' : 0 <= Z.rem f W < filtersPerThread * B_X) by (subst W; lia).
  destruct (quot_rem_range (Z.rem f W) B_X filtersPerThread HBX Hfr') as [Hfp Hft].
  assert (Hc' : 0 <= c < colorBlocks * colorsPerThread) by lia.
  destruct (quot_rem_range c colorsPerThread colorBlocks Hcpt Hc') as [Hcq Hcr].
  assert (Hpx' : 0 <= px < DIVUP (k_filterPixels a) B_Y * B_Y) by lia.
  destruct (quot_rem_range px B_Y _ HBY Hpx') as [Hpq Hpr].
  pose proof (Z.quot_rem' f W) as Ef.
  pose proof (Z.quot_rem' (Z.rem f W) B_X) as Efr.
  pose proof (Z.quot_rem' c colorsPerThread) as Ec.
  pose proof (Z.quot_rem' px B_Y) as Epx.
  destruct (quot_mul_add nfb om (f ÷ W) Hnfb0 ltac:(lia) Hfq) as [Q1 R1].
  destruct (quot_mul_add colorBlocks (px ÷ B_Y) (c ÷ colorsPerThread) Hcb ltac:(lia) Hcq)
    as [Q2 R2].
  exists (mkJob (nfb * om + f ÷ W) (colorBlocks * (px ÷ B_Y) + c ÷ colorsPerThread)
                (Z.rem (Z.rem f W) B_X) (Z.rem px B_Y)
                (Z.rem f W ÷ B_X) (Z.rem c colorsPerThread)).
  split.
  - apply in_filter_jobs. cbn. rewrite Q2.
    clear Q1 R1 Q2 R2. subst W. hide_div.
    split; [nia|]. split; [nia|]. split; [lia|]. split; [lia|]. split; [lia|].
    split; [lia|]. nia.
  - unfold entry. unfold filter_entry. cbn. fold W. fold nfb. rewrite Q1, R1, Q2, R2.
    clear Q1 R1 Q2 R2. subst W. hide_div.
    f_equal; [f_equal; [f_equal|]|]; nia.
Qed.
End FilterGrid.

(** * A launch of [weight_acts_kernel2_manycolor_manyfilter] *)

Section ManyFilterLaunch.
Variables (B_Y B_X filtersPerThread colorsPerThread preloadCases : Z)
          (scale checkCaseBounds : bool).
Variables (images hidActs : Z -> Z) (a : kargs) (u : Z -> Z -> uninit).
Variables (blocks threads : dim3).

Hypothesis HBX : 0 < B_X.
Hypothesis HBY : 0 < B_Y.
Hypothesis Hfpt : 0 < filtersPerThread.
Hypothesis Hcpt : 0 < colorsPerThread.
Hypothesis Hpc : 0 < preloadCases.
Hypothesis Hdiv : Z.rem (B_Y * B_X) preloadCases = 0.
Hypothesis Hn : 0 <= a_numImages a.
Hypothesis Hcheck : checkCaseBounds = false -> Z.rem (a_numImages a) preloadCases = 0.
Hypothesis Hcolors0 : 0 < k_numFilterColors a.
Hypothesis Hcolors : Z.rem (k_numFilterColors a) colorsPerThread = 0.
Hypothesis Hfilters : 0 <= a_numFilters a.
Hypothesis HfiltersB : Z.rem (a_numFilters a) (B_X * filtersPerThread) = 0.
Hypothesis Hgroup0 : 0 < k_numFiltersPerGroup a.
Hypothesis HgroupB : Z.rem (k_numFiltersPerGroup a) (B_X * filtersPerThread) = 0.
Hypothesis Hfs : 0 < a_filterSize a.
Hypothesis Hout : 0 <= k_outputModules a.
Hypothesis Hthreads : threads = mkDim3 B_X B_Y.
Hypothesis Hblocks :
  blocks = mkDim3 (k_outputModules a * (a_numFilters a ÷ (B_X * filtersPerThread)))
                  (DIVUP (k_filterPixels a) B_Y
                   * (k_numFilterColors a ÷ colorsPerThread)).

Let cb := k_numFilterColors a ÷ colorsPerThread.
Let jobs := filter_jobs B_Y filtersPerThread colorsPerThread cb (k_filterPixels a)
                        blocks threads.
Let entry := filter_entry B_Y B_X filtersPerThread colorsPerThread cb (a_numFilters a).

Lemma mf_nFC : k_numFilterColors a = cb * colorsPerThread /\ 0 < cb.
Proof. unfold cb. apply exact_quot; assumption. Qed.

Lemma mf_fP : 0 <= k_filterPixels a.
Proof. unfold k_filterPixels. nia. Qed.

Ltac mf_side :=
  first [assumption | lia | exact (proj1 mf_nFC) | exact (proj2 mf_nFC) | exact mf_fP].

(** The registers of a thread hold the reference reduction of its entries. *)
Lemma mf_prod_reference (t : job) :
  In t jobs ->
  prod (ManyFilter.block_loop B_Y B_X filtersPerThread colorsPerThread preloadCases
          checkCaseBounds images hidActs
          (a_numImages a) (a_numFilters a) (a_numModulesX a) (a_imgSize a)
          (a_filterSize a) (a_paddingStart a) (a_moduleStride a) (a_imgStride a)
          (a_numImgColors a) (a_modulesPerBlock a) (a_numGroups a)
          threads (j_bx t) (j_by t) (u (j_bx t) (j_by t)))
       (j_tx t) (j_ty t) (j_c t) (j_p t)
  = entry_reference a images hidActs (entry t).
Proof.
  intros Hin.
  assert (Hvalid : entry_valid a (entry t)).
  { apply (filter_entry_valid B_Y B_X filtersPerThread colorsPerThread cb a blocks
             threads); mf_side. }
  apply (in_filter_jobs B_Y B_X filtersPerThread colorsPerThread cb a blocks threads)
    in Hin; try mf_side.
  destruct Hin as [Hbx [Hby [Htx [Hty [Hf [Hc Hlt]]]]]].
  destruct mf_nFC as [EnFC Hcb].
  rewrite Hthreads. unfold ManyFilter.block_loop. cbv zeta.
  rewrite mf_modules; try assumption.
  2:{ intros k Hk. apply mf_tables; assumption. }
  2:{ intros k Hk. apply mf_tables; assumption. }
  cbn [prod]. rewrite Z.add_0_l.
  unfold entry, filter_entry in *. unfold entry_valid, valid_entry in Hvalid.
  destruct Hvalid as [Hvom [Hvc [Hvpx Hvf]]].
  unfold entry_reference, reference.
  unfold ManyFilter.moduleIdx, ManyFilter.outputModuleIdx, ManyFilter.numFilterBlocks.
  rewrite (Z.mul_comm (a_modulesPerBlock a)).
  apply zsum_ext. intros m _. unfold module_gradient.
  apply zsum_ext. intros j _.
  set (W := B_X * filtersPerThread) in *.
  set (k := Z.rem (j_bx t) (a_numFilters a ÷ W)) in *.
  assert (Hk : 0 <= k).
  { subst k. apply Z.rem_nonneg; [|lia]. intros E0. rewrite E0 in Hbx. lia. }
  assert (Ehid : ManyFilter.tile_hid B_X filtersPerThread hidActs (a_numImages a)
                   (a_numFilters a) (a_numModulesX a) (j_bx t) m
                   (j_tx t + j_p t * B_X) j
                 = hidAct_at a hidActs
                     (filtersPerThread * B_X * k + j_tx t + j_p t * B_X) m j).
  { unfold ManyFilter.tile_hid, hidAct_at, ManyFilter.blockFilterIdx,
      ManyFilter.numFilterBlocks, ManyFilter.numModules, k_numModules.
    fold W. fold k. f_equal. ring. }
  rewrite Ehid. f_equal.
  unfold ManyFilter.tile_img, image_at, in_image, ManyFilter.blockPixelOffset,
    ManyFilter.filterPixels, ManyFilter.imgLoadModPosY, ManyFilter.imgLoadModPosX,
    pixel_y, pixel_x, ManyFilter.imgPixels, k_imgPixels, ManyFilter.numFilterColors.
  fold (k_filterPixels a). fold (k_numFilterColors a). fold cb.
  apply Z.ltb_lt in Hlt. rewrite Hlt.
  assert (Ecol : image_color a (filtersPerThread * B_X * k + j_tx t + j_p t * B_X)
                             (Z.rem (j_by t) cb * colorsPerThread + j_c t)
                 = ManyFilter.imgColorIdx B_X filtersPerThread colorsPerThread
                     (a_numFilters a) (a_numImgColors a) (a_numGroups a)
                     (j_bx t) (j_by t)
                   + j_c t).
  { unfold image_color, ManyFilter.imgColorIdx, ManyFilter.blockGroupIdx,
      ManyFilter.filterColorIdx, ManyFilter.blockFilterIdx, ManyFilter.numFilterBlocks,
      ManyFilter.numFiltersPerGroup, ManyFilter.numFilterColors.
    fold (k_numFiltersPerGroup a). fold (k_numFilterColors a). fold cb. fold W. fold k.
    replace (filtersPerThread * B_X * k + j_tx t + j_p t * B_X)
      with (W * k + (j_p t * B_X + j_tx t)) by (subst W; ring).
    replace (filtersPerThread * B_X * k) with (W * k) by (subst W; ring).
    rewrite block_group; [ring| | | | |]; try assumption.
    - subst W. apply Z.mul_pos_pos; assumption.
    - subst W. apply radix_bound; assumption. }
  rewrite Ecol.
  match goal with |- (if ?b then _ else _) = _ => destruct b end; [|reflexivity].
  f_equal. ring.
Qed.

(** The launch performs the stores of its jobs. *)
Lemma mf_launch_jobs (targets : Z -> Z) :
  launch_kernel (k_manycolor_manyfilter B_Y B_X filtersPerThread colorsPerThread
                                        preloadCases scale checkCaseBounds)
                blocks threads images hidActs targets a u
  = apply_rmw (map (job_store scale a images hidActs entry) jobs) targets.
Proof.
  unfold launch_kernel. unfold jobs. unfold filter_jobs.
  assert (Hjobs : forall t, In t (filter_jobs B_Y filtersPerThread colorsPerThread cb
                                    (k_filterPixels a) blocks threads) ->
                  In t (filter_jobs B_Y filtersPerThread colorsPerThread cb
                                    (k_filterPixels a) blocks threads)) by auto.
  unfold filter_jobs at 1 in Hjobs.
  revert targets.
  apply fold_apply_rmw_in. intros [bx by_] Hb tg. cbn [fst snd].
  unfold ManyFilter.run_block.
  revert tg. apply fold_apply_rmw_in. intros [tx ty] Ht tg. cbn [fst snd].
  unfold ManyFilter.write_targets.
  unfold ManyFilter.blockPixelOffset, ManyFilter.filterPixels,
    ManyFilter.numFilterColors.
  fold (k_filterPixels a). fold (k_numFilterColors a). fold cb.
  destruct (by_ ÷ cb * B_Y + ty <? k_filterPixels a) eqn:Hg; [|reflexivity].
  assert (Hstep : forall (f c : Z) (m : Z -> Z),
    In f (for_range 0 filtersPerThread 1) ->
    In c (for_range 0 colorsPerThread 1) ->
    upd m (ManyFilter.targets_ptr B_Y B_X filtersPerThread colorsPerThread
             (a_numFilters a) (a_filterSize a) (a_numImgColors a) (a_numGroups a)
             bx by_ tx ty
           + (c * k_filterPixels a * a_numFilters a + f * B_X))
        (blend scale a
           (prod (ManyFilter.block_loop B_Y B_X filtersPerThread colorsPerThread
                    preloadCases checkCaseBounds images hidActs
                    (a_numImages a) (a_numFilters a) (a_numModulesX a)
                    (a_imgSize a) (a_filterSize a) (a_paddingStart a)
                    (a_moduleStride a) (a_imgStride a) (a_numImgColors a)
                    (a_modulesPerBlock a) (a_numGroups a)
                    threads bx by_ (u bx by_)) tx ty c f)
           (m (ManyFilter.targets_ptr B_Y B_X filtersPerThread colorsPerThread
                 (a_numFilters a) (a_filterSize a) (a_numImgColors a) (a_numGroups a)
                 bx by_ tx ty
               + (c * k_filterPixels a * a_numFilters a + f * B_X))))
    = apply_rmw (map (job_store scale a images hidActs entry)
                     [mkJob bx by_ tx ty f c]) m).
  { intros f c m Hf Hc.
    assert (Hin : In (mkJob bx by_ tx ty f c) jobs).
    { apply Hjobs.
      apply in_flat_map. exists (bx, by_). split; [assumption|].
      apply in_flat_map. exists (tx, ty). split; [assumption|].
      cbn [fst snd]. rewrite Hg.
      apply in_flat_map. exists f. split; [assumption|].
      apply in_flat_map. exists c. split; [assumption|now left]. }
    pose proof (mf_prod_reference _ Hin) as Hprod.
    cbn [j_bx j_by j_tx j_ty j_c j_p] in Hprod.
    rewrite Hprod.
    unfold apply_rmw, job_store. cbn [map fold_left fst snd].
    assert (Ead : ManyFilter.targets_ptr B_Y B_X filtersPerThread colorsPerThread
                    (a_numFilters a) (a_filterSize a) (a_numImgColors a)
                    (a_numGroups a) bx by_ tx ty
                  + (c * k_filterPixels a * a_numFilters a + f * B_X)
                  = entry_index a (entry (mkJob bx by_ tx ty f c))).
    { unfold entry, filter_entry, entry_index, target_index. cbn.
      unfold ManyFilter.targets_ptr, ManyFilter.outputModuleIdx,
        ManyFilter.blockPixelOffset, ManyFilter.blockFilterIdx,
        ManyFilter.filterPixels, ManyFilter.filterColorIdx,
        ManyFilter.numFilterColors, ManyFilter.numFilterBlocks.
      fold (k_filterPixels a). fold (k_numFilterColors a). fold cb.
      ring. }
    rewrite Ead. reflexivity. }
  destruct scale; unfold blend in Hstep; revert tg; apply fold_apply_rmw_in;
    intros f Hf m; revert m; apply fold_apply_rmw_in; intros c Hc m;
    apply Hstep; assumption.
Qed.

(** [weight_acts_kernel2_manycolor_manyfilter]: every entry of [targets]
    receives the blend of its old value with the reference reduction, and no
    other cell is written. *)
Lemma manyfilter_kernel_correct (targets : Z -> Z) :
  (forall om c px f,
     valid_entry a om c px f ->
     launch_kernel (k_manycolor_manyfilter B_Y B_X filtersPerThread colorsPerThread
                                           preloadCases scale checkCaseBounds)
                   blocks threads images hidActs targets a u
                   (target_index a om c px f)
     = blend scale a (reference a images hidActs om c px f)
             (targets (target_index a om c px f)))
  /\ (forall ad,
        (forall om c px f, valid_entry a om c px f -> target_index a om c px f <> ad) ->
        launch_kernel (k_manycolor_manyfilter B_Y B_X filtersPerThread colorsPerThread
                                              preloadCases scale checkCaseBounds)
                      blocks threads images hidActs targets a u ad
        = targets ad).
Proof.
  rewrite mf_launch_jobs. unfold job_store.
  assert (HND : NoDup jobs).
  { unfold jobs. apply filter_jobs_NoDup. }
  assert (HV : forall t, In t jobs -> entry_valid a (entry t)).
  { apply (filter_entry_valid B_Y B_X filtersPerThread colorsPerThread cb a blocks
             threads); mf_side. }
  assert (HI : forall t t', In t jobs -> In t' jobs -> entry t = entry t' -> t = t').
  { apply (filter_entry_inj B_Y B_X filtersPerThread colorsPerThread cb a blocks
             threads); mf_side. }
  assert (HO : forall e, entry_valid a e -> exists t, In t jobs /\ entry t = e).
  { apply (filter_entry_onto B_Y B_X filtersPerThread colorsPerThread cb a blocks
             threads); mf_side. }
  assert (HX : forall e e', entry_valid a e -> entry_valid a e' ->
                            entry_index a e = entry_index a e' -> e = e').
  { intros [[[om c] px] f] [[[om' c'] px'] f']. apply target_index_inj. }
  split.
  - intros om c px f Hv.
    apply (grid_entry job jobs entry (entry_valid a) (entry_index a)
             (fun e => blend scale a (entry_reference a images hidActs e)))
      with (e := (om, c, px, f)); assumption.
  - intros ad Had.
    apply (grid_elsewhere job jobs entry (entry_valid a) (entry_index a)
             (fun e => blend scale a (entry_reference a images hidActs e)));
      [assumption|].
    intros [[[om c] px] f] Hv. apply Had. exact Hv.
Qed.
(** The stores of one block are those of its jobs. *)
Lemma mf_block_jobs (b : Z * Z) :
  In b (indices blocks) ->
  forall tg,
    ManyFilter.run_block B_Y B_X filtersPerThread colorsPerThread preloadCases
      scale checkCaseBounds images hidActs
      (a_numImages a) (a_numFilters a) (a_numModulesX a) (a_imgSize a)
      (a_filterSize a) (a_paddingStart a) (a_moduleStride a) (a_imgStride a)
      (a_numImgColors a) (a_modulesPerBlock a) (a_numGroups a)
      (a_scaleTargets a) (a_scaleOutput a)
      threads (fst b) (snd b) (u (fst b) (snd b)) tg
    = apply_rmw (map (job_store scale a images hidActs entry)
                     (filter_block_jobs B_Y filtersPerThread colorsPerThread cb
                                        (k_filterPixels a) threads b)) tg.
Proof.
  intros Hb tg. destruct b as [bx by_]. unfold filter_block_jobs. cbn [fst snd].
  assert (Hjobs : forall t, In t (filter_jobs B_Y filtersPerThread colorsPerThread cb
                                    (k_filterPixels a) blocks threads) ->
                  In t (filter_jobs B_Y filtersPerThread colorsPerThread cb
                                    (k_filterPixels a) blocks threads)) by auto.
  unfold filter_jobs at 1 in Hjobs.
  unfold ManyFilter.run_block.
  revert tg. apply fold_apply_rmw_in. intros [tx ty] Ht tg. cbn [fst snd].
  unfold ManyFilter.write_targets.
  unfold ManyFilter.blockPixelOffset, ManyFilter.filterPixels,
    ManyFilter.numFilterColors.
  fold (k_filterPixels a). fold (k_numFilterColors a). fold cb.
  destruct (by_ ÷ cb * B_Y + ty <? k_filterPixels a) eqn:Hg; [|reflexivity].
  assert (Hstep : forall (f c : Z) (m : Z -> Z),
    In f (for_range 0 filtersPerThread 1) ->
    In c (for_range 0 colorsPerThread 1) ->
    upd m (ManyFilter.targets_ptr B_Y B_X filtersPerThread colorsPerThread
             (a_numFilters a) (a_filterSize a) (a_numImgColors a) (a_numGroups a)
             bx by_ tx ty
           + (c * k_filterPixels a * a_numFilters a + f * B_X))
        (blend scale a
           (prod (ManyFilter.block_loop B_Y B_X filtersPerThread colorsPerThread
                    preloadCases checkCaseBounds images hidActs
                    (a_numImages a) (a_numFilters a) (a_numModulesX a)
                    (a_imgSize a) (a_filterSize a) (a_paddingStart a)
                    (a_moduleStride a) (a_imgStride a) (a_numImgColors a)
                    (a_modulesPerBlock a) (a_numGroups a)
                    threads bx by_ (u bx by_)) tx ty c f)
           (m (ManyFilter.targets_ptr B_Y B_X filtersPerThread colorsPerThread
                 (a_numFilters a) (a_filterSize a) (a_numImgColors a) (a_numGroups a)
                 bx by_ tx ty
               + (c * k_filterPixels a * a_numFilters a + f * B_X))))
    = apply_rmw (map (job_store scale a images hidActs entry)
                     [mkJob bx by_ tx ty f c]) m).
  { intros f c m Hf Hc.
    assert (Hin : In (mkJob bx by_ tx ty f c) jobs).
    { apply Hjobs.
      apply in_flat_map. exists (bx, by_). split; [assumption|].
      apply in_flat_map. exists (tx, ty). split; [assumption|].
      cbn [fst snd]. rewrite Hg.
      apply in_flat_map. exists f. split; [assumption|].
      apply in_flat_map. exists c. split; [assumption|now left]. }
    pose proof (mf_prod_reference _ Hin) as Hprod.
    cbn [j_bx j_by j_tx j_ty j_c j_p] in Hprod.
    rewrite Hprod.
    unfold apply_rmw, job_store. cbn [map fold_left fst snd].
    assert (Ead : ManyFilter.targets_ptr B_Y B_X filtersPerThread colorsPerThread
                    (a_numFilters a) (a_filterSize a) (a_numImgColors a)
                    (a_numGroups a) bx by_ tx ty
                  + (c * k_filterPixels a * a_numFilters a + f * B_X)
                  = entry_index a (entry (mkJob bx by_ tx ty f c))).
    { unfold entry, filter_entry, entry_index, target_index. cbn.
      unfold ManyFilter.targets_ptr, ManyFilter.outputModuleIdx,
        ManyFilter.blockPixelOffset, ManyFilter.blockFilterIdx,
        ManyFilter.filterPixels, ManyFilter.filterColorIdx,
        ManyFilter.numFilterColors, ManyFilter.numFilterBlocks.
      fold (k_filterPixels a). fold (k_numFilterColors a). fold cb.
      ring. }
    rewrite Ead. reflexivity. }
  destruct scale; unfold blend in Hstep; revert tg; apply fold_apply_rmw_in;
    intros f Hf m; revert m; apply fold_apply_rmw_in; intros c Hc m;
    apply Hstep; assumption.
Qed.

(** The jobs of a launch write pairwise distinct cells, the entries. *)
Lemma mf_stores_distinct :
  NoDup (map (fun t => entry_index a (entry t)) jobs)
  /\ (forall t, In t jobs -> entry_valid a (entry t))
  /\ (forall e, entry_valid a e -> exists t, In t jobs /\ entry t = e).
Proof.
  assert (HND : NoDup jobs).
  { unfold jobs. apply filter_jobs_NoDup. }
  assert (HV : forall t, In t jobs -> entry_valid a (entry t)).
  { apply (filter_entry_valid B_Y B_X filtersPerThread colorsPerThread cb a blocks
             threads); mf_side. }
  assert (HI : forall t t', In t jobs -> In t' jobs -> entry t = entry t' -> t = t').
  { apply (filter_entry_inj B_Y B_X filtersPerThread colorsPerThread cb a blocks
             threads); mf_side. }
  assert (HO : forall e, entry_valid a e -> exists t, In t jobs /\ entry t = e).
  { apply (filter_entry_onto B_Y B_X filtersPerThread colorsPerThread cb a blocks
             threads); mf_side. }
  split; [|split; assumption].
  apply NoDup_map_inj_on; [exact HND|].
  intros t t' Ht Ht' E. apply HI; [assumption|assumption|].
  pose proof (HV t Ht) as V. pose proof (HV t' Ht') as V'.
  destruct (entry t) as [[[om c] px] f], (entry t') as [[[om' c'] px'] f'].
  apply (target_index_inj a); assumption.
Qed.

End ManyFilterLaunch.

(** * The host routine *)

(** The instantiation chosen by lines 664-1025, in closed form. *)
Lemma select_kernel_closed (nFC nFPG nF st so : Z) (check : bool) :
  select_kernel nFC nFPG nF st so check
  = let scale := negb ((st =? 0) && (so =? 1)) in
    if nFC >? 3 then
      if Z.rem nFPG 32 =? 0 then
        Some (k_manycolor_manyfilter
                (if Z.rem nFPG 64 =? 0 then 4 else 8)
                (if Z.rem nFPG 64 =? 0 then 32 else 16)
                2 (if Z.rem nFC 8 =? 0 then 8 else 4) 32 scale check)
      else
        Some (k_manycolor 8 16 2 (if Z.rem nFC 8 =? 0 then 8 else 4) 32 scale check)
    else if (nFC =? 1) || (nFC =? 2) || (nFC =? 3) then
      Some (k_color (if Z.rem nF 32 =? 0 then 4 else 8)
                    (if Z.rem nF 32 =? 0 then 32 else 16)
                    (if Z.rem nF 32 =? 0
                     then (if nFC =? 1 then 8 else 5)
                     else (if nFC =? 1 then 5 else 2))
                    32 nFC scale check)
    else None.
Proof.
  unfold select_kernel. cbv zeta.
  destruct (nFC >? 3).
  - destruct ((st =? 0) && (so =? 1)), (Z.rem nFPG 32 =? 0), (Z.rem nFPG 64 =? 0),
      (Z.rem nFC 8 =? 0), check; reflexivity.
  - destruct (Z.eqb_spec nFC 1) as [->|H1].
    { destruct ((st =? 0) && (so =? 1)), (Z.rem nF 32 =? 0), check; reflexivity. }
    destruct (Z.eqb_spec nFC 2) as [->|H2].
    { destruct ((st =? 0) && (so =? 1)), (Z.rem nF 32 =? 0), check; reflexivity. }
    destruct (Z.eqb_spec nFC 3) as [->|H3].
    { destruct ((st =? 0) && (so =? 1)), (Z.rem nF 32 =? 0), check; reflexivity. }
    destruct ((st =? 0) && (so =? 1)); reflexivity.
Qed.

Lemma bind_done {A B : Type} (x : outcome A) (k : A -> outcome B) (b : B) :
  bind x k = Done b -> exists a, x = Done a /\ k a = Done b.
Proof. destruct x; cbn; intros H; [eauto|discriminate|discriminate]. Qed.

Lemma assert_done (line : Z) (b : bool) (u : unit) :
  assert line b = Done u -> b = true.
Proof. destruct b; cbn; [reflexivity|discriminate]. Qed.

Lemma idiv_done (line x y q : Z) :
  idiv line x y = Done q -> y <> 0 /\ q = x ÷ y.
Proof.
  unfold idiv. destruct (Z.eqb_spec y 0); [discriminate|].
  intros H. inversion H. auto.
Qed.

(** Take the first step of a host routine that completed. *)
Ltac host_step H :=
  let x := fresh "x" in
  let H1 := fresh "Hstep" in
  apply bind_done in H; destruct H as [x [H1 H]];
  first [ apply assert_done in H1
        | apply idiv_done in H1; destruct H1 as [? ?]; subst x
        | idtac ].

Lemma launch_geometry_threads (nFC nFPG nF nIC nG nM mS fP : Z) (g : dim3 * dim3) :
  launch_geometry nFC nFPG nF nIC nG nM mS fP = Done g ->
  (nFC <= 3 -> nG = 1)
  /\ snd g = (if nFC >? 3
              then if Z.rem nFPG 32 =? 0
                   then if Z.rem nFPG 64 =? 0 then mkDim3 32 4 else mkDim3 16 8
                   else mkDim3 16 8
              else if Z.rem nF 32 =? 0 then mkDim3 32 4 else mkDim3 16 8)
  /\ fst g = (if nFC >? 3
              then if Z.rem nFPG 32 =? 0
                   then mkDim3 ((nM ÷ mS)
                                * (nF ÷ ((if Z.rem nFPG 64 =? 0 then 32 else 16) * 2)))
                               (DIVUP fP (if Z.rem nFPG 64 =? 0 then 4 else 8)
                                * (nFC ÷ (if Z.rem nFC 8 =? 0 then 8 else 4)))
                   else mkDim3 ((nM ÷ mS) * (nF ÷ 16))
                               (DIVUP fP (8 * 2)
                                * (nFC ÷ (if Z.rem nFC 8 =? 0 then 8 else 4)))
              else mkDim3 ((nM ÷ mS)
                           * (nF ÷ (if Z.rem nF 32 =? 0 then 32 else 16)))
                          (DIVUP fP ((if Z.rem nF 32 =? 0 then 4 else 8)
                                     * (if Z.rem nF 32 =? 0
                                        then (if nIC =? 1 then 8 else 5)
                                        else (if nIC =? 1 then 5 else 2))))).
Proof.
  unfold launch_geometry.
  destruct (Z.gtb_spec nFC 3) as [Hgt|Hle].
  - destruct (Z.rem nFPG 32 =? 0) eqn:E32.
    + intros H. inversion H; subst. cbn [fst snd].
      split; [lia|]. destruct (Z.rem nFPG 64 =? 0); split; reflexivity.
    + intros H. inversion H; subst. cbn [fst snd].
      split; [lia|]. split; reflexivity.
  - intros H. host_step H. apply Z.eqb_eq in Hstep.
    inversion H; subst. cbn [fst snd].
    split; [auto|]. destruct (Z.rem nF 32 =? 0); split; reflexivity.
Qed.

(** A call that reaches the launch has passed every check, and the launch
    is determined by the arguments. *)
Lemma conv_host_inv (images hidActs targets : NVMatrix) (c : call) (l : launch) :
  conv_host images hidActs targets c = Done l ->
  host_checks images hidActs targets c
  /\ l_args l = call_args images hidActs c
  /\ l_kernel l
     = select_kernel (k_numFilterColors (l_args l)) (k_numFiltersPerGroup (l_args l))
                     (a_numFilters (l_args l)) (c_scaleTargets c) (c_scaleOutput c)
                     (negb (Z.rem (a_numImages (l_args l)) 32 =? 0))
  /\ l_targets l
     = (if call_noScale c
        then resize targets (targets_rows (l_args l)) (a_numFilters (l_args l))
        else targets)
  /\ launch_geometry (k_numFilterColors (l_args l)) (k_numFiltersPerGroup (l_args l))
                     (a_numFilters (l_args l)) (c_numImgColors c) (c_numGroups c)
                     (k_numModules (l_args l)) (a_modulesPerBlock (l_args l))
                     (k_filterPixels (l_args l))
     = Done (l_blocks l, l_threads l).
Proof.
  unfold conv_host, convWeightActs_host. intros H.
  do 4 host_step H.
  do 16 host_step H.
  apply bind_done in H. destruct H as [geom [Hgeom H]].
  host_step H.
  apply bind_done in H. destruct H as [targets' [Htg H]].
  inversion H; subst l; clear H. cbn [l_args l_kernel l_targets l_blocks l_threads].
  repeat match goal with
         | H : (_ =? _) = true |- _ => apply Z.eqb_eq in H
         | H : (_ <=? _) = true |- _ => apply Z.leb_le in H
         | H : negb _ = true |- _ => apply negb_true_iff in H
         end.
  destruct (launch_geometry_threads _ _ _ _ _ _ _ _ _ Hgeom) as [H648 _].
  assert (Htargets :
    targets' = (if call_noScale c
                then resize targets
                       (targets_rows (call_args images hidActs c))
                       (a_numFilters (call_args images hidActs c))
                else targets)
    /\ (call_noScale c = false ->
        getNumRows targets = targets_rows (call_args images hidActs c)
        /\ getNumCols targets = a_numFilters (call_args images hidActs c))).
  { unfold call_noScale.
    destruct ((c_scaleTargets c =? 0) && (c_scaleOutput c =? 1)).
    - inversion Htg. split; [reflexivity|discriminate].
    - apply bind_done in Htg. destruct Htg as [? [Hr Htg]].
      apply bind_done in Htg. destruct Htg as [? [Hc Htg]].
      apply assert_done, Z.eqb_eq in Hr. apply assert_done, Z.eqb_eq in Hc.
      inversion Htg; subst.
      split; [reflexivity|]. intros _. split; assumption. }
  destruct Htargets as [-> H661].
  split; [|split; [reflexivity|split; [reflexivity|split; [reflexivity|]]]].
  - constructor; try assumption.
    + match goal with H : (c_numGroups c >? 1) || _ = true |- _ =>
        apply orb_true_iff in H; destruct H as [Hg|Hg]
      end.
      * left. apply Z.gtb_lt in Hg. lia.
      * right. apply andb_true_iff in Hg. destruct Hg as [Ha Hb].
        apply Z.gtb_lt in Ha. split; [lia|].
        apply orb_true_iff in Hb. destruct Hb as [Hb|Hb].
        -- left. apply Z.leb_le in Hb. assumption.
        -- right. apply Z.eqb_eq in Hb. assumption.
    + match goal with H : (c_numGroups c =? 1) || _ = true |- _ =>
        apply orb_true_iff in H; destruct H as [Hg|Hg]
      end.
      * left. apply Z.eqb_eq in Hg. assumption.
      * right. apply Z.eqb_eq in Hg. assumption.
    + match goal with H : (c_paddingStart c <=? 0) && _ = true |- _ =>
        apply andb_true_iff in H; destruct H as [Ha Hb]
      end.
      apply Z.leb_le in Ha. apply Z.geb_le in Hb. split; [assumption|].
      unfold k_numModules. cbn. lia.
  - destruct geom as [b t]. exact Hgeom.
Qed.

Lemma launch_geometry_done (nFC nFPG nF nIC nG nM mS fP : Z) :
  (nFC <= 3 -> nG = 1) ->
  exists g, launch_geometry nFC nFPG nF nIC nG nM mS fP = Done g
            /\ Z.rem (dim_y (snd g) * dim_x (snd g)) 32 = 0.
Proof.
  intros H. unfold launch_geometry.
  destruct (Z.gtb_spec nFC 3) as [Hgt|Hle].
  - destruct (Z.rem nFPG 32 =? 0).
    + eexists. split; [reflexivity|]. cbn [snd dim_x dim_y].
      destruct (Z.rem nFPG 64 =? 0); reflexivity.
    + eexists. split; [reflexivity|]. reflexivity.
  - rewrite (H Hle). cbn [Z.eqb Pos.eqb assert bind].
    eexists. split; [reflexivity|]. cbn [snd dim_x dim_y].
    destruct (Z.rem nF 32 =? 0); reflexivity.
Qed.

(** Conversely, a call that passes every check reaches the launch. *)
Lemma conv_host_complete (images hidActs targets : NVMatrix) (c : call) :
  host_checks images hidActs targets c ->
  exists l, conv_host images hidActs targets c = Done l.
Proof.
  intros [Hg Hc Hm H598 H599 H600 H601 H602 H603 H608 H609 H612 H613 H615
          H617 H618 H619 H621 H622 H648 H661].
  unfold conv_host, convWeightActs_host.
  unfold idiv.
  destruct (Z.eqb_spec (c_numGroups c) 0) as [|_]; [contradiction|].
  destruct (Z.eqb_spec (c_numImgColors c) 0) as [|_]; [contradiction|].
  destruct (Z.eqb_spec (c_numModulesX c * c_numModulesX c) 0) as [|_]; [contradiction|].
  cbn [bind].
  unfold call_noScale, targets_rows in *. unfold k_outputModules in *.
  unfold k_numModules, k_numFilterColors, k_filterPixels in *.
  cbn [call_args a_numImages a_numFilters a_numModulesX a_imgSize a_filterSize
       a_paddingStart a_moduleStride a_imgStride a_numImgColors a_modulesPerBlock
       a_numGroups a_scaleTargets a_scaleOutput] in *.
  apply Z.eqb_eq in H598, H599, H602, H608, H609, H615. apply Z.eqb_eq in H603.
  apply Z.leb_le in H613.
  rewrite H598, H599, H602, H603, H608, H609, H613, H615, H617, H618, H619, H621, H622.
  assert (E600 : (c_numGroups c >? 1)
                 || (c_numImgColors c >? 0)
                    && ((c_numImgColors c <=? 3) || (Z.rem (c_numImgColors c) 4 =? 0))
                 = true).
  { destruct H600 as [Hgt|[Hpos [Hle|Hrem]]].
    - apply orb_true_iff. left. apply Z.gtb_lt. lia.
    - apply orb_true_iff. right. apply andb_true_iff. split; [apply Z.gtb_lt; lia|].
      apply orb_true_iff. left. apply Z.leb_le. assumption.
    - apply orb_true_iff. right. apply andb_true_iff. split; [apply Z.gtb_lt; lia|].
      apply orb_true_iff. right. apply Z.eqb_eq. assumption. }
  assert (E601 : (c_numGroups c =? 1)
                 || (Z.rem (c_numImgColors c ÷ c_numGroups c) 4 =? 0) = true).
  { apply orb_true_iff. destruct H601 as [H1|H1]; [left|right]; apply Z.eqb_eq; assumption. }
  assert (E612 : (c_paddingStart c <=? 0)
                 && (c_paddingStart c
                     + (c_numModulesX c * c_numModulesX c - 1) * c_moduleStride c
                     + c_filterSize c
                     >=? Z.sqrt (getNumRows images ÷ c_numImgColors c)) = true).
  { destruct H612 as [Ha Hb]. apply andb_true_iff. split.
    - apply Z.leb_le. assumption.
    - apply Z.geb_le. lia. }
  rewrite E600, E601, E612. cbn [negb assert bind].
  match goal with
  | |- context [launch_geometry ?a1 ?a2 ?a3 ?a4 ?a5 ?a6 ?a7 ?a8] =>
      destruct (launch_geometry_done a1 a2 a3 a4 a5 a6 a7 a8 H648) as [g [Eg E654]]
  end.
  rewrite Eg. cbn [bind]. apply Z.eqb_eq in E654. rewrite E654. cbn [assert bind].
  destruct ((c_scaleTargets c =? 0) && (c_scaleOutput c =? 1)).
  - cbn [bind]. eexists. reflexivity.
  - destruct (H661 eq_refl) as [Hr Hcc].
    apply Z.eqb_eq in Hr, Hcc. rewrite Hr, Hcc. cbn [assert bind].
    eexists. reflexivity.
Qed.

Lemma indices_empty (d : dim3) : dim_x d <= 0 \/ dim_y d <= 0 -> indices d = [].
Proof.
  intros H. destruct (indices d) as [|[x y] l] eqn:E; [reflexivity|].
  assert (Hin : In (x, y) (indices d)) by (rewrite E; now left).
  apply in_indices in Hin. lia.
Qed.

Lemma launch_empty (k : kernel) (blocks threads : dim3)
      (images hidActs targets : Z -> Z) (a : kargs) (u : Z -> Z -> uninit) :
  dim_x blocks <= 0 \/ dim_y blocks <= 0 ->
  launch_kernel k blocks threads images hidActs targets a u = targets.
Proof. intros H. unfold launch_kernel. rewrite indices_empty by assumption. reflexivity. Qed.

Lemma rem_mul_exact (x d e : Z) :
  0 <= x -> 0 < d -> 0 < e -> Z.rem x (d * e) = 0 ->
  Z.rem x d = 0 /\ Z.rem (x ÷ d) e = 0 /\ x = d * (x ÷ d).
Proof.
  intros Hx Hd He H.
  pose proof (Z.quot_rem' x (d * e)) as E. rewrite H, Z.add_0_r in E.
  set (q := x ÷ (d * e)) in *. clearbody q.
  assert (Eq : x ÷ d = e * q).
  { subst x. replace (d * e * q) with (e * q * d) by ring.
    apply Z.quot_mul. lia. }
  rewrite Eq. split; [|split].
  - subst x. replace (d * e * q) with (e * q * d) by ring. apply Z.rem_mul. lia.
  - rewrite Z.mul_comm. apply Z.rem_mul. lia.
  - subst x. ring.
Qed.

Lemma rem_of_multiple (x d m : Z) :
  0 <= x -> 0 < d -> 0 < m -> Z.rem x (d * m) = 0 -> Z.rem x d = 0.
Proof. intros Hx Hd Hm H. apply (rem_mul_exact x d m Hx Hd Hm H). Qed.

Lemma square_pos (x : Z) : x * x <> 0 -> 0 < x * x.
Proof. intros H. nia. Qed.

Lemma quot_nonpos (x g : Z) : 0 < x -> g < 0 -> x ÷ g <= 0.
Proof.
  intros Hx Hg. rewrite <- (Z.opp_involutive g), Z.quot_opp_r by lia.
  assert (0 <= x ÷ (- g)) by (apply Z.quot_pos; lia). lia.
Qed.

Lemma quot_nonneg (x y : Z) : 0 <= x -> 0 <= y -> 0 <= x ÷ y.
Proof.
  intros Hx Hy. destruct (Z.eq_dec y 0) as [->|Hne].
  - destruct x; cbn; lia.
  - apply Z.quot_pos; lia.
Qed.

Lemma coverage_filterSize (p n s f i : Z) :
  p <= 0 -> 0 < n -> s <= f -> 0 <= i -> p + (n - 1) * s + f >= i -> 0 <= f.
Proof. intros. nia. Qed.

(** What the checks and the well-formedness of the tensors give on the
    derived geometry. *)
Lemma host_facts (images hidActs targets : NVMatrix) (c : call) :
  well_formed images hidActs c ->
  host_checks images hidActs targets c ->
  let a := call_args images hidActs c in
  1 <= a_numGroups a
  /\ 0 <= a_numFilters a
  /\ Z.rem (a_numFilters a) 16 = 0
  /\ Z.rem (k_numFiltersPerGroup a) 16 = 0
  /\ a_numFilters a = a_numGroups a * k_numFiltersPerGroup a
  /\ 0 <= a_filterSize a <= 65536
  /\ 0 <= k_outputModules a
  /\ 0 <= a_numImages a
  /\ (k_numFilterColors a <= 3 -> a_numGroups a = 1 /\ 1 <= k_numFilterColors a)
  /\ (3 < k_numFilterColors a -> Z.rem (k_numFilterColors a) 4 = 0).
Proof.
  intros [Wn [Wr [Wm Wf]]] HC a.
  destruct HC as [Hg Hc Hm H598 H599 H600 H601 H602 H603 H608 H609 H612 H613 H615
                  H617 H618 H619 H621 H622 H648 H661].
  fold a in H599, H601, H602, H608, H612, H615, H648, H661.
  assert (Ea : a_numGroups a = c_numGroups c) by reflexivity.
  assert (EnFC : k_numFilterColors a = c_numImgColors c ÷ c_numGroups c) by reflexivity.
  assert (Efs : a_filterSize a = c_filterSize c) by reflexivity.
  assert (HnM : 0 < k_numModules a) by (apply square_pos; exact Hm).
  assert (HG : 1 <= c_numGroups c).
  { destruct (Z_lt_le_dec (c_numGroups c) 1) as [Hlt|]; [|assumption].
    exfalso. destruct H600 as [Hgt|[Hpos _]]; [clear - Hgt Hlt; lia|].
    assert (Hq : c_numImgColors c ÷ c_numGroups c <= 0).
    { apply quot_nonpos; clear - Hpos Hlt Hg; lia. }
    rewrite EnFC in H648. assert (E1 : c_numGroups c = 1) by (apply H648; clear - Hq; lia).
    clear - E1 Hlt. lia. }
  assert (HnF : 0 <= a_numFilters a).
  { apply quot_nonneg; [assumption|]. clear - HnM. unfold k_numModules in HnM. cbn in HnM. lia. }
  assert (HG0 : 0 < c_numGroups c) by (clear - HG; lia).
  destruct (rem_mul_exact (a_numFilters a) (c_numGroups c) 16 HnF HG0 ltac:(reflexivity))
    as [HrG [Hr16 EnF]].
  { rewrite (Z.mul_comm (c_numGroups c)). exact H599. }
  split; [rewrite Ea; assumption|]. split; [assumption|].
  split.
  { apply (rem_of_multiple _ 16 (c_numGroups c)); try assumption; reflexivity. }
  split; [exact Hr16|]. split; [exact EnF|].
  split.
  { rewrite Efs. split; [|assumption]. destruct H612 as [Hp Hcov].
    apply (coverage_filterSize (c_paddingStart c) (k_numModules a) (c_moduleStride c)
             (c_filterSize c) (a_imgSize a)); try assumption.
    apply Z.sqrt_nonneg. }
  split.
  { unfold k_outputModules. apply quot_nonneg; [clear - HnM; lia|].
    cbn [a call_args a_modulesPerBlock].
    destruct (c_moduleSum c =? 0); [|assumption].
    clear - HnM. unfold k_numModules in HnM. cbn in HnM. lia. }
  split; [exact Wn|].
  split.
  - intros Hle. specialize (H648 Hle). split; [rewrite Ea; assumption|].
    rewrite EnFC, H648, Z.quot_1_r.
    destruct H600 as [Hgt|[Hpos _]]; [clear - Hgt H648|clear - Hpos]; lia.
  - intros Hgt. destruct H601 as [H1|H4]; [|assumption].
    rewrite EnFC, H1, Z.quot_1_r in *.
    destruct H600 as [Hg1|[_ [Hle|Hrem]]];
      [clear - Hg1 H1; lia|clear - Hle Hgt; lia|assumption].
Qed.

Lemma launch_spec_empty (scale : bool) (k : kernel) (blocks threads : dim3)
      (images hidActs old : Z -> Z) (a : kargs) (u : Z -> Z -> uninit) :
  dim_x blocks <= 0 \/ dim_y blocks <= 0 ->
  (forall om c px f, ~ valid_entry a om c px f) ->
  launch_spec scale a images hidActs old
              (launch_kernel k blocks threads images hidActs old a u).
Proof.
  intros Hd Hnone. rewrite launch_empty by assumption. split.
  - intros om c px f Hv. destruct (Hnone om c px f Hv).
  - reflexivity.
Qed.

Lemma rem_scale (g x d : Z) : d <> 0 -> Z.rem x d = 0 -> Z.rem (g * x) d = 0.
Proof.
  intros Hd H. pose proof (Z.quot_rem' x d) as E. rewrite H, Z.add_0_r in E.
  rewrite E. replace (g * (d * (x ÷ d))) with (g * (x ÷ d) * d) by ring.
  apply Z.rem_mul. assumption.
Qed.

Lemma DIVUP_zero (d : Z) : 0 < d -> DIVUP 0 d = 0.
Proof. intros Hd. unfold DIVUP. apply Z.quot_small. lia. Qed.

Lemma check_bounds (n : Z) : negb (Z.rem n 32 =? 0) = false -> Z.rem n 32 = 0.
Proof. destruct (Z.eqb_spec (Z.rem n 32) 0); [auto|discriminate]. Qed.

(** A geometry with no filter or no filter pixel has no entry. *)
Lemma no_entry (a : kargs) :
  a_numFilters a = 0 \/ a_filterSize a = 0 ->
  forall om c px f, ~ valid_entry a om c px f.
Proof.
  intros H om c px f [_ [_ [Hpx Hf]]]. unfold k_filterPixels in Hpx.
  destruct H as [H|H]; rewrite H in *; lia.
Qed.

(** Every instantiation of the family computes the blend of [targets] with
    the reference reduction, on every geometry it is applicable to. *)
Lemma family_correct (k : kernel) (a : kargs) (images hidActs old : Z -> Z)
      (u : Z -> Z -> uninit) :
  geometry_ok a -> applicable k a ->
  launch_spec (kernel_scale k) a images hidActs old
              (launch_kernel k (kernel_grid k a) (kernel_block k)
                             images hidActs old a u).
Proof.
  intros [Hn [HnF Hout]] Hk. destruct k as [B_Y B_X ppt pc nC sc ck
                                           |B_Y B_X ppt cpt pc sc ck
                                           |B_Y B_X fpt cpt pc sc ck];
    cbn [applicable kernel_scale kernel_grid kernel_block] in *.
  - destruct Hk as [H1 [H2 [H3 [H4 [H5 [H6 [H7 [H8 [H9 H10]]]]]]]]].
    apply color_kernel_correct; try assumption; reflexivity.
  - destruct Hk as [H1 [H2 [H3 [H4 [H5 [H6 [H7 [H8 [H9 [H10 [H11 [H12 [H13 H14]]]]]]]]]]]]].
    apply manycolor_kernel_correct; try assumption; reflexivity.
  - destruct Hk as [H1 [H2 [H3 [H4 [H5 [H6 [H7 [H8 [H9 [H10 [H11 [H12 H13]]]]]]]]]]]].
    apply manyfilter_kernel_correct; try assumption; reflexivity.
Qed.

Ltac empty_grid H :=
  cbn [kernel_grid dim_x dim_y]; unfold k_filterPixels;
  destruct H as [H|H]; [left|right]; rewrite H;
  [change (0 ÷ ?d) with 0; rewrite Z.mul_0_r; reflexivity
  |cbn [Z.mul];
   rewrite DIVUP_zero
     by (repeat match goal with
                | |- context [if ?b then _ else _] => destruct b
                end; reflexivity);
   reflexivity].

(** The instantiation [convWeightActs] launches is applicable to the
    geometry of the call, on the grid of the family, unless the geometry has
    no filter or no filter pixel. *)
Lemma dispatch_sound (images hidActs targets : NVMatrix) (c : call) (l : launch) :
  well_formed images hidActs c ->
  conv_host images hidActs targets c = Done l ->
  exists k,
    l_kernel l = Some k
    /\ l_blocks l = kernel_grid k (call_args images hidActs c)
    /\ l_threads l = kernel_block k
    /\ kernel_scale k = negb (call_noScale c)
    /\ geometry_ok (call_args images hidActs c)
    /\ (((a_numFilters (call_args images hidActs c) = 0
          \/ a_filterSize (call_args images hidActs c) = 0)
         /\ (dim_x (kernel_grid k (call_args images hidActs c)) <= 0
             \/ dim_y (kernel_grid k (call_args images hidActs c)) <= 0))
        \/ applicable k (call_args images hidActs c)).
Proof.
  intros WF HD.
  destruct (conv_host_inv _ _ _ _ _ HD) as [HC [Ea [Ek [Et Eg]]]].
  rewrite Ea in Ek, Et, Eg.
  destruct (host_facts _ _ _ _ WF HC)
    as [HG [HnF [HnF16 [HnFPG16 [EnF [Hfs [Hout [Hn [Hfew Hmany]]]]]]]]].
  apply launch_geometry_threads in Eg. destruct Eg as [_ [Eth Ebl]].
  cbn [fst snd] in Eth, Ebl.
  rewrite Ek, select_kernel_closed. cbv zeta.
  fold (call_noScale c).
  set (a := call_args images hidActs c) in *.
  set (check := negb (Z.rem (a_numImages a) 32 =? 0)).
  assert (Hcheck : check = false -> Z.rem (a_numImages a) 32 = 0)
    by (apply check_bounds).
  assert (Hgeo : geometry_ok a) by (repeat split; assumption).
  assert (Hdeg : (a_numFilters a = 0 \/ a_filterSize a = 0)
                 \/ (0 < a_numFilters a /\ 0 < a_filterSize a))
    by (clear - HnF Hfs; lia).
  assert (HnFPG : 0 < a_numFilters a -> 0 < k_numFiltersPerGroup a).
  { intros Hpos. clear - Hpos EnF HG. nia. }
  destruct (Z.gtb_spec (k_numFilterColors a) 3) as [Hgt|Hle].
  - specialize (Hmany Hgt).
    assert (Hcpt : Z.rem (k_numFilterColors a)
                         (if Z.rem (k_numFilterColors a) 8 =? 0 then 8 else 4) = 0).
    { destruct (Z.eqb_spec (Z.rem (k_numFilterColors a) 8) 0); assumption. }
    assert (Hcpt0 : 0 < (if Z.rem (k_numFilterColors a) 8 =? 0 then 8 else 4))
      by (destruct (Z.rem (k_numFilterColors a) 8 =? 0); reflexivity).
    assert (HnFC0 : 0 < k_numFilterColors a) by (clear - Hgt; lia).
    destruct (Z.eqb_spec (Z.rem (k_numFiltersPerGroup a) 32) 0) as [H32|H32].
    + (* manycolor_manyfilter *)
      eexists. split; [reflexivity|]. cbn [kernel_grid kernel_block kernel_scale].
      split; [exact Ebl|]. split.
      { rewrite Eth. destruct (Z.rem (k_numFiltersPerGroup a) 64 =? 0); reflexivity. }
      split; [reflexivity|]. split; [exact Hgeo|].
      destruct Hdeg as [Hdeg|[HnF0 Hfs0]];
        [left; split; [exact Hdeg|empty_grid Hdeg]|right].
      specialize (HnFPG HnF0). cbn [applicable].
      destruct (Z.eqb_spec (Z.rem (k_numFiltersPerGroup a) 64) 0) as [H64|H64];
        repeat (split; [first [assumption | reflexivity]|]);
        change (32 * 2) with 64; change (16 * 2) with 32;
        (split; [rewrite EnF; apply rem_scale; [discriminate|assumption]|]);
        repeat (split; [assumption|]); assumption.
    + (* manycolor *)
      eexists. split; [reflexivity|]. cbn [kernel_grid kernel_block kernel_scale].
      split; [exact Ebl|]. split; [exact Eth|].
      split; [reflexivity|]. split; [exact Hgeo|].
      destruct Hdeg as [Hdeg|[HnF0 Hfs0]];
        [left; split; [exact Hdeg|empty_grid Hdeg]|right].
      specialize (HnFPG HnF0). cbn [applicable].
      repeat (split; [first [assumption | reflexivity | discriminate]|]).
      clear - Hfs Hfs0. lia.
  - (* color *)
    destruct (Hfew Hle) as [EG HnFC1].
    assert (EnIC : a_numImgColors a = k_numFilterColors a).
    { unfold k_numFilterColors. rewrite EG, Z.quot_1_r. reflexivity. }
    assert (Hsel : (k_numFilterColors a =? 1) || (k_numFilterColors a =? 2)
                   || (k_numFilterColors a =? 3) = true).
    { clear - Hle HnFC1.
      destruct (Z.eqb_spec (k_numFilterColors a) 1); [reflexivity|].
      destruct (Z.eqb_spec (k_numFilterColors a) 2); [reflexivity|].
      destruct (Z.eqb_spec (k_numFilterColors a) 3); [reflexivity|]. lia. }
    rewrite Hsel.
    eexists. split; [reflexivity|]. cbn [kernel_grid kernel_block kernel_scale].
    change (c_numImgColors c) with (a_numImgColors a) in Ebl. rewrite EnIC in Ebl.
    split; [exact Ebl|]. split.
    { rewrite Eth. destruct (Z.rem (a_numFilters a) 32 =? 0); reflexivity. }
    split; [reflexivity|]. split; [exact Hgeo|].
    destruct Hdeg as [Hdeg|[HnF0 Hfs0]];
        [left; split; [exact Hdeg|empty_grid Hdeg]|right].
    cbn [applicable].
    assert (HnFC0 : 0 < k_numFilterColors a) by (clear - HnFC1; lia).
    destruct (Z.eqb_spec (Z.rem (a_numFilters a) 32) 0) as [H32|H32];
      repeat (split; [first [assumption | reflexivity
                            | destruct (k_numFilterColors a =? 1); reflexivity]|]);
      assumption.
Qed.

(** The kernel [convWeightActs] launches does what a launch must do. *)
Lemma host_launch_correct (u : Z -> Z -> uninit)
      (images hidActs targets : NVMatrix) (c : call) (l : launch) :
  well_formed images hidActs c ->
  conv_host images hidActs targets c = Done l ->
  exists k,
    l_kernel l = Some k
    /\ launch_spec (negb (call_noScale c)) (call_args images hidActs c)
                   (getDevData images) (getDevData hidActs) (getDevData targets)
                   (launch_kernel k (l_blocks l) (l_threads l)
                      (getDevData images) (getDevData hidActs)
                      (getDevData targets) (call_args images hidActs c) u).
Proof.
  intros WF HD.
  destruct (dispatch_sound _ _ _ _ _ WF HD)
    as [k [Ek [Ebl [Eth [Esc [Hgeo Happ]]]]]].
  exists k. split; [assumption|]. rewrite Ebl, Eth, <- Esc.
  destruct Happ as [[Hdeg Hgrid]|Happ].
  - apply launch_spec_empty; [assumption|apply no_entry; assumption].
  - apply family_correct; assumption.
Qed.


(** ** The call as a whole *)

Lemma conv_unfold (u : Z -> Z -> uninit) (images hidActs targets : NVMatrix)
      (c : call) :
  conv u images hidActs targets c
  = (l <- conv_host images hidActs targets c ;;
     match l_kernel l with
     | Some k =>
         Done (withDevData (l_targets l)
                 (launch_kernel k (l_blocks l) (l_threads l)
                    (getDevData images) (getDevData hidActs)
                    (getDevData (l_targets l)) (l_args l) u))
     | None => Done (l_targets l)
     end).
Proof. reflexivity. Qed.

(** A call is aborted exactly when it is aborted before the launch. *)
Lemma conv_aborted (u : Z -> Z -> uninit) (images hidActs targets : NVMatrix)
      (c : call) :
  aborted (conv u images hidActs targets c)
  <-> aborted (conv_host images hidActs targets c).
Proof.
  rewrite conv_unfold.
  destruct (conv_host images hidActs targets c) as [l| |]; cbn [bind aborted].
  - destruct (l_kernel l); cbn [aborted]; tauto.
  - tauto.
  - tauto.
Qed.

Lemma blend_call (images hidActs : NVMatrix) (c : call) (v old : Z) :
  blend (negb (call_noScale c)) (call_args images hidActs c) v old
  = c_scaleTargets c * old + c_scaleOutput c * v.
Proof.
  unfold blend, call_noScale. cbn [call_args a_scaleTargets a_scaleOutput].
  destruct (Z.eqb_spec (c_scaleTargets c) 0) as [E1|E1];
    destruct (Z.eqb_spec (c_scaleOutput c) 1) as [E2|E2]; cbn [andb negb];
    try reflexivity.
  rewrite E1, E2. ring.
Qed.

(** A call that passes the checks of the host returns, and what it returns
    is the blend of [targets] with the reference reduction. *)
Lemma conv_correct (u : Z -> Z -> uninit) (images hidActs targets : NVMatrix)
      (c : call) (l : launch) :
  well_formed images hidActs c ->
  conv_host images hidActs targets c = Done l ->
  exists t',
    conv u images hidActs targets c = Done t'
    /\ conv_result images hidActs targets c t'.
Proof.
  intros WF HD.
  destruct (host_launch_correct u _ _ _ _ _ WF HD) as [k [Ek [Hin Hout]]].
  destruct (conv_host_inv _ _ _ _ _ HD) as [HC [Ea [_ [Et _]]]].
  rewrite Ea in Et.
  assert (Edata : getDevData (l_targets l) = getDevData targets).
  { rewrite Et. destruct (call_noScale c); reflexivity. }
  assert (Hin' : forall om cc px f,
             valid_entry (call_args images hidActs c) om cc px f ->
             launch_kernel k (l_blocks l) (l_threads l) (getDevData images)
               (getDevData hidActs) (getDevData targets)
               (call_args images hidActs c) u
               (target_index (call_args images hidActs c) om cc px f)
             = c_scaleTargets c
               * getDevData targets (target_index (call_args images hidActs c) om cc px f)
               + c_scaleOutput c
                 * reference (call_args images hidActs c) (getDevData images)
                             (getDevData hidActs) om cc px f).
  { intros om cc px f Hv. rewrite (Hin om cc px f Hv). apply blend_call. }
  rewrite conv_unfold, HD. cbn [bind]. rewrite Ek, Ea, Edata.
  eexists. split; [reflexivity|].
  unfold conv_result. cbn [withDevData getNumRows getNumCols isTrans
                           isContiguous getDevData].
  rewrite Et.
  destruct (call_noScale c) eqn:Ens.
  - cbn [resize getNumRows getNumCols isTrans isContiguous].
    split; [reflexivity|]. split; [reflexivity|].
    split; [apply (hc_621 _ _ _ _ HC)|]. split; [reflexivity|].
    split; [exact Hin'|exact Hout].
  - destruct (hc_661 _ _ _ _ HC Ens) as [Er Ec].
    split; [exact Er|]. split; [exact Ec|].
    split; [apply (hc_621 _ _ _ _ HC)|].
    split; [apply (hc_622 _ _ _ _ HC)|].
    split; [exact Hin'|exact Hout].
Qed.


(** ** The checks of the host against the invariants of the specification *)

(** A call that returns has passed lines 598-601. *)
Lemma done_accepted (images hidActs targets : NVMatrix) (c : call) (l : launch) :
  conv_host images hidActs targets c = Done l ->
  accepted_filters images hidActs c = true /\ accepted_colors c = true.
Proof.
  intros HD. destruct (conv_host_inv _ _ _ _ _ HD) as [HC _].
  destruct HC as [Hg Hc Hm H598 H599 H600 H601 H602 H603 H608 H609 H612 H613 H615
                  H617 H618 H619 H621 H622 H648 H661].
  split.
  - unfold accepted_filters. apply Z.eqb_eq. exact H599.
  - unfold accepted_colors.
    change (k_numFilterColors (call_args images hidActs c))
      with (c_numImgColors c ÷ c_numGroups c) in H601.
    destruct (Z.eqb_spec (c_numGroups c) 1) as [E1|N1].
    + destruct H600 as [Hgt|[Hpos [Hle|Hrem]]].
      * clear - Hgt E1. lia.
      * destruct (Z.eqb_spec (c_numImgColors c) 1); [reflexivity|].
        destruct (Z.eqb_spec (c_numImgColors c) 2); [reflexivity|].
        destruct (Z.eqb_spec (c_numImgColors c) 3); [reflexivity|].
        clear - Hpos Hle n n0 n1. lia.
      * rewrite (proj2 (Z.eqb_eq _ _) Hrem). apply orb_true_r.
    + destruct (c_numGroups c >? 1); [|reflexivity].
      destruct H601 as [E1|Hrem]; [contradiction|].
      apply Z.eqb_eq. exact Hrem.
Qed.



(** ** Rows of [targets], folded modules and padding *)

(** Every element of [targets] in its shape is an entry. *)
Lemma entry_decode (a : kargs) (r f : Z) :
  0 <= k_outputModules a ->
  0 <= r < targets_rows a -> 0 <= f < a_numFilters a ->
  exists om cc px,
    valid_entry a om cc px f
    /\ target_index a om cc px f = r * a_numFilters a + f.
Proof.
  unfold targets_rows, valid_entry, target_index. intros Hout Hr Hf.
  set (oM := k_outputModules a) in *. set (nFC := k_numFilterColors a) in *.
  assert (HfP0 : 0 <= k_filterPixels a) by (unfold k_filterPixels; nia).
  set (fP := k_filterPixels a) in *. clearbody oM nFC fP.
  assert (HfP : 0 < fP).
  { destruct (Z.eq_dec fP 0) as [E|]; [|clear - HfP0 n; lia].
    exfalso. rewrite E, Z.mul_0_r in Hr. clear - Hr. lia. }
  assert (HnFC : 0 < nFC).
  { destruct (Z_lt_le_dec 0 nFC) as [|Hle]; [assumption|]. exfalso.
    assert (oM * nFC <= 0) by (clear - Hle Hout; nia).
    assert (oM * nFC * fP <= 0) by (clear - H HfP; nia).
    clear - Hr H0. lia. }
  exists (r / fP / nFC), ((r / fP) mod nFC), (r mod fP).
  pose proof (Z.div_mod r fP ltac:(clear - HfP; lia)) as E1.
  pose proof (Z.mod_pos_bound r fP HfP) as B1.
  pose proof (Z.div_mod (r / fP) nFC ltac:(clear - HnFC; lia)) as E2.
  pose proof (Z.mod_pos_bound (r / fP) nFC HnFC) as B2.
  set (q := r / fP) in *. set (px := r mod fP) in *.
  set (om := q / nFC) in *. set (cc := q mod nFC) in *.
  clearbody q px om cc.
  assert (Hq : 0 <= q) by (clear - E1 B1 Hr HfP; nia).
  assert (Hom : 0 <= om) by (clear - E2 B2 Hq HnFC; nia).
  assert (Hq2 : q < oM * nFC) by (clear - E1 B1 Hr HfP; nia).
  assert (Hom2 : om < oM) by (clear - E2 B2 Hq2 HnFC; nia).
  split.
  - repeat split; try lia.
  - rewrite E1, E2. ring.
Qed.

(** A filter pixel that every folded module maps outside the image gets no
    contribution, whatever the memory of the images holds. *)
Lemma reference_zero (a : kargs) (images hidActs : Z -> Z) (om cc px f : Z) :
  (forall m, om * a_modulesPerBlock a <= m < om * a_modulesPerBlock a + a_modulesPerBlock a ->
             in_image a (pixel_y a m px) (pixel_x a m px) = false) ->
  reference a images hidActs om cc px f = 0.
Proof.
  intros Hout. unfold reference. apply zsum_zero. intros m Hm.
  apply in_for_range1 in Hm. unfold module_gradient. apply zsum_zero.
  intros i _. unfold image_at. rewrite (Hout m Hm). reflexivity.
Qed.

(** The reference reduction reads the images inside the image only. *)
Lemma reference_ext (a : kargs) (images images' hidActs : Z -> Z) (om cc px f : Z) :
  (forall color y x i,
     0 <= y < a_imgSize a -> 0 <= x < a_imgSize a ->
     images ((color * k_imgPixels a + (y * a_imgSize a + x)) * a_imgStride a + i)
     = images' ((color * k_imgPixels a + (y * a_imgSize a + x)) * a_imgStride a + i)) ->
  reference a images hidActs om cc px f = reference a images' hidActs om cc px f.
Proof.
  intros Hagree. unfold reference. apply zsum_ext. intros m _.
  unfold module_gradient. apply zsum_ext. intros i _. f_equal.
  unfold image_at, in_image.
  destruct (Z.geb_spec (pixel_y a m px) 0); [|reflexivity].
  destruct (Z.ltb_spec (pixel_y a m px) (a_imgSize a)); [|reflexivity].
  destruct (Z.geb_spec (pixel_x a m px) 0); [|reflexivity].
  destruct (Z.ltb_spec (pixel_x a m px) (a_imgSize a)); [|reflexivity].
  cbn [andb]. apply Hagree; lia.
Qed.

(** Sums over consecutive blocks of [k] modules. *)
Lemma zsum_blocks (k : Z) (g : Z -> Z) (n : nat) :
  0 < k ->
  zsum (for_range 0 (Z.of_nat n) 1)
       (fun om => zsum (for_range (om * k) (om * k + k) 1) g)
  = zsum (for_range 0 (Z.of_nat n * k) 1) g.
Proof.
  intros Hk. induction n as [|n IH].
  - reflexivity.
  - rewrite Nat2Z.inj_succ. unfold Z.succ.
    rewrite (for_range_app 0 (Z.of_nat n) (Z.of_nat n + 1)) by lia.
    rewrite (for_range_cons (Z.of_nat n)) by lia.
    rewrite (for_range_empty (Z.of_nat n + 1)) by lia.
    rewrite zsum_app, IH.
    rewrite (for_range_app 0 (Z.of_nat n * k) ((Z.of_nat n + 1) * k)) by nia.
    rewrite zsum_app. cbn [zsum fold_right].
    replace ((Z.of_nat n + 1) * k) with (Z.of_nat n * k + k) by ring.
    ring.
Qed.

(** Without folding, a row of [targets] is the gradient of one module. *)
Lemma reference_unfolded (a : kargs) (images hidActs : Z -> Z) (m cc px f : Z) :
  a_modulesPerBlock a = 1 ->
  reference a images hidActs m cc px f = module_gradient a images hidActs m cc px f.
Proof.
  intros E. unfold reference. rewrite E, Z.mul_1_r.
  rewrite for_range_cons by lia. rewrite for_range_empty by lia.
  cbn [zsum fold_right]. ring.
Qed.

(** [moduleSum = 0] stands for the number of modules (line 606). *)
Lemma moduleSum_default (u : Z -> Z -> uninit) (images hidActs targets : NVMatrix)
      (c : call) :
  conv u images hidActs targets (with_moduleSum c 0)
  = conv u images hidActs targets
         (with_moduleSum c (c_numModulesX c * c_numModulesX c)).
Proof.
  unfold conv, with_moduleSum.
  cbn [c_numModulesX c_filterSize c_paddingStart c_moduleStride c_numImgColors
       c_numGroups c_scaleTargets c_scaleOutput c_moduleSum].
  unfold convWeightActs, convWeightActs_host. cbv zeta.
  change (0 =? 0) with true. cbv iota.
  destruct (c_numModulesX c * c_numModulesX c =? 0) eqn:E; reflexivity.
Qed.

(** * Properties of [convWeightActs] *)

(** C1: for every call that passes the checks of [convWeightActs], every
    instantiation of the three kernels that is applicable to the geometry of
    the call, with or without the bounds check on the batch, leaves in every
    entry of [targets] the direct reduction (the sum, over the folded modules
    and over the images, of image times hidden activation, zero outside the
    image), blended with the old value when the instantiation scales; the
    instantiation [convWeightActs] dispatches is launched on the grid of the
    family, and the call returns [scaleTargets * old + scaleOutput * reference]
    in every entry. *)
Theorem variants_compute_reference (u : Z -> Z -> uninit)
        (images hidActs targets : NVMatrix) (c : call) (l : launch) :
  well_formed images hidActs c ->
  conv_host images hidActs targets c = Done l ->
  let a := call_args images hidActs c in
  (forall k, applicable k a ->
     forall om cc px f, valid_entry a om cc px f ->
       launch_kernel k (kernel_grid k a) (kernel_block k)
         (getDevData images) (getDevData hidActs) (getDevData targets) a u
         (target_index a om cc px f)
       = if kernel_scale k
         then c_scaleTargets c * getDevData targets (target_index a om cc px f)
              + c_scaleOutput c
                * reference a (getDevData images) (getDevData hidActs) om cc px f
         else reference a (getDevData images) (getDevData hidActs) om cc px f)
  /\ (exists k, l_kernel l = Some k
                /\ l_blocks l = kernel_grid k a /\ l_threads l = kernel_block k
                /\ kernel_scale k = negb (call_noScale c))
  /\ (exists t',
        conv u images hidActs targets c = Done t'
        /\ forall om cc px f, valid_entry a om cc px f ->
             getDevData t' (target_index a om cc px f)
             = c_scaleTargets c * getDevData targets (target_index a om cc px f)
               + c_scaleOutput c
                 * reference a (getDevData images) (getDevData hidActs) om cc px f).
Proof.
  intros WF HD a.
  destruct (dispatch_sound _ _ _ _ _ WF HD) as [k0 [Ek [Ebl [Eth [Esc [Hgeo _]]]]]].
  split; [|split].
  - intros k Hk om cc px f Hv.
    destruct (family_correct k a (getDevData images) (getDevData hidActs)
                (getDevData targets) u Hgeo Hk) as [Hin _].
    rewrite (Hin om cc px f Hv). unfold blend. reflexivity.
  - exists k0. repeat split; assumption.
  - destruct (conv_correct u _ _ _ _ _ WF HD) as [t' [Et [_ [_ [_ [_ [Hin _]]]]]]].
    exists t'. split; [exact Et|exact Hin].
Qed.

Lemma variants_compute_reference_witness :
  exists t', conv ex_uninit ex_images ex_hidActs ex_targets ex_call = Done t'.
Proof.
  destruct (variants_compute_reference ex_uninit ex_images ex_hidActs ex_targets
              ex_call (decided (conv_host ex_images ex_hidActs ex_targets ex_call)))
    as [_ [_ [t' [Et _]]]].
  - unfold well_formed. cbn. lia.
  - vm_compute. reflexivity.
  - exists t'. exact Et.
Defined.

(** C3: when [scaleTargets == 0] and [scaleOutput == 1], [targets] is
    resized to [(numModules / moduleSum) * numFilterColors * filterPixels]
    rows by [numFilters] columns and every element of it receives the
    reference reduction, whatever it held; for every other pair of scales a
    call whose [targets] has not that shape is aborted, and a call that
    returns leaves [targets] in its shape with the blend of the old value
    and the reference reduction in every entry. *)
Theorem overwrite_or_blend (u : Z -> Z -> uninit)
        (images hidActs targets : NVMatrix) (c : call) :
  well_formed images hidActs c ->
  let a := call_args images hidActs c in
  let rows := k_outputModules a * k_numFilterColors a * k_filterPixels a in
  (call_noScale c = true ->
   forall l, conv_host images hidActs targets c = Done l ->
     exists t',
       conv u images hidActs targets c = Done t'
       /\ getNumRows t' = rows /\ getNumCols t' = a_numFilters a
       /\ forall r f, 0 <= r < rows -> 0 <= f < a_numFilters a ->
            exists om cc px,
              valid_entry a om cc px f
              /\ target_index a om cc px f = r * a_numFilters a + f
              /\ getDevData t' (r * a_numFilters a + f)
                 = reference a (getDevData images) (getDevData hidActs) om cc px f)
  /\ (call_noScale c = false ->
      (getNumRows targets <> rows \/ getNumCols targets <> a_numFilters a ->
       aborted (conv u images hidActs targets c))
      /\ forall l, conv_host images hidActs targets c = Done l ->
           exists t',
             conv u images hidActs targets c = Done t'
             /\ getNumRows t' = getNumRows targets
             /\ getNumCols t' = getNumCols targets
             /\ forall om cc px f, valid_entry a om cc px f ->
                  getDevData t' (target_index a om cc px f)
                  = c_scaleTargets c * getDevData targets (target_index a om cc px f)
                    + c_scaleOutput c
                      * reference a (getDevData images) (getDevData hidActs)
                                  om cc px f).
Proof.
  intros WF a rows. split.
  - intros Hns l HD.
    destruct (conv_correct u _ _ _ _ _ WF HD) as [t' [Et [Hr [Hc [_ [_ [Hin _]]]]]]].
    destruct (conv_host_inv _ _ _ _ _ HD) as [HC _].
    destruct (host_facts _ _ _ _ WF HC) as [_ [_ [_ [_ [_ [_ [Hout _]]]]]]].
    exists t'. split; [exact Et|]. split; [exact Hr|]. split; [exact Hc|].
    intros r f Hrr Hf.
    destruct (entry_decode a r f Hout Hrr Hf) as [om [cc [px [Hv Ei]]]].
    exists om, cc, px. split; [exact Hv|]. split; [exact Ei|].
    rewrite <- Ei. unfold a. rewrite (Hin om cc px f Hv).
    unfold call_noScale in Hns. apply andb_prop in Hns. destruct Hns as [E0 E1].
    apply Z.eqb_eq in E0, E1. rewrite E0, E1. ring.
  - intros Hns. split.
    + intros Hshape. apply conv_aborted.
      destruct (conv_host images hidActs targets c) as [l| |] eqn:HD;
        cbn [aborted]; [|exact I|exact I].
      destruct (conv_host_inv _ _ _ _ _ HD) as [HC _].
      destruct (hc_661 _ _ _ _ HC Hns) as [Er Ec].
      destruct Hshape as [Hs|Hs]; apply Hs; assumption.
    + intros l HD.
      destruct (conv_correct u _ _ _ _ _ WF HD) as [t' [Et [Hr [Hc [_ [_ [Hin _]]]]]]].
      destruct (conv_host_inv _ _ _ _ _ HD) as [HC _].
      destruct (hc_661 _ _ _ _ HC Hns) as [Er Ec].
      exists t'. split; [exact Et|].
      split; [rewrite Hr, Er; reflexivity|].
      split; [rewrite Hc, Ec; reflexivity|exact Hin].
Qed.

Lemma overwrite_or_blend_witness :
  exists t', conv ex_uninit ex_images ex_hidActs ex_targets ex_call = Done t'
             /\ getNumRows t' = 1 /\ getNumCols t' = 16.
Proof.
  destruct (overwrite_or_blend ex_uninit ex_images ex_hidActs ex_targets ex_call)
    as [Hover _].
  - unfold well_formed. cbn. lia.
  - destruct (Hover eq_refl
                (decided (conv_host ex_images ex_hidActs ex_targets ex_call)))
      as [t' [Et [Hr [Hc _]]]].
    + vm_compute. reflexivity.
    + exists t'. split; [exact Et|]. split; [exact Hr|exact Hc].
Defined.

(** The host looks at the shape of [images], not at its buffer. *)
Lemma conv_host_images (images images' hidActs targets : NVMatrix) (c : call) :
  getNumRows images' = getNumRows images ->
  getNumCols images' = getNumCols images ->
  getStride images' = getStride images ->
  isTrans images' = isTrans images ->
  conv_host images' hidActs targets c = conv_host images hidActs targets c
  /\ call_args images' hidActs c = call_args images hidActs c.
Proof.
  destruct images as [r n s t ct d], images' as [r' n' s' t' ct' d'].
  cbn [getNumRows getNumCols getStride isTrans].
  intros -> -> -> ->. split; reflexivity.
Qed.

(** The modules folded into an output module are modules. *)
Lemma folded_modules_range (nM mpb om m : Z) :
  0 < mpb -> Z.rem nM mpb = 0 -> 0 <= om < nM ÷ mpb ->
  om * mpb <= m < om * mpb + mpb -> 0 <= m < nM.
Proof.
  intros Hmpb Hrem Hom Hm.
  pose proof (Z.quot_rem' nM mpb) as Q. rewrite Hrem, Z.add_0_r in Q.
  set (q := nM ÷ mpb) in *. clearbody q. subst nM. nia.
Qed.

(** A module that maps a filter pixel outside the image contributes nothing
    to the entries of that pixel, whatever the memory of the images holds. *)
Lemma module_gradient_outside (a : kargs) (images hidActs : Z -> Z) (m cc px f : Z) :
  in_image a (pixel_y a m px) (pixel_x a m px) = false ->
  module_gradient a images hidActs m cc px f = 0.
Proof.
  intros Hout. unfold module_gradient. apply zsum_zero.
  intros i _. unfold image_at. rewrite Hout. reflexivity.
Qed.

(** The cells of [images] the reference reduction of an entry reads are
    pixels of the image, in a colour of the image and an image of the
    batch. *)
Lemma reference_inside_image (images hidActs targets : NVMatrix) (c : call)
      (img' : Z -> Z) (om cc px f : Z) :
  well_formed images hidActs c ->
  host_checks images hidActs targets c ->
  (forall color y x i,
     0 <= color < a_numImgColors (call_args images hidActs c) ->
     0 <= y < a_imgSize (call_args images hidActs c) ->
     0 <= x < a_imgSize (call_args images hidActs c) ->
     0 <= i < a_numImages (call_args images hidActs c) ->
     img' ((color * k_imgPixels (call_args images hidActs c)
            + (y * a_imgSize (call_args images hidActs c) + x))
           * a_imgStride (call_args images hidActs c) + i)
     = getDevData images
         ((color * k_imgPixels (call_args images hidActs c)
           + (y * a_imgSize (call_args images hidActs c) + x))
          * a_imgStride (call_args images hidActs c) + i)) ->
  valid_entry (call_args images hidActs c) om cc px f ->
  reference (call_args images hidActs c) img' (getDevData hidActs) om cc px f
  = reference (call_args images hidActs c) (getDevData images) (getDevData hidActs)
              om cc px f.
Proof.
  intros WF HC Himg Hv.
  destruct (host_facts _ _ _ _ WF HC)
    as [HG [HnF0 [_ [_ [EnF [_ [Hout [HnI _]]]]]]]].
  destruct HC as [Hg Hcol Hm H598 H599 H600 H601 H602 H603 H608 H609 H612 H613 H615
                  H617 H618 H619 H621 H622 H648 H661].
  set (a := call_args images hidActs c) in *.
  destruct Hv as [Hom [Hcc [Hpx Hf]]].
  assert (HnFPG : 0 < k_numFiltersPerGroup a).
  { clear - EnF HG Hf. nia. }
  assert (EnIC : a_numImgColors a = a_numGroups a * k_numFilterColors a).
  { unfold k_numFilterColors.
    pose proof (Z.quot_rem' (a_numImgColors a) (a_numGroups a)) as Q.
    change (a_numImgColors a) with (c_numImgColors c) in *.
    change (a_numGroups a) with (c_numGroups c) in *.
    rewrite H598, Z.add_0_r in Q. exact Q. }
  unfold reference. apply zsum_ext. intros m _.
  unfold module_gradient. apply zsum_ext. intros i Hi. apply in_for_range1 in Hi.
  f_equal.
  unfold image_at.
  destruct (in_image a (pixel_y a m px) (pixel_x a m px)) eqn:Ein; [|reflexivity].
  unfold in_image in Ein.
  apply andb_prop in Ein. destruct Ein as [Ein E4].
  apply andb_prop in Ein. destruct Ein as [Ein E3].
  apply andb_prop in Ein. destruct Ein as [E1 E2].
  apply Z.geb_le in E1, E3. apply Z.ltb_lt in E2, E4.
  apply Himg; [|split; assumption|split; assumption|exact Hi].
  unfold image_color.
  assert (Hq : 0 <= f ÷ k_numFiltersPerGroup a < a_numGroups a).
  { split; [apply Z.quot_pos; lia|].
    apply Z.quot_lt_upper_bound; [lia|lia|].
    rewrite Z.mul_comm, <- EnF. apply Hf. }
  set (q := f ÷ k_numFiltersPerGroup a) in *. clearbody q.
  rewrite EnIC. clear - Hq Hcc. nia.
Qed.

(** C4: in a call that passes the checks, an image position that falls
    outside the image (a coordinate below 0 or not below [imgSize]) counts as
    zero, whatever the memory holds.  An entry whose filter pixel every
    folded module maps outside the image receives no contribution, for every
    filter and whatever the images are: it keeps [scaleTargets] times its old
    value.  In every entry, only the folded modules that map its filter pixel
    inside the image contribute.  The result depends on the buffer of the
    images only through the pixels of the image, in the colours of the image
    and the images of the batch: changing any other cell of the buffer does
    not change it.  And no cell of the buffer of [targets] other than an
    entry, whose filter pixel is below [filterPixels], is written. *)
Theorem zero_padding (u : Z -> Z -> uninit)
        (images hidActs targets : NVMatrix) (c : call) (l : launch) :
  well_formed images hidActs c ->
  conv_host images hidActs targets c = Done l ->
  let a := call_args images hidActs c in
  exists t',
    conv u images hidActs targets c = Done t'
    /\ (forall om cc px f,
          valid_entry a om cc px f ->
          (forall m, om * a_modulesPerBlock a <= m
                     < om * a_modulesPerBlock a + a_modulesPerBlock a ->
                     in_image a (pixel_y a m px) (pixel_x a m px) = false) ->
          getDevData t' (target_index a om cc px f)
          = c_scaleTargets c * getDevData targets (target_index a om cc px f))
    /\ (forall om cc px f,
          valid_entry a om cc px f ->
          getDevData t' (target_index a om cc px f)
          = c_scaleTargets c * getDevData targets (target_index a om cc px f)
            + c_scaleOutput c
              * zsum (for_range (om * a_modulesPerBlock a)
                                (om * a_modulesPerBlock a + a_modulesPerBlock a) 1)
                     (fun m =>
                        if in_image a (pixel_y a m px) (pixel_x a m px)
                        then module_gradient a (getDevData images)
                                             (getDevData hidActs) m cc px f
                        else 0))
    /\ (forall images',
          getNumRows images' = getNumRows images ->
          getNumCols images' = getNumCols images ->
          getStride images' = getStride images ->
          isTrans images' = isTrans images ->
          (forall color y x i,
             0 <= color < a_numImgColors a ->
             0 <= y < a_imgSize a -> 0 <= x < a_imgSize a ->
             0 <= i < a_numImages a ->
             getDevData images'
               ((color * k_imgPixels a + (y * a_imgSize a + x)) * a_imgStride a + i)
             = getDevData images
                 ((color * k_imgPixels a + (y * a_imgSize a + x)) * a_imgStride a + i)) ->
          exists t'',
            conv u images' hidActs targets c = Done t''
            /\ forall om cc px f, valid_entry a om cc px f ->
                 getDevData t'' (target_index a om cc px f)
                 = getDevData t' (target_index a om cc px f))
    /\ (forall ad,
          (forall om cc px f,
             valid_entry a om cc px f -> 0 <= px < k_filterPixels a
             -> target_index a om cc px f <> ad) ->
          getDevData t' ad = getDevData targets ad).
Proof.
  intros WF HD a.
  destruct (conv_host_inv _ _ _ _ _ HD) as [HC _].
  destruct (conv_correct u _ _ _ _ _ WF HD) as [t' [Et [_ [_ [_ [_ [Hin Hout]]]]]]].
  exists t'. split; [exact Et|]. split; [|split; [|split]].
  - intros om cc px f Hv Hpad. unfold a. rewrite (Hin om cc px f Hv).
    rewrite reference_zero by exact Hpad. ring.
  - intros om cc px f Hv. unfold a. rewrite (Hin om cc px f Hv).
    f_equal. f_equal. unfold reference. apply zsum_ext. intros m _.
    destruct (in_image (call_args images hidActs c)
                (pixel_y (call_args images hidActs c) m px)
                (pixel_x (call_args images hidActs c) m px)) eqn:Ein;
      [reflexivity|].
    apply module_gradient_outside. exact Ein.
  - intros images' Er Ec Es Etr Hagree.
    destruct (conv_host_images images images' hidActs targets c Er Ec Es Etr)
      as [Eh Ea].
    assert (WF' : well_formed images' hidActs c).
    { destruct WF as [W1 W2]. split; [rewrite Ec; exact W1|exact W2]. }
    assert (HD' : conv_host images' hidActs targets c = Done l)
      by (rewrite Eh; exact HD).
    destruct (conv_correct u _ _ _ _ _ WF' HD')
      as [t'' [Et' [_ [_ [_ [_ [Hin' _]]]]]]].
    exists t''. split; [exact Et'|].
    intros om cc px f Hv. unfold a.
    rewrite (Hin om cc px f Hv). rewrite <- Ea.
    rewrite (Hin' om cc px f) by (rewrite Ea; exact Hv).
    f_equal. f_equal. rewrite Ea.
    apply (reference_inside_image images hidActs targets c (getDevData images')
             om cc px f WF HC Hagree Hv).
  - intros ad Hnot. apply Hout. intros om cc px f Hv.
    apply Hnot; [exact Hv|]. destruct Hv as [_ [_ [Hpx _]]]. exact Hpx.
Qed.

Lemma zero_padding_witness :
  exists t' t'',
    conv ex_uninit pad_images pad_hidActs ex_targets pad_call = Done t'
    /\ getDevData t' (target_index (call_args pad_images pad_hidActs pad_call)
                                   0 0 0 0) = 0
    /\ conv ex_uninit pad_dirty pad_hidActs ex_targets pad_call = Done t''
    /\ getDevData t'' (target_index (call_args pad_images pad_hidActs pad_call)
                                    0 0 4 0)
       = getDevData t' (target_index (call_args pad_images pad_hidActs pad_call)
                                     0 0 4 0).
Proof.
  destruct (zero_padding ex_uninit pad_images pad_hidActs ex_targets pad_call
              (decided (conv_host pad_images pad_hidActs ex_targets pad_call)))
    as [t' [Et [Hzero [_ [Hmem _]]]]].
  - unfold well_formed. cbn. lia.
  - vm_compute. reflexivity.
  - destruct (Hmem pad_dirty) as [t'' [Et'' Hsame]];
      [reflexivity|reflexivity|reflexivity|reflexivity| |].
    + intros color y x i Hc Hy Hx Hi.
      change (a_numImgColors (call_args pad_images pad_hidActs pad_call)) with 1 in Hc.
      change (a_imgSize (call_args pad_images pad_hidActs pad_call)) with 1 in Hy, Hx.
      change (a_numImages (call_args pad_images pad_hidActs pad_call)) with 2 in Hi.
      assert (E0 : color = 0) by lia. assert (E1 : y = 0) by lia.
      assert (E2 : x = 0) by lia.
      assert (E3 : i = 0 \/ i = 1) by lia.
      subst color y x. destruct E3 as [-> | ->]; reflexivity.
    + exists t', t''. split; [exact Et|]. split; [|split; [exact Et''|]].
      * rewrite (Hzero 0 0 0 0).
        -- reflexivity.
        -- vm_compute. repeat split; discriminate.
        -- intros m Hm.
           change (a_modulesPerBlock (call_args pad_images pad_hidActs pad_call))
             with 1 in Hm.
           assert (E : m = 0) by lia. subst m. reflexivity.
      * apply Hsame. vm_compute. repeat split; discriminate.
Defined.

(** The checks of a call, for other scales and another [targets] of the
    shape the call requires. *)
Lemma host_checks_scales (images hidActs targets targets' : NVMatrix) (c : call)
      (st so : Z) :
  host_checks images hidActs targets c ->
  isTrans targets' = false -> isContiguous targets' = true ->
  getNumRows targets' = targets_rows (call_args images hidActs c) ->
  getNumCols targets' = a_numFilters (call_args images hidActs c) ->
  host_checks images hidActs targets' (with_scales c st so).
Proof.
  intros HC Ht Hc Hr Hn.
  destruct HC as [Hg Hcol Hm H598 H599 H600 H601 H602 H603 H608 H609 H612 H613 H615
                  H617 H618 H619 H621 H622 H648 H661].
  constructor; try assumption.
  intros _. split; assumption.
Qed.

(** C5: overwriting ([scaleTargets = 0], [scaleOutput = 1]) and then
    accumulating ([scaleTargets = 1], [scaleOutput = 1]) into the result, on
    the same images and hidden activations, returns the target that a single
    call with [scaleTargets = 0], [scaleOutput = 2] returns on a zeroed
    target of the shape: the same shape and the same elements. *)
Theorem accumulate_is_linear (u1 u2 u3 : Z -> Z -> uninit)
        (images hidActs targets zero : NVMatrix) (c : call) (l : launch) :
  well_formed images hidActs c ->
  conv_host images hidActs targets (with_scales c 0 1) = Done l ->
  let a := call_args images hidActs c in
  isTrans zero = false -> isContiguous zero = true ->
  getNumRows zero = targets_rows a -> getNumCols zero = a_numFilters a ->
  (forall ad, getDevData zero ad = 0) ->
  exists t1 t2 t3,
    conv u1 images hidActs targets (with_scales c 0 1) = Done t1
    /\ conv u2 images hidActs t1 (with_scales c 1 1) = Done t2
    /\ conv u3 images hidActs zero (with_scales c 0 2) = Done t3
    /\ getNumRows t2 = getNumRows t3 /\ getNumCols t2 = getNumCols t3
    /\ forall r f, 0 <= r < getNumRows t2 -> 0 <= f < getNumCols t2 ->
         getDevData t2 (r * getNumCols t2 + f) = getDevData t3 (r * getNumCols t3 + f).
Proof.
  intros WF HD1 a Zt Zc Zr Zn Zd.
  assert (WF' : forall st so, well_formed images hidActs (with_scales c st so))
    by (intros st so; exact WF).
  destruct (conv_correct u1 _ _ _ _ _ (WF' 0 1) HD1)
    as [t1 [Et1 [Hr1 [Hc1 [Htr1 [Hct1 [Hin1 _]]]]]]].
  destruct (conv_host_inv _ _ _ _ _ HD1) as [HC1 _].
  destruct (host_facts _ _ _ _ (WF' 0 1) HC1) as [_ [_ [_ [_ [_ [_ [Hout _]]]]]]].
  destruct (conv_host_complete images hidActs t1 (with_scales c 1 1)) as [l2 HD2].
  { apply (host_checks_scales images hidActs targets t1 (with_scales c 0 1) 1 1);
      assumption. }
  destruct (conv_host_complete images hidActs zero (with_scales c 0 2)) as [l3 HD3].
  { apply (host_checks_scales images hidActs targets zero (with_scales c 0 1) 0 2);
      assumption. }
  destruct (conv_correct u2 _ _ _ _ _ (WF' 1 1) HD2)
    as [t2 [Et2 [Hr2 [Hc2 [_ [_ [Hin2 _]]]]]]].
  destruct (conv_correct u3 _ _ _ _ _ (WF' 0 2) HD3)
    as [t3 [Et3 [Hr3 [Hc3 [_ [_ [Hin3 _]]]]]]].
  exists t1, t2, t3. split; [exact Et1|]. split; [exact Et2|]. split; [exact Et3|].
  assert (Hr2' : getNumRows t2 = targets_rows a) by exact Hr2.
  assert (Hr3' : getNumRows t3 = targets_rows a) by exact Hr3.
  assert (Hc2' : getNumCols t2 = a_numFilters a) by exact Hc2.
  assert (Hc3' : getNumCols t3 = a_numFilters a) by exact Hc3.
  split; [rewrite Hr2', Hr3'; reflexivity|].
  split; [rewrite Hc2', Hc3'; reflexivity|].
  intros r f Hr Hf. rewrite Hc2', Hc3'. rewrite Hr2' in Hr. rewrite Hc2' in Hf.
  destruct (entry_decode a r f Hout Hr Hf) as [om [cc [px [Hv Ei]]]].
  assert (V1 : getDevData t1 (target_index a om cc px f)
               = 0 * getDevData targets (target_index a om cc px f)
                 + 1 * reference a (getDevData images) (getDevData hidActs) om cc px f)
    by exact (Hin1 om cc px f Hv).
  assert (V2 : getDevData t2 (target_index a om cc px f)
               = 1 * getDevData t1 (target_index a om cc px f)
                 + 1 * reference a (getDevData images) (getDevData hidActs) om cc px f)
    by exact (Hin2 om cc px f Hv).
  assert (V3 : getDevData t3 (target_index a om cc px f)
               = 0 * getDevData zero (target_index a om cc px f)
                 + 2 * reference a (getDevData images) (getDevData hidActs) om cc px f)
    by exact (Hin3 om cc px f Hv).
  rewrite <- Ei, V2, V3, V1, Zd. ring.
Qed.

Lemma accumulate_is_linear_witness :
  exists t1 t2 t3,
    conv ex_uninit ex_images ex_hidActs ex_targets (with_scales ex_call 0 1) = Done t1
    /\ conv ex_uninit ex_images ex_hidActs t1 (with_scales ex_call 1 1) = Done t2
    /\ conv ex_uninit ex_images ex_hidActs (ex_zero 1) (with_scales ex_call 0 2)
       = Done t3
    /\ getNumRows t2 = getNumRows t3.
Proof.
  destruct (accumulate_is_linear ex_uninit ex_uninit ex_uninit
              ex_images ex_hidActs ex_targets (ex_zero 1) ex_call
              (decided (conv_host ex_images ex_hidActs ex_targets
                                  (with_scales ex_call 0 1))))
    as [t1 [t2 [t3 [E1 [E2 [E3 [Er _]]]]]]].
  - unfold well_formed. cbn. lia.
  - vm_compute. reflexivity.
  - reflexivity.
  - reflexivity.
  - reflexivity.
  - reflexivity.
  - reflexivity.
  - exists t1, t2, t3. split; [exact E1|]. split; [exact E2|]. split; [exact E3|exact Er].
Defined.


(** The checks of a call that overwrites, for another fold count that
    divides the number of modules. *)
Lemma host_checks_moduleSum (images hidActs targets targets' : NVMatrix) (c : call)
      (k k' : Z) :
  call_noScale c = true ->
  host_checks images hidActs targets (with_moduleSum c k) ->
  isTrans targets' = false -> isContiguous targets' = true ->
  Z.rem (c_numModulesX c * c_numModulesX c) k' = 0 -> k' <> 0 ->
  host_checks images hidActs targets' (with_moduleSum c k').
Proof.
  intros Hns HC Ht Hct Hdiv Hk.
  destruct HC as [Hg Hcol Hm H598 H599 H600 H601 H602 H603 H608 H609 H612 H613 H615
                  H617 H618 H619 H621 H622 H648 H661].
  constructor; try assumption.
  - unfold k_numModules.
    cbn [call_args with_moduleSum a_numModulesX a_modulesPerBlock c_moduleSum
         c_numModulesX].
    destruct (Z.eqb_spec k' 0) as [E|_]; [contradiction|]. exact Hdiv.
  - intros Hs. change (call_noScale (with_moduleSum c k')) with (call_noScale c) in Hs.
    rewrite Hns in Hs. discriminate Hs.
Qed.

(** C6: for [k] dividing the number of modules, on a call that overwrites,
    the rows of the result with [moduleSum = k] summed over the
    [numModules / k] blocks of modules give, for every colour, filter pixel
    and filter, what the rows of the result with [moduleSum = 1] summed over
    all modules give; and [moduleSum = 0] is [moduleSum = numModules]. *)
Theorem moduleSum_folding (uk u1 : Z -> Z -> uninit)
        (images hidActs targets : NVMatrix) (c : call) (k : Z) (l1 : launch) :
  well_formed images hidActs c ->
  call_noScale c = true ->
  0 < k -> Z.rem (c_numModulesX c * c_numModulesX c) k = 0 ->
  conv_host images hidActs targets (with_moduleSum c 1) = Done l1 ->
  let ak := call_args images hidActs (with_moduleSum c k) in
  let a1 := call_args images hidActs (with_moduleSum c 1) in
  let numModules := c_numModulesX c * c_numModulesX c in
  (exists tk t1,
     conv uk images hidActs targets (with_moduleSum c k) = Done tk
     /\ conv u1 images hidActs targets (with_moduleSum c 1) = Done t1
     /\ forall cc px f,
          0 <= cc < k_numFilterColors a1 -> 0 <= px < k_filterPixels a1 ->
          0 <= f < a_numFilters a1 ->
          zsum (for_range 0 (numModules ÷ k) 1)
               (fun om => getDevData tk (target_index ak om cc px f))
          = zsum (for_range 0 numModules 1)
                 (fun m => getDevData t1 (target_index a1 m cc px f)))
  /\ forall u0 t0,
       conv u0 images hidActs t0 (with_moduleSum c 0)
       = conv u0 images hidActs t0 (with_moduleSum c numModules).
Proof.
  intros WF Hns Hk Hdiv HD1 ak a1 numModules.
  split; [|intros u0 t0; apply moduleSum_default].
  assert (WF1 : well_formed images hidActs (with_moduleSum c 1)).
  { destruct WF as [W1 [W2 [W3 W4]]]. repeat split; try assumption.
    cbn. discriminate. }
  assert (WFk : well_formed images hidActs (with_moduleSum c k)).
  { destruct WF as [W1 [W2 [W3 W4]]]. repeat split; try assumption.
    cbn [with_moduleSum c_moduleSum]. clear - Hk. lia. }
  destruct (conv_host_inv _ _ _ _ _ HD1) as [HC1 _].
  destruct (conv_host_complete images hidActs targets (with_moduleSum c k))
    as [lk HDk].
  { apply (host_checks_moduleSum images hidActs targets targets c 1 k);
      try assumption.
    - apply (hc_621 _ _ _ _ HC1).
    - apply (hc_622 _ _ _ _ HC1).
    - clear - Hk. lia. }
  destruct (conv_correct uk _ _ _ _ _ WFk HDk) as [tk [Etk [_ [_ [_ [_ [Hink _]]]]]]].
  destruct (conv_correct u1 _ _ _ _ _ WF1 HD1) as [t1 [Et1 [_ [_ [_ [_ [Hin1 _]]]]]]].
  exists tk, t1. split; [exact Etk|]. split; [exact Et1|].
  intros cc px f Hcc Hpx Hf.
  unfold call_noScale in Hns. apply andb_prop in Hns. destruct Hns as [E0 E1].
  apply Z.eqb_eq in E0, E1.
  assert (HnM : 0 <= numModules) by (unfold numModules; nia).
  assert (Eq : numModules ÷ k * k = numModules).
  { pose proof (Z.quot_rem' numModules k) as E. unfold numModules in *.
    rewrite Hdiv in E. clear - E. lia. }
  assert (Hq : 0 <= numModules ÷ k).
  { apply quot_nonneg; [assumption|clear - Hk; lia]. }
  assert (Empk : a_modulesPerBlock ak = k).
  { cbn. destruct (Z.eqb_spec k 0); [clear - Hk e; lia|reflexivity]. }
  assert (Eoutk : k_outputModules ak = numModules ÷ k).
  { unfold k_outputModules. rewrite Empk. reflexivity. }
  assert (Eout1 : k_outputModules a1 = numModules).
  { unfold k_outputModules.
    change (a_modulesPerBlock a1) with 1. apply Z.quot_1_r. }
  transitivity (zsum (for_range 0 (numModules ÷ k) 1)
                  (fun om => zsum (for_range (om * k) (om * k + k) 1)
                     (fun m => module_gradient a1 (getDevData images)
                                 (getDevData hidActs) m cc px f))).
  - apply zsum_ext. intros om Hom. apply in_for_range1 in Hom.
    assert (Hv : valid_entry ak om cc px f).
    { split; [rewrite Eoutk; exact Hom|]. split; [exact Hcc|].
      split; [exact Hpx|exact Hf]. }
    cbv beta. unfold ak. rewrite (Hink om cc px f Hv).
    cbn [with_moduleSum c_scaleTargets c_scaleOutput]. rewrite E0, E1.
    unfold reference. fold ak. rewrite Empk.
    change (module_gradient ak) with (module_gradient a1).
    ring.
  - rewrite <- (Z2Nat.id (numModules ÷ k)) by exact Hq.
    rewrite zsum_blocks by exact Hk.
    rewrite (Z2Nat.id (numModules ÷ k)) by exact Hq. rewrite Eq.
    apply zsum_ext. intros m Hm. apply in_for_range1 in Hm.
    assert (Hv : valid_entry a1 m cc px f).
    { split; [rewrite Eout1; exact Hm|]. split; [exact Hcc|].
      split; [exact Hpx|exact Hf]. }
    cbv beta. unfold a1. rewrite (Hin1 m cc px f Hv).
    cbn [with_moduleSum c_scaleTargets c_scaleOutput]. rewrite E0, E1.
    rewrite reference_unfolded by reflexivity. ring.
Qed.

Lemma moduleSum_folding_witness :
  exists tk t1,
    conv ex_uninit ex_images ex_hidActs ex_targets (with_moduleSum ex_call 2) = Done tk
    /\ conv ex_uninit ex_images ex_hidActs ex_targets (with_moduleSum ex_call 1)
       = Done t1.
Proof.
  destruct (moduleSum_folding ex_uninit ex_uninit ex_images ex_hidActs
              ex_targets ex_call 2
              (decided (conv_host ex_images ex_hidActs ex_targets
                                  (with_moduleSum ex_call 1))))
    as [[tk [t1 [Ek [E1 _]]]] _].
  - unfold well_formed. cbn. lia.
  - reflexivity.
  - lia.
  - reflexivity.
  - vm_compute. reflexivity.
  - exists tk, t1. split; [exact Ek|exact E1].
Defined.

(** C7: [convWeightActs] does not abort the call [partial_call], whose
    geometry violates the full-coverage inequality on the number of modules
    per side ([0 + (2 - 1) * 1 + 3 < 5]): line 612 compares with the squared
    count, [0 + (4 - 1) * 1 + 3 >= 5], and a kernel is launched. *)
Theorem partial_coverage_launched :
  full_coverage partial_images partial_hidActs partial_call = false
  /\ c_paddingStart partial_call <= 0
  /\ exists l k,
       conv_host partial_images partial_hidActs ex_targets partial_call = Done l
       /\ l_kernel l = Some k.
Proof.
  split; [reflexivity|]. split; [cbn; lia|].
  eexists. eexists. split; vm_compute; reflexivity.
Qed.




(** C9: a call whose [numFilters] is not a multiple of [16 * numGroups], or
    whose colour count is outside the accepted set (one group: 1, 2, 3 or a
    multiple of 4; several groups: a multiple of 4 per group), is aborted
    before any kernel is launched, also when it satisfies the invariants the
    specification lists. *)
Theorem rejected_outside_accepted_set (images hidActs targets : NVMatrix) (c : call) :
  accepted_filters images hidActs c && accepted_colors c = false ->
  aborted (conv_host images hidActs targets c)
  /\ forall u, aborted (conv u images hidActs targets c).
Proof.
  intros Hrej.
  assert (Hab : aborted (conv_host images hidActs targets c)).
  { destruct (conv_host images hidActs targets c) as [l| |] eqn:HD;
      cbn [aborted]; [|exact I|exact I].
    destruct (done_accepted _ _ _ _ _ HD) as [Hf Hc].
    rewrite Hf, Hc in Hrej. discriminate Hrej. }
  split; [exact Hab|]. intros u. apply conv_aborted. exact Hab.
Qed.

Lemma rejected_outside_accepted_set_witness :
  spec_invariants two_images two_hidActs ex_targets two_call
  /\ aborted (conv_host two_images two_hidActs ex_targets two_call).
Proof.
  split.
  - unfold spec_invariants. vm_compute.
    repeat split; try reflexivity; try discriminate.
  - destruct (rejected_outside_accepted_set two_images two_hidActs ex_targets
                two_call) as [H _]; [reflexivity|exact H].
Defined.

(** C10: the nine-argument [convWeightActs] is the full one with
    [scaleTargets = 0], [scaleOutput = 1] and [moduleSum = 0]; when the call
    passes the checks it returns [targets] resized to
    [numFilterColors * filterPixels] rows by [numFilters] columns, every
    element holding the gradient summed over all [numModulesX * numModulesX]
    modules. *)
Theorem default_call_sums_all_modules (u : Z -> Z -> uninit)
        (images hidActs targets : NVMatrix)
        (numModulesX filterSize paddingStart moduleStride numImgColors numGroups : Z) :
  let c := mkCall numModulesX filterSize paddingStart moduleStride numImgColors
                  numGroups 0 1 0 in
  let a := call_args images hidActs c in
  convWeightActs9 u images hidActs targets numModulesX filterSize paddingStart
                  moduleStride numImgColors numGroups
  = convWeightActs u images hidActs targets numModulesX filterSize paddingStart
                   moduleStride numImgColors numGroups 0 1 0
  /\ forall l,
       well_formed images hidActs c ->
       conv_host images hidActs targets c = Done l ->
       exists t',
         convWeightActs9 u images hidActs targets numModulesX filterSize
                         paddingStart moduleStride numImgColors numGroups = Done t'
         /\ getNumRows t' = k_numFilterColors a * k_filterPixels a
         /\ getNumCols t' = a_numFilters a
         /\ forall cc px f,
              0 <= cc < k_numFilterColors a -> 0 <= px < k_filterPixels a ->
              0 <= f < a_numFilters a ->
              getDevData t' ((cc * k_filterPixels a + px) * a_numFilters a + f)
              = zsum (for_range 0 (numModulesX * numModulesX) 1)
                     (fun m => module_gradient a (getDevData images)
                                 (getDevData hidActs) m cc px f).
Proof.
  intros c a. split; [reflexivity|].
  intros l WF HD.
  destruct (conv_correct u _ _ _ _ _ WF HD) as [t' [Et [Hr [Hc [_ [_ [Hin _]]]]]]].
  destruct (conv_host_inv _ _ _ _ _ HD) as [HC _].
  pose proof (hc_modules _ _ _ _ HC) as HnM. cbn [c c_numModulesX] in HnM.
  assert (Empb : a_modulesPerBlock a = numModulesX * numModulesX) by reflexivity.
  assert (Eout : k_outputModules a = 1).
  { unfold k_outputModules. rewrite Empb. apply Z.quot_same. exact HnM. }
  exists t'. split; [exact Et|].
  split.
  { assert (Hr' : getNumRows t' = targets_rows a) by exact Hr.
    rewrite Hr'. unfold targets_rows. rewrite Eout, Z.mul_1_l. reflexivity. }
  split; [exact Hc|].
  intros cc px f Hcc Hpx Hf.
  assert (Hv : valid_entry a 0 cc px f).
  { split; [rewrite Eout; lia|]. split; [exact Hcc|]. split; [exact Hpx|exact Hf]. }
  assert (E : getDevData t' (target_index a 0 cc px f)
              = 0 * getDevData targets (target_index a 0 cc px f)
                + 1 * reference a (getDevData images) (getDevData hidActs) 0 cc px f)
    by exact (Hin 0 cc px f Hv).
  unfold target_index in E. rewrite Z.mul_0_l, Z.add_0_l in E. rewrite E.
  unfold reference. rewrite Empb, !Z.mul_0_l, !Z.add_0_l, Z.mul_1_l. reflexivity.
Qed.

Lemma default_call_sums_all_modules_witness :
  exists t',
    convWeightActs9 ex_uninit ex_images ex_hidActs ex_targets 2 1 0 1 1 1 = Done t'
    /\ getNumRows t' = 1 /\ getNumCols t' = 16.
Proof.
  destruct (default_call_sums_all_modules ex_uninit ex_images ex_hidActs ex_targets
              2 1 0 1 1 1) as [_ H].
  destruct (H (decided (conv_host ex_images ex_hidActs ex_targets ex_call)))
    as [t' [Et [Hr [Hc _]]]].
  - unfold well_formed. cbn. lia.
  - vm_compute. reflexivity.
  - exists t'. split; [exact Et|]. split; [exact Hr|exact Hc].
Defined.

(** * Propagation by counters on an acyclic graph *)

Close Scope Z_scope.
Open Scope nat_scope.

Lemma count_sent_cons (sent : nat -> list nat) (l : nat) (ls : list nat) (s : nat) :
  count_sent sent (l :: ls) s
  = count_occ Nat.eq_dec (sent l) s + count_sent sent ls s.
Proof. reflexivity. Qed.

Lemma count_sent_app (sent : nat -> list nat) (l1 l2 : list nat) (s : nat) :
  count_sent sent (l1 ++ l2) s = count_sent sent l1 s + count_sent sent l2 s.
Proof.
  unfold count_sent. rewrite map_app, list_sum_app. reflexivity.
Qed.

Lemma count_sent_ext (sent sent' : nat -> list nat) (ls : list nat) (s : nat) :
  (forall l, In l ls -> sent l = sent' l) ->
  count_sent sent ls s = count_sent sent' ls s.
Proof.
  induction ls as [|a ls IH]; intros H; [reflexivity|].
  rewrite !count_sent_cons, (H a (or_introl eq_refl)), IH; [reflexivity|].
  intros l Hl. apply H. right. exact Hl.
Qed.

Lemma count_sent_le (sent sent' : nat -> list nat) (ls : list nat) (s : nat) :
  (forall l, In l ls ->
             count_occ Nat.eq_dec (sent l) s <= count_occ Nat.eq_dec (sent' l) s) ->
  count_sent sent ls s <= count_sent sent' ls s.
Proof.
  induction ls as [|a ls IH]; intros H; [apply Nat.le_refl|].
  rewrite !count_sent_cons.
  pose proof (H a (or_introl eq_refl)).
  assert (count_sent sent ls s <= count_sent sent' ls s).
  { apply IH. intros l Hl. apply H. right. exact Hl. }
  lia.
Qed.

Lemma set_sent_same (sent : nat -> list nat) (l : nat) (v : list nat) :
  set_sent sent l v l = v.
Proof. unfold set_sent. rewrite Nat.eqb_refl. reflexivity. Qed.

Lemma set_sent_other (sent : nat -> list nat) (l x : nat) (v : list nat) :
  x <> l -> set_sent sent l v x = sent x.
Proof.
  intros H. unfold set_sent. destruct (Nat.eqb_spec x l); [contradiction|reflexivity].
Qed.

Lemma count_sent_set_notin (sent : nat -> list nat) (l : nat) (v ls : list nat)
      (s : nat) :
  ~ In l ls -> count_sent (set_sent sent l v) ls s = count_sent sent ls s.
Proof.
  intros H. apply count_sent_ext. intros x Hx. apply set_sent_other.
  intros ->. contradiction.
Qed.

(** One more delivery by [l], which is in the list once. *)
Lemma count_sent_snoc (sent : nat -> list nat) (l s : nat) (ls : list nat) (x : nat) :
  NoDup ls -> In l ls ->
  count_sent (set_sent sent l (sent l ++ [s])) ls x
  = count_sent sent ls x + (if x =? s then 1 else 0).
Proof.
  induction ls as [|a ls IH]; intros Hnd Hin; [destruct Hin|].
  inversion Hnd as [|a' ls' Hna Hnd']; subst.
  rewrite !count_sent_cons.
  destruct (Nat.eq_dec a l) as [->|Hal].
  - rewrite set_sent_same, count_sent_set_notin by assumption.
    rewrite count_occ_app. cbn [count_occ].
    destruct (Nat.eq_dec s x) as [->|Hsx].
    + rewrite Nat.eqb_refl. lia.
    + destruct (Nat.eqb_spec x s); [congruence|lia].
  - rewrite set_sent_other by assumption.
    destruct Hin as [Hin|Hin]; [contradiction|].
    rewrite IH by assumption. lia.
Qed.

(** A list without duplicates inside another one sends no more. *)
Lemma count_sent_incl (sent : nat -> list nat) (l1 l2 : list nat) (s : nat) :
  NoDup l1 -> incl l1 l2 -> count_sent sent l1 s <= count_sent sent l2 s.
Proof.
  revert l2. induction l1 as [|a l1 IH]; intros l2 Hnd Hincl.
  - cbn. lia.
  - inversion Hnd as [|a' l1' Hna Hnd']; subst.
    destruct (in_split a l2 (Hincl a (or_introl eq_refl))) as [u [v ->]].
    rewrite count_sent_cons, count_sent_app, count_sent_cons.
    assert (H : count_sent sent l1 s <= count_sent sent (u ++ v) s).
    { apply IH; [assumption|]. intros x Hx.
      assert (Hx2 : In x (u ++ a :: v)) by (apply Hincl; right; exact Hx).
      apply in_app_or in Hx2. apply in_or_app.
      destruct Hx2 as [Hx2|[Hx2|Hx2]]; [left; assumption| |right; assumption].
      subst x. contradiction. }
    rewrite count_sent_app in H. lia.
Qed.

Lemma prefix_count (full part rest : list nat) (s : nat) :
  full = part ++ rest ->
  count_occ Nat.eq_dec part s <= count_occ Nat.eq_dec full s.
Proof. intros ->. rewrite count_occ_app. lia. Qed.

Lemma ran_before_later (log : list nat) (x l s : nat) :
  ran_before log l s -> ran_before (x :: log) l s.
Proof.
  intros [later [earlier [E Hin]]]. exists (x :: later), earlier.
  split; [rewrite E; reflexivity|exact Hin].
Qed.

Section Dispatch.

Variables (out : nat -> list nat) (need : nat -> nat).
Variables (nodes seeds : list nat) (depth : nat -> nat).

Hypothesis out_nodes : forall l s, In l nodes -> In s (out l) -> In s nodes.
Hypothesis out_depth : forall l s, In l nodes -> In s (out l) -> depth s < depth l.
Hypothesis need_all : forall s, In s nodes -> count_sent out nodes s <= need s.
Hypothesis seeds_nodes : incl seeds nodes.
Hypothesis seeds_first : forall l s, In l nodes -> In s (out l) -> ~ In s seeds.

Lemma inv_reset : pass_inv out need nodes seeds (fun _ => []) [] [] reset.
Proof.
  unfold pass_inv, reset. cbn [ran rcvd].
  split; [constructor|]. split; [intros x []|]. split; [intros x []|].
  split; [reflexivity|]. split; [intros l []|]. split; [intros l []|].
  split; [intros s []|]. split; [intros s H1 H2; lia|].
  intros l s _ _ [].
Qed.

(** A layer that has notified all of [out l] leaves its loop. *)
Lemma inv_close (sent : nat -> list nat) (l : nat) (open pending : list nat)
      (st : counters) :
  pass_inv out need nodes seeds sent (l :: open) pending st ->
  sent l = out l ->
  pass_inv out need nodes seeds sent open pending st.
Proof.
  intros [I1 [I2 [I3 [I4 [I5 [I6 [I7 [I8 I9]]]]]]]] E.
  repeat (split; [assumption|]).
  split; [intros x Hx; apply I3; right; exact Hx|].
  split; [assumption|]. split; [assumption|].
  split.
  { intros x Hx Hno. destruct (Nat.eq_dec x l) as [->|Hxl]; [exact E|].
    apply I6; [assumption|]. intros [H|H]; [congruence|contradiction]. }
  repeat (split; [assumption|]). assumption.
Qed.

(** The counter of [s] counts one more delivery, by [l]. *)
Lemma inv_receive (sent : nat -> list nat) (l s : nat) (rest open : list nat)
      (st : counters) :
  pass_inv out need nodes seeds sent (l :: open) [] st ->
  out l = sent l ++ s :: rest ->
  pass_inv out need nodes seeds (set_sent sent l (sent l ++ [s])) (l :: open)
           (if S (rcvd st s) =? need s then [s] else []) (receive s st).
Proof.
  intros [I1 [I2 [I3 [I4 [I5 [I6 [I7 [I8 I9]]]]]]]] E.
  assert (Hl : In l (ran st)) by (apply I3; left; reflexivity).
  unfold pass_inv, receive. cbn [ran rcvd].
  split; [assumption|]. split; [assumption|]. split; [assumption|].
  split.
  { intros x. rewrite count_sent_snoc by assumption. rewrite I4.
    destruct (x =? s); lia. }
  split.
  { intros x Hx. destruct (Nat.eq_dec x l) as [->|Hxl].
    - rewrite set_sent_same. exists rest. rewrite E, <- app_assoc. reflexivity.
    - rewrite set_sent_other by assumption. apply I5. exact Hx. }
  split.
  { intros x Hx Hno. rewrite set_sent_other.
    - apply I6; assumption.
    - intros ->. apply Hno. left. reflexivity. }
  split.
  { intros x Hx Hns. destruct (I7 x Hx Hns) as [H1 H2].
    destruct (x =? s); lia. }
  split.
  { intros x Hpos Hle. destruct (Nat.eqb_spec x s) as [->|Hxs].
    - destruct (Nat.eqb_spec (S (rcvd st s)) (need s)) as [Eg|Ng].
      + right. left. reflexivity.
      + left. destruct (I8 s Hpos ltac:(lia)) as [H|[]]. exact H.
    - destruct (I8 x Hpos Hle) as [H|[]]. left. exact H. }
  assumption.
Qed.

(** A layer runs: it is a seed, or its counter has reached its count after all the
    layers that notify it have run. *)
Lemma inv_executed (sent : nat -> list nat) (s : nat) (open pending : list nat)
      (st : counters) :
  pass_inv out need nodes seeds sent open pending st ->
  incl pending [s] ->
  In s nodes -> ~ In s (ran st) ->
  (In s seeds \/ (1 <= rcvd st s /\ need s <= rcvd st s)) ->
  (forall l, In l nodes -> In s (out l) -> In l (ran st)) ->
  pass_inv out need nodes seeds (set_sent sent s []) (s :: open) []
           (executed s st).
Proof.
  intros [I1 [I2 [I3 [I4 [I5 [I6 [I7 [I8 I9]]]]]]]] Hp Hs Hnew Hready Hpre.
  unfold pass_inv, executed. cbn [ran rcvd].
  split; [constructor; assumption|].
  split.
  { intros x [<-|Hx]; [assumption|apply I2; assumption]. }
  split.
  { intros x [<-|Hx]; [left; reflexivity|right; apply I3; assumption]. }
  split.
  { intros x. rewrite count_sent_cons, set_sent_same. cbn [count_occ].
    rewrite count_sent_set_notin by assumption. apply I4. }
  split.
  { intros x [<-|Hx].
    - rewrite set_sent_same. exists (out s). reflexivity.
    - rewrite set_sent_other by (intros ->; contradiction). apply I5. exact Hx. }
  split.
  { intros x [<-|Hx] Hno; [exfalso; apply Hno; left; reflexivity|].
    rewrite set_sent_other by (intros ->; contradiction).
    apply I6; [assumption|]. intros H. apply Hno. right. exact H. }
  split.
  { intros x [<-|Hx] Hns.
    - destruct Hready as [H|H]; [contradiction|exact H].
    - apply I7; assumption. }
  split.
  { intros x Hpos Hle. left. destruct (I8 x Hpos Hle) as [H|H].
    - right. exact H.
    - destruct (Hp x H) as [<-|[]]. left. reflexivity. }
  intros l x Hl Hx [<-|Hin].
  - exists [], (ran st). split; [reflexivity|]. apply Hpre; assumption.
  - apply ran_before_later. apply I9; assumption.
Qed.

(** When the counter of [s] reaches its count, every layer that notifies [s] has
    run. *)
Lemma ready_after_all (sent : nat -> list nat) (s : nat) (open pending : list nat)
      (st : counters) :
  pass_inv out need nodes seeds sent open pending st ->
  In s nodes -> need s <= rcvd st s ->
  forall l, In l nodes -> In s (out l) -> In l (ran st).
Proof.
  intros [I1 [I2 [I3 [I4 [I5 [I6 [I7 [I8 I9]]]]]]]] Hs Hready l Hl Hout.
  destruct (in_dec Nat.eq_dec l (ran st)) as [Hin|Hnot]; [exact Hin|exfalso].
  assert (H1 : count_sent sent (ran st) s <= count_sent out (ran st) s).
  { apply count_sent_le. intros x Hx. destruct (I5 x Hx) as [rest E].
    apply (prefix_count _ _ rest). exact E. }
  assert (H2 : count_sent out (l :: ran st) s <= count_sent out nodes s).
  { apply count_sent_incl; [constructor; assumption|].
    intros x [<-|Hx]; [assumption|apply I2; assumption]. }
  rewrite count_sent_cons in H2.
  assert (H3 : 1 <= count_occ Nat.eq_dec (out l) s).
  { apply (count_occ_In Nat.eq_dec). exact Hout. }
  pose proof (need_all s Hs) as H4. rewrite I4 in Hready. lia.
Qed.

(** One delivery by [l], which is in its loop. *)
Lemma deliver_ok (run_layer : nat -> counters -> option counters) (d : nat) :
  run_ok out need nodes seeds depth run_layer d ->
  forall l s rest st sent open,
    In l nodes -> depth s < d ->
    out l = sent l ++ s :: rest ->
    pass_inv out need nodes seeds sent (l :: open) [] st ->
    exists st' sent',
      deliver run_layer need (Some st) s = Some st'
      /\ pass_inv out need nodes seeds sent' (l :: open) [] st'
      /\ sent' l = sent l ++ [s]
      /\ (forall x, In x open -> x <> l -> sent' x = sent x)
      /\ incl (ran st) (ran st')
      /\ (forall x, In x (ran st') -> In x (ran st) \/ ~ In x seeds).
Proof.
  intros Hrun l s rest st sent open Hl Hd E Hinv.
  assert (Hout : In s (out l)).
  { rewrite E. apply in_or_app. right. left. reflexivity. }
  assert (Hs : In s nodes) by (apply (out_nodes l); assumption).
  assert (Hns : ~ In s seeds) by (apply (seeds_first l); assumption).
  pose proof (inv_receive sent l s rest open st Hinv E) as Hinv1.
  destruct Hinv as [I1 [I2 [I3 [I4 [I5 [I6 [I7 [I8 I9]]]]]]]].
  assert (Hlr : In l (ran st)) by (apply I3; left; reflexivity).
  unfold deliver. cbv zeta.
  assert (Er : rcvd (receive s st) s = S (rcvd st s)).
  { unfold receive. cbn [rcvd]. rewrite Nat.eqb_refl. reflexivity. }
  rewrite Er. revert Hinv1.
  destruct (Nat.eqb_spec (S (rcvd st s)) (need s)) as [Eg|Ng]; intros Hinv1.
  - assert (Hnew : ~ In s (ran st)).
    { intros Hin. destruct (I7 s Hin Hns) as [_ H]. lia. }
    assert (Hsl : s <> l) by (intros ->; contradiction).
    assert (Hinv2 : pass_inv out need nodes seeds
                      (set_sent (set_sent sent l (sent l ++ [s])) s [])
                      (s :: l :: open) [] (executed s (receive s st))).
    { apply (inv_executed (set_sent sent l (sent l ++ [s])) s (l :: open) [s]);
        try assumption.
      - intros x Hx. exact Hx.
      - right. rewrite Er. lia.
      - apply (ready_after_all (set_sent sent l (sent l ++ [s])) s (l :: open) [s]);
          [assumption|assumption|].
        rewrite Er. lia. }
    destruct (Hrun s (receive s st) _ (l :: open) Hd Hs Hinv2 (set_sent_same _ _ _))
      as [st' [sent' [Erun [Hinv' [Hframe [Hincl Hnewer]]]]]].
    exists st', sent'. split; [exact Erun|]. split; [exact Hinv'|].
    split.
    { rewrite (Hframe l (or_introl eq_refl)) by congruence.
      rewrite set_sent_other by congruence. apply set_sent_same. }
    split.
    { intros x Hx Hxl. rewrite (Hframe x (or_intror Hx)).
      - rewrite set_sent_other; [apply set_sent_other; assumption|].
        intros ->. apply Hnew. apply I3. right. exact Hx.
      - intros ->. apply Hnew. apply I3. right. exact Hx. }
    split.
    { intros x Hx. apply Hincl. right. exact Hx. }
    intros x Hx. destruct (Hnewer x Hx) as [[<-|H]|H].
    + right. exact Hns.
    + left. exact H.
    + right. exact H.
  - exists (receive s st), (set_sent sent l (sent l ++ [s])).
    split; [reflexivity|]. split; [exact Hinv1|].
    split; [apply set_sent_same|].
    split; [intros x _ Hxl; apply set_sent_other; assumption|].
    split; [intros x Hx; exact Hx|].
    intros x Hx. left. exact Hx.
Qed.

(** The loop of [l] over the layers it has still to notify. *)
Lemma loop_ok (run_layer : nat -> counters -> option counters) (d : nat) :
  run_ok out need nodes seeds depth run_layer d ->
  forall rest l st sent open,
    In l nodes -> (forall s, In s rest -> depth s < d) ->
    out l = sent l ++ rest ->
    pass_inv out need nodes seeds sent (l :: open) [] st ->
    exists st' sent',
      fold_left (deliver run_layer need) rest (Some st) = Some st'
      /\ pass_inv out need nodes seeds sent' (l :: open) [] st'
      /\ sent' l = out l
      /\ (forall x, In x open -> x <> l -> sent' x = sent x)
      /\ incl (ran st) (ran st')
      /\ (forall x, In x (ran st') -> In x (ran st) \/ ~ In x seeds).
Proof.
  intros Hrun rest. induction rest as [|s rest IH]; intros l st sent open Hl Hd E Hinv.
  - exists st, sent. split; [reflexivity|]. split; [exact Hinv|].
    split; [rewrite E, app_nil_r; reflexivity|].
    split; [reflexivity|]. split; [intros x Hx; exact Hx|].
    intros x Hx. left. exact Hx.
  - destruct (deliver_ok run_layer d Hrun l s rest st sent open Hl
                (Hd s (or_introl eq_refl)) E Hinv)
      as [st1 [sent1 [E1 [Hinv1 [Hs1 [Hf1 [Hi1 Hn1]]]]]]].
    destruct (IH l st1 sent1 open Hl (fun x Hx => Hd x (or_intror Hx))
                ltac:(rewrite Hs1, <- app_assoc; exact E) Hinv1)
      as [st2 [sent2 [E2 [Hinv2 [Hs2 [Hf2 [Hi2 Hn2]]]]]]].
    exists st2, sent2. cbn [fold_left]. rewrite E1.
    split; [exact E2|]. split; [exact Hinv2|]. split; [exact Hs2|].
    split.
    { intros x Hx Hxl. rewrite (Hf2 x Hx Hxl). apply Hf1; assumption. }
    split.
    { intros x Hx. apply Hi2, Hi1. exact Hx. }
    intros x Hx. destruct (Hn2 x Hx) as [H|H]; [|right; exact H].
    apply Hn1. exact H.
Qed.

(** Running a layer returns when the fuel exceeds its depth. *)
Lemma run_spec (fuel : nat) :
  run_ok out need nodes seeds depth (run out need fuel) fuel.
Proof.
  induction fuel as [|fuel IH]; intros s st sent open Hd Hs Hinv Hsent; [lia|].
  cbn [run].
  destruct (loop_ok (run out need fuel) fuel IH (out s) s (executed s st) sent open Hs)
    as [st' [sent' [E [Hinv' [Hs' [Hf [Hi Hn]]]]]]].
  - intros c Hc. pose proof (out_depth s c Hs Hc). lia.
  - rewrite Hsent. reflexivity.
  - exact Hinv.
  - exists st', sent'. split; [exact E|].
    split; [apply (inv_close sent' s); assumption|].
    split; [exact Hf|]. split; [exact Hi|exact Hn].
Qed.

(** The calls of the graph on the layers that start the pass. *)
Lemma seeds_ok (fuel : nat) :
  (forall l, In l nodes -> depth l < fuel) ->
  forall ss st sent,
    NoDup ss -> incl ss seeds ->
    (forall x, In x ss -> ~ In x (ran st)) ->
    pass_inv out need nodes seeds sent [] [] st ->
    exists st' sent',
      fold_left (fun acc l => match acc with
                              | None => None
                              | Some st => run out need fuel l st
                              end) ss (Some st) = Some st'
      /\ pass_inv out need nodes seeds sent' [] [] st'
      /\ incl (ran st) (ran st') /\ incl ss (ran st').
Proof.
  intros Hfuel ss. induction ss as [|a ss IH]; intros st sent Hnd Hincl Hfresh Hinv.
  - exists st, sent. split; [reflexivity|]. split; [exact Hinv|].
    split; intros x Hx; [exact Hx|destruct Hx].
  - inversion Hnd as [|a' ss' Hna Hnd']; subst.
    assert (Ha : In a seeds) by (apply Hincl; left; reflexivity).
    assert (Han : In a nodes) by (apply seeds_nodes; exact Ha).
    assert (Hinv1 : pass_inv out need nodes seeds (set_sent sent a []) [a] []
                      (executed a st)).
    { apply (inv_executed sent a [] []); try assumption.
      - intros x [].
      - apply Hfresh. left. reflexivity.
      - left. exact Ha.
      - intros l Hl Hout. exfalso. apply (seeds_first l a Hl Hout). exact Ha. }
    destruct (run_spec fuel a st _ [] (Hfuel a Han) Han Hinv1 (set_sent_same _ _ _))
      as [st1 [sent1 [E1 [Hinv1' [_ [Hi1 Hn1]]]]]].
    destruct (IH st1 sent1 Hnd' (fun x Hx => Hincl x (or_intror Hx))) as
      [st2 [sent2 [E2 [Hinv2 [Hi2 Hs2]]]]].
    + intros x Hx Hin. destruct (Hn1 x Hin) as [[<-|H]|H].
      * contradiction.
      * apply (Hfresh x (or_intror Hx)). exact H.
      * apply H. apply Hincl. right. exact Hx.
    + exact Hinv1'.
    + exists st2, sent2. cbn [fold_left]. rewrite E1.
      split; [exact E2|]. split; [exact Hinv2|].
      split.
      { intros x Hx. apply Hi2, Hi1. right. exact Hx. }
      intros x [<-|Hx]; [apply Hi2, Hi1; left; reflexivity|apply Hs2; exact Hx].
Qed.

(** Dropping the layers that do not notify [s] changes no count. *)
Lemma count_sent_notifiers (s : nat) (ls : list nat) :
  count_sent out ls s
  = count_sent out (filter (fun l => 0 <? count_occ Nat.eq_dec (out l) s) ls) s.
Proof.
  induction ls as [|a ls IH]; [reflexivity|].
  cbn [filter]. rewrite count_sent_cons, IH.
  destruct (Nat.ltb_spec 0 (count_occ Nat.eq_dec (out a) s)) as [H|H].
  - rewrite count_sent_cons. reflexivity.
  - lia.
Qed.

(** A pass returns; every layer runs at most once, after the layers that
    notify it; the layers that are reached run; a layer that nobody notifies
    runs only when the pass starts with it. *)
Lemma pass_correct (fuel : nat) :
  NoDup nodes -> NoDup seeds ->
  (forall l, In l nodes -> depth l < fuel) ->
  exists st,
    pass out need fuel seeds = Some st
    /\ NoDup (ran st)
    /\ incl (ran st) nodes
    /\ (forall l s, In l nodes -> In s (out l) -> In s (ran st) ->
                    ran_before (ran st) l s)
    /\ (forall s, reached out need nodes seeds s -> In s (ran st))
    /\ (forall s, In s (ran st) ->
                  In s seeds \/ (need s <= rcvd st s
                                 /\ 1 <= count_sent out nodes s))
    /\ (forall s, rcvd st s <= count_sent out nodes s).
Proof.
  intros Hnodes Hseeds Hfuel.
  destruct (seeds_ok fuel Hfuel seeds reset (fun _ => []) Hseeds
              (fun x Hx => Hx) (fun x _ H => H) inv_reset)
    as [st [sent [E [Hinv [_ Hs]]]]].
  exists st. split; [exact E|].
  destruct Hinv as [I1 [I2 [I3 [I4 [I5 [I6 [I7 [I8 I9]]]]]]]].
  split; [exact I1|]. split; [exact I2|]. split; [exact I9|].
  assert (Hfull : forall s, rcvd st s = count_sent out (ran st) s).
  { intros s. rewrite I4. apply count_sent_ext. intros l Hl.
    apply I6; [exact Hl|intros []]. }
  split; [|split].
  - intros s Hr. induction Hr as [s Hin|s Hs' Hpos Hneed _ IH].
    + apply Hs. exact Hin.
    + destruct (I8 s Hpos) as [H|[]]; [|exact H].
      rewrite Hfull, Hneed, (count_sent_notifiers s nodes).
      apply count_sent_incl.
      * apply NoDup_filter. exact Hnodes.
      * intros l Hl. apply filter_In in Hl. destruct Hl as [Hl Hc].
        apply IH; [exact Hl|]. apply Nat.ltb_lt in Hc.
        apply (count_occ_In Nat.eq_dec). exact Hc.
  - intros s Hin. destruct (in_dec Nat.eq_dec s seeds) as [Hseed|Hns];
      [left; exact Hseed|right].
    destruct (I7 s Hin Hns) as [H1 H2]. split; [exact H2|].
    rewrite Hfull in H1.
    pose proof (count_sent_incl out (ran st) nodes s I1 I2). lia.
  - intros s. rewrite Hfull. apply count_sent_incl; assumption.
Qed.

End Dispatch.

(** ** Forward and backward propagation on the layer graph *)

Lemma in_layers (g : net) (l : nat) : In l (layers g) <-> l < length g.
Proof. unfold layers. rewrite in_seq. lia. Qed.

Lemma layers_NoDup (g : net) : NoDup (layers g).
Proof. apply seq_NoDup. Qed.

Lemma count_occ_filter (f : nat -> bool) (L : list nat) (x : nat) :
  count_occ Nat.eq_dec (filter f L) x
  = if f x then count_occ Nat.eq_dec L x else 0.
Proof.
  induction L as [|a L IH]; cbn [filter count_occ]; [destruct (f x); reflexivity|].
  destruct (f a) eqn:Ea.
  - cbn [count_occ]. destruct (Nat.eq_dec a x) as [->|N].
    + rewrite Ea in *. rewrite IH. reflexivity.
    + exact IH.
  - destruct (Nat.eq_dec a x) as [->|N].
    + rewrite Ea in *. exact IH.
    + exact IH.
Qed.

(** Counting the elements of [L] position by position. *)
Lemma sum_count_occ (L ls : list nat) :
  NoDup ls -> incl L ls ->
  list_sum (map (fun l => count_occ Nat.eq_dec L l) ls) = length L.
Proof.
  intros Hnd. induction L as [|x L IH]; intros Hincl.
  - cbn [count_occ length]. clear. induction ls; cbn; auto.
  - assert (E : forall ks,
               list_sum (map (fun l => count_occ Nat.eq_dec (x :: L) l) ks)
               = count_occ Nat.eq_dec ks x
                 + list_sum (map (fun l => count_occ Nat.eq_dec L l) ks)).
    { induction ks as [|k ks IHk]; [reflexivity|].
      change (count_occ Nat.eq_dec (x :: L) k
              + list_sum (map (fun l => count_occ Nat.eq_dec (x :: L) l) ks)
              = count_occ Nat.eq_dec (k :: ks) x
                + (count_occ Nat.eq_dec L k
                   + list_sum (map (fun l => count_occ Nat.eq_dec L l) ks))).
      rewrite IHk. cbn [count_occ].
      destruct (Nat.eq_dec x k) as [->|N].
      - destruct (Nat.eq_dec k k); [lia|contradiction].
      - destruct (Nat.eq_dec k x); [congruence|lia]. }
    rewrite E, IH by (intros y Hy; apply Hincl; right; exact Hy).
    assert (Hx : In x ls) by (apply Hincl; left; reflexivity).
    rewrite (proj1 (NoDup_count_occ' Nat.eq_dec ls) Hnd x Hx). reflexivity.
Qed.

Lemma count_sent_pos (sent : nat -> list nat) (ls : list nat) (s : nat) :
  1 <= count_sent sent ls s -> exists l, In l ls /\ In s (sent l).
Proof.
  induction ls as [|a ls IH]; [cbn; lia|].
  rewrite count_sent_cons. intros H.
  destruct (Nat.eq_dec (count_occ Nat.eq_dec (sent a) s) 0) as [E|N].
  - destruct IH as [l [Hl Hs]]; [lia|]. exists l. split; [right; exact Hl|exact Hs].
  - exists a. split; [left; reflexivity|].
    apply (count_occ_In Nat.eq_dec). lia.
Qed.

Section Net.

Variables (g : net) (rank : nat -> nat).
Hypothesis WF : well_formed_net g.
Hypothesis DAG : acyclic g rank.

Lemma edge_next_prev (l s : nat) :
  l < length g -> s < length g ->
  In s (next (layer g l)) <-> In l (prev (layer g s)).
Proof.
  intros Hl Hs. destruct WF as [_ [_ [Hc _]]].
  rewrite (count_occ_In Nat.eq_dec), (count_occ_In Nat.eq_dec (prev (layer g s))).
  rewrite (Hc l s Hl Hs). reflexivity.
Qed.

Lemma prev_in (l p : nat) :
  l < length g -> In p (prev (layer g l)) ->
  p < length g /\ In l (next (layer g p)) /\ rank p < rank l.
Proof.
  intros Hl Hp. destruct WF as [_ [Hprev _]].
  assert (Hpn : p < length g) by (apply (Hprev l); assumption).
  assert (Hnext : In l (next (layer g p))) by (apply edge_next_prev; assumption).
  split; [exact Hpn|]. split; [exact Hnext|].
  apply (proj2 (DAG p Hpn)). exact Hnext.
Qed.

(** Forward: the deliveries to a layer are its predecessors. *)
Lemma fprop_count (s : nat) :
  s < length g ->
  count_sent (fprop_out g) (layers g) s = fprop_need g s.
Proof.
  intros Hs. unfold count_sent, fprop_out, fprop_need.
  rewrite <- (sum_count_occ (prev (layer g s)) (layers g)).
  - f_equal. apply map_ext_in. intros l Hl. apply in_layers in Hl.
    destruct WF as [_ [_ [Hc _]]]. apply Hc; assumption.
  - apply layers_NoDup.
  - intros p Hp. apply in_layers. apply (prev_in s p Hs Hp).
Qed.

Lemma fprop_reached_all (k s : nat) :
  rank s < k -> s < length g ->
  reached (fprop_out g) (fprop_need g) (layers g) (data_layers g) s.
Proof.
  revert s. induction k as [|k IH]; intros s Hr Hs; [lia|].
  destruct (is_data (kind (layer g s))) eqn:Ed.
  - apply reached_seed. apply filter_In. split; [apply in_layers; exact Hs|exact Ed].
  - apply reached_count.
    + apply in_layers. exact Hs.
    + unfold fprop_need. destruct WF as [_ [_ [_ [Hd _]]]].
      destruct (prev (layer g s)) eqn:Ep; [|cbn; lia].
      rewrite (proj2 (Hd s Hs) Ep) in Ed. discriminate Ed.
    + symmetry. apply fprop_count. exact Hs.
    + intros l Hl Hout. apply in_layers in Hl. apply IH; [|exact Hl].
      pose proof (proj2 (DAG l Hl) s Hout). lia.
Qed.

(** Backward: a layer is notified by its gradient-producing successors, when
    it is a gradient consumer. *)
Lemma in_bprop_out (l p : nat) :
  In p (bprop_out g l)
  <-> gradProducer (layer g l) = true /\ gradConsumer (layer g p) = true
      /\ In p (prev (layer g l)).
Proof.
  unfold bprop_out. destruct (gradProducer (layer g l)).
  - rewrite filter_In. tauto.
  - split; [intros []|intros [H _]; discriminate H].
Qed.

Lemma bprop_count (p : nat) :
  p < length g ->
  count_sent (bprop_out g) (layers g) p
  = if gradConsumer (layer g p) then bprop_need g p else 0.
Proof.
  intros Hp. unfold count_sent, bprop_need, numGradProducersNext.
  destruct (gradConsumer (layer g p)) eqn:Ec.
  - rewrite <- (sum_count_occ (filter (fun s => gradProducer (layer g s))
                                      (next (layer g p))) (layers g)).
    + f_equal. apply map_ext_in. intros s Hs. apply in_layers in Hs.
      rewrite count_occ_filter. unfold bprop_out.
      destruct (gradProducer (layer g s)); [|reflexivity].
      rewrite count_occ_filter, Ec.
      destruct WF as [_ [_ [Hc _]]]. symmetry. apply Hc; assumption.
    + apply layers_NoDup.
    + intros s Hs. apply filter_In in Hs. apply in_layers.
      destruct WF as [Hnext _]. apply (Hnext p); [exact Hp|apply Hs].
  - assert (E : forall ls, list_sum (map (fun l => count_occ Nat.eq_dec
                                                     (bprop_out g l) p) ls) = 0).
    { induction ls as [|a ls IH]; [reflexivity|].
      change (count_occ Nat.eq_dec (bprop_out g a) p
              + list_sum (map (fun l => count_occ Nat.eq_dec (bprop_out g l) p) ls)
              = 0).
      rewrite IH. unfold bprop_out.
      destruct (gradProducer (layer g a)); [|reflexivity].
      rewrite count_occ_filter, Ec. reflexivity. }
    apply E.
Qed.

Lemma bprop_reached_all (l : nat) :
  bprop_reached g l ->
  reached (bprop_out g) (bprop_need g) (layers g) (cost_layers g) l.
Proof.
  intros H. induction H as [l Hl Hc|p Hp Hc Hpos _ IH].
  - apply reached_seed. apply filter_In. split; [apply in_layers; exact Hl|exact Hc].
  - apply reached_count.
    + apply in_layers. exact Hp.
    + exact Hpos.
    + rewrite bprop_count, Hc by exact Hp. reflexivity.
    + intros s Hs Hout. apply in_layers in Hs.
      apply in_bprop_out in Hout. destruct Hout as [Hprod [_ Hin]].
      apply IH; [|exact Hprod]. apply edge_next_prev; assumption.
Qed.

(** The forward pass returns, and every layer has run once, its counter at
    the number of its predecessors, after all of them. *)
Lemma forward_pass_correct :
  exists st,
    forward_pass g = Some st
    /\ forall l, l < length g ->
         count_occ Nat.eq_dec (ran st) l = 1
         /\ rcvd st l = length (prev (layer g l))
         /\ forall p, In p (prev (layer g l)) -> ran_before (ran st) p l.
Proof.
  destruct (pass_correct (fprop_out g) (fprop_need g) (layers g) (data_layers g)
              (fun l => length g - rank l)) with (fuel := S (length g))
    as [st [E [Hnd [Hincl [Hord [Hreach [Hready Hle]]]]]]].
  - intros l s Hl Hs. apply in_layers. apply in_layers in Hl.
    destruct WF as [Hnext _]. apply (Hnext l); assumption.
  - intros l s Hl Hs. apply in_layers in Hl.
    pose proof (proj2 (DAG l Hl) s Hs).
    destruct WF as [Hnext _].
    pose proof (proj1 (DAG s (Hnext l s Hl Hs))). lia.
  - intros s Hs. apply in_layers in Hs. rewrite fprop_count by exact Hs. lia.
  - intros x Hx. apply filter_In in Hx. apply Hx.
  - intros l s Hl Hs Hseed. apply in_layers in Hl.
    apply filter_In in Hseed. destruct Hseed as [Hsn Hd]. apply in_layers in Hsn.
    destruct WF as [_ [_ [_ [Hdata _]]]].
    pose proof (proj1 (Hdata s Hsn) Hd) as Ep.
    apply (edge_next_prev l s Hl Hsn) in Hs. rewrite Ep in Hs. destruct Hs.
  - apply layers_NoDup.
  - apply NoDup_filter, layers_NoDup.
  - intros l _. lia.
  - exists st. split; [exact E|]. intros l Hl.
    assert (Hin : In l (ran st)).
    { apply Hreach. apply (fprop_reached_all (S (rank l))); [lia|exact Hl]. }
    split; [apply NoDup_count_occ'; assumption|].
    split.
    + pose proof (Hle l) as H1. rewrite fprop_count in H1 by exact Hl.
      unfold fprop_need in H1.
      destruct (Hready l Hin) as [Hseed|[H2 _]].
      * apply filter_In in Hseed. destruct Hseed as [_ Hd].
        destruct WF as [_ [_ [_ [Hdata _]]]].
        rewrite (proj1 (Hdata l Hl) Hd) in *. cbn [length] in *. lia.
      * unfold fprop_need in H2. lia.
    + intros p Hp. destruct (prev_in l p Hl Hp) as [Hpn [Hnext _]].
      apply Hord; [apply in_layers; exact Hpn|exact Hnext|exact Hin].
Qed.

(** The backward pass returns; no layer runs twice; a layer that runs has
    its counter at the number of its gradient-producing successors, all of
    which ran before; the layers that are reached run; a layer that is
    neither a cost layer nor a gradient consumer never runs. *)
Lemma backward_pass_correct :
  exists st,
    backward_pass g = Some st
    /\ (forall l, count_occ Nat.eq_dec (ran st) l <= 1)
    /\ (forall l, In l (ran st) ->
          l < length g
          /\ rcvd st l = numGradProducersNext g l
          /\ forall s, In s (next (layer g l)) -> gradProducer (layer g s) = true ->
                       ran_before (ran st) s l)
    /\ (forall l, bprop_reached g l -> count_occ Nat.eq_dec (ran st) l = 1)
    /\ (forall l, is_cost (kind (layer g l)) = false ->
                  gradConsumer (layer g l) = false ->
                  count_occ Nat.eq_dec (ran st) l = 0).
Proof.
  destruct (pass_correct (bprop_out g) (bprop_need g) (layers g) (cost_layers g)
              rank) with (fuel := S (length g))
    as [st [E [Hnd [Hincl [Hord [Hreach [Hready Hle]]]]]]].
  - intros l s Hl Hs. apply in_layers. apply in_layers in Hl.
    apply in_bprop_out in Hs. apply (prev_in l s Hl). apply Hs.
  - intros l s Hl Hs. apply in_layers in Hl.
    apply in_bprop_out in Hs. apply (prev_in l s Hl). apply Hs.
  - intros s Hs. apply in_layers in Hs. rewrite bprop_count by exact Hs.
    destruct (gradConsumer (layer g s)); lia.
  - intros x Hx. apply filter_In in Hx. apply Hx.
  - intros l s Hl Hs Hseed. apply in_layers in Hl.
    apply filter_In in Hseed. destruct Hseed as [Hsn Hc]. apply in_layers in Hsn.
    apply in_bprop_out in Hs. destruct Hs as [_ [_ Hin]].
    destruct (prev_in l s Hl Hin) as [_ [Hnext _]].
    destruct WF as [_ [_ [_ [_ Hcost]]]].
    rewrite (Hcost s Hsn Hc) in Hnext. destruct Hnext.
  - apply layers_NoDup.
  - apply NoDup_filter, layers_NoDup.
  - intros l Hl. apply in_layers in Hl. pose proof (proj1 (DAG l Hl)). lia.
  - exists st. split; [exact E|].
    assert (Hfacts : forall l, In l (ran st) ->
               l < length g
               /\ (is_cost (kind (layer g l)) = true
                   \/ (gradConsumer (layer g l) = true
                       /\ bprop_need g l <= rcvd st l))).
    { intros l Hin. assert (Hl : l < length g) by (apply in_layers, Hincl, Hin).
      split; [exact Hl|].
      destruct (Hready l Hin) as [Hseed|[H1 H2]].
      - left. apply filter_In in Hseed. apply Hseed.
      - right. rewrite bprop_count in H2 by exact Hl.
        destruct (gradConsumer (layer g l)); [split; [reflexivity|exact H1]|lia]. }
    split; [apply NoDup_count_occ; exact Hnd|].
    split.
    { intros l Hin. destruct (Hfacts l Hin) as [Hl Hcase].
      split; [exact Hl|].
      destruct Hcase as [Hc|[Hc Hneed]].
      - destruct WF as [_ [_ [_ [_ Hcost]]]].
        pose proof (Hcost l Hl Hc) as En.
        split.
        + pose proof (Hle l) as H1. rewrite bprop_count in H1 by exact Hl.
          unfold bprop_need, numGradProducersNext in H1.
          unfold numGradProducersNext. rewrite En in *. cbn [filter length] in *.
          destruct (gradConsumer (layer g l)); lia.
        + intros s Hs. rewrite En in Hs. destruct Hs.
      - split.
        + pose proof (Hle l) as H1. rewrite bprop_count, Hc in H1 by exact Hl.
          unfold bprop_need in *. lia.
        + intros s Hs Hprod.
          assert (Hsn : s < length g).
          { destruct WF as [Hnext _]. apply (Hnext l); assumption. }
          apply Hord; [apply in_layers; exact Hsn| |exact Hin].
          apply in_bprop_out. split; [exact Hprod|]. split; [exact Hc|].
          apply edge_next_prev; assumption. }
    split.
    { intros l Hr. apply NoDup_count_occ'; [exact Hnd|].
      apply Hreach. apply bprop_reached_all. exact Hr. }
    intros l Hnc Hng. apply count_occ_not_In. intros Hin.
    destruct (Hfacts l Hin) as [_ [Hc|[Hc _]]]; congruence.
Qed.

End Net.

(** * Readiness in the layer graph *)

Lemma two_layer_well_formed : well_formed_net two_layer_net.
Proof.
  unfold well_formed_net, two_layer_net. cbn [length].
  split; [|split; [|split; [|split]]].
  - intros l s Hl Hs. destruct l as [|[|l]]; [| |lia]; cbn in Hs.
    + destruct Hs as [<-|[]]. lia.
    + destruct Hs.
  - intros l p Hl Hp. destruct l as [|[|l]]; [| |lia]; cbn in Hp.
    + destruct Hp.
    + destruct Hp as [<-|[]]. lia.
  - intros l s Hl Hs.
    destruct l as [|[|l]]; [| |lia]; (destruct s as [|[|s]]; [| |lia]); reflexivity.
  - intros l Hl. destruct l as [|[|l]]; [| |lia]; cbn.
    + split; reflexivity.
    + split; intros H; discriminate H.
  - intros l Hl Hc. destruct l as [|[|l]]; [| |lia].
    + discriminate Hc.
    + reflexivity.
Qed.

Lemma two_layer_acyclic : acyclic two_layer_net (fun l => l).
Proof.
  unfold acyclic, two_layer_net. cbn [length].
  intros l Hl. destruct l as [|[|l]]; [| |lia]; (split; [lia|]);
    intros s Hs; cbn in Hs.
  - destruct Hs as [<-|[]]. lia.
  - destruct Hs.
Qed.

(** C2, as stated, fails in its backward half: in the graph of a data layer
    feeding a cost layer, which is well formed and acyclic, the backward
    functions of the data layer do not run. *)
Lemma data_layer_never_bprops :
  well_formed_net two_layer_net /\ acyclic two_layer_net (fun l => l)
  /\ ~ (exists st,
          backward_pass two_layer_net = Some st
          /\ forall l, l < length two_layer_net ->
                       count_occ Nat.eq_dec (ran st) l = 1).
Proof.
  split; [exact two_layer_well_formed|]. split; [exact two_layer_acyclic|].
  intros [st [E H]]. vm_compute in E. injection E as <-.
  specialize (H 0 ltac:(cbn; lia)). cbn in H. discriminate H.
Qed.

(** C2, amended: in every well-formed acyclic graph, the forward pass
    returns and every layer's forward function has run exactly once, after
    those of all its predecessors, its counter of forward inputs at the
    number of its predecessors; the backward pass returns, no layer's
    backward functions run twice, a layer whose backward functions run has
    its counter of backward inputs at its number of gradient-producing
    successors, all of which ran theirs before; the backward functions run
    exactly once for the cost layers and for every gradient consumer that has
    a gradient-producing successor, all of which run theirs; and they never
    run for a layer that is neither a cost layer nor a gradient consumer. *)
Theorem graph_readiness (g : net) (rank : nat -> nat) :
  well_formed_net g -> acyclic g rank ->
  (exists st,
     forward_pass g = Some st
     /\ forall l, l < length g ->
          count_occ Nat.eq_dec (ran st) l = 1
          /\ rcvd st l = length (prev (layer g l))
          /\ forall p, In p (prev (layer g l)) -> ran_before (ran st) p l)
  /\ (exists st,
        backward_pass g = Some st
        /\ (forall l, count_occ Nat.eq_dec (ran st) l <= 1)
        /\ (forall l, In l (ran st) ->
              l < length g
              /\ rcvd st l = numGradProducersNext g l
              /\ forall s, In s (next (layer g l)) ->
                           gradProducer (layer g s) = true ->
                           ran_before (ran st) s l)
        /\ (forall l, bprop_reached g l -> count_occ Nat.eq_dec (ran st) l = 1)
        /\ (forall l, is_cost (kind (layer g l)) = false ->
                      gradConsumer (layer g l) = false ->
                      count_occ Nat.eq_dec (ran st) l = 0)).
Proof.
  intros WF DAG. split.
  - apply (forward_pass_correct g rank); assumption.
  - apply (backward_pass_correct g rank); assumption.
Qed.

Lemma graph_readiness_witness :
  exists st,
    forward_pass two_layer_net = Some st
    /\ count_occ Nat.eq_dec (ran st) 1 = 1.
Proof.
  destruct (graph_readiness two_layer_net (fun l => l)) as [[st [E H]] _].
  - exact two_layer_well_formed.
  - exact two_layer_acyclic.
  - exists st. split; [exact E|]. apply (H 1). cbn. lia.
Defined.

Close Scope nat_scope.
Open Scope Z_scope.

(** * Further properties of the host routine *)

(** X1: the divisions of lines 589-595 come before every [assert]: a call
    with [numGroups = 0], [numImgColors = 0] or [numModulesX = 0] divides by
    zero, at the first of these lines whose divisor is zero, and neither
    fails an [assert] nor launches a kernel. *)
Theorem zero_divisor_crashes (u : Z -> Z -> uninit)
        (images hidActs targets : NVMatrix) (c : call) :
  c_numGroups c = 0 \/ c_numImgColors c = 0 \/ c_numModulesX c = 0 ->
  conv u images hidActs targets c
  = DivByZero (if c_numGroups c =? 0 then 589
               else if c_numImgColors c =? 0 then 592 else 595).
Proof.
  intros H. rewrite conv_unfold. unfold conv_host, convWeightActs_host, idiv.
  destruct (Z.eqb_spec (c_numGroups c) 0) as [EG|NG]; [reflexivity|].
  cbn [bind].
  destruct (Z.eqb_spec (c_numImgColors c) 0) as [EC|NC]; [reflexivity|].
  cbn [bind].
  destruct H as [H|[H|H]]; [contradiction|contradiction|].
  rewrite H. reflexivity.
Qed.

Lemma zero_divisor_crashes_witness :
  conv ex_uninit ex_images ex_hidActs ex_targets (mkCall 2 1 0 1 0 1 0 1 0)
  = DivByZero 592.
Proof.
  apply (zero_divisor_crashes ex_uninit ex_images ex_hidActs ex_targets
           (mkCall 2 1 0 1 0 1 0 1 0)).
  right. left. reflexivity.
Defined.

(** X2: a call is aborted before any kernel is launched when one of the
    three tensors is transposed, when [hidActs] or [targets] is not
    contiguous, when [hidActs] and [images] do not have the same number of
    columns, when the padding is positive, or when the stride of the modules
    exceeds the size of the filter. *)
Theorem malformed_call_aborted (u : Z -> Z -> uninit)
        (images hidActs targets : NVMatrix) (c : call) :
  isTrans images = true \/ isTrans hidActs = true \/ isTrans targets = true
  \/ isContiguous hidActs = false \/ isContiguous targets = false
  \/ getNumCols hidActs <> getNumCols images
  \/ c_paddingStart c > 0 \/ c_moduleStride c > c_filterSize c ->
  aborted (conv_host images hidActs targets c)
  /\ aborted (conv u images hidActs targets c).
Proof.
  intros H.
  assert (Hab : aborted (conv_host images hidActs targets c)).
  { destruct (conv_host images hidActs targets c) as [l| |] eqn:HD;
      cbn [aborted]; [|exact I|exact I].
    destruct (conv_host_inv _ _ _ _ _ HD) as [HC _].
    destruct HC as [Hg Hcol Hm H598 H599 H600 H601 H602 H603 H608 H609 H612 H613
                    H615 H617 H618 H619 H621 H622 H648 H661].
    destruct H612 as [Hp _].
    destruct H as [H|[H|[H|[H|[H|[H|[H|H]]]]]]];
      first [congruence | clear - H Hp; lia | clear - H H613; lia]. }
  split; [exact Hab|]. apply conv_aborted. exact Hab.
Qed.

Lemma malformed_call_aborted_witness :
  aborted (conv ex_uninit ex_images ex_hidActs ex_targets (mkCall 2 1 1 1 1 1 0 1 0)).
Proof.
  apply (malformed_call_aborted ex_uninit ex_images ex_hidActs ex_targets
           (mkCall 2 1 1 1 1 1 0 1 0)).
  right. right. right. right. right. right. left. cbn. lia.
Defined.

Lemma bind_not_fail {A B : Type} (x : outcome A) (k : A -> outcome B) (n : Z) :
  x <> AssertFail n -> (forall a, x = Done a -> k a <> AssertFail n) ->
  bind x k <> AssertFail n.
Proof.
  intros Hx Hk. destruct x as [a|m|m]; cbn [bind].
  - apply Hk. reflexivity.
  - intros E. apply Hx. injection E as ->. reflexivity.
  - discriminate.
Qed.

Lemma assert_other (line n : Z) (b : bool) :
  line <> n -> assert line b <> AssertFail n.
Proof.
  intros Hn. unfold assert. destruct b; [discriminate|].
  intros E. injection E as E. contradiction.
Qed.

Lemma idiv_not_fail (line x y n : Z) : idiv line x y <> AssertFail n.
Proof. unfold idiv. destruct (y =? 0); discriminate. Qed.

Lemma launch_geometry_fail (nFC nFPG nF nIC nG nM mS fP n : Z) :
  n <> 648 -> launch_geometry nFC nFPG nF nIC nG nM mS fP <> AssertFail n.
Proof.
  intros Hn. unfold launch_geometry.
  destruct (nFC >? 3).
  - destruct (Z.rem nFPG 32 =? 0); discriminate.
  - apply bind_not_fail; [apply assert_other; congruence|discriminate].
Qed.

(** X3: the [assert] of line 654 never fails, whatever the call: a block has
    32 x 4 or 16 x 8 threads, always 128, a multiple of [preloadCases]. *)
Theorem block_has_128_threads (images hidActs targets : NVMatrix) (c : call) :
  conv_host images hidActs targets c <> AssertFail 654
  /\ forall l, conv_host images hidActs targets c = Done l ->
       (l_threads l = mkDim3 32 4 \/ l_threads l = mkDim3 16 8)
       /\ dim_x (l_threads l) * dim_y (l_threads l) = 128.
Proof.
  split.
  - unfold conv_host, convWeightActs_host.
    repeat (apply bind_not_fail;
            [first [apply idiv_not_fail | apply assert_other; discriminate]
            |intros ? _]).
    apply bind_not_fail; [apply launch_geometry_fail; discriminate|].
    intros g Hg. apply launch_geometry_threads in Hg. destruct Hg as [_ [Eth _]].
    apply bind_not_fail.
    + rewrite Eth.
      repeat match goal with
             | |- context [if ?b then _ else _] => destruct b
             end; discriminate.
    + intros _ _. apply bind_not_fail; [|discriminate].
      destruct ((c_scaleTargets c =? 0) && (c_scaleOutput c =? 1)); [discriminate|].
      apply bind_not_fail; [apply assert_other; discriminate|]. intros _ _.
      apply bind_not_fail; [apply assert_other; discriminate|]. discriminate.
  - intros l HD. destruct (conv_host_inv _ _ _ _ _ HD) as [_ [_ [_ [_ Eg]]]].
    apply launch_geometry_threads in Eg. destruct Eg as [_ [Eth _]].
    cbn [snd] in Eth. rewrite Eth.
    repeat match goal with
           | |- context [if ?b then _ else _] => destruct b
           end; cbn; split; auto.
Qed.

Lemma block_has_128_threads_witness :
  dim_x (l_threads (decided (conv_host ex_images ex_hidActs ex_targets ex_call)))
  * dim_y (l_threads (decided (conv_host ex_images ex_hidActs ex_targets ex_call)))
  = 128.
Proof.
  destruct (block_has_128_threads ex_images ex_hidActs ex_targets ex_call) as [_ H].
  destruct (H (decided (conv_host ex_images ex_hidActs ex_targets ex_call)))
    as [_ E].
  - vm_compute. reflexivity.
  - exact E.
Defined.

(** X4: the instantiation a passing call launches.  With more than three
    colours per filter, a multiple of four: the many-filter kernel when the
    filters per group are a multiple of 32 (blocks of 32 x 4 threads for a
    multiple of 64, of 16 x 8 otherwise), the many-colour kernel otherwise,
    which happens exactly for an odd multiple of 16.  With at most three
    colours there is one group and one, two or three colours, and the
    few-colour kernel is launched.  The chain of conditionals never falls
    through. *)
Theorem dispatch_table (images hidActs targets : NVMatrix) (c : call) (l : launch) :
  well_formed images hidActs c ->
  conv_host images hidActs targets c = Done l ->
  let a := call_args images hidActs c in
  let nFC := k_numFilterColors a in
  let nFPG := k_numFiltersPerGroup a in
  let scale := negb (call_noScale c) in
  let check := negb (Z.rem (a_numImages a) 32 =? 0) in
  let cpt := if Z.rem nFC 8 =? 0 then 8 else 4 in
  (3 < nFC ->
   Z.rem nFC 4 = 0
   /\ (Z.rem nFPG 32 = 0 ->
       l_kernel l = Some (k_manycolor_manyfilter
                            (if Z.rem nFPG 64 =? 0 then 4 else 8)
                            (if Z.rem nFPG 64 =? 0 then 32 else 16)
                            2 cpt 32 scale check))
   /\ (Z.rem nFPG 32 <> 0 ->
       Z.rem nFPG 32 = 16
       /\ l_kernel l = Some (k_manycolor 8 16 2 cpt 32 scale check)))
  /\ (nFC <= 3 ->
      (nFC = 1 \/ nFC = 2 \/ nFC = 3) /\ c_numGroups c = 1
      /\ l_kernel l
         = Some (k_color (if Z.rem (a_numFilters a) 32 =? 0 then 4 else 8)
                         (if Z.rem (a_numFilters a) 32 =? 0 then 32 else 16)
                         (if Z.rem (a_numFilters a) 32 =? 0
                          then (if nFC =? 1 then 8 else 5)
                          else (if nFC =? 1 then 5 else 2))
                         32 nFC scale check)).
Proof.
  intros WF HD a nFC nFPG scale check cpt.
  destruct (conv_host_inv _ _ _ _ _ HD) as [HC [Ea [Ek _]]].
  rewrite Ea in Ek. rewrite select_kernel_closed in Ek. cbv zeta in Ek.
  fold (call_noScale c) in Ek. fold a in Ek. fold nFC nFPG scale check in Ek.
  destruct (host_facts _ _ _ _ WF HC)
    as [HG [HnF [HnF16 [HnFPG16 [EnF [Hfs [Hout [Hn [Hfew Hmany]]]]]]]]].
  fold a in HG, HnF, HnF16, HnFPG16, EnF, Hfew, Hmany. fold nFC in Hfew, Hmany.
  fold nFPG in HnFPG16, EnF.
  split.
  - intros Hgt. destruct (Z.gtb_spec nFC 3) as [_|Hle]; [|lia].
    split; [apply Hmany; exact Hgt|]. split.
    + intros H32. rewrite (proj2 (Z.eqb_eq _ _) H32) in Ek. exact Ek.
    + intros H32. destruct (Z.eqb_spec (Z.rem nFPG 32) 0) as [E|_]; [contradiction|].
      split; [|exact Ek].
      assert (HnFPG0 : 0 <= nFPG).
      { destruct (Z_lt_le_dec nFPG 0) as [Hneg|]; [|assumption].
        exfalso. clear - Hneg EnF HG HnF. nia. }
      clear - HnFPG16 H32 HnFPG0. lia.
  - intros Hle. destruct (Z.gtb_spec nFC 3) as [Hgt|_]; [lia|].
    destruct (Hfew Hle) as [EG H1].
    assert (Hsel : nFC = 1 \/ nFC = 2 \/ nFC = 3) by (clear - Hle H1; lia).
    split; [exact Hsel|]. split; [exact EG|].
    assert (Eb : (nFC =? 1) || (nFC =? 2) || (nFC =? 3) = true).
    { destruct Hsel as [E|[E|E]]; rewrite E; reflexivity. }
    rewrite Eb in Ek. exact Ek.
Qed.

Lemma dispatch_table_witness :
  l_kernel (decided (conv_host ex_images ex_hidActs ex_targets ex_call))
  = Some (k_color 8 16 5 32 1 false true).
Proof.
  destruct (dispatch_table ex_images ex_hidActs ex_targets ex_call
              (decided (conv_host ex_images ex_hidActs ex_targets ex_call)))
    as [_ H].
  - unfold well_formed. cbn. lia.
  - vm_compute. reflexivity.
  - destruct H as [_ [_ E]]; [vm_compute; discriminate|exact E].
Defined.

(** * Further properties of the result *)

(** The entries of [targets] are the cells of its buffer below
    [rows * cols]. *)
Lemma entry_index_range (a : kargs) (om cc px f : Z) :
  valid_entry a om cc px f ->
  0 <= target_index a om cc px f < targets_rows a * a_numFilters a.
Proof.
  unfold valid_entry, target_index, targets_rows.
  set (oM := k_outputModules a). set (nFC := k_numFilterColors a).
  set (fP := k_filterPixels a). set (nF := a_numFilters a).
  clearbody oM nFC fP nF. intros [Hom [Hcc [Hpx Hf]]].
  assert (H1 : 0 <= om * nFC + cc <= oM * nFC - 1) by nia.
  assert (H2 : 0 <= (om * nFC + cc) * fP + px <= oM * nFC * fP - 1) by nia.
  clear Hom Hcc Hpx H1. nia.
Qed.

Lemma cell_decode (a : kargs) (ad : Z) :
  0 <= k_outputModules a -> 0 <= a_numFilters a ->
  0 <= ad < targets_rows a * a_numFilters a ->
  exists om cc px f,
    valid_entry a om cc px f /\ target_index a om cc px f = ad.
Proof.
  intros Hout HnF0 Had.
  assert (HnF : 0 < a_numFilters a).
  { destruct (Z.eq_dec (a_numFilters a) 0) as [E|]; [|lia].
    exfalso. rewrite E, Z.mul_0_r in Had. lia. }
  pose proof (Z.div_mod ad (a_numFilters a) ltac:(lia)) as E.
  pose proof (Z.mod_pos_bound ad (a_numFilters a) HnF) as B.
  destruct (entry_decode a (ad / a_numFilters a) (ad mod a_numFilters a) Hout)
    as [om [cc [px [Hv Ei]]]].
  - split; [apply Z.div_pos; lia|]. apply Z.div_lt_upper_bound; [assumption|]. lia.
  - exact B.
  - exists om, cc, px, (ad mod a_numFilters a). split; [exact Hv|]. rewrite Ei. lia.
Qed.

(** A passing call, cell by cell. *)
Lemma conv_cells (u : Z -> Z -> uninit) (images hidActs targets : NVMatrix)
      (c : call) (l : launch) :
  well_formed images hidActs c ->
  conv_host images hidActs targets c = Done l ->
  exists t',
    conv u images hidActs targets c = Done t'
    /\ getNumRows t' = targets_rows (call_args images hidActs c)
    /\ getNumCols t' = a_numFilters (call_args images hidActs c)
    /\ isTrans t' = false /\ isContiguous t' = true
    /\ (forall ad, 0 <= ad < getNumRows t' * getNumCols t' ->
          exists om cc px f,
            valid_entry (call_args images hidActs c) om cc px f
            /\ target_index (call_args images hidActs c) om cc px f = ad
            /\ getDevData t' ad
               = c_scaleTargets c * getDevData targets ad
                 + c_scaleOutput c
                   * reference (call_args images hidActs c) (getDevData images)
                               (getDevData hidActs) om cc px f)
    /\ (forall ad, ad < 0 \/ getNumRows t' * getNumCols t' <= ad ->
          getDevData t' ad = getDevData targets ad).
Proof.
  intros WF HD.
  destruct (conv_correct u _ _ _ _ _ WF HD) as [t' [Et [Hr [Hc [Htr [Hct [Hin Hout]]]]]]].
  destruct (conv_host_inv _ _ _ _ _ HD) as [HC _].
  destruct (host_facts _ _ _ _ WF HC) as [_ [HnF [_ [_ [_ [_ [HoM _]]]]]]].
  exists t'. repeat (split; [assumption|]). split.
  - intros ad Had. rewrite Hr, Hc in Had.
    destruct (cell_decode _ ad HoM HnF Had) as [om [cc [px [f [Hv Ei]]]]].
    exists om, cc, px, f. split; [exact Hv|]. split; [exact Ei|].
    rewrite <- Ei. apply Hin. exact Hv.
  - intros ad Had. apply Hout. intros om cc px f Hv E.
    pose proof (entry_index_range _ om cc px f Hv) as R.
    rewrite Hr, Hc in Had. rewrite E in R. lia.
Qed.

(** X5: a passing call writes no cell of the buffer of [targets] outside the
    [rows * cols] cells of the matrix it returns. *)
Theorem no_write_outside_targets (u : Z -> Z -> uninit)
        (images hidActs targets : NVMatrix) (c : call) (l : launch) :
  well_formed images hidActs c ->
  conv_host images hidActs targets c = Done l ->
  exists t',
    conv u images hidActs targets c = Done t'
    /\ forall ad, ad < 0 \/ getNumRows t' * getNumCols t' <= ad ->
                  getDevData t' ad = getDevData targets ad.
Proof.
  intros WF HD.
  destruct (conv_cells u _ _ _ _ _ WF HD) as [t' [Et [_ [_ [_ [_ [_ Hout]]]]]]].
  exists t'. split; [exact Et|exact Hout].
Qed.

Lemma no_write_outside_targets_witness :
  exists t', conv ex_uninit ex_images ex_hidActs ex_targets ex_call = Done t'.
Proof.
  destruct (no_write_outside_targets ex_uninit ex_images ex_hidActs ex_targets ex_call
              (decided (conv_host ex_images ex_hidActs ex_targets ex_call)))
    as [t' [Et H]].
  - unfold well_formed. cbn. lia.
  - vm_compute. reflexivity.
  - exists t'. exact Et.
Defined.



(** The checks of an overwriting call do not look at the shape of
    [targets]. *)
Lemma host_checks_overwrite (images hidActs targets targets' : NVMatrix) (c : call) :
  host_checks images hidActs targets c ->
  isTrans targets' = false -> isContiguous targets' = true ->
  host_checks images hidActs targets' (with_scales c 0 1).
Proof.
  intros HC Ht Hc.
  destruct HC as [Hg Hcol Hm H598 H599 H600 H601 H602 H603 H608 H609 H612 H613 H615
                  H617 H618 H619 H621 H622 H648 H661].
  constructor; try assumption.
  intros Hs. discriminate Hs.
Qed.

(** X7: with [scaleTargets = 0] and [scaleOutput = 1] the result does not
    depend on the target that is passed: two untransposed contiguous targets
    of any shapes and contents come back with the same shape and the same
    elements. *)
Theorem overwrite_ignores_prior_targets (u u' : Z -> Z -> uninit)
        (images hidActs targets targets' : NVMatrix) (c : call) (l : launch) :
  well_formed images hidActs c ->
  conv_host images hidActs targets (with_scales c 0 1) = Done l ->
  isTrans targets' = false -> isContiguous targets' = true ->
  exists t t',
    conv u images hidActs targets (with_scales c 0 1) = Done t
    /\ conv u' images hidActs targets' (with_scales c 0 1) = Done t'
    /\ getNumRows t = getNumRows t' /\ getNumCols t = getNumCols t'
    /\ forall ad, 0 <= ad < getNumRows t * getNumCols t ->
                  getDevData t ad = getDevData t' ad.
Proof.
  intros WF HD Ht Hc.
  assert (WF' : well_formed images hidActs (with_scales c 0 1)) by exact WF.
  destruct (conv_host_inv _ _ _ _ _ HD) as [HC _].
  destruct (conv_host_complete images hidActs targets' (with_scales c 0 1))
    as [l' HD'].
  { apply (host_checks_overwrite images hidActs targets targets' (with_scales c 0 1));
      assumption. }
  destruct (conv_cells u _ _ _ _ _ WF' HD) as [t [Et [Hr [Hcl [_ [_ [Hin _]]]]]]].
  destruct (conv_correct u' _ _ _ _ _ WF' HD')
    as [t' [Et' [Hr' [Hcl' [_ [_ [Hin' _]]]]]]].
  exists t, t'. split; [exact Et|]. split; [exact Et'|].
  split; [rewrite Hr, Hr'; reflexivity|]. split; [rewrite Hcl, Hcl'; reflexivity|].
  intros ad Had.
  destruct (Hin ad Had) as [om [cc [px [f [Hv [Ei E]]]]]].
  rewrite E. rewrite <- Ei at 2. rewrite (Hin' om cc px f Hv).
  cbn [with_scales c_scaleTargets c_scaleOutput]. ring.
Qed.

Lemma overwrite_ignores_prior_targets_witness :
  exists t t',
    conv ex_uninit ex_images ex_hidActs ex_targets (with_scales ex_call 0 1) = Done t
    /\ conv ex_uninit ex_images ex_hidActs (ex_zero 7) (with_scales ex_call 0 1)
       = Done t'
    /\ getNumRows t = getNumRows t'.
Proof.
  destruct (overwrite_ignores_prior_targets ex_uninit ex_uninit
              ex_images ex_hidActs ex_targets (ex_zero 7) ex_call
              (decided (conv_host ex_images ex_hidActs ex_targets
                                  (with_scales ex_call 0 1))))
    as [t [t' [E [E' [Er _]]]]].
  - unfold well_formed. cbn. lia.
  - vm_compute. reflexivity.
  - reflexivity.
  - reflexivity.
  - exists t, t'. split; [exact E|]. split; [exact E'|exact Er].
Defined.

(** X8: a call with scales [(scaleTargets, scaleOutput)] returns, in every
    element, [scaleTargets] times the old element plus [scaleOutput] times
    the element the overwriting call returns. *)
Theorem blend_decomposes (u u' : Z -> Z -> uninit)
        (images hidActs targets : NVMatrix) (c : call) (l : launch) :
  well_formed images hidActs c ->
  conv_host images hidActs targets c = Done l ->
  exists t t0,
    conv u images hidActs targets c = Done t
    /\ conv u' images hidActs targets (with_scales c 0 1) = Done t0
    /\ getNumRows t = getNumRows t0 /\ getNumCols t = getNumCols t0
    /\ forall ad, 0 <= ad < getNumRows t * getNumCols t ->
         getDevData t ad
         = c_scaleTargets c * getDevData targets ad
           + c_scaleOutput c * getDevData t0 ad.
Proof.
  intros WF HD.
  assert (WF' : well_formed images hidActs (with_scales c 0 1)) by exact WF.
  destruct (conv_host_inv _ _ _ _ _ HD) as [HC _].
  destruct (conv_host_complete images hidActs targets (with_scales c 0 1))
    as [l' HD'].
  { apply (host_checks_overwrite images hidActs targets targets c);
      [assumption|apply (hc_621 _ _ _ _ HC)|apply (hc_622 _ _ _ _ HC)]. }
  destruct (conv_cells u _ _ _ _ _ WF HD) as [t [Et [Hr [Hcl [_ [_ [Hin _]]]]]]].
  destruct (conv_correct u' _ _ _ _ _ WF' HD')
    as [t0 [Et0 [Hr0 [Hcl0 [_ [_ [Hin0 _]]]]]]].
  exists t, t0. split; [exact Et|]. split; [exact Et0|].
  split; [rewrite Hr, Hr0; reflexivity|]. split; [rewrite Hcl, Hcl0; reflexivity|].
  intros ad Had.
  destruct (Hin ad Had) as [om [cc [px [f [Hv [Ei E]]]]]].
  assert (V0 : getDevData t0 (target_index (call_args images hidActs c) om cc px f)
               = 0 * getDevData targets
                       (target_index (call_args images hidActs c) om cc px f)
                 + 1 * reference (call_args images hidActs c) (getDevData images)
                                 (getDevData hidActs) om cc px f)
    by exact (Hin0 om cc px f Hv).
  rewrite Ei in V0. rewrite E, V0. ring.
Qed.

Lemma blend_decomposes_witness :
  exists t t0,
    conv ex_uninit ex_images ex_hidActs (ex_zero 1) (with_scales ex_call 3 5) = Done t
    /\ conv ex_uninit ex_images ex_hidActs (ex_zero 1)
            (with_scales (with_scales ex_call 3 5) 0 1) = Done t0.
Proof.
  destruct (blend_decomposes ex_uninit ex_uninit ex_images ex_hidActs (ex_zero 1)
              (with_scales ex_call 3 5)
              (decided (conv_host ex_images ex_hidActs (ex_zero 1)
                                  (with_scales ex_call 3 5))))
    as [t [t0 [E [E0 _]]]].
  - unfold well_formed. cbn. lia.
  - vm_compute. reflexivity.
  - exists t, t0. split; [exact E|exact E0].
Defined.

(** X9: on an empty batch ([images] and [hidActs] have no column) a passing
    call leaves [scaleTargets] times the old value in every element: an
    overwriting call zeroes the matrix it returns. *)
Theorem empty_batch (u : Z -> Z -> uninit)
        (images hidActs targets : NVMatrix) (c : call) (l : launch) :
  well_formed images hidActs c ->
  conv_host images hidActs targets c = Done l ->
  getNumCols images = 0 ->
  exists t',
    conv u images hidActs targets c = Done t'
    /\ forall ad, 0 <= ad < getNumRows t' * getNumCols t' ->
                  getDevData t' ad = c_scaleTargets c * getDevData targets ad.
Proof.
  intros WF HD Hn.
  destruct (conv_cells u _ _ _ _ _ WF HD) as [t' [Et [_ [_ [_ [_ [Hin _]]]]]]].
  exists t'. split; [exact Et|]. intros ad Had.
  destruct (Hin ad Had) as [om [cc [px [f [_ [_ E]]]]]]. rewrite E.
  assert (Eref : reference (call_args images hidActs c) (getDevData images)
                   (getDevData hidActs) om cc px f = 0).
  { unfold reference. apply zsum_zero. intros m _. unfold module_gradient.
    cbn [call_args a_numImages]. rewrite Hn. reflexivity. }
  rewrite Eref. ring.
Qed.

Lemma empty_batch_witness :
  exists t',
    conv ex_uninit (mkNVMatrix 4 0 0 false true (fun _ => 2))
         (mkNVMatrix 64 0 0 false true (fun _ => 3)) ex_targets ex_call = Done t'.
Proof.
  destruct (empty_batch ex_uninit (mkNVMatrix 4 0 0 false true (fun _ => 2))
              (mkNVMatrix 64 0 0 false true (fun _ => 3)) ex_targets ex_call
              (decided (conv_host (mkNVMatrix 4 0 0 false true (fun _ => 2))
                          (mkNVMatrix 64 0 0 false true (fun _ => 3))
                          ex_targets ex_call)))
    as [t' [Et _]].
  - unfold well_formed. cbn. lia.
  - vm_compute. reflexivity.
  - reflexivity.
  - exists t'. exact Et.
Defined.

(** X10: for [k] dividing the number of modules, in a call that overwrites,
    row [om] of the result with [moduleSum = k] is, for every colour, filter
    pixel and filter, the sum of the rows [om * k] to [om * k + k - 1] of the
    result with [moduleSum = 1]. *)
Theorem folded_row_is_sum_of_rows (uk u1 : Z -> Z -> uninit)
        (images hidActs targets : NVMatrix) (c : call) (k : Z) (l1 : launch) :
  well_formed images hidActs c ->
  call_noScale c = true ->
  0 < k -> Z.rem (c_numModulesX c * c_numModulesX c) k = 0 ->
  conv_host images hidActs targets (with_moduleSum c 1) = Done l1 ->
  let ak := call_args images hidActs (with_moduleSum c k) in
  let a1 := call_args images hidActs (with_moduleSum c 1) in
  exists tk t1,
    conv uk images hidActs targets (with_moduleSum c k) = Done tk
    /\ conv u1 images hidActs targets (with_moduleSum c 1) = Done t1
    /\ forall om cc px f,
         0 <= om < (c_numModulesX c * c_numModulesX c) ÷ k ->
         0 <= cc < k_numFilterColors a1 -> 0 <= px < k_filterPixels a1 ->
         0 <= f < a_numFilters a1 ->
         getDevData tk (target_index ak om cc px f)
         = zsum (for_range (om * k) (om * k + k) 1)
                (fun m => getDevData t1 (target_index a1 m cc px f)).
Proof.
  intros WF Hns Hk Hdiv HD1 ak a1.
  set (numModules := c_numModulesX c * c_numModulesX c) in *.
  assert (WF1 : well_formed images hidActs (with_moduleSum c 1)).
  { destruct WF as [W1 [W2 [W3 W4]]]. repeat split; try assumption.
    cbn. discriminate. }
  assert (WFk : well_formed images hidActs (with_moduleSum c k)).
  { destruct WF as [W1 [W2 [W3 W4]]]. repeat split; try assumption.
    cbn [with_moduleSum c_moduleSum]. clear - Hk. lia. }
  destruct (conv_host_inv _ _ _ _ _ HD1) as [HC1 _].
  destruct (conv_host_complete images hidActs targets (with_moduleSum c k))
    as [lk HDk].
  { apply (host_checks_moduleSum images hidActs targets targets c 1 k);
      try assumption.
    - apply (hc_621 _ _ _ _ HC1).
    - apply (hc_622 _ _ _ _ HC1).
    - clear - Hk. lia. }
  destruct (conv_correct uk _ _ _ _ _ WFk HDk) as [tk [Etk [_ [_ [_ [_ [Hink _]]]]]]].
  destruct (conv_correct u1 _ _ _ _ _ WF1 HD1) as [t1 [Et1 [_ [_ [_ [_ [Hin1 _]]]]]]].
  exists tk, t1. split; [exact Etk|]. split; [exact Et1|].
  intros om cc px f Hom Hcc Hpx Hf.
  unfold call_noScale in Hns. apply andb_prop in Hns. destruct Hns as [E0 E1].
  apply Z.eqb_eq in E0, E1.
  assert (HnM : 0 <= numModules) by (unfold numModules; nia).
  assert (Eq : numModules ÷ k * k = numModules).
  { pose proof (Z.quot_rem' numModules k) as E. rewrite Hdiv in E. clear - E. lia. }
  assert (Empk : a_modulesPerBlock ak = k).
  { cbn. destruct (Z.eqb_spec k 0); [clear - Hk e; lia|reflexivity]. }
  assert (Eoutk : k_outputModules ak = numModules ÷ k).
  { unfold k_outputModules. rewrite Empk. reflexivity. }
  assert (Eout1 : k_outputModules a1 = numModules).
  { unfold k_outputModules. change (a_modulesPerBlock a1) with 1. apply Z.quot_1_r. }
  assert (Hv : valid_entry ak om cc px f).
  { split; [rewrite Eoutk; exact Hom|]. split; [exact Hcc|].
    split; [exact Hpx|exact Hf]. }
  unfold ak. rewrite (Hink om cc px f Hv).
  cbn [with_moduleSum c_scaleTargets c_scaleOutput]. rewrite E0, E1.
  unfold reference. fold ak. rewrite Empk.
  rewrite Z.mul_0_l, Z.add_0_l, Z.mul_1_l.
  apply zsum_ext. intros m Hm. apply in_for_range1 in Hm.
  assert (Hv1 : valid_entry a1 m cc px f).
  { split; [|split; [exact Hcc|split; [exact Hpx|exact Hf]]].
    rewrite Eout1. clear - Hm Hom Eq Hk. nia. }
  unfold a1. rewrite (Hin1 m cc px f Hv1).
  cbn [with_moduleSum c_scaleTargets c_scaleOutput]. rewrite E0, E1.
  rewrite reference_unfolded by reflexivity.
  change (module_gradient ak) with (module_gradient a1). unfold a1. ring.
Qed.

Lemma folded_row_is_sum_of_rows_witness :
  exists tk t1,
    conv ex_uninit ex_images ex_hidActs ex_targets (with_moduleSum ex_call 2) = Done tk
    /\ conv ex_uninit ex_images ex_hidActs ex_targets (with_moduleSum ex_call 1)
       = Done t1.
Proof.
  destruct (folded_row_is_sum_of_rows ex_uninit ex_uninit ex_images ex_hidActs
              ex_targets ex_call 2
              (decided (conv_host ex_images ex_hidActs ex_targets
                                  (with_moduleSum ex_call 1))))
    as [tk [t1 [Ek [E1 _]]]].
  - unfold well_formed. cbn. lia.
  - reflexivity.
  - lia.
  - reflexivity.
  - vm_compute. reflexivity.
  - exists tk, t1. split; [exact Ek|exact E1].
Defined.

(** X11: with one module, no padding, one group and a filter as large as
    the image, an overwriting call returns the matrix product of [images]
    with the transpose of [hidActs]: element [(r, f)] is the sum over the
    batch of [images (r, i) * hidActs (f, i)]. *)
Theorem single_module_is_matrix_product (u : Z -> Z -> uninit)
        (images hidActs targets : NVMatrix) (c : call) (l : launch) :
  well_formed images hidActs c ->
  conv_host images hidActs targets c = Done l ->
  call_noScale c = true ->
  c_numModulesX c = 1 -> c_numGroups c = 1 -> c_paddingStart c = 0 ->
  a_imgSize (call_args images hidActs c) = c_filterSize c ->
  exists t',
    conv u images hidActs targets c = Done t'
    /\ getNumRows t' = getNumRows images
    /\ getNumCols t' = getNumRows hidActs
    /\ forall r f,
         0 <= r < getNumRows images -> 0 <= f < getNumRows hidActs ->
         getDevData t' (r * getNumRows hidActs + f)
         = zsum (for_range 0 (getNumCols images) 1)
                (fun i => getDevData images (r * getStride images + i)
                          * getDevData hidActs (f * getNumCols images + i)).
Proof.
  intros WF HD Hns EmX EG Ep Esize.
  destruct (conv_correct u _ _ _ _ _ WF HD) as [t' [Et [Hr [Hc [_ [_ [Hin _]]]]]]].
  destruct (conv_host_inv _ _ _ _ _ HD) as [HC _].
  destruct (host_facts _ _ _ _ WF HC)
    as [_ [HnF0 [_ [_ [_ [Hfs [Hout _]]]]]]].
  destruct HC as [Hg Hcol Hm H598 H599 H600 H601 H602 H603 H608 H609 H612 H613 H615
                  H617 H618 H619 H621 H622 H648 H661].
  set (a := call_args images hidActs c) in *.
  unfold call_noScale in Hns. apply andb_prop in Hns. destruct Hns as [E0 E1].
  apply Z.eqb_eq in E0, E1.
  assert (EnM : k_numModules a = 1).
  { unfold k_numModules. cbn [a call_args a_numModulesX]. rewrite EmX. reflexivity. }
  assert (EnF : a_numFilters a = getNumRows hidActs).
  { rewrite <- H615, EnM. ring. }
  assert (Empb : a_modulesPerBlock a = 1).
  { assert (Hpos : 0 <= a_modulesPerBlock a).
    { cbn [a call_args a_modulesPerBlock]. destruct WF as [_ [_ [W3 _]]].
      destruct (c_moduleSum c =? 0); [rewrite EmX; clear; lia|exact W3]. }
    rewrite EnM in H608.
    pose proof (Z.quot_rem' 1 (a_modulesPerBlock a)) as Q.
    rewrite H608, Z.add_0_r in Q. symmetry in Q. apply Z.eq_mul_1 in Q.
    clear - Q Hpos. lia. }
  assert (Eout : k_outputModules a = 1).
  { unfold k_outputModules. rewrite EnM, Empb. reflexivity. }
  assert (EnFC : k_numFilterColors a = c_numImgColors c).
  { unfold k_numFilterColors. cbn [a call_args a_numImgColors a_numGroups].
    rewrite EG. apply Z.quot_1_r. }
  assert (EnFPG : k_numFiltersPerGroup a = a_numFilters a).
  { unfold k_numFiltersPerGroup. cbn [a call_args a_numGroups].
    rewrite EG. apply Z.quot_1_r. }
  assert (EfP : k_filterPixels a = getNumRows images ÷ c_numImgColors c).
  { unfold k_filterPixels. rewrite <- H602.
    change (a_filterSize a) with (c_filterSize c). rewrite Esize. reflexivity. }
  assert (Erows : targets_rows a = getNumRows images).
  { unfold targets_rows. rewrite Eout, EnFC, EfP.
    set (q := getNumRows images ÷ c_numImgColors c) in *. clearbody q.
    clear - H603. lia. }
  exists t'. split; [exact Et|]. split; [rewrite Hr; exact Erows|].
  split; [rewrite Hc; exact EnF|].
  intros r f Hrr Hf.
  rewrite <- Erows in Hrr. rewrite <- EnF in Hf. rewrite <- EnF.
  destruct (entry_decode a r f Hout Hrr Hf) as [om [cc [px [Hv Ei]]]].
  rewrite <- Ei, (Hin om cc px f Hv), E0, E1.
  destruct Hv as [Hom [Hcc [Hpx Hff]]].
  assert (Eom : om = 0) by (rewrite Eout in Hom; lia). subst om.
  assert (Er : r = cc * k_filterPixels a + px).
  { unfold target_index in Ei. clear - Ei Hf Hff.
    assert ((0 * k_numFilterColors a + cc) * k_filterPixels a + px = r) by nia.
    lia. }
  unfold reference. rewrite Empb, Z.mul_0_l, Z.add_0_l.
  rewrite for_range_cons by lia. rewrite for_range_empty by lia.
  cbn [zsum fold_right]. unfold module_gradient.
  change (a_numImages a) with (getNumCols images).
  rewrite Z.mul_1_l, Z.add_0_r. change (0 * 1) with 0.
  apply zsum_ext. intros i _. f_equal.
  - unfold image_at, image_color, pixel_y, pixel_x, in_image.
    rewrite EnFPG, (Z.quot_small f) by exact Hff.
    change (a_numModulesX a) with (c_numModulesX c). rewrite EmX.
    change (a_paddingStart a) with (c_paddingStart c). rewrite Ep.
    change (a_filterSize a) with (c_filterSize c). rewrite Esize.
    cbn [Z.quot Z.rem Z.quotrem fst snd Z.mul Z.add].
    assert (Hfs0 : 0 < c_filterSize c).
    { unfold k_filterPixels in Hpx. change (a_filterSize a) with (c_filterSize c) in Hpx.
      clear - Hpx Hfs. change (a_filterSize a) with (c_filterSize c) in Hfs. nia. }
    unfold k_filterPixels in Hpx. change (a_filterSize a) with (c_filterSize c) in Hpx.
    pose proof (Z.quot_rem' px (c_filterSize c)) as Q.
    assert (Hq : 0 <= px ÷ c_filterSize c < c_filterSize c).
    { split; [apply Z.quot_pos; lia|]. apply Z.quot_lt_upper_bound; lia. }
    assert (Hrm : 0 <= Z.rem px (c_filterSize c) < c_filterSize c).
    { apply Z.rem_bound_pos; lia. }
    destruct (Z.geb_spec (px ÷ c_filterSize c) 0); [|lia].
    destruct (Z.ltb_spec (px ÷ c_filterSize c) (c_filterSize c)); [|lia].
    destruct (Z.geb_spec (Z.rem px (c_filterSize c)) 0); [|lia].
    destruct (Z.ltb_spec (Z.rem px (c_filterSize c)) (c_filterSize c)); [|lia].
    cbn [andb]. f_equal.
    change (a_imgStride a) with (getStride images).
    unfold k_imgPixels. rewrite Esize.
    rewrite Er. unfold k_filterPixels. change (a_filterSize a) with (c_filterSize c).
    clear - Q. nia.
  - unfold hidAct_at. rewrite EnM.
    change (a_numImages a) with (getNumCols images). f_equal. ring.
Qed.
Lemma single_module_is_matrix_product_witness :
  exists t',
    conv ex_uninit ex_images (mkNVMatrix 16 2 2 false true (fun _ => 3)) ex_targets
         (mkCall 1 2 0 1 1 1 0 1 0) = Done t'
    /\ getNumRows t' = 4 /\ getNumCols t' = 16.
Proof.
  destruct (single_module_is_matrix_product ex_uninit ex_images
              (mkNVMatrix 16 2 2 false true (fun _ => 3)) ex_targets
              (mkCall 1 2 0 1 1 1 0 1 0)
              (decided (conv_host ex_images (mkNVMatrix 16 2 2 false true (fun _ => 3))
                          ex_targets (mkCall 1 2 0 1 1 1 0 1 0))))
    as [t' [Et [Hr [Hc _]]]].
  - unfold well_formed. cbn. lia.
  - vm_compute. reflexivity.
  - reflexivity.
  - reflexivity.
  - reflexivity.
  - reflexivity.
  - reflexivity.
  - exists t'. split; [exact Et|]. split; [exact Hr|exact Hc].
Defined.

(** The host looks at the shape of [hidActs], not at its buffer. *)
Lemma conv_host_hidActs (images hidActs hidActs' targets : NVMatrix) (c : call) :
  getNumRows hidActs' = getNumRows hidActs ->
  getNumCols hidActs' = getNumCols hidActs ->
  isTrans hidActs' = isTrans hidActs ->
  isContiguous hidActs' = isContiguous hidActs ->
  conv_host images hidActs' targets c = conv_host images hidActs targets c
  /\ call_args images hidActs' c = call_args images hidActs c.
Proof.
  destruct hidActs as [r n s t ct d], hidActs' as [r' n' s' t' ct' d'].
  cbn [getNumRows getNumCols isTrans isContiguous].
  intros -> -> -> ->. split; reflexivity.
Qed.

(** The reference reduction is linear in the hidden activations. *)
Lemma reference_linear (a : kargs) (images hA hB hS : Z -> Z) (alpha beta : Z)
      (om cc px f : Z) :
  (forall ad, hS ad = alpha * hA ad + beta * hB ad) ->
  reference a images hS om cc px f
  = alpha * reference a images hA om cc px f
    + beta * reference a images hB om cc px f.
Proof.
  intros Hs. unfold reference. rewrite <- !zsum_scale, <- zsum_plus.
  apply zsum_ext. intros m _. unfold module_gradient.
  rewrite <- !zsum_scale, <- zsum_plus. apply zsum_ext. intros i _.
  unfold hidAct_at. rewrite Hs. ring.
Qed.

(** X12: the weight gradient is linear in the hidden activations: for
    [hidActs] equal to [alpha * hA + beta * hB] cell by cell, an overwriting
    call returns [alpha] times what it returns on [hA] plus [beta] times what
    it returns on [hB]. *)
Theorem gradient_linear_in_hidActs (u uA uB : Z -> Z -> uninit)
        (images hA hB hS targets : NVMatrix) (c : call) (alpha beta : Z)
        (l : launch) :
  well_formed images hA c ->
  conv_host images hA targets (with_scales c 0 1) = Done l ->
  getNumRows hB = getNumRows hA -> getNumCols hB = getNumCols hA ->
  isTrans hB = isTrans hA -> isContiguous hB = isContiguous hA ->
  getNumRows hS = getNumRows hA -> getNumCols hS = getNumCols hA ->
  isTrans hS = isTrans hA -> isContiguous hS = isContiguous hA ->
  (forall ad, getDevData hS ad = alpha * getDevData hA ad + beta * getDevData hB ad) ->
  exists tA tB tS,
    conv uA images hA targets (with_scales c 0 1) = Done tA
    /\ conv uB images hB targets (with_scales c 0 1) = Done tB
    /\ conv u images hS targets (with_scales c 0 1) = Done tS
    /\ forall ad, 0 <= ad < getNumRows tS * getNumCols tS ->
         getDevData tS ad = alpha * getDevData tA ad + beta * getDevData tB ad.
Proof.
  intros WF HD BR BC BT BCt SR SC ST SCt Hs.
  destruct (conv_host_hidActs images hA hB targets (with_scales c 0 1) BR BC BT BCt)
    as [EB AB].
  destruct (conv_host_hidActs images hA hS targets (with_scales c 0 1) SR SC ST SCt)
    as [ES AS].
  assert (WFA : well_formed images hA (with_scales c 0 1)) by exact WF.
  assert (WFB : well_formed images hB (with_scales c 0 1)).
  { destruct WF as [W1 [W2 W3]]. split; [exact W1|]. split; [rewrite BR; exact W2|exact W3]. }
  assert (WFS : well_formed images hS (with_scales c 0 1)).
  { destruct WF as [W1 [W2 W3]]. split; [exact W1|]. split; [rewrite SR; exact W2|exact W3]. }
  assert (HDB : conv_host images hB targets (with_scales c 0 1) = Done l)
    by (rewrite EB; exact HD).
  assert (HDS : conv_host images hS targets (with_scales c 0 1) = Done l)
    by (rewrite ES; exact HD).
  destruct (conv_correct uA _ _ _ _ _ WFA HD) as [tA [EtA [_ [_ [_ [_ [HinA _]]]]]]].
  destruct (conv_correct uB _ _ _ _ _ WFB HDB) as [tB [EtB [_ [_ [_ [_ [HinB _]]]]]]].
  destruct (conv_cells u _ _ _ _ _ WFS HDS) as [tS [EtS [_ [_ [_ [_ [HinS _]]]]]]].
  exists tA, tB, tS. split; [exact EtA|]. split; [exact EtB|]. split; [exact EtS|].
  intros ad Had. destruct (HinS ad Had) as [om [cc [px [f [Hv [Ei E]]]]]].
  rewrite AS in Hv, Ei, E.
  pose proof (HinA om cc px f Hv) as VA.
  pose proof (HinB om cc px f) as VB. rewrite AB in VB. specialize (VB Hv).
  rewrite Ei in VA, VB. rewrite E, VA, VB.
  rewrite (reference_linear _ _ (getDevData hA) (getDevData hB) (getDevData hS)
             alpha beta) by exact Hs.
  cbn [with_scales c_scaleTargets c_scaleOutput]. ring.
Qed.

Lemma gradient_linear_in_hidActs_witness :
  exists tA tB tS,
    conv ex_uninit ex_images ex_hidActs ex_targets (with_scales ex_call 0 1) = Done tA
    /\ conv ex_uninit ex_images (mkNVMatrix 64 2 2 false true (fun _ => 1)) ex_targets
            (with_scales ex_call 0 1) = Done tB
    /\ conv ex_uninit ex_images (mkNVMatrix 64 2 2 false true (fun _ => 11)) ex_targets
            (with_scales ex_call 0 1) = Done tS.
Proof.
  destruct (gradient_linear_in_hidActs ex_uninit ex_uninit ex_uninit ex_images
              ex_hidActs (mkNVMatrix 64 2 2 false true (fun _ => 1))
              (mkNVMatrix 64 2 2 false true (fun _ => 11)) ex_targets ex_call 2 5
              (decided (conv_host ex_images ex_hidActs ex_targets
                                  (with_scales ex_call 0 1))))
    as [tA [tB [tS [EA [EB [ES _]]]]]].
  - unfold well_formed. cbn. lia.
  - vm_compute. reflexivity.
  - reflexivity.
  - reflexivity.
  - reflexivity.
  - reflexivity.
  - reflexivity.
  - reflexivity.
  - reflexivity.
  - reflexivity.
  - intros ad. reflexivity.
  - exists tA, tB, tS. split; [exact EA|]. split; [exact EB|exact ES].
Defined.

(** The cells of [images] and [hidActs] the reference reduction of an entry
    reads are inside the two tensors. *)
Lemma reference_inside (images hidActs targets : NVMatrix) (c : call)
      (img' hid' : Z -> Z) (om cc px f : Z) :
  well_formed images hidActs c ->
  host_checks images hidActs targets c ->
  (forall r i, 0 <= r < getNumRows images -> 0 <= i < getNumCols images ->
               img' (r * getStride images + i)
               = getDevData images (r * getStride images + i)) ->
  (forall ad, 0 <= ad < getNumRows hidActs * getNumCols hidActs ->
              hid' ad = getDevData hidActs ad) ->
  valid_entry (call_args images hidActs c) om cc px f ->
  reference (call_args images hidActs c) img' hid' om cc px f
  = reference (call_args images hidActs c) (getDevData images) (getDevData hidActs)
              om cc px f.
Proof.
  intros WF HC Himg Hhid Hv.
  destruct (host_facts _ _ _ _ WF HC)
    as [HG [HnF0 [_ [_ [EnF [_ [Hout [HnI _]]]]]]]].
  destruct HC as [Hg Hcol Hm H598 H599 H600 H601 H602 H603 H608 H609 H612 H613 H615
                  H617 H618 H619 H621 H622 H648 H661].
  set (a := call_args images hidActs c) in *.
  destruct Hv as [Hom [Hcc [Hpx Hf]]].
  assert (Hmpb : 0 < a_modulesPerBlock a).
  { destruct (Z_lt_le_dec 0 (a_modulesPerBlock a)) as [|Hle]; [assumption|exfalso].
    assert (Hz : a_modulesPerBlock a = 0).
    { cbn [a call_args a_modulesPerBlock] in *. destruct WF as [_ [_ [W3 _]]].
      destruct (Z.eqb_spec (c_moduleSum c) 0) as [E|N].
      - assert (0 <= c_numModulesX c * c_numModulesX c) by apply Z.square_nonneg.
        clear - Hle H. lia.
      - clear - Hle W3. lia. }
    unfold k_outputModules in Hom. rewrite Hz in Hom.
    assert (Eq0 : k_numModules a ÷ 0 = 0) by (destruct (k_numModules a); reflexivity).
    rewrite Eq0 in Hom. clear - Hom. lia. }
  assert (HnFPG : 0 < k_numFiltersPerGroup a).
  { clear - EnF HG Hf. nia. }
  assert (EnIC : a_numImgColors a = a_numGroups a * k_numFilterColors a).
  { unfold k_numFilterColors.
    pose proof (Z.quot_rem' (a_numImgColors a) (a_numGroups a)) as Q.
    change (a_numImgColors a) with (c_numImgColors c) in *.
    change (a_numGroups a) with (c_numGroups c) in *.
    rewrite H598, Z.add_0_r in Q. exact Q. }
  assert (Hrows : getNumRows images = k_imgPixels a * a_numImgColors a).
  { unfold k_imgPixels. rewrite H602. exact H603. }
  unfold reference. apply zsum_ext. intros m Hmm. apply in_for_range1 in Hmm.
  assert (Hmr : 0 <= m < k_numModules a).
  { apply (folded_modules_range _ (a_modulesPerBlock a) om m); assumption. }
  unfold module_gradient. apply zsum_ext. intros i Hi. apply in_for_range1 in Hi.
  change (a_numImages a) with (getNumCols images) in Hi.
  f_equal.
  - unfold image_at.
    destruct (in_image a (pixel_y a m px) (pixel_x a m px)) eqn:Ein; [|reflexivity].
    unfold in_image in Ein.
    apply andb_prop in Ein. destruct Ein as [Ein E4].
    apply andb_prop in Ein. destruct Ein as [Ein E3].
    apply andb_prop in Ein. destruct Ein as [E1 E2].
    apply Z.geb_le in E1, E3. apply Z.ltb_lt in E2, E4.
    set (y := pixel_y a m px) in *. set (x := pixel_x a m px) in *.
    clearbody y x.
    set (color := image_color a f cc).
    assert (Hcolor : 0 <= color < a_numImgColors a).
    { unfold color, image_color.
      assert (Hq : 0 <= f ÷ k_numFiltersPerGroup a < a_numGroups a).
      { split; [apply Z.quot_pos; lia|].
        apply Z.quot_lt_upper_bound; [lia|lia|].
        rewrite Z.mul_comm, <- EnF. apply Hf. }
      set (q := f ÷ k_numFiltersPerGroup a) in *. clearbody q.
      rewrite EnIC. clear - Hq Hcc. nia. }
    clearbody color.
    change (a_imgStride a) with (getStride images).
    apply Himg; [|exact Hi].
    rewrite Hrows. unfold k_imgPixels.
    set (s := a_imgSize a) in *. clearbody s.
    assert (Hp : 0 <= y * s + x < s * s) by (clear - E1 E2 E3 E4; nia).
    set (p := y * s + x) in *. clearbody p.
    set (nIC := a_numImgColors a) in *. clearbody nIC.
    clear - Hcolor Hp. nia.
  - unfold hidAct_at. apply Hhid.
    rewrite <- H615, H609.
    change (a_numImages a) with (getNumCols images).
    set (nM := k_numModules a) in *. set (nF := a_numFilters a) in *.
    set (nI := getNumCols images) in *. clearbody nM nF nI.
    assert (Hr : 0 <= f * nM + m < nM * nF) by (clear - Hf Hmr; nia).
    set (r := f * nM + m) in *. clearbody r.
    clear - Hr Hi. nia.
Qed.

(** X13: what a passing call returns depends on [images] and [hidActs] only
    through the cells inside the two tensors: the rows and columns of
    [images] under its stride, and the [rows * cols] cells of the contiguous
    [hidActs]. *)
Theorem result_reads_inside_tensors (u u' : Z -> Z -> uninit)
        (images images' hidActs hidActs' targets : NVMatrix) (c : call) (l : launch) :
  well_formed images hidActs c ->
  conv_host images hidActs targets c = Done l ->
  getNumRows images' = getNumRows images -> getNumCols images' = getNumCols images ->
  getStride images' = getStride images -> isTrans images' = isTrans images ->
  getNumRows hidActs' = getNumRows hidActs -> getNumCols hidActs' = getNumCols hidActs ->
  isTrans hidActs' = isTrans hidActs -> isContiguous hidActs' = isContiguous hidActs ->
  (forall r i, 0 <= r < getNumRows images -> 0 <= i < getNumCols images ->
               getDevData images' (r * getStride images + i)
               = getDevData images (r * getStride images + i)) ->
  (forall ad, 0 <= ad < getNumRows hidActs * getNumCols hidActs ->
              getDevData hidActs' ad = getDevData hidActs ad) ->
  exists t t',
    conv u images hidActs targets c = Done t
    /\ conv u' images' hidActs' targets c = Done t'
    /\ forall ad, 0 <= ad < getNumRows t * getNumCols t ->
                  getDevData t' ad = getDevData t ad.
Proof.
  intros WF HD IR IC IS IT HR HCo HT HCt Himg Hhid.
  destruct (conv_host_inv _ _ _ _ _ HD) as [HC _].
  destruct (conv_host_images images images' hidActs' targets c IR IC IS IT) as [E1 A1].
  destruct (conv_host_hidActs images hidActs hidActs' targets c HR HCo HT HCt)
    as [E2 A2].
  assert (HD' : conv_host images' hidActs' targets c = Done l)
    by (rewrite E1, E2; exact HD).
  assert (WF' : well_formed images' hidActs' c).
  { destruct WF as [W1 [W2 W3]]. split; [rewrite IC; exact W1|].
    split; [rewrite HR; exact W2|exact W3]. }
  destruct (conv_cells u _ _ _ _ _ WF HD) as [t [Et [_ [_ [_ [_ [Hin _]]]]]]].
  destruct (conv_correct u' _ _ _ _ _ WF' HD') as [t' [Et' [_ [_ [_ [_ [Hin' _]]]]]]].
  exists t, t'. split; [exact Et|]. split; [exact Et'|].
  intros ad Had. destruct (Hin ad Had) as [om [cc [px [f [Hv [Ei E]]]]]].
  pose proof (Hin' om cc px f) as V. rewrite A1, A2 in V. specialize (V Hv).
  rewrite Ei in V. rewrite V, E.
  rewrite (reference_inside images hidActs targets c (getDevData images')
             (getDevData hidActs') om cc px f WF HC Himg Hhid Hv).
  reflexivity.
Qed.

Lemma result_reads_inside_tensors_witness :
  exists t t',
    conv ex_uninit ex_images ex_hidActs ex_targets ex_call = Done t
    /\ conv ex_uninit
            (mkNVMatrix 4 2 2 false true (fun ad => if ad <? 8 then 2 else 77))
            (mkNVMatrix 64 2 2 false true (fun ad => if ad <? 128 then 3 else 88))
            ex_targets ex_call = Done t'.
Proof.
  destruct (result_reads_inside_tensors ex_uninit ex_uninit ex_images
              (mkNVMatrix 4 2 2 false true (fun ad => if ad <? 8 then 2 else 77))
              ex_hidActs
              (mkNVMatrix 64 2 2 false true (fun ad => if ad <? 128 then 3 else 88))
              ex_targets ex_call
              (decided (conv_host ex_images ex_hidActs ex_targets ex_call)))
    as [t [t' [E [E' _]]]].
  - unfold well_formed. cbn. lia.
  - vm_compute. reflexivity.
  - reflexivity.
  - reflexivity.
  - reflexivity.
  - reflexivity.
  - reflexivity.
  - reflexivity.
  - reflexivity.
  - reflexivity.
  - intros r i Hr Hi. cbn [getDevData ex_images getNumRows getNumCols getStride] in *.
    destruct (Z.ltb_spec (r * 2 + i) 8); [reflexivity|lia].
  - intros ad Had. cbn [getDevData ex_hidActs getNumRows getNumCols] in *.
    destruct (Z.ltb_spec ad 128); [reflexivity|lia].
  - exists t, t'. split; [exact E|exact E'].
Defined.

(** ** Splitting the batch *)

Lemma for_range_shift (lo n : Z) :
  for_range lo (lo + n) 1 = map (fun i => lo + i) (for_range 0 n 1).
Proof.
  unfold for_range. rewrite map_map.
  replace (lo + n - lo + 1 - 1) with n by ring.
  replace (n - 0 + 1 - 1) with n by ring.
  apply map_ext. intros k. ring.
Qed.

Lemma zsum_split (n1 n2 : Z) (g : Z -> Z) :
  0 <= n1 -> 0 <= n2 ->
  zsum (for_range 0 (n1 + n2) 1) g
  = zsum (for_range 0 n1 1) g + zsum (for_range 0 n2 1) (fun i => g (n1 + i)).
Proof.
  intros H1 H2. rewrite (for_range_app 0 n1 (n1 + n2)) by lia.
  rewrite zsum_app, for_range_shift, zsum_map. reflexivity.
Qed.

(** The checks look at the rows and the flags of [images] and [hidActs], and
    at their columns only to compare them. *)
Lemma host_checks_shapes (i i' h h' t : NVMatrix) (c : call) :
  getNumRows i' = getNumRows i -> isTrans i' = isTrans i ->
  getNumRows h' = getNumRows h -> isTrans h' = isTrans h ->
  isContiguous h' = isContiguous h -> getNumCols h' = getNumCols i' ->
  host_checks i h t c -> host_checks i' h' t c.
Proof.
  destruct i as [ir ic is_ it ict id], i' as [ir' ic' is' it' ict' id'],
           h as [hr hc hs ht hct hd], h' as [hr' hc' hs' ht' hct' hd'].
  cbn [getNumRows getNumCols isTrans isContiguous].
  intros -> -> -> -> -> -> HC.
  destruct HC as [Hg Hcol Hm H598 H599 H600 H601 H602 H603 H608 H609 H612 H613 H615
                  H617 H618 H619 H621 H622 H648 H661].
  constructor; try assumption. reflexivity.
Qed.

Lemma call_args_batch (i i' h h' : NVMatrix) (c : call) :
  getNumRows i' = getNumRows i -> getNumRows h' = getNumRows h ->
  call_args i' h' c = with_batch (call_args i h c) (getNumCols i') (getStride i').
Proof.
  destruct i as [ir ic is_ it ict id], i' as [ir' ic' is' it' ict' id'],
           h as [hr hc hs ht hct hd], h' as [hr' hc' hs' ht' hct' hd'].
  cbn [getNumRows]. intros -> ->. reflexivity.
Qed.

(** The reference reduction over a batch is the sum of those over its two
    parts. *)
Lemma reference_batch (a : kargs) (I I1 I2 H H1 H2 : Z -> Z) (n1 n2 S1 S2 : Z)
      (om cc px f : Z) :
  0 <= n1 -> 0 <= n2 -> a_numImages a = n1 + n2 ->
  columns_of I I1 I2 (fun q => q * a_imgStride a) (fun q => q * S1)
             (fun q => q * S2) n1 n2 ->
  columns_of H H1 H2 (fun q => q * (n1 + n2)) (fun q => q * n1)
             (fun q => q * n2) n1 n2 ->
  reference a I H om cc px f
  = reference (with_batch a n1 S1) I1 H1 om cc px f
    + reference (with_batch a n2 S2) I2 H2 om cc px f.
Proof.
  intros Hn1 Hn2 En [HI1 HI2] [HH1 HH2].
  unfold reference. cbn [with_batch a_modulesPerBlock].
  rewrite <- zsum_plus. apply zsum_ext. intros m _.
  unfold module_gradient. cbn [with_batch a_numImages]. rewrite En.
  rewrite zsum_split by assumption. f_equal.
  - apply zsum_ext. intros i Hi. apply in_for_range1 in Hi.
    f_equal.
    + unfold image_at.
      change (in_image (with_batch a n1 S1)) with (in_image a).
      change (pixel_y (with_batch a n1 S1)) with (pixel_y a).
      change (pixel_x (with_batch a n1 S1)) with (pixel_x a).
      change (image_color (with_batch a n1 S1)) with (image_color a).
      destruct (in_image a (pixel_y a m px) (pixel_x a m px)); [|reflexivity].
      cbn [with_batch a_imgStride a_imgSize].
      change (k_imgPixels (with_batch a n1 S1)) with (k_imgPixels a).
      symmetry. apply (HI1 _ i Hi).
    + unfold hidAct_at. cbn [with_batch a_numImages].
      change (k_numModules (with_batch a n1 S1)) with (k_numModules a).
      rewrite En. symmetry. apply (HH1 _ i Hi).
  - apply zsum_ext. intros i Hi. apply in_for_range1 in Hi.
    f_equal.
    + unfold image_at.
      change (in_image (with_batch a n2 S2)) with (in_image a).
      change (pixel_y (with_batch a n2 S2)) with (pixel_y a).
      change (pixel_x (with_batch a n2 S2)) with (pixel_x a).
      change (image_color (with_batch a n2 S2)) with (image_color a).
      destruct (in_image a (pixel_y a m px) (pixel_x a m px)); [|reflexivity].
      cbn [with_batch a_imgStride a_imgSize].
      change (k_imgPixels (with_batch a n2 S2)) with (k_imgPixels a).
      symmetry. apply (HI2 _ i Hi).
    + unfold hidAct_at. cbn [with_batch a_numImages].
      change (k_numModules (with_batch a n2 S2)) with (k_numModules a).
      rewrite En. symmetry. apply (HH2 _ i Hi).
Qed.

(** X14: the batch can be split: an overwriting call on the first columns
    of [images] and [hidActs], followed by an accumulating call
    ([scaleTargets = 1], [scaleOutput = 1]) on the remaining columns, returns
    the elements that one overwriting call on the whole batch returns. *)
Theorem batch_split (u u1 u2 : Z -> Z -> uninit)
        (I I1 I2 H H1 H2 targets : NVMatrix) (c : call) (l : launch) :
  well_formed I H c ->
  conv_host I H targets (with_scales c 0 1) = Done l ->
  0 <= getNumCols I1 -> 0 <= getNumCols I2 ->
  getNumCols I = getNumCols I1 + getNumCols I2 ->
  getNumRows I1 = getNumRows I -> isTrans I1 = isTrans I ->
  getNumRows I2 = getNumRows I -> isTrans I2 = isTrans I ->
  getNumRows H1 = getNumRows H -> isTrans H1 = isTrans H ->
  isContiguous H1 = isContiguous H -> getNumCols H1 = getNumCols I1 ->
  getNumRows H2 = getNumRows H -> isTrans H2 = isTrans H ->
  isContiguous H2 = isContiguous H -> getNumCols H2 = getNumCols I2 ->
  columns_of (getDevData I) (getDevData I1) (getDevData I2)
             (fun q => q * getStride I) (fun q => q * getStride I1)
             (fun q => q * getStride I2) (getNumCols I1) (getNumCols I2) ->
  columns_of (getDevData H) (getDevData H1) (getDevData H2)
             (fun q => q * (getNumCols I1 + getNumCols I2))
             (fun q => q * getNumCols I1) (fun q => q * getNumCols I2)
             (getNumCols I1) (getNumCols I2) ->
  exists t1 t2 t,
    conv u1 I1 H1 targets (with_scales c 0 1) = Done t1
    /\ conv u2 I2 H2 t1 (with_scales c 1 1) = Done t2
    /\ conv u I H targets (with_scales c 0 1) = Done t
    /\ getNumRows t2 = getNumRows t /\ getNumCols t2 = getNumCols t
    /\ forall ad, 0 <= ad < getNumRows t * getNumCols t ->
                  getDevData t2 ad = getDevData t ad.
Proof.
  intros WF HD Hn1 Hn2 En R1 T1 R2 T2 HR1 HT1 HC1 HN1 HR2 HT2 HC2 HN2 ColI ColH.
  set (a := call_args I H c).
  assert (WF' : well_formed I H (with_scales c 0 1)) by exact WF.
  destruct (conv_host_inv _ _ _ _ _ HD) as [HC _].
  assert (A1 : forall st so, call_args I1 H1 (with_scales c st so)
                = with_batch (call_args I H (with_scales c st so))
                             (getNumCols I1) (getStride I1))
    by (intros; apply call_args_batch; assumption).
  assert (A2 : forall st so, call_args I2 H2 (with_scales c st so)
                = with_batch (call_args I H (with_scales c st so))
                             (getNumCols I2) (getStride I2))
    by (intros; apply call_args_batch; assumption).
  assert (WF1 : forall st so, well_formed I1 H1 (with_scales c st so)).
  { intros st so. destruct WF as [W1 [W2 W3]]. split; [exact Hn1|].
    split; [rewrite HR1; exact W2|exact W3]. }
  assert (WF2 : forall st so, well_formed I2 H2 (with_scales c st so)).
  { intros st so. destruct WF as [W1 [W2 W3]]. split; [exact Hn2|].
    split; [rewrite HR2; exact W2|exact W3]. }
  assert (HCh1 : host_checks I1 H1 targets (with_scales c 0 1)).
  { apply (host_checks_shapes I I1 H H1); assumption. }
  assert (HCh2 : host_checks I2 H2 targets (with_scales c 0 1)).
  { apply (host_checks_shapes I I2 H H2); assumption. }
  destruct (conv_host_complete _ _ _ _ HCh1) as [l1 HD1].
  destruct (conv_correct u1 _ _ _ _ _ (WF1 0 1) HD1)
    as [t1 [Et1 [Hr1 [Hc1 [Htr1 [Hct1 [Hin1 _]]]]]]].
  destruct (conv_host_complete I2 H2 t1 (with_scales c 1 1)) as [l2 HD2].
  { apply (host_checks_scales I2 H2 targets t1 (with_scales c 0 1) 1 1 HCh2 Htr1 Hct1).
    - rewrite Hr1, (A1 0 1), (A2 0 1). reflexivity.
    - rewrite Hc1, (A1 0 1), (A2 0 1). reflexivity. }
  destruct (conv_correct u2 _ _ _ _ _ (WF2 1 1) HD2)
    as [t2 [Et2 [Hr2 [Hc2 [_ [_ [Hin2 _]]]]]]].
  destruct (conv_cells u _ _ _ _ _ WF' HD) as [t [Et [Hr [Hcl [_ [_ [Hin _]]]]]]].
  exists t1, t2, t. split; [exact Et1|]. split; [exact Et2|]. split; [exact Et|].
  split; [rewrite Hr2, Hr, A2; reflexivity|].
  split; [rewrite Hc2, Hcl, A2; reflexivity|].
  intros ad Had. destruct (Hin ad Had) as [om [cc [px [f [Hv [Ei E]]]]]].
  assert (V1 : getDevData t1 (target_index a om cc px f)
               = 0 * getDevData targets (target_index a om cc px f)
                 + 1 * reference (with_batch a (getNumCols I1) (getStride I1))
                                 (getDevData I1) (getDevData H1) om cc px f).
  { pose proof (Hin1 om cc px f) as V. rewrite (A1 0 1) in V. apply V. exact Hv. }
  assert (V2 : getDevData t2 (target_index a om cc px f)
               = 1 * getDevData t1 (target_index a om cc px f)
                 + 1 * reference (with_batch a (getNumCols I2) (getStride I2))
                                 (getDevData I2) (getDevData H2) om cc px f).
  { pose proof (Hin2 om cc px f) as V. rewrite (A2 1 1) in V. apply V. exact Hv. }
  assert (Ei' : target_index a om cc px f = ad) by exact Ei.
  rewrite Ei' in V1, V2. rewrite V2, V1, E.
  cbn [with_scales c_scaleTargets c_scaleOutput].
  change (reference (call_args I H (with_scales c 0 1))) with (reference a).
  rewrite (reference_batch a (getDevData I) (getDevData I1) (getDevData I2)
             (getDevData H) (getDevData H1) (getDevData H2)
             (getNumCols I1) (getNumCols I2) (getStride I1) (getStride I2));
    try assumption.
  ring.
Qed.
Lemma batch_split_witness :
  exists t1 t2 t,
    conv ex_uninit (mkNVMatrix 4 1 2 false true (fun _ => 2))
         (mkNVMatrix 64 1 1 false true (fun _ => 3)) ex_targets
         (with_scales ex_call 0 1) = Done t1
    /\ conv ex_uninit (mkNVMatrix 4 1 2 false true (fun _ => 2))
            (mkNVMatrix 64 1 1 false true (fun _ => 3)) t1
            (with_scales ex_call 1 1) = Done t2
    /\ conv ex_uninit ex_images ex_hidActs ex_targets (with_scales ex_call 0 1)
       = Done t.
Proof.
  destruct (batch_split ex_uninit ex_uninit ex_uninit
              ex_images (mkNVMatrix 4 1 2 false true (fun _ => 2))
              (mkNVMatrix 4 1 2 false true (fun _ => 2))
              ex_hidActs (mkNVMatrix 64 1 1 false true (fun _ => 3))
              (mkNVMatrix 64 1 1 false true (fun _ => 3)) ex_targets ex_call
              (decided (conv_host ex_images ex_hidActs ex_targets
                                  (with_scales ex_call 0 1))))
    as [t1 [t2 [t [E1 [E2 [E _]]]]]].
  - unfold well_formed. cbn. lia.
  - vm_compute. reflexivity.
  - cbn. lia.
  - cbn. lia.
  - reflexivity.
  - reflexivity.
  - reflexivity.
  - reflexivity.
  - reflexivity.
  - reflexivity.
  - reflexivity.
  - reflexivity.
  - reflexivity.
  - reflexivity.
  - reflexivity.
  - reflexivity.
  - reflexivity.
  - split; intros; reflexivity.
  - split; intros; reflexivity.
  - exists t1, t2, t. split; [exact E1|]. split; [exact E2|exact E].
Defined.

(** ** The stores of a launch *)

(** Stores to pairwise distinct cells commute. *)
Lemma apply_rmw_perm (l l' : list (Z * (Z -> Z))) (m : Z -> Z) (ad : Z) :
  Permutation l l' -> NoDup (map fst l) ->
  apply_rmw l m ad = apply_rmw l' m ad.
Proof.
  intros HP HND.
  assert (HND' : NoDup (map fst l')).
  { apply (Permutation_NoDup (l := map fst l)); [|assumption].
    apply Permutation_map. assumption. }
  destruct (in_dec Z.eq_dec ad (map fst l)) as [Hin|Hout].
  - apply in_map_iff in Hin. destruct Hin as [[ad' g] [E Hin]].
    cbn [fst] in E. subst ad'.
    rewrite (apply_rmw_once l m ad g) by assumption.
    rewrite (apply_rmw_once l' m ad g);
      [reflexivity|assumption|].
    apply (Permutation_in (l := l)); assumption.
  - rewrite apply_rmw_untouched by assumption.
    rewrite apply_rmw_untouched; [reflexivity|].
    intros Hin. apply Hout.
    apply (Permutation_in (l := map fst l')); [|assumption].
    apply Permutation_map. apply Permutation_sym. assumption.
Qed.

(** A block of the grid of an applicable instantiation performs the stores of
    its jobs. *)
Lemma family_block_jobs (k : kernel) (a : kargs) (images hidActs : Z -> Z)
      (u : Z -> Z -> uninit) (b : Z * Z) :
  geometry_ok a -> applicable k a ->
  In b (indices (kernel_grid k a)) ->
  forall tg,
    launch_blocks k [b] (kernel_block k) images hidActs tg a u
    = apply_rmw (map (job_store (kernel_scale k) a images hidActs (kernel_entry k a))
                     (kernel_block_jobs k a b)) tg.
Proof.
  intros [Hn [HnF Hout]] Hk Hb tg.
  destruct k as [B_Y B_X ppt pc nC sc ck
                |B_Y B_X ppt cpt pc sc ck
                |B_Y B_X fpt cpt pc sc ck];
    cbn [applicable kernel_scale kernel_grid kernel_block launch_blocks fold_left
         kernel_block_jobs kernel_entry] in *.
  - destruct Hk as [H1 [H2 [H3 [H4 [H5 [H6 [H7 [H8 [H9 H10]]]]]]]]].
    apply (color_block_jobs B_Y B_X ppt pc nC sc ck images hidActs a u
             (mkDim3 (k_outputModules a * (a_numFilters a ÷ B_X))
                     (DIVUP (k_filterPixels a) (B_Y * ppt))));
      try assumption; reflexivity.
  - destruct Hk as [H1 [H2 [H3 [H4 [H5 [H6 [H7 [H8 [H9 [H10 [H11 [H12 [H13 H14]]]]]]]]]]]]].
    apply (mc_block_jobs B_Y B_X ppt cpt pc sc ck images hidActs a u
             (mkDim3 (k_outputModules a * (a_numFilters a ÷ B_X))
                     (DIVUP (k_filterPixels a) (B_Y * ppt)
                      * (k_numFilterColors a ÷ cpt))));
      try assumption; reflexivity.
  - destruct Hk as [H1 [H2 [H3 [H4 [H5 [H6 [H7 [H8 [H9 [H10 [H11 [H12 H13]]]]]]]]]]]].
    apply (mf_block_jobs B_Y B_X fpt cpt pc sc ck images hidActs a u
             (mkDim3 (k_outputModules a * (a_numFilters a ÷ (B_X * fpt)))
                     (DIVUP (k_filterPixels a) B_Y
                      * (k_numFilterColors a ÷ cpt))));
      try assumption; reflexivity.
Qed.

(** The blocks of a launch, run in any order and any number of times,
    perform the stores of their jobs. *)
Lemma launch_blocks_jobs (k : kernel) (a : kargs) (images hidActs : Z -> Z)
      (u : Z -> Z -> uninit) (bs : list (Z * Z)) :
  geometry_ok a -> applicable k a ->
  (forall b, In b bs -> In b (indices (kernel_grid k a))) ->
  forall tg,
    launch_blocks k bs (kernel_block k) images hidActs tg a u
    = apply_rmw (map (job_store (kernel_scale k) a images hidActs (kernel_entry k a))
                     (flat_map (kernel_block_jobs k a) bs)) tg.
Proof.
  intros Hg Hk Hbs. unfold launch_blocks.
  apply fold_apply_rmw_in. intros b Hb m.
  apply (family_block_jobs k a images hidActs u b Hg Hk (Hbs b Hb) m).
Qed.

(** The jobs of the launch of an applicable instantiation on its grid write
    pairwise distinct cells, the entries of [targets]. *)
Lemma family_stores_distinct (k : kernel) (a : kargs) (images hidActs : Z -> Z)
      (u : Z -> Z -> uninit) :
  geometry_ok a -> applicable k a ->
  NoDup (map (job_cell k a) (kernel_jobs k a))
  /\ (forall t, In t (kernel_jobs k a) -> entry_valid a (kernel_entry k a t))
  /\ (forall e, entry_valid a e ->
        exists t, In t (kernel_jobs k a) /\ kernel_entry k a t = e).
Proof.
  intros [Hn [HnF Hout]] Hk. unfold job_cell, kernel_jobs.
  destruct k as [B_Y B_X ppt pc nC sc ck
                |B_Y B_X ppt cpt pc sc ck
                |B_Y B_X fpt cpt pc sc ck];
    cbn [applicable kernel_scale kernel_grid kernel_block
         kernel_block_jobs kernel_entry] in *.
  - destruct Hk as [H1 [H2 [H3 [H4 [H5 [H6 [H7 [H8 [H9 H10]]]]]]]]].
    apply (color_stores_distinct B_Y B_X ppt pc nC images hidActs a u
             (mkDim3 (k_outputModules a * (a_numFilters a ÷ B_X))
                     (DIVUP (k_filterPixels a) (B_Y * ppt)))
             (mkDim3 B_X B_Y));
      try assumption; reflexivity.
  - destruct Hk as [H1 [H2 [H3 [H4 [H5 [H6 [H7 [H8 [H9 [H10 [H11 [H12 [H13 H14]]]]]]]]]]]]].
    apply (mc_stores_distinct B_Y B_X ppt cpt pc images hidActs a u
             (mkDim3 (k_outputModules a * (a_numFilters a ÷ B_X))
                     (DIVUP (k_filterPixels a) (B_Y * ppt)
                      * (k_numFilterColors a ÷ cpt)))
             (mkDim3 B_X B_Y));
      try assumption; reflexivity.
  - destruct Hk as [H1 [H2 [H3 [H4 [H5 [H6 [H7 [H8 [H9 [H10 [H11 [H12 H13]]]]]]]]]]]].
    apply (mf_stores_distinct B_Y B_X fpt cpt pc images hidActs a u
             (mkDim3 (k_outputModules a * (a_numFilters a ÷ (B_X * fpt)))
                     (DIVUP (k_filterPixels a) B_Y
                      * (k_numFilterColors a ÷ cpt)))
             (mkDim3 B_X B_Y));
      try assumption; reflexivity.
Qed.
(** The launch of a passing call, as the stores of its jobs: an instantiation
    applicable to the geometry of the call, or an empty grid. *)
Lemma host_launch_jobs (u : Z -> Z -> uninit) (images hidActs targets : NVMatrix)
      (c : call) (l : launch) :
  well_formed images hidActs c ->
  conv_host images hidActs targets c = Done l ->
  exists k,
    l_kernel l = Some k
    /\ l_blocks l = kernel_grid k (l_args l)
    /\ l_threads l = kernel_block k
    /\ ((indices (kernel_grid k (l_args l)) = []
         /\ forall om ch px f, ~ valid_entry (l_args l) om ch px f)
        \/ (geometry_ok (l_args l) /\ applicable k (l_args l))).
Proof.
  intros WF HD.
  destruct (dispatch_sound _ _ _ _ _ WF HD) as [k [Ek [Eb [Et [_ [Hg Hk]]]]]].
  destruct (conv_host_inv _ _ _ _ _ HD) as [_ [Ea _]].
  rewrite <- Ea in Eb, Hg, Hk.
  exists k. split; [exact Ek|]. split; [exact Eb|]. split; [exact Et|].
  destruct Hk as [[Hdeg Hempty]|Hk].
  - left. split; [apply indices_empty; exact Hempty|].
    apply no_entry. exact Hdeg.
  - right. split; assumption.
Qed.

(** X15: in the launch of a passing call every element of the result is
    written by exactly one thread, once.  The launch is the sequence of the
    read-modify-write stores of the final loops of the kernel, one for each
    block, thread and pair of loop indices that passes the guard on the
    filter pixel; no two of these stores address the same cell, each one
    addresses an element of the result, and every element of the result is
    addressed by one of them. *)
Theorem each_cell_written_once (u : Z -> Z -> uninit)
        (images hidActs targets : NVMatrix) (c : call) (l : launch) :
  well_formed images hidActs c ->
  conv_host images hidActs targets c = Done l ->
  exists k,
    l_kernel l = Some k
    /\ (forall old,
          launch_kernel k (l_blocks l) (l_threads l) (getDevData images)
                        (getDevData hidActs) old (l_args l) u
          = apply_rmw (map (job_store (kernel_scale k) (l_args l)
                                      (getDevData images) (getDevData hidActs)
                                      (kernel_entry k (l_args l)))
                           (kernel_jobs k (l_args l))) old)
    /\ NoDup (map (job_cell k (l_args l)) (kernel_jobs k (l_args l)))
    /\ (forall t, In t (kernel_jobs k (l_args l)) ->
          entry_valid (l_args l) (kernel_entry k (l_args l) t))
    /\ (forall om ch px f,
          valid_entry (l_args l) om ch px f ->
          exists t, In t (kernel_jobs k (l_args l))
                    /\ job_cell k (l_args l) t = target_index (l_args l) om ch px f).
Proof.
  intros WF HD.
  destruct (host_launch_jobs u _ _ _ _ _ WF HD) as [k [Ek [Eb [Et Hk]]]].
  exists k. split; [exact Ek|]. rewrite Eb, Et.
  destruct Hk as [[Hempty Hnone]|[Hg Hk]].
  - unfold kernel_jobs. rewrite Hempty. cbn [flat_map map].
    split; [|split; [constructor|split]].
    + intros old. unfold launch_kernel. rewrite Hempty. reflexivity.
    + intros t [].
    + intros om ch px f Hv. destruct (Hnone om ch px f Hv).
  - destruct (family_stores_distinct k (l_args l) (getDevData images)
                (getDevData hidActs) u Hg Hk) as [HND [HV HO]].
    split; [|split; [exact HND|split; [exact HV|]]].
    + intros old.
      exact (launch_blocks_jobs k (l_args l) (getDevData images)
               (getDevData hidActs) u (indices (kernel_grid k (l_args l)))
               Hg Hk (fun b Hb => Hb) old).
    + intros om ch px f Hv.
      destruct (HO (om, ch, px, f) Hv) as [t [Ht Et']].
      exists t. split; [exact Ht|]. unfold job_cell. rewrite Et'. reflexivity.
Qed.

Lemma each_cell_written_once_witness :
  exists k,
    l_kernel (decided (conv_host ex_images ex_hidActs ex_targets ex_call)) = Some k
    /\ NoDup (map (job_cell k (call_args ex_images ex_hidActs ex_call))
                  (kernel_jobs k (call_args ex_images ex_hidActs ex_call))).
Proof.
  destruct (each_cell_written_once ex_uninit ex_images ex_hidActs ex_targets ex_call
              (decided (conv_host ex_images ex_hidActs ex_targets ex_call)))
    as [k [Ek [_ [HND _]]]].
  - vm_compute. repeat split; discriminate.
  - reflexivity.
  - exists k. split; [exact Ek|exact HND].
Defined.

(** X16: the result of a launch does not depend on the order in which its
    blocks run.  Running the blocks of the grid one after the other in any
    order gives, in every cell, what running them in the order of the grid
    gives: a block reads only the cells of [targets] it writes itself. *)
Theorem block_order_irrelevant (u : Z -> Z -> uninit)
        (images hidActs targets : NVMatrix) (c : call) (l : launch)
        (k : kernel) (bs : list (Z * Z)) :
  well_formed images hidActs c ->
  conv_host images hidActs targets c = Done l ->
  l_kernel l = Some k ->
  Permutation bs (indices (l_blocks l)) ->
  forall old ad,
    launch_blocks k bs (l_threads l) (getDevData images) (getDevData hidActs)
                  old (l_args l) u ad
    = launch_kernel k (l_blocks l) (l_threads l) (getDevData images)
                    (getDevData hidActs) old (l_args l) u ad.
Proof.
  intros WF HD Ek HP old ad.
  destruct (host_launch_jobs u _ _ _ _ _ WF HD) as [k' [Ek' [Eb [Et Hk]]]].
  rewrite Ek in Ek'. injection Ek' as <-.
  rewrite Eb in HP |- *. rewrite Et.
  destruct Hk as [[Hempty _]|[Hg Hk]].
  - rewrite Hempty in HP. apply Permutation_sym, Permutation_nil in HP.
    subst bs. unfold launch_kernel. rewrite Hempty. reflexivity.
  - change (launch_kernel k (kernel_grid k (l_args l)) (kernel_block k)
              (getDevData images) (getDevData hidActs) old (l_args l) u)
      with (launch_blocks k (indices (kernel_grid k (l_args l))) (kernel_block k)
              (getDevData images) (getDevData hidActs) old (l_args l) u).
    rewrite (launch_blocks_jobs k (l_args l) _ _ u bs Hg Hk).
    2:{ intros b Hb. apply (Permutation_in (l := bs)); assumption. }
    rewrite (launch_blocks_jobs k (l_args l) _ _ u _ Hg Hk (fun b Hb => Hb)).
    apply apply_rmw_perm.
    + apply Permutation_map. apply Permutation_flat_map. exact HP.
    + rewrite map_map.
      destruct (family_stores_distinct k (l_args l) (getDevData images)
                  (getDevData hidActs) u Hg Hk) as [HND _].
      unfold job_cell, kernel_jobs in HND.
      apply (Permutation_NoDup
               (l := map (fun t => entry_index (l_args l) (kernel_entry k (l_args l) t))
                         (flat_map (kernel_block_jobs k (l_args l))
                                   (indices (kernel_grid k (l_args l))))));
        [|exact HND].
      apply Permutation_map. apply Permutation_flat_map.
      apply Permutation_sym. exact HP.
Qed.

Lemma block_order_irrelevant_witness :
  launch_blocks (k_color 8 16 5 32 1 false true)
                (rev (indices (l_blocks (decided (conv_host ex_images ex_hidActs
                                                            ex_targets ex_call)))))
                (mkDim3 16 8) (getDevData ex_images) (getDevData ex_hidActs)
                (fun _ => 100) (call_args ex_images ex_hidActs ex_call) ex_uninit 0
  = launch_kernel (k_color 8 16 5 32 1 false true)
                  (l_blocks (decided (conv_host ex_images ex_hidActs
                                                ex_targets ex_call)))
                  (mkDim3 16 8) (getDevData ex_images) (getDevData ex_hidActs)
                  (fun _ => 100) (call_args ex_images ex_hidActs ex_call) ex_uninit 0.
Proof.
  apply (block_order_irrelevant ex_uninit ex_images ex_hidActs ex_targets ex_call
           (decided (conv_host ex_images ex_hidActs ex_targets ex_call))
           (k_color 8 16 5 32 1 false true)).
  - vm_compute. repeat split; discriminate.
  - reflexivity.
  - reflexivity.
  - apply Permutation_sym. apply Permutation_rev.
Defined.

(** ** The tables of pixel coordinates *)

(** X17: the packed table of [weight_acts_kernel2_manycolor] round-trips.
    After the fill of lines 283-286, whatever the shared memory held before,
    slot [k] of [pxDivs] unpacks with [LO16] and [HI16] (lines 308-309) to the
    row and the column of filter pixel [blockPixelOffset + k]: the quotient
    and the remainder of the pixel by [filterSize].  This needs a block at
    least [pixelsPerThread] threads wide, so that every slot has a thread, a
    row that fits in 16 bits, and a filter of at most 32768 pixels a side:
    then the shifted column and the packed entry are non-negative 32-bit
    integers, and the [int] of the source holds them without wrapping. *)
Theorem pixel_table_round_trip (B_Y B_X pixelsPerThread colorsPerThread : Z)
        (filterSize numImgColors numGroups blockIdx_y : Z) (u : uninit) (k : Z) :
  let px := ManyColor.blockPixelOffset B_Y pixelsPerThread colorsPerThread
              numImgColors numGroups blockIdx_y + k in
  let slot := ManyColor.pxDivs B_Y B_X pixelsPerThread colorsPerThread filterSize
                numImgColors numGroups (mkDim3 B_X B_Y) blockIdx_y u k in
  0 < B_X -> 0 < B_Y -> pixelsPerThread <= B_X ->
  0 <= k < B_Y * pixelsPerThread ->
  0 < filterSize <= 32768 -> 0 <= px < 65536 * filterSize ->
  0 <= Z.shiftl (Z.rem px filterSize) 16 <= 2147483647
  /\ 0 <= slot <= 2147483647
  /\ LO16 slot = px ÷ filterSize
  /\ HI16 slot = Z.rem px filterSize
  /\ LO16 slot * filterSize + HI16 slot = px
  /\ 0 <= HI16 slot < filterSize.
Proof.
  intros px slot HBX HBY Hppt Hk Hfs Hpx.
  assert (E : slot = px ÷ filterSize + Z.shiftl (Z.rem px filterSize) 16).
  { unfold slot, px. apply mc_table; assumption. }
  assert (Hq : 0 <= px ÷ filterSize < 65536).
  { split; [apply Z.quot_pos; lia|].
    apply Z.quot_lt_upper_bound; lia. }
  assert (Hr : 0 <= Z.rem px filterSize < filterSize).
  { apply Z.rem_bound_pos; lia. }
  destruct (LO16_HI16 (px ÷ filterSize) (Z.rem px filterSize) Hq (proj1 Hr))
    as [EL EH].
  assert (Hs : 0 <= Z.shiftl (Z.rem px filterSize) 16 <= 2147418112).
  { rewrite Z.shiftl_mul_pow2 by lia. change (2 ^ 16) with 65536.
    set (r := Z.rem px filterSize) in *. clearbody r. clear - Hr Hfs. lia. }
  split; [clear - Hs; lia|].
  rewrite E, EL, EH.
  split; [clear - Hs Hq; lia|].
  split; [reflexivity|]. split; [reflexivity|]. split; [|exact Hr].
  pose proof (Z.quot_rem' px filterSize) as Q.
  set (q := px ÷ filterSize) in *. set (r := Z.rem px filterSize) in *.
  clearbody q r. clear - Q. lia.
Qed.

Lemma pixel_table_round_trip_witness :
  LO16 (ManyColor.pxDivs 8 16 2 4 3 4 1 (mkDim3 16 8) 1
          (mkUninit (fun _ => 5) (fun _ => 6) (fun _ => 7) (fun _ => 9)) 1) = 5
  /\ HI16 (ManyColor.pxDivs 8 16 2 4 3 4 1 (mkDim3 16 8) 1
             (mkUninit (fun _ => 5) (fun _ => 6) (fun _ => 7) (fun _ => 9)) 1) = 2.
Proof.
  destruct (pixel_table_round_trip 8 16 2 4 3 4 1 1
              (mkUninit (fun _ => 5) (fun _ => 6) (fun _ => 7) (fun _ => 9)) 1)
    as [_ [_ [EL [EH _]]]];
    [lia|lia|lia|lia|lia|vm_compute; split; [discriminate|reflexivity]|].
  split; [exact EL|exact EH].
Defined.

(** X18: the two tables of [weight_acts_kernel2_manycolor_manyfilter].  After
    the fill of lines 467-472, whatever the shared memory held before, slot
    [k] of [pxDivs] and of [pxMods] hold the row and the column of filter
    pixel [blockPixelOffset + k], for each of the [B_Y] pixels of the block:
    together they give the pixel back, and the column is inside the filter. *)
Theorem pixel_tables_decode (B_Y B_X colorsPerThread : Z)
        (filterSize numImgColors numGroups blockIdx_y : Z) (u : uninit) (k : Z) :
  let px := ManyFilter.blockPixelOffset B_Y colorsPerThread numImgColors numGroups
              blockIdx_y + k in
  let row := ManyFilter.pxDivs B_Y B_X colorsPerThread filterSize numImgColors
               numGroups (mkDim3 B_X B_Y) blockIdx_y u k in
  let col := ManyFilter.pxMods B_Y B_X colorsPerThread filterSize numImgColors
               numGroups (mkDim3 B_X B_Y) blockIdx_y u k in
  0 < B_X -> 0 < B_Y -> 0 <= k < B_Y ->
  0 < filterSize -> 0 <= px ->
  row * filterSize + col = px /\ 0 <= col < filterSize /\ 0 <= row.
Proof.
  intros px row col HBX HBY Hk Hfs Hpx.
  destruct (mf_tables B_Y B_X colorsPerThread filterSize numImgColors numGroups
              blockIdx_y u k HBX HBY Hk) as [ER EC].
  fold px in ER, EC. fold row in ER. fold col in EC.
  rewrite ER, EC.
  pose proof (Z.quot_rem' px filterSize) as Q.
  assert (Hr : 0 <= Z.rem px filterSize < filterSize)
    by (apply Z.rem_bound_pos; lia).
  assert (Hq : 0 <= px ÷ filterSize) by (apply Z.quot_pos; lia).
  set (q := px ÷ filterSize) in *. set (r := Z.rem px filterSize) in *.
  clearbody q r. clear - Q Hr Hq. lia.
Qed.

Lemma pixel_tables_decode_witness :
  ManyFilter.pxDivs 4 32 4 3 4 1 (mkDim3 32 4) 1
    (mkUninit (fun _ => 5) (fun _ => 6) (fun _ => 7) (fun _ => 9)) 1 * 3
  + ManyFilter.pxMods 4 32 4 3 4 1 (mkDim3 32 4) 1
      (mkUninit (fun _ => 5) (fun _ => 6) (fun _ => 7) (fun _ => 9)) 1
  = 5.
Proof.
  destruct (pixel_tables_decode 4 32 4 3 4 1 1
              (mkUninit (fun _ => 5) (fun _ => 6) (fun _ => 7) (fun _ => 9)) 1)
    as [E _]; [lia|lia|lia|lia|vm_compute; discriminate|].
  exact E.
Defined.
